(** * Self-distance engine over volumetric distance fields

    A shallow embedding of
    [moveit_experimental/distance_field/src/openvdb_distance_field.cpp]:
    the classes [OpenVDBDistanceField] (one sparse signed-distance grid) and
    [CollisionRobotOpenVDB] (link classification, field construction, sphere
    fitting, query plans and the self-distance query).

    Conventions of the embedding.
    - [float] and [double] values are idealised as real numbers; rounding is
      not modelled.
    - A [const LinkModel*] is identified with the link's unique name.
    - Objects of OpenVDB are kept symbolic: a grid is the term that records
      which library calls built it, and what the library reads from a grid
      is supplied by the class [VDB].
    - A pointer is an [option]; a step whose behaviour C++ leaves undefined
      makes the embedded function stop with [Fail].
    - Calls into OpenVDB, Eigen and MoveIt are taken to return: an exception
      raised inside a library is outside the embedding. *)

From Stdlib Require Import Reals Lra.
From stdpp Require Import base option list gmap strings.

(** ** Outcomes *)

Inductive failure :=
| NullDereference   (* [p->...] or [*p] on a null pointer *)
| EraseAtEnd        (* [v.erase(v.end())] *)
| DerefOfEnd        (* [m.begin()->...] on an empty container *)
| IndexOutOfRange   (* [v[i]] with [i >= v.size()] *)
| OutOfFuel.        (* the recursion bound of the embedding was reached *)

Inductive result (A : Type) :=
| Ok (a : A)
| Fail (f : failure).
Arguments Ok {A} a.
Arguments Fail {A} f.

#[global] Instance result_ret : MRet result := λ A a, Ok a.
#[global] Instance result_bind : MBind result := λ A B k r,
  match r with
  | Ok a => k a
  | Fail f => Fail f
  end.

(** [v[i]] on a [std::vector]. *)
Definition at_index {A} (v : list A) (i : nat) : result A :=
  match v !! i with
  | Some a => Ok a
  | None => Fail IndexOutOfRange
  end.

(** ** Vectors, coordinates and matrices *)

Record Vec3 := mkVec3 { vx : R; vy : R; vz : R }.
Record Coord := mkCoord { ci : Z; cj : Z; ck : Z }.

Module V3.
Local Open Scope R_scope.

Definition zero : Vec3 := mkVec3 0 0 0.
Definition add (a b : Vec3) : Vec3 :=
  mkVec3 (vx a + vx b) (vy a + vy b) (vz a + vz b).
Definition scale (a : Vec3) (s : R) : Vec3 :=
  mkVec3 (vx a * s) (vy a * s) (vz a * s).
(** [Vec3::sum()]: the sum of the three components. *)
Definition sum (a : Vec3) : R := vx a + vy a + vz a.
Definition squaredNorm (a : Vec3) : R := vx a * vx a + vy a * vy a + vz a * vz a.
Definition norm (a : Vec3) : R := sqrt (squaredNorm a).

(** [openvdb::math::Vec3::normalize(eps = 1e-7)]: the vector is left as it
    is when its length is within [eps] of zero. *)
Definition vdb_normalize (a : Vec3) : Vec3 :=
  let d := norm a in
  if Rle_dec (Rabs (d - 0)) (1 / 10000000) then a else scale a (1 / d).

(** [Eigen::MatrixBase::normalize()]: divides by the norm when the squared
    norm is positive and leaves the vector as it is otherwise (Eigen 3.3;
    older releases divide unconditionally, which turns the zero vector
    into NaNs). *)
Definition eigen_normalize (a : Vec3) : Vec3 :=
  let z := squaredNorm a in
  if Rlt_dec 0 z then scale a (1 / sqrt z) else a.
End V3.

(** [Eigen::Affine3d] and [openvdb::math::Mat4d], both stored as 4x4
    matrices, row by row. *)
Module Mat4.
Local Open Scope R_scope.

Definition Row : Type := R * R * R * R.
Definition t : Type := Row * Row * Row * Row.

Definition Identity : t :=
  ((1, 0, 0, 0), (0, 1, 0, 0), (0, 0, 1, 0), (0, 0, 0, 1)).

Definition col (m : t) (j : nat) : Row :=
  let '(r0, r1, r2, r3) := m in
  let pick (r : Row) : R :=
    let '(a, b, c, d) := r in
    match j with 0%nat => a | 1%nat => b | 2%nat => c | _ => d end in
  (pick r0, pick r1, pick r2, pick r3).

Definition dot (a b : Row) : R :=
  let '(a0, a1, a2, a3) := a in
  let '(b0, b1, b2, b3) := b in
  a0 * b0 + a1 * b1 + a2 * b2 + a3 * b3.

Definition transpose (m : t) : t := (col m 0, col m 1, col m 2, col m 3).

Definition mul (a b : t) : t :=
  let '(r0, r1, r2, r3) := a in
  let times (r : Row) : Row :=
    (dot r (col b 0), dot r (col b 1), dot r (col b 2), dot r (col b 3)) in
  (times r0, times r1, times r2, times r3).

(** [pose.translation()]. *)
Definition translation (m : t) : Vec3 :=
  let '(r0, r1, r2, _) := m in
  mkVec3 (snd r0) (snd r1) (snd r2).

(** [tf * p] for an OpenVDB [Mat4d] and a [Vec3d]: the point is extended
    by a fourth coordinate 1 and the first three rows are applied. *)
Definition apply (m : t) (p : Vec3) : Vec3 :=
  let '(r0, r1, r2, _) := m in
  let h : Row := (vx p, vy p, vz p, 1) in
  mkVec3 (dot r0 h) (dot r1 h) (dot r2 h).
End Mat4.

Abbreviation Affine3d := Mat4.t.
Abbreviation Mat4d := Mat4.t.

(** [Affine3dToMat4d]: [output(i, j) = input(i, j)]. *)
Definition Affine3dToMat4d (input : Affine3d) : Mat4d := input.

(** [Affine3dToMat4dAffine]: [output(j, i) = input(i, j)]. *)
Definition Affine3dToMat4dAffine (input : Affine3d) : Mat4d := Mat4.transpose input.

(** ** Collision shapes and symbolic grids *)

Inductive Shape :=
| BOX (size : Vec3)
| CONE (radius length : R)
| CYLINDER (radius length : R)
| OCTREE
| MESH (vertices : list R) (triangles : list nat)
| PLANE
| SPHERE (radius : R)
| UNKNOWN_SHAPE.

(** A grid is what OpenVDB was asked to build.  The four mesh-backed shape
    kinds go through [openvdb::tools::meshToVolume] (their tessellation is
    not unfolded), spheres through [createLevelSetSphere], and a second
    shape is merged with [openvdb::tools::csgUnion]. *)
Inductive Grid :=
| meshToVolume (shape : Shape) (pose : Affine3d) (voxel_size exBandWidth inBandWidth : R)
| createLevelSetSphere (radius : R) (center : Vec3) (voxel_size halfWidth : R)
| csgUnion (a b : Grid).

(** A sphere of a sphere model: origin and radius. *)
Definition Sphere : Type := Vec3 * R.
Abbreviation SphereModel := (list Sphere).

(** [SDFData] (declared in the header): a grid pointer paired with the
    optional per-call matrix from which its constructor derives the
    [transform] and [accessor] members. *)
Record SDFData := mkSDFData {
  sdf_grid : option Grid;
  sdf_tf : option Mat4d
}.

(** ** Requests and results ([collision_detection], with the members this
    file uses) *)

Module DistanceRequest.
Record t := mk {
  group_name : string;
  gradient : bool
}.
End DistanceRequest.

Module DistanceResultsData.
Record t := mk {
  min_distance : R;
  link_name : string * string;
  hasNearestPoints : bool;
  hasGradient : bool;
  gradient : Vec3
}.
End DistanceResultsData.

(** A [std::map] with [std::string] keys: the entries in increasing key
    order, which is the order in which the map is iterated. *)
Module StdMap.
Section Ops.
Context {V : Type}.

Abbreviation t := (list (string * V)).

Fixpoint find (k : string) (m : t) : option V :=
  match m with
  | [] => None
  | (k', v) :: rest => if decide (k = k') then Some v else find k rest
  end.

(** [m.insert(make_pair(k, v))]: an entry already stored under [k] stays. *)
Fixpoint insert (k : string) (v : V) (m : t) : t :=
  match m with
  | [] => [(k, v)]
  | (k', v') :: rest =>
      match String.compare k k' with
      | Lt => (k, v) :: m
      | Eq => m
      | Gt => (k', v') :: insert k v rest
      end
  end.

(** [m[k]]: the stored value, after storing [dflt] under [k] when the key
    is new. *)
Definition subscript (dflt : V) (k : string) (m : t) : V * t :=
  match find k m with
  | Some v => (v, m)
  | None => (dflt, insert k dflt m)
  end.
End Ops.
End StdMap.

Module DistanceResult.
Record t := mk {
  minimum_distance : DistanceResultsData.t;
  distance : list (string * DistanceResultsData.t)
}.
End DistanceResult.

(** What the engine takes from the libraries it links against. *)
Class External := {
  (** [grid.tree().getValue(ijk)] and [accessor.getValue(ijk)] on a field's
      own grid: the stored distance, or the background outside the band. *)
  gridValue : Grid → Coord → R;
  (** [openvdb::tools::fillWithSpheres(grid, s, maxSphereCount, overlapping,
      minRadius, maxRadius, isovalue, instanceCount)]: the spheres it leaves
      in [s]. *)
  vdb_fillWithSpheres : Grid → Z → bool → R → R → R → Z → list Sphere;
  (** [data.transform->worldToIndexNodeCentered(p)]. *)
  sdf_worldToIndexNodeCentered : SDFData → Vec3 → Coord;
  (** [data.accessor.getValue(ijk)]. *)
  sdf_getValue : SDFData → Coord → R;
  (** [data.transform->baseMap()->applyIJT(v)]. *)
  sdf_applyIJT : SDFData → Vec3 → Vec3;
  (** A default-constructed [DistanceResultsData]. *)
  fresh_DistanceResultsData : DistanceResultsData.t
}.

(** [std::numeric_limits<float>::max()]. *)
Definition FLT_MAX : R := ((2 - / 2 ^ 23) * 2 ^ 127)%R.

#[global] Instance Rlt_decision : RelDecision Rlt := Rlt_dec.
#[global] Instance Rle_decision : RelDecision Rle := Rle_dec.
#[global] Instance Req_decision : EqDecision R := Req_dec_T.

(** [approxEqual(a, b, eps = 0.00001)]. *)
Definition approxEqual (a b : R) : bool :=
  bool_decide (Rabs (a - b) < 1 / 100000)%R.

(** [openvdb::math::ISGradient<CD_2ND>::result(accessor, ijk)]: per axis,
    half the difference of the two neighbouring voxels. *)
Definition offsetBy (c : Coord) (dx dy dz : Z) : Coord :=
  mkCoord (ci c + dx) (cj c + dy) (ck c + dz).

Definition ISGradient_CD_2ND (getValue : Coord → R) (ijk : Coord) : Vec3 :=
  mkVec3
    ((getValue (offsetBy ijk 1 0 0) - getValue (offsetBy ijk (-1) 0 0)) * (1 / 2))%R
    ((getValue (offsetBy ijk 0 1 0) - getValue (offsetBy ijk 0 (-1) 0)) * (1 / 2))%R
    ((getValue (offsetBy ijk 0 0 1) - getValue (offsetBy ijk 0 0 (-1))) * (1 / 2))%R.

(** ** The kinematic model (MoveIt) *)

Abbreviation LinkModel := string.

Record JointModelGroup := mkJointModelGroup {
  getName : string;
  getLinkModels : list LinkModel;
  getUpdatedLinkModelsWithGeometryNames : list string
}.

Record RobotModel := mkRobotModel {
  (** every link of the model *)
  link_model_vector_ : list LinkModel;
  getRootLink : LinkModel;
  getLinkModelsWithCollisionGeometry : list LinkModel;
  getJointModelGroups : list JointModelGroup;
  getShapes : LinkModel → list Shape;
  getCollisionOriginTransforms : LinkModel → list Affine3d;
  (** [link->getAssociatedFixedTransforms()], in the map's iteration order *)
  getAssociatedFixedTransforms : LinkModel → list (LinkModel * Affine3d);
  (** [getSRDF()->getDisabledCollisionPairs()] *)
  getDisabledCollisionPairs : list (string * string)
}.

(** [model->getJointModelGroup(name)]: null when no group has that name. *)
Definition getJointModelGroup (m : RobotModel) (name : string) : option JointModelGroup :=
  List.find (λ g, bool_decide (getName g = name)) (getJointModelGroups m).

(** [model->getLinkModelNamesWithCollisionGeometry()]. *)
Definition getLinkModelNamesWithCollisionGeometry (m : RobotModel) : list string :=
  getLinkModelsWithCollisionGeometry m.

Record RobotState := mkRobotState {
  getGlobalLinkTransform : LinkModel → Affine3d
}.

(** ** The allowed-collision matrix (MoveIt) *)

Module AllowedCollision.
Inductive Type_ := NEVER | ALWAYS | CONDITIONAL.
#[global] Instance Type_eq_dec : EqDecision Type_.
Proof. solve_decision. Defined.
End AllowedCollision.

Module AllowedCollisionMatrix.
(** [entries_]: a map from names to maps from names to entry types. *)
Abbreviation t := (gmap string (gmap string AllowedCollision.Type_)).

Definition empty : t := ∅.

(** [getAllowedCollision(name1, name2, type)]: [Some type] when found. *)
Definition getAllowedCollision (acm : t) (name1 name2 : string)
  : option AllowedCollision.Type_ :=
  row ← acm !! name1; row !! name2.

Definition put (acm : t) (name1 name2 : string) (v : AllowedCollision.Type_) : t :=
  <[name1 := <[name2 := v]> (default ∅ (acm !! name1))]> acm.

(** [setEntry(name1, name2, allowed)] writes both [entries_[name1][name2]]
    and [entries_[name2][name1]]. *)
Definition setEntry (acm : t) (name1 name2 : string) (allowed : bool) : t :=
  let v := if allowed then AllowedCollision.ALWAYS else AllowedCollision.NEVER in
  put (put acm name1 name2 v) name2 name1 v.

(** [setEntry(name, other_names, allowed)] skips [name] itself. *)
Definition setEntry_name_names (acm : t) (name : string) (other_names : list string)
    (allowed : bool) : t :=
  foldl (λ a other, if decide (other = name) then a else setEntry a other name allowed)
        acm other_names.

(** [setEntry(names1, names2, allowed)]. *)
Definition setEntry_names (acm : t) (names1 names2 : list string) (allowed : bool) : t :=
  foldl (λ a name, setEntry_name_names a name names2 allowed) acm names1.

(** The matrices the interface above can produce. *)
Inductive built : t → Prop :=
| built_empty : built empty
| built_setEntry acm name1 name2 allowed :
    built acm → built (setEntry acm name1 name2 allowed).

(** An allow-list as the engine receives it: a null pointer or a matrix
    produced through the interface. *)
Definition allow_list (acm : option t) : Prop :=
  match acm with
  | None => True
  | Some acm => built acm
  end.

(** The entry of a pair in an allow-list, if any. *)
Definition entry (acm : option t) (name1 name2 : string) : option AllowedCollision.Type_ :=
  acm ← acm; getAllowedCollision acm name1 name2.
End AllowedCollisionMatrix.

(** ** [OpenVDBDistanceField] *)

Module OpenVDBDistanceField.
Local Open Scope R_scope.

Record t := mk {
  voxel_size_ : R;
  background_ : R;
  (** [grid_]: null until a shape has been inserted *)
  grid_ : option Grid;
  (** [accessor_]: null until a shape has been inserted; holds the grid its
      accessor reads *)
  accessor_ : option Grid
}.

(** [OpenVDBDistanceField(voxel_size, background)]; [transform_] is the
    linear transform of scale [voxel_size_]. *)
Definition new (voxel_size background : R) : t := mk voxel_size background None None.

Definition getGrid (f : t) : option Grid := grid_ f.
Definition getVoxelSize (f : t) : R := voxel_size_ f.

(** The shape kinds that [addShapeToField] rejects with an error message. *)
Definition unsupported (shape : Shape) : bool :=
  match shape with
  | OCTREE | PLANE | UNKNOWN_SHAPE => true
  | _ => false
  end.

(** [transform_->worldToIndexNodeCentered(xyz)]: the index-space point
    rounded to the nearest voxel, each coordinate as [floor(x + 0.5)]. *)
Definition worldToIndexNodeCentered (f : t) (xyz : Vec3) : Coord :=
  let round (x : R) : Z := Int_part (x + 1 / 2) in
  mkCoord (round (vx xyz / voxel_size_ f))
          (round (vy xyz / voxel_size_ f))
          (round (vz xyz / voxel_size_ f)).

(** The tail of [addShapeToField]: the first grid becomes [grid_], a later
    one is merged into it, and [accessor_] is renewed. *)
Definition insertGrid (f : t) (grid : Grid) : t :=
  let merged := match grid_ f with
                | None => grid
                | Some g => csgUnion g grid
                end in
  mk (voxel_size_ f) (background_ f) (Some merged) (Some merged).

(** [addShapeToField].  What precedes the library call that builds the
    grid (the tessellation of a box, cone or cylinder and the conversion of a
    mesh) is embedded on its own, in [BoxMesh], [Tessellation] and
    [MeshConversion]; this function is the one for shapes that pass it
    ([Conversion.converts]). *)
Definition addShapeToField (f : t) (shape : Shape) (pose : Affine3d)
    (exBandWidth inBandWidth : R) : t :=
  match shape with
  | BOX _ | CONE _ _ | CYLINDER _ _ | MESH _ _ =>
      insertGrid f (meshToVolume shape pose (voxel_size_ f) exBandWidth inBandWidth)
  | SPHERE radius =>
      insertGrid f (createLevelSetSphere radius (Mat4.translation pose)
                                         (voxel_size_ f) exBandWidth)
  | OCTREE | PLANE | UNKNOWN_SHAPE => f
  end.

(** The loop of [addLinkToField] from index [j] on. *)
Fixpoint addShapes (f : t) (shapes : list Shape) (shape_poses : list Affine3d)
    (pose : Affine3d) (exBandWidth inBandWidth : R) (j : nat) : result t :=
  match shapes with
  | [] => Ok f
  | shape :: rest =>
      shape_pose ← at_index shape_poses j;
      addShapes (addShapeToField f shape (Mat4.mul pose shape_pose) exBandWidth inBandWidth)
                rest shape_poses pose exBandWidth inBandWidth (S j)
  end.

Definition addLinkToField (m : RobotModel) (f : t) (link : LinkModel) (pose : Affine3d)
    (exBandWidth inBandWidth : R) : result t :=
  addShapes f (getShapes m link) (getCollisionOriginTransforms m link)
            pose exBandWidth inBandWidth 0.

Section Queries.
Context `{External}.

(** [getDistance(coord, thread_safe)]. *)
Definition getDistance (f : t) (coord : Coord) (thread_safe : bool) : result R :=
  if thread_safe then
    match grid_ f with
    | Some g => Ok (gridValue g coord)
    | None => Fail NullDereference
    end
  else
    match accessor_ f with
    | Some a => Ok (gridValue a coord)
    | None => Ok 0
    end.

(** [getDistance(x, y, z, thread_safe)]. *)
Definition getDistance_xyz (f : t) (x y z : R) (thread_safe : bool) : result R :=
  getDistance f (worldToIndexNodeCentered f (mkVec3 x y z)) thread_safe.

(** [getDistance(point, thread_safe)]. *)
Definition getDistance_point (f : t) (point : Vec3) (thread_safe : bool) : result R :=
  getDistance_xyz f (vx point) (vy point) (vz point) thread_safe.

(** [getGradient(coord, gradient, thread_safe)]: the returned flag and the
    value left in [gradient]. *)
Definition getGradient (f : t) (coord : Coord) (gradient : Vec3) (thread_safe : bool)
  : result (bool * Vec3) :=
  raw ← (if thread_safe then
           match grid_ f with
           | Some g =>
               let d (a b : Coord) := (gridValue g a - gridValue g b) / (2 * voxel_size_ f) in
               Ok (Some (mkVec3
                 (d (offsetBy coord 1 0 0) (offsetBy coord (-1) 0 0))
                 (d (offsetBy coord 0 1 0) (offsetBy coord 0 (-1) 0))
                 (d (offsetBy coord 0 0 1) (offsetBy coord 0 0 (-1)))))
           | None => Fail NullDereference
           end
         else
           match accessor_ f with
           | Some a => Ok (Some (ISGradient_CD_2ND (gridValue a) coord))
           | None => Ok None
           end);
  match raw with
  | None => Ok (false, gradient)
  | Some g =>
      if decide (V3.norm g ≠ 0) then Ok (true, V3.eigen_normalize g)
      else Ok (false, g)
  end.

(** [fillWithSpheres(spheres, ...)]: the spheres found are appended to
    [spheres]. *)
Definition fillWithSpheres (f : t) (spheres : SphereModel) (maxSphereCount : Z)
    (overlapping : bool) (minRadius maxRadius isovalue : R) (instanceCount : Z)
  : result SphereModel :=
  match grid_ f with
  | None => Fail NullDereference
  | Some g =>
      let s := vdb_fillWithSpheres g maxSphereCount overlapping minRadius maxRadius
                                   isovalue instanceCount in
      Ok (spheres ++ s)
  end.

End Queries.
End OpenVDBDistanceField.

(** ** [CollisionRobotOpenVDB] *)

(** The class of a candidate child (an enumeration of the header). *)
Inductive ChildType := Static | Dynamic | Active.

Module DistanceQueryData.
Record t := mk {
  parent_name : string;
  child_name : list string;
  child_index : list nat;
  child_type : list ChildType;
  spheres : SphereModel;
  gradient : bool;
  empty : bool
}.

(** Modelled from the spec: the struct is declared in the header, which is not
    part of the sources; a plan that is never filled in is "marked empty", so
    a default-constructed plan has [empty = true], no children, no spheres
    and no gradient request. *)
Definition default : t := mk "" [] [] [] [] false true.

Definition set_parent_name (d : t) (name : string) : t :=
  mk name (child_name d) (child_index d) (child_type d) (spheres d) (gradient d) (empty d).
Definition set_empty (d : t) (b : bool) : t :=
  mk (parent_name d) (child_name d) (child_index d) (child_type d) (spheres d) (gradient d) b.
Definition set_spheres (d : t) (s : SphereModel) : t :=
  mk (parent_name d) (child_name d) (child_index d) (child_type d) s (gradient d) (empty d).
Definition set_gradient (d : t) (b : bool) : t :=
  mk (parent_name d) (child_name d) (child_index d) (child_type d) (spheres d) b (empty d).
End DistanceQueryData.

(** [*p] for a smart or raw pointer. *)
Definition deref {A} (p : option A) : result A :=
  match p with
  | Some a => Ok a
  | None => Fail NullDereference
  end.

(** Modelled from the spec: the constructors [SDFData(grid, tf)] and
    [SDFData(grid)] are declared in the header, which is not part of the
    sources; the spec has every query pair each field with its per-call
    transform.  The member [accessor] is an accessor object (the source
    reads it as [accessor.getValue]) and the member [transform] belongs to
    the grid, so the constructor takes both from the grid it is handed: a
    null grid pointer is dereferenced. *)
Definition makeSDFData (grid : option Grid) (tf : option Mat4d) : result SDFData :=
  g ← deref grid;
  Ok (mkSDFData (Some g) tf).

(** A left-to-right loop whose body may stop the program. *)
Fixpoint for_each {A S} (body : S → A → result S) (l : list A) (s : S) : result S :=
  match l with
  | [] => Ok s
  | a :: rest => s' ← body s a; for_each body rest s'
  end.

(** [v.erase(std::remove(v.begin(), v.end(), x))], the one-iterator form of
    [erase].  [std::remove] moves the elements different from [x] to the
    front and returns the position [r] after them, leaving the positions
    from [r] on as they were; [erase] then drops the single element at [r],
    and has no defined behaviour when [r] is [end()], that is when [x] does
    not occur in [v]. *)
Definition erase_remove (v : list LinkModel) (x : LinkModel) : result (list LinkModel) :=
  let kept := filter (λ y, y ≠ x) v in
  let r := length kept in
  if decide (r = length v) then Fail EraseAtEnd
  else Ok (kept ++ drop (S r) v).

Module CollisionRobotOpenVDB.
Import OpenVDBDistanceField.

Record t := mk {
  robot_model_ : RobotModel;
  voxel_size_ : R;
  background_ : R;
  exBandWidth_ : R;
  inBandWidth_ : R;
  links_ : list LinkModel;
  acm_ : option AllowedCollisionMatrix.t;
  static_links_ : list LinkModel;
  static_sdf_ : list OpenVDBDistanceField.t;
  active_links_ : list LinkModel;
  active_sdf_ : list OpenVDBDistanceField.t;
  active_spheres_ : list SphereModel;
  dynamic_links_ : list LinkModel;
  dynamic_sdf_ : list OpenVDBDistanceField.t;
  dist_query_ : list DistanceQueryData.t
}.

(** The member initialisers of the constructor. *)
Definition init (model : RobotModel) (voxel_size background exBandWidth inBandWidth : R) : t :=
  mk model voxel_size background exBandWidth inBandWidth
     (getLinkModelsWithCollisionGeometry model) None [] [] [] [] [] [] [] [].

Definition set_acm (e : t) (acm : AllowedCollisionMatrix.t) : t :=
  mk (robot_model_ e) (voxel_size_ e) (background_ e) (exBandWidth_ e) (inBandWidth_ e)
     (links_ e) (Some acm) (static_links_ e) (static_sdf_ e) (active_links_ e)
     (active_sdf_ e) (active_spheres_ e) (dynamic_links_ e) (dynamic_sdf_ e) (dist_query_ e).

(** [static_links_.push_back(link); static_sdf_.push_back(sdf)]. *)
Definition push_static (e : t) (link : LinkModel) (sdf : OpenVDBDistanceField.t) : t :=
  mk (robot_model_ e) (voxel_size_ e) (background_ e) (exBandWidth_ e) (inBandWidth_ e)
     (links_ e) (acm_ e) (static_links_ e ++ [link]) (static_sdf_ e ++ [sdf]) (active_links_ e)
     (active_sdf_ e) (active_spheres_ e) (dynamic_links_ e) (dynamic_sdf_ e) (dist_query_ e).

Definition set_active (e : t) (links : list LinkModel) (sdf : list OpenVDBDistanceField.t)
    (spheres : list SphereModel) : t :=
  mk (robot_model_ e) (voxel_size_ e) (background_ e) (exBandWidth_ e) (inBandWidth_ e)
     (links_ e) (acm_ e) (static_links_ e) (static_sdf_ e) links
     sdf spheres (dynamic_links_ e) (dynamic_sdf_ e) (dist_query_ e).

Definition set_dynamic (e : t) (links : list LinkModel) (sdf : list OpenVDBDistanceField.t) : t :=
  mk (robot_model_ e) (voxel_size_ e) (background_ e) (exBandWidth_ e) (inBandWidth_ e)
     (links_ e) (acm_ e) (static_links_ e) (static_sdf_ e) (active_links_ e)
     (active_sdf_ e) (active_spheres_ e) links sdf (dist_query_ e).

Definition set_dist_query (e : t) (q : list DistanceQueryData.t) : t :=
  mk (robot_model_ e) (voxel_size_ e) (background_ e) (exBandWidth_ e) (inBandWidth_ e)
     (links_ e) (acm_ e) (static_links_ e) (static_sdf_ e) (active_links_ e)
     (active_sdf_ e) (active_spheres_ e) (dynamic_links_ e) (dynamic_sdf_ e) q.

(** *** The allow-list *)

Definition isCollisionAllowed (l1 l2 : string) (acm : option AllowedCollisionMatrix.t) : bool :=
  match acm with
  | Some acm =>
      match AllowedCollisionMatrix.getAllowedCollision acm l1 l2 with
      | Some type => bool_decide (type = AllowedCollision.ALWAYS)
      | None => false
      end
  | None => false
  end.

Definition createDefaultAllowedCollisionMatrix (e : t) : t :=
  let collision_links := getLinkModelNamesWithCollisionGeometry (robot_model_ e) in
  let acm := AllowedCollisionMatrix.setEntry_names AllowedCollisionMatrix.empty
               collision_links collision_links false in
  let acm := foldl (λ a dc, AllowedCollisionMatrix.setEntry a dc.1 dc.2 true) acm
               (getDisabledCollisionPairs (robot_model_ e)) in
  set_acm e acm.

(** *** Static links *)

(** The body of the [if] that gives a link with collision geometry a field
    of its own and records the link as static. *)
Definition addStatic (e : t) (link : LinkModel) (pose : Affine3d) : result t :=
  if decide (link ∈ links_ e) then
    sdf ← addLinkToField (robot_model_ e) (new (voxel_size_ e) (background_ e)) link pose
                         (exBandWidth_ e) (inBandWidth_ e);
    Ok (push_static e link sdf)
  else Ok e.

(** The loop of [addAssociatedFixedTransforms] over the entries of
    [fixed_attached]; [recurse] is the recursive call. *)
Fixpoint visitAttached (recurse : t → LinkModel → list LinkModel → result (t * list LinkModel))
    (fixed_attached : list (LinkModel * Affine3d)) (e : t) (links_so_far : list LinkModel)
  : result (t * list LinkModel) :=
  match fixed_attached with
  | [] => Ok (e, links_so_far)
  | (first, second) :: rest =>
      if decide (first ∈ links_so_far) then visitAttached recurse rest e links_so_far
      else
        let links_so_far := links_so_far ++ [first] in
        e ← addStatic e first second;
        '(e, links_so_far) ← recurse e first links_so_far;
        visitAttached recurse rest e links_so_far
  end.

(** [addAssociatedFixedTransforms(link, links_so_far)]; [fuel] bounds the
    depth of the recursion. *)
Fixpoint addAssociatedFixedTransforms (fuel : nat) (e : t) (link : LinkModel)
    (links_so_far : list LinkModel) : result (t * list LinkModel) :=
  match fuel with
  | O => Fail OutOfFuel
  | S fuel =>
      visitAttached (addAssociatedFixedTransforms fuel)
                    (getAssociatedFixedTransforms (robot_model_ e) link) e links_so_far
  end.

(** [createStaticSDFs]; the walk starts with one unit of fuel more than the
    model has links, which it cannot use up on a model whose attachment maps
    name links of the model. *)
Definition createStaticSDFs (e : t) : result t :=
  let root_link := getRootLink (robot_model_ e) in
  let fuel := S (length (link_model_vector_ (robot_model_ e))) in
  e ← addStatic e root_link Mat4.Identity;
  '(e, _) ← addAssociatedFixedTransforms fuel e root_link [];
  Ok e.

(** *** Active links *)

(** The first loop of [createActiveSDFs]: the links of every joint group
    that bear collision geometry, each once. *)
Definition collectActive (links_ : list LinkModel) (groups : list JointModelGroup)
    (active_links_ : list LinkModel) : list LinkModel :=
  foldl (λ active group,
           foldl (λ active link,
                    if decide ((link ∉ active) ∧ (link ∈ links_)) then active ++ [link]
                    else active)
                 active (getLinkModels group))
        active_links_ groups.

Section Construction.
Context `{External}.

(** The loop [for (j = 0; j < 10; ++j)] of [createActiveSDFs] with
    [remaining] iterations to go: [sdf] is the pointer assigned by the last
    iteration, [v] the current voxel size and [spheres] the content of
    [active_spheres_[i]]. *)
Fixpoint fitSpheres (remaining : nat) (e : t) (link : LinkModel)
    (sdf : option OpenVDBDistanceField.t) (v : R) (spheres : SphereModel)
  : result (option OpenVDBDistanceField.t * SphereModel) :=
  match remaining with
  | O => Ok (sdf, spheres)
  | S remaining =>
      sdf ← addLinkToField (robot_model_ e) (new v (background_ e)) link Mat4.Identity
                           ((voxel_size_ e / v) * exBandWidth_ e)%R
                           ((voxel_size_ e / v) * inBandWidth_ e)%R;
      spheres ← fillWithSpheres sdf spheres 20 true 1 FLT_MAX 0 100000;
      if decide (1 < length spheres) then Ok (Some sdf, spheres)
      else fitSpheres remaining e link (Some sdf) (v * (1 / 2))%R spheres
  end.

Definition createActiveSDFs (e : t) : result t :=
  let groups := getJointModelGroups (robot_model_ e) in
  let active_links := collectActive (links_ e) groups (active_links_ e) in
  '(sdfs, spheres) ←
    for_each (λ '(sdfs, spheres) link,
                '(sdf, s) ← fitSpheres 10 e link None (voxel_size_ e) [];
                sdf ← deref sdf;
                Ok (sdfs ++ [sdf], spheres ++ [s]))
             active_links ([], []);
  Ok (set_active e active_links sdfs spheres).

(** *** Dynamic links *)

Definition createDynamicSDFs (e : t) : result t :=
  let dynamic_links := links_ e in
  dynamic_links ← for_each erase_remove (static_links_ e) dynamic_links;
  dynamic_links ← for_each erase_remove (active_links_ e) dynamic_links;
  sdfs ← for_each (λ sdfs link,
                     sdf ← addLinkToField (robot_model_ e)
                             (new (voxel_size_ e) (background_ e)) link Mat4.Identity
                             (exBandWidth_ e) (inBandWidth_ e);
                     Ok (sdfs ++ [sdf]))
                  dynamic_links [];
  Ok (set_dynamic e dynamic_links sdfs).

(** *** Query plans *)

Definition push_child (data : DistanceQueryData.t) (name : string) (i : nat) (ty : ChildType)
  : DistanceQueryData.t :=
  DistanceQueryData.mk (DistanceQueryData.parent_name data)
    (DistanceQueryData.child_name data ++ [name])
    (DistanceQueryData.child_index data ++ [i])
    (DistanceQueryData.child_type data ++ [ty])
    (DistanceQueryData.spheres data) (DistanceQueryData.gradient data)
    (DistanceQueryData.empty data).

(** One of the three candidate loops of [createDefaultDistanceQuery]:
    [links] is the class's link vector, [keep i] the extra test on the index
    ([i != j] for the active class). *)
Definition addChildren (acm : option AllowedCollisionMatrix.t) (parent : string)
    (ty : ChildType) (keep : nat → bool) (links : list LinkModel)
    (data : DistanceQueryData.t) : DistanceQueryData.t :=
  foldl (λ data '(i, link),
           if keep i && negb (isCollisionAllowed link parent acm)
           then push_child data link i ty else data)
        data (imap pair links).

(** The plan of the active link at index [j]. *)
Definition defaultQuery (e : t) (j : nat) (parent : LinkModel) : result DistanceQueryData.t :=
  let data := DistanceQueryData.set_parent_name DistanceQueryData.default parent in
  spheres ← at_index (active_spheres_ e) j;
  if decide (length spheres = 0) then Ok data
  else
    let data := DistanceQueryData.set_empty data false in
    let data := addChildren (acm_ e) parent Active (λ i, bool_decide (i ≠ j))
                            (active_links_ e) data in
    let data := addChildren (acm_ e) parent Dynamic (λ _, true) (dynamic_links_ e) data in
    let data := addChildren (acm_ e) parent Static (λ _, true) (static_links_ e) data in
    Ok data.

Definition createDefaultDistanceQuery (e : t) : result t :=
  q ← for_each (λ q '(j, parent), data ← defaultQuery e j parent; Ok (q ++ [data]))
               (imap pair (active_links_ e)) (dist_query_ e);
  Ok (set_dist_query e q).

(** The constructor from a model and the four scalars. *)
Definition create (model : RobotModel) (voxel_size background exBandWidth inBandWidth : R)
  : result t :=
  let e := init model voxel_size background exBandWidth inBandWidth in
  let e := createDefaultAllowedCollisionMatrix e in
  e ← createStaticSDFs e;
  e ← createActiveSDFs e;
  e ← createDynamicSDFs e;
  createDefaultDistanceQuery e.
End Construction.

(** *** The self-distance query *)

Section Query.
Context `{External}.

(** [sdfs_data[type]] for the three vectors filled by [distanceSelf]. *)
Record SDFTable := mkSDFTable {
  data_Static : list SDFData;
  data_Dynamic : list SDFData;
  data_Active : list SDFData
}.

Definition table_get (sdfs_data : SDFTable) (ty : ChildType) : list SDFData :=
  match ty with
  | Static => data_Static sdfs_data
  | Dynamic => data_Dynamic sdfs_data
  | Active => data_Active sdfs_data
  end.

(** The body of the loop over the parent's spheres: [child_min],
    [child_min_ijk] and [dist_found] after sphere [s]. *)
Definition sphereStep (background_ : R) (child_data : SDFData)
    (acc : R * Coord * bool) (s : Sphere) : R * Coord * bool :=
  let '(child_min, child_min_ijk, dist_found) := acc in
  let ijk := sdf_worldToIndexNodeCentered child_data s.1 in
  let child_dist := sdf_getValue child_data ijk in
  if approxEqual child_dist background_ then acc
  else
    let child_dist := (child_dist - s.2)%R in
    if decide (child_dist < child_min)%R then (child_dist, ijk, true) else acc.

(** The state of the loop over the candidates: the result under
    construction, the weighted gradient sum and the sum of the weights. *)
Definition HelperState : Type := DistanceResultsData.t * Vec3 * R.

Definition set_min (res : DistanceResultsData.t) (d : R) (child : string)
  : DistanceResultsData.t :=
  DistanceResultsData.mk d ((DistanceResultsData.link_name res).1, child)
    (DistanceResultsData.hasNearestPoints res) (DistanceResultsData.hasGradient res)
    (DistanceResultsData.gradient res).

Definition set_hasGradient (res : DistanceResultsData.t) (b : bool) : DistanceResultsData.t :=
  DistanceResultsData.mk (DistanceResultsData.min_distance res)
    (DistanceResultsData.link_name res) (DistanceResultsData.hasNearestPoints res) b
    (DistanceResultsData.gradient res).

Definition set_result_gradient (res : DistanceResultsData.t) (g : Vec3) : DistanceResultsData.t :=
  DistanceResultsData.mk (DistanceResultsData.min_distance res)
    (DistanceResultsData.link_name res) (DistanceResultsData.hasNearestPoints res)
    (DistanceResultsData.hasGradient res) g.

(** The [if (data.gradient)] block for a candidate with a distance. *)
Definition blendGradient (background_ : R) (child_data : SDFData) (child_min : R)
    (child_min_ijk : Coord) (st : HelperState) : HelperState :=
  let '(res, gradient, total_weights) := st in
  let result := ISGradient_CD_2ND (sdf_getValue child_data) child_min_ijk in
  if decide (V3.sum result ≠ 0%R) then
    let weight := (background_ - child_min)%R in
    let total_weights := (total_weights + weight)%R in
    let result := sdf_applyIJT child_data result in
    let result := V3.vdb_normalize result in
    let result := V3.scale result weight in
    (set_hasGradient res true, V3.add gradient result, total_weights)
  else st.

(** The body of the loop over [data.child_index] at index [i]. *)
Definition candidateStep (background_ : R) (data : DistanceQueryData.t)
    (sdfs_data : SDFTable) (st : HelperState) (i : nat) : result HelperState :=
  ty ← at_index (DistanceQueryData.child_type data) i;
  idx ← at_index (DistanceQueryData.child_index data) i;
  child_data ← at_index (table_get sdfs_data ty) idx;
  let '(child_min, child_min_ijk, dist_found) :=
    foldl (sphereStep background_ child_data) (background_, mkCoord 0 0 0, false)
          (DistanceQueryData.spheres data) in
  if dist_found then
    let '(res, gradient, total_weights) := st in
    res ← (if decide (child_min < DistanceResultsData.min_distance res)%R then
             name ← at_index (DistanceQueryData.child_name data) i;
             Ok (set_min res child_min name)
           else Ok res);
    if DistanceQueryData.gradient data then
      Ok (blendGradient background_ child_data child_min child_min_ijk
                        (res, gradient, total_weights))
    else Ok (res, gradient, total_weights)
  else Ok st.

(** The tail of [distanceSelfHelper]: the blended gradient. *)
Definition finishGradient (st : HelperState) : DistanceResultsData.t :=
  let '(res, gradient, total_weights) := st in
  if DistanceResultsData.hasGradient res then
    if decide (total_weights = 0%R) then set_result_gradient res (mkVec3 0 0 0)
    else
      set_result_gradient res
        (V3.eigen_normalize (mkVec3 (vx gradient / total_weights)
                                    (vy gradient / total_weights)
                                    (vz gradient / total_weights)))
  else res.

Definition distanceSelfHelper (background_ : R) (data : DistanceQueryData.t)
    (sdfs_data : SDFTable) (res : DistanceResultsData.t) : result DistanceResultsData.t :=
  let res := DistanceResultsData.mk background_
               (DistanceQueryData.parent_name data, (DistanceResultsData.link_name res).2)
               false (DistanceResultsData.hasGradient res)
               (DistanceResultsData.gradient res) in
  st ← for_each (candidateStep background_ data sdfs_data)
                (seq 0 (length (DistanceQueryData.child_index data)))
                (res, V3.zero, 0%R);
  Ok (finishGradient st).

(** The loop of [distanceSelf] over the active links, at index [i]: the
    plan receives the link's spheres in world coordinates and the gradient
    flag, and the field is packaged with the transposed matrix.  Packaging
    a field constructs an [SDFData] from its grid pointer. *)
Definition snapshotActive (e : t) (req : DistanceRequest.t) (state : RobotState)
    (acc : list DistanceQueryData.t * list SDFData) (il : nat * LinkModel)
  : result (list DistanceQueryData.t * list SDFData) :=
  let '(dist_query, data_Active) := acc in
  let '(i, link) := il in
  let tf := Affine3dToMat4d (getGlobalLinkTransform state link) in
  q ← at_index dist_query i;
  spheres ← at_index (active_spheres_ e) i;
  let q := DistanceQueryData.set_spheres q spheres in
  let q := DistanceQueryData.set_gradient q (DistanceRequest.gradient req) in
  let q := DistanceQueryData.set_spheres q
             (map (λ p : Sphere, (Mat4.apply tf p.1, p.2)) (DistanceQueryData.spheres q)) in
  let tf := Mat4.transpose tf in
  sdf ← at_index (active_sdf_ e) i;
  d ← makeSDFData (getGrid sdf) (Some tf);
  Ok (<[i := q]> dist_query, data_Active ++ [d]).

Definition packageDynamic (e : t) (state : RobotState) (data_Dynamic : list SDFData)
    (il : nat * LinkModel) : result (list SDFData) :=
  let '(i, link) := il in
  let tf := Affine3dToMat4dAffine (getGlobalLinkTransform state link) in
  sdf ← at_index (dynamic_sdf_ e) i;
  d ← makeSDFData (getGrid sdf) (Some tf);
  Ok (data_Dynamic ++ [d]).

Definition packageStatic (e : t) (data_Static : list SDFData) (il : nat * LinkModel)
  : result (list SDFData) :=
  let '(i, _) := il in
  sdf ← at_index (static_sdf_ e) i;
  d ← makeSDFData (getGrid sdf) None;
  Ok (data_Static ++ [d]).

(** The loop "Compute minimum distance": one helper call and one
    [res.distance.insert] per plan that is not marked empty. *)
Definition evaluatePlan (e : t) (data : SDFTable)
    (distance : list (string * DistanceResultsData.t)) (q : DistanceQueryData.t)
  : result (list (string * DistanceResultsData.t)) :=
  if negb (DistanceQueryData.empty q) then
    d ← distanceSelfHelper (background_ e) q data fresh_DistanceResultsData;
    Ok (StdMap.insert (DistanceResultsData.link_name d).1 d distance)
  else Ok distance.

(** The closing loop of [distanceSelf]: the key of the smallest
    [min_distance] below [background_], starting from the key found at
    [begin()]. *)
Definition selectMinimum (background_ : R) (distance : list (string * DistanceResultsData.t))
  : result string :=
  match distance with
  | [] => Fail DerefOfEnd
  | (_, first) :: _ =>
      let start := ((DistanceResultsData.link_name first).1, background_) in
      Ok (foldl (λ (acc : string * R) (it : string * DistanceResultsData.t),
                   if decide (DistanceResultsData.min_distance it.2 < acc.2)%R
                   then ((DistanceResultsData.link_name it.2).1,
                         DistanceResultsData.min_distance it.2)
                   else acc)
                start distance).1
  end.

Definition distanceSelf (e : t) (req : DistanceRequest.t) (res : DistanceResult.t)
    (state : RobotState) : result DistanceResult.t :=
  let dist_query := dist_query_ e in
  group ← deref (getJointModelGroup (robot_model_ e) (DistanceRequest.group_name req));
  let group_links := getUpdatedLinkModelsWithGeometryNames group in
  '(dist_query, data_Active) ←
    for_each (snapshotActive e req state) (imap pair (active_links_ e)) (dist_query, []);
  data_Dynamic ← for_each (packageDynamic e state) (imap pair (dynamic_links_ e)) [];
  data_Static ← for_each (packageStatic e) (imap pair (static_links_ e)) [];
  let data := mkSDFTable data_Static data_Dynamic data_Active in
  distance ← for_each (evaluatePlan e data) dist_query (DistanceResult.distance res);
  index ← selectMinimum (background_ e) distance;
  let '(minimum, distance) := StdMap.subscript fresh_DistanceResultsData index distance in
  Ok (DistanceResult.mk minimum distance).

End Query.
End CollisionRobotOpenVDB.

(** ** Concrete models and library instances *)

Module Examples.
Import CollisionRobotOpenVDB.

Definition unit_box : Shape := BOX (mkVec3 1 1 1).

(** A library whose sphere fitting returns a single sphere on every call and
    whose grids read as background everywhere. *)
Definition one_sphere_lib : External := {|
  gridValue := λ _ _, 10%R;
  vdb_fillWithSpheres := λ _ _ _ _ _ _ _, [(mkVec3 0 0 0, 1%R)];
  sdf_worldToIndexNodeCentered := λ _ _, mkCoord 0 0 0;
  sdf_getValue := λ _ _, 10%R;
  sdf_applyIJT := λ _ v, v;
  fresh_DistanceResultsData := DistanceResultsData.mk 0 ("", "") false false (mkVec3 0 0 0)
|}.

(** A fixed base that is also listed in the joint group of the arm: the
    root [world] bears no geometry, [base] is attached to it by a fixed
    joint, and the group [arm] lists [base]. *)
Definition fixed_base_in_group : RobotModel := {|
  link_model_vector_ := ["world"; "base"];
  getRootLink := "world";
  getLinkModelsWithCollisionGeometry := ["base"];
  getJointModelGroups := [mkJointModelGroup "arm" ["base"] ["base"]];
  getShapes := λ l, if decide (l = "base") then [unit_box] else [];
  getCollisionOriginTransforms := λ l, if decide (l = "base") then [Mat4.Identity] else [];
  getAssociatedFixedTransforms := λ l,
    if decide (l = "world") then [("base", Mat4.Identity)]
    else if decide (l = "base") then [("world", Mat4.Identity)]
    else [];
  getDisabledCollisionPairs := []
|}.

(** A model whose only link bears a plane, a shape kind that no field can
    take in. *)
Definition plane_only : RobotModel := {|
  link_model_vector_ := ["ground"];
  getRootLink := "ground";
  getLinkModelsWithCollisionGeometry := ["ground"];
  getJointModelGroups := [];
  getShapes := λ _, [PLANE];
  getCollisionOriginTransforms := λ _, [Mat4.Identity];
  getAssociatedFixedTransforms := λ _, [];
  getDisabledCollisionPairs := []
|}.

(** A field with background 10 that never received a shape. *)
Definition empty_field : OpenVDBDistanceField.t := OpenVDBDistanceField.new 1 10.

(** A table and a shelf, both attached to the root [world] by fixed joints
    and both bearing a box.  The attachment maps are the ones MoveIt
    computes: the root lists both links, each of them lists the root.  The
    group [frame] lists only [world], which bears no geometry. *)
Definition table_and_shelf : RobotModel := {|
  link_model_vector_ := ["world"; "table"; "shelf"];
  getRootLink := "world";
  getLinkModelsWithCollisionGeometry := ["table"; "shelf"];
  getJointModelGroups := [mkJointModelGroup "frame" ["world"] []];
  getShapes := λ l, if decide (l = "world") then [] else [unit_box];
  getCollisionOriginTransforms := λ l, if decide (l = "world") then [] else [Mat4.Identity];
  getAssociatedFixedTransforms := λ l,
    if decide (l = "world") then [("table", Mat4.Identity); ("shelf", Mat4.Identity)]
    else if decide (l = "table") then [("world", Mat4.Identity)]
    else if decide (l = "shelf") then [("world", Mat4.Identity)]
    else [];
  getDisabledCollisionPairs := []
|}.

(** An arm on a fixed pedestal: two moving links in the group [arm], the
    second of them also in the group [wrist], and a camera that belongs to
    no group. *)
Definition arm_on_pedestal : RobotModel := {|
  link_model_vector_ := ["world"; "pedestal"; "upper_arm"; "forearm"; "camera"];
  getRootLink := "world";
  getLinkModelsWithCollisionGeometry := ["pedestal"; "upper_arm"; "forearm"; "camera"];
  getJointModelGroups :=
    [mkJointModelGroup "arm" ["upper_arm"; "forearm"] ["upper_arm"; "forearm"];
     mkJointModelGroup "wrist" ["forearm"] ["forearm"]];
  getShapes := λ l, if decide (l = "world") then [] else [unit_box];
  getCollisionOriginTransforms := λ l, if decide (l = "world") then [] else [Mat4.Identity];
  getAssociatedFixedTransforms := λ l,
    if decide (l = "world") then [("pedestal", Mat4.Identity)]
    else if decide (l = "pedestal") then [("world", Mat4.Identity)]
    else [];
  getDisabledCollisionPairs := [("pedestal", "upper_arm")]
|}.

(** The distance stored at a voxel of the three grids read by [wall_lib],
    inside a band of three voxels around the voxel origin: a wall facing +x,
    a wall facing -x and a wall facing the diagonal (1, -1, 0), each half a
    voxel away from the origin. *)
Definition in_band (c : Coord) : bool :=
  (Z.abs (ci c) <=? 3)%Z && (Z.abs (cj c) <=? 3)%Z && (Z.abs (ck c) <=? 3)%Z.

Definition wall_value (g : Grid) (c : Coord) : R :=
  if in_band c then
    match g with
    | meshToVolume (BOX _) _ _ _ _ => IZR (ci c) + 1 / 2
    | meshToVolume (CYLINDER _ _) _ _ _ _ => - IZR (ci c) + 1 / 2
    | meshToVolume (CONE _ _) _ _ _ _ => (IZR (ci c) - IZR (cj c)) * / sqrt 2 + 1 / 2
    | _ => 10
    end%R
  else 10%R.

(** A library with unit voxels and identity transforms whose box, cylinder
    and cone grids read as the three walls above, with background 10, and
    whose sphere fitting returns two spheres. *)
Definition wall_lib : External := {|
  gridValue := wall_value;
  vdb_fillWithSpheres := λ _ _ _ _ _ _ _, [(mkVec3 0 0 0, 1 / 4); (mkVec3 0 0 0, 1 / 4)]%R;
  sdf_worldToIndexNodeCentered := λ _ p,
    mkCoord (Int_part (vx p + 1 / 2)) (Int_part (vy p + 1 / 2)) (Int_part (vz p + 1 / 2));
  sdf_getValue := λ d c, match sdf_grid d with
                         | Some g => wall_value g c
                         | None => 10%R
                         end;
  sdf_applyIJT := λ _ v, v;
  fresh_DistanceResultsData := DistanceResultsData.mk 0 ("", "") false false (mkVec3 0 0 0)
|}.

Definition left_wall : SDFData :=
  mkSDFData (Some (meshToVolume unit_box Mat4.Identity 1 3 3)) None.
Definition right_wall : SDFData :=
  mkSDFData (Some (meshToVolume (CYLINDER 1 1) Mat4.Identity 1 3 3)) None.
Definition diagonal_wall : SDFData :=
  mkSDFData (Some (meshToVolume (CONE 1 1) Mat4.Identity 1 3 3)) None.

(** The field of the diagonal wall, as [OpenVDBDistanceField] holds it. *)
Definition diagonal_field : OpenVDBDistanceField.t :=
  OpenVDBDistanceField.mk 1 10 (Some (meshToVolume (CONE 1 1) Mat4.Identity 1 3 3))
                               (Some (meshToVolume (CONE 1 1) Mat4.Identity 1 3 3)).

Definition walls : SDFTable := mkSDFTable [left_wall; right_wall; diagonal_wall] [] [].

(** One sphere of radius 1/4 at the origin. *)
Definition probe_sphere : Sphere := (mkVec3 0 0 0, (1 / 4)%R).

(** A parent halfway between the two facing walls, gradient requested. *)
Definition between_walls : DistanceQueryData.t :=
  DistanceQueryData.mk "probe" ["left_wall"; "right_wall"] [0; 1] [Static; Static]
                       [probe_sphere] true false.

(** A parent in front of the diagonal wall, gradient requested. *)
Definition before_diagonal : DistanceQueryData.t :=
  DistanceQueryData.mk "probe" ["diagonal_wall"] [2] [Static]
                       [probe_sphere] true false.

(** The probe's result as [distanceSelfHelper] initialises it, and after the
    left wall has been evaluated. *)
Definition probe_initial : DistanceResultsData.t :=
  DistanceResultsData.mk 10 ("probe", "") false false (mkVec3 0 0 0).
Definition probe_after_left : DistanceResultsData.t :=
  DistanceResultsData.mk (1 / 4) ("probe", "left_wall") false true (mkVec3 0 0 0).

(** The engine of a model, for models whose construction completes. *)
Definition engine_of `{External} (m : RobotModel) : CollisionRobotOpenVDB.t :=
  match create m 1 10 3 3 with
  | Ok e => e
  | Fail _ => init m 1 10 3 3
  end.

Definition still_state : RobotState := mkRobotState (λ _, Mat4.Identity).
Definition empty_result : DistanceResult.t :=
  DistanceResult.mk (DistanceResultsData.mk 0 ("", "") false false (mkVec3 0 0 0)) [].
End Examples.

(** ** Invariants of the construction *)

Module Invariants.
Import CollisionRobotOpenVDB.

(** The engine [e'] is [e] with other static vectors. *)
Definition same_but_static (e e' : CollisionRobotOpenVDB.t) : Prop :=
  e' = CollisionRobotOpenVDB.mk (robot_model_ e) (voxel_size_ e) (background_ e)
         (exBandWidth_ e) (inBandWidth_ e) (links_ e) (acm_ e)
         (static_links_ e') (static_sdf_ e') (active_links_ e) (active_sdf_ e)
         (active_spheres_ e) (dynamic_links_ e) (dynamic_sdf_ e) (dist_query_ e).

(** Where the pose of a static link's field can come from: the identity,
    for the field the root gets before the walk, or the entry of the link in
    the attachment map of some link. *)
Definition static_pose (m : RobotModel) (link : LinkModel) (pose : Affine3d) : Prop :=
  (link = getRootLink m ∧ pose = Mat4.Identity) ∨
  (∃ parent, (link, pose) ∈ getAssociatedFixedTransforms m parent).

(** One static link and its field: the field holds the shapes of that link
    alone, built at the nominal voxel size, background and bands. *)
Definition static_entry (e0 : CollisionRobotOpenVDB.t) (link : LinkModel)
    (sdf : OpenVDBDistanceField.t) : Prop :=
  link ∈ links_ e0 ∧
  ∃ pose, static_pose (robot_model_ e0) link pose ∧
          OpenVDBDistanceField.addLinkToField
            (robot_model_ e0) (OpenVDBDistanceField.new (voxel_size_ e0) (background_ e0))
            link pose (exBandWidth_ e0) (inBandWidth_ e0) = Ok sdf.

Definition static_inv (e0 e : CollisionRobotOpenVDB.t) : Prop :=
  same_but_static e0 e ∧ Forall2 (static_entry e0) (static_links_ e) (static_sdf_ e).


(** A field created from a voxel size and a background value into which no
    shape was ever inserted: every call of [addShapeToField] on it was for a
    shape of a kind that the function rejects. *)
Inductive never_filled : OpenVDBDistanceField.t → Prop :=
| never_filled_new voxel_size background :
    never_filled (OpenVDBDistanceField.new voxel_size background)
| never_filled_rejected f shape pose exBandWidth inBandWidth :
    never_filled f → OpenVDBDistanceField.unsupported shape = true →
    never_filled (OpenVDBDistanceField.addShapeToField f shape pose exBandWidth inBandWidth).

(** Every link named by an attachment map is a link of the model. *)
Definition attachments_closed (m : RobotModel) : Prop :=
  ∀ parent x, x ∈ getAssociatedFixedTransforms m parent → x.1 ∈ link_model_vector_ m.

(** Every shape of every link has a collision origin. *)
Definition origins_cover_shapes (m : RobotModel) : Prop :=
  ∀ link, length (getShapes m link) ≤ length (getCollisionOriginTransforms m link).

(** The links of [U] that the walk has not reached yet. *)
Definition unvisited (U links_so_far : list LinkModel) : nat :=
  length (filter (λ u, u ∉ links_so_far) U).

(** The link has a shape of a kind that a field can take in. *)
Definition has_supported_shape (m : RobotModel) (link : LinkModel) : Prop :=
  Exists (λ s, OpenVDBDistanceField.unsupported s = false) (getShapes m link).

(** The sphere fitting of the library returns exactly one sphere per call. *)
Definition one_sphere_per_call `{External} : Prop :=
  ∀ g maxSphereCount overlapping minRadius maxRadius isovalue instanceCount,
    length (vdb_fillWithSpheres g maxSphereCount overlapping minRadius maxRadius
                                isovalue instanceCount) = 1.

(** The parallel vectors of an engine have matching lengths. *)
Definition engine_ok (e : CollisionRobotOpenVDB.t) : Prop :=
  length (static_sdf_ e) = length (static_links_ e) ∧
  length (dynamic_sdf_ e) = length (dynamic_links_ e) ∧
  length (active_sdf_ e) = length (active_links_ e) ∧
  length (active_spheres_ e) = length (active_links_ e) ∧
  length (dist_query_ e) = length (active_links_ e).

(** The weights are positive: the flag is raised exactly when the total
    weight has left zero, and until then the caller's gradient is kept. *)
Definition weight_inv (g0 : Vec3) (st : HelperState) : Prop :=
  (0 <= st.2)%R ∧
  (DistanceResultsData.hasGradient st.1.1 = true → (0 < st.2)%R) ∧
  (DistanceResultsData.hasGradient st.1.1 = false →
   st.2 = 0%R ∧ DistanceResultsData.gradient st.1.1 = g0).

(** What a call of the walk guarantees when its fuel exceeds the number of
    links not reached so far. *)
Definition walk_returns (m : RobotModel) (fuel : nat)
    (walk : CollisionRobotOpenVDB.t → LinkModel → list LinkModel
            → result (CollisionRobotOpenVDB.t * list LinkModel)) : Prop :=
  ∀ e link s, robot_model_ e = m → unvisited (link_model_vector_ m) s < fuel →
    ∃ e' s', walk e link s = Ok (e', s') ∧ s ⊆ s' ∧ robot_model_ e' = m.
End Invariants.

(** * More of the code *)

(** ** Reachability through fixed attachments *)

Module Reach.
Import CollisionRobotOpenVDB.
(** [attached_path m x y]: [y] is reached from [x] by following one or more
    entries of fixed-attachment maps. *)
Inductive attached_path (m : RobotModel) : LinkModel → LinkModel → Prop :=
| path_step x y tf :
    (y, tf) ∈ getAssociatedFixedTransforms m x → attached_path m x y
| path_more x y z tf :
    attached_path m x y → (z, tf) ∈ getAssociatedFixedTransforms m y → attached_path m x z.

(** What one call of the walk from [link], or the rest of its loop over
    [fixed_attached], adds to the visited links and to the static links. *)
Definition walk_effect (fixed_attached : list (LinkModel * Affine3d)) (link : LinkModel)
    (e : CollisionRobotOpenVDB.t) (s : list LinkModel)
    (e' : CollisionRobotOpenVDB.t) (s' : list LinkModel) : Prop :=
  ∃ new,
    s' = s ++ new ∧ NoDup new ∧ (∀ y, y ∈ new → y ∉ s) ∧
    static_links_ e' = static_links_ e ++ filter (λ y, y ∈ links_ e) new ∧
    robot_model_ e' = robot_model_ e ∧ links_ e' = links_ e ∧
    (∀ y, y ∈ new → attached_path (robot_model_ e) link y) ∧
    (∀ x, x ∈ fixed_attached → x.1 ∈ s') ∧
    (∀ x, x ∈ new → ∀ y, y ∈ getAssociatedFixedTransforms (robot_model_ e) x → y.1 ∈ s').
End Reach.

Module Examples2.
Import CollisionRobotOpenVDB.
(** The engine of a model after [createStaticSDFs], and after
    [createActiveSDFs]. *)
Definition static_engine (m : RobotModel) : CollisionRobotOpenVDB.t :=
  let e0 := createDefaultAllowedCollisionMatrix (init m 1 10 3 3) in
  match createStaticSDFs e0 with
  | Ok e => e
  | Fail _ => e0
  end.

Definition active_engine `{External} (m : RobotModel) : CollisionRobotOpenVDB.t :=
  match createActiveSDFs (static_engine m) with
  | Ok e => e
  | Fail _ => static_engine m
  end.

(** A robot whose root link [base] bears a box and carries a column on a
    fixed joint; as MoveIt computes the attachment maps, the column lists
    the root. *)
Definition base_with_column : RobotModel := {|
  link_model_vector_ := ["base"; "column"];
  getRootLink := "base";
  getLinkModelsWithCollisionGeometry := ["base"; "column"];
  getJointModelGroups := [];
  getShapes := λ _, [Examples.unit_box];
  getCollisionOriginTransforms := λ _, [Mat4.Identity];
  getAssociatedFixedTransforms := λ l,
    if decide (l = "base") then [("column", Mat4.Identity)]
    else if decide (l = "column") then [("base", Mat4.Identity)]
    else [];
  getDisabledCollisionPairs := []
|}.

(** The pose that moves by [(x, y, z)] without turning. *)
Definition shift (x y z : R) : Affine3d :=
  ((1, 0, 0, x), (0, 1, 0, y), (0, 0, 1, z), (0, 0, 0, 1))%R.

(** A column on a plinth: the plinth is fixed to the root [world] one unit
    along x, the column to the plinth one unit along y.  The attachment maps
    are the ones MoveIt computes: every link lists every link that is fixed
    to it, directly or not, with the pose relative to itself. *)
Definition column_on_plinth : RobotModel := {|
  link_model_vector_ := ["world"; "plinth"; "column"];
  getRootLink := "world";
  getLinkModelsWithCollisionGeometry := ["plinth"; "column"];
  getJointModelGroups := [];
  getShapes := λ l, if decide (l = "world") then [] else [Examples.unit_box];
  getCollisionOriginTransforms := λ l, if decide (l = "world") then [] else [Mat4.Identity];
  getAssociatedFixedTransforms := λ l,
    if decide (l = "world") then [("plinth", shift 1 0 0); ("column", shift 1 1 0)]
    else if decide (l = "plinth") then [("column", shift 0 1 0); ("world", shift (-1) 0 0)]
    else if decide (l = "column") then [("plinth", shift 0 (-1) 0); ("world", shift (-1) (-1) 0)]
    else [];
  getDisabledCollisionPairs := []
|}.
End Examples2.

(** ** Query plans, seen as lists of candidates *)

Module Plans.
Import CollisionRobotOpenVDB.

(** The link vector of a class. *)
Definition class_links (e : CollisionRobotOpenVDB.t) (ty : ChildType) : list LinkModel :=
  match ty with
  | Static => static_links_ e
  | Dynamic => dynamic_links_ e
  | Active => active_links_ e
  end.

(** A candidate of a plan: what the three parallel vectors hold at one
    index. *)
Definition Candidate : Type := string * nat * ChildType.

(** The plan's three vectors hold exactly the candidates [l], in order. *)
Definition has_children (data : DistanceQueryData.t) (l : list Candidate) : Prop :=
  DistanceQueryData.child_name data = l.*1.*1 ∧
  DistanceQueryData.child_index data = l.*1.*2 ∧
  DistanceQueryData.child_type data = l.*2.

(** The candidate that an indexed link of a class contributes to the plan of
    [parent], if any. *)
Definition candidate (acm : option AllowedCollisionMatrix.t) (parent : string)
    (ty : ChildType) (keep : nat → bool) (il : nat * LinkModel) : option Candidate :=
  if keep il.1 && negb (isCollisionAllowed il.2 parent acm)
  then Some (il.2, il.1, ty) else None.

(** The candidates of the plan of the active link [parent] at index [j]:
    the other active links, then the dynamic links, then the static links,
    without the links whose pair with [parent] is allowed. *)
Definition plan_candidates (e : CollisionRobotOpenVDB.t) (j : nat) (parent : string)
  : list Candidate :=
  omap (candidate (acm_ e) parent Active (λ i, bool_decide (i ≠ j)))
       (imap pair (active_links_ e)) ++
  omap (candidate (acm_ e) parent Dynamic (λ _, true)) (imap pair (dynamic_links_ e)) ++
  omap (candidate (acm_ e) parent Static (λ _, true)) (imap pair (static_links_ e)).

(** What the plan keeps apart from its candidates. *)
Definition same_header (d d' : DistanceQueryData.t) : Prop :=
  DistanceQueryData.parent_name d' = DistanceQueryData.parent_name d ∧
  DistanceQueryData.spheres d' = DistanceQueryData.spheres d ∧
  DistanceQueryData.gradient d' = DistanceQueryData.gradient d ∧
  DistanceQueryData.empty d' = DistanceQueryData.empty d.
End Plans.

(** ** What a query reads *)

Module Samples.
Import CollisionRobotOpenVDB.

Section WithLibrary.
Context `{External}.

(** The value [distanceSelfHelper] reads for a sphere in a candidate's
    field, and the distance it derives from it. *)
Definition sphere_voxel (child : SDFData) (s : Sphere) : Coord :=
  sdf_worldToIndexNodeCentered child s.1.
Definition sphere_value (child : SDFData) (s : Sphere) : R :=
  sdf_getValue child (sphere_voxel child s).
Definition sphere_distance (child : SDFData) (s : Sphere) : R :=
  (sphere_value child s - s.2)%R.

(** The candidate at position [i] of a plan: its field in the table and the
    name stored for it. *)
Definition candidate_at (data : DistanceQueryData.t) (sdfs_data : SDFTable) (i : nat)
    (child : SDFData) (name : string) : Prop :=
  ∃ ty idx,
    DistanceQueryData.child_type data !! i = Some ty ∧
    DistanceQueryData.child_index data !! i = Some idx ∧
    table_get sdfs_data ty !! idx = Some child ∧
    DistanceQueryData.child_name data !! i = Some name.

(** What the helper has established after the candidates below [n]:
    [min_distance] is a lower bound of the distances read so far, and it is
    either still the background, with the caller's second link name, or
    the distance read for a sphere in the field of the candidate named
    second. *)
Definition helper_inv (bg : R) (data : DistanceQueryData.t) (sdfs_data : SDFTable)
    (second : string) (n : nat) (st : HelperState) : Prop :=
  let res := st.1.1 in
  (DistanceResultsData.link_name res).1 = DistanceQueryData.parent_name data ∧
  DistanceResultsData.hasNearestPoints res = false ∧
  (DistanceResultsData.min_distance res <= bg)%R ∧
  (∀ i child name s,
     i < n → candidate_at data sdfs_data i child name →
     s ∈ DistanceQueryData.spheres data →
     approxEqual (sphere_value child s) bg = false →
     (DistanceResultsData.min_distance res <= sphere_distance child s)%R) ∧
  ((DistanceResultsData.min_distance res = bg ∧
    (DistanceResultsData.link_name res).2 = second) ∨
   (∃ i child name s,
      i < n ∧ candidate_at data sdfs_data i child name ∧
      s ∈ DistanceQueryData.spheres data ∧
      approxEqual (sphere_value child s) bg = false ∧
      DistanceResultsData.min_distance res = sphere_distance child s ∧
      (DistanceResultsData.min_distance res < bg)%R ∧
      (DistanceResultsData.link_name res).2 = name)).
End WithLibrary.
End Samples.

(** ** The shape of plans, tables and result maps *)

Module QueryShape.
Import CollisionRobotOpenVDB Plans.

(** A plan's three vectors are parallel and every candidate's index lies
    within the vector of its class. *)
Definition plan_ok (e : CollisionRobotOpenVDB.t) (data : DistanceQueryData.t) : Prop :=
  length (DistanceQueryData.child_name data) = length (DistanceQueryData.child_index data) ∧
  length (DistanceQueryData.child_type data) = length (DistanceQueryData.child_index data) ∧
  ∀ i ty idx,
    DistanceQueryData.child_type data !! i = Some ty →
    DistanceQueryData.child_index data !! i = Some idx →
    idx < length (class_links e ty).

(** The table [sdfs_data] holds one packaged field per link of each class. *)
Definition table_ok (e : CollisionRobotOpenVDB.t) (table : SDFTable) : Prop :=
  ∀ ty, length (table_get table ty) = length (class_links e ty).

(** Two plans that differ at most in their spheres and gradient flag. *)
Definition same_plan (q q' : DistanceQueryData.t) : Prop :=
  DistanceQueryData.parent_name q' = DistanceQueryData.parent_name q ∧
  DistanceQueryData.child_name q' = DistanceQueryData.child_name q ∧
  DistanceQueryData.child_index q' = DistanceQueryData.child_index q ∧
  DistanceQueryData.child_type q' = DistanceQueryData.child_type q ∧
  DistanceQueryData.empty q' = DistanceQueryData.empty q.

(** An entry of [res.distance] as [distanceSelf] inserts it. *)
Definition entry_ok (bg : R) (kd : string * DistanceResultsData.t) : Prop :=
  (DistanceResultsData.link_name kd.2).1 = kd.1 ∧
  (DistanceResultsData.min_distance kd.2 <= bg)%R ∧
  DistanceResultsData.hasNearestPoints kd.2 = false.

(** The keys of a [std::map] are strictly increasing. *)
Fixpoint keys_sorted {V} (m : list (string * V)) : Prop :=
  match m with
  | [] => True
  | kv :: rest => Forall (λ b, String.compare kv.1 b.1 = Lt) rest ∧ keys_sorted rest
  end.

(** [k] is an active link with at least one fitted sphere. *)
Definition has_spheres (e : CollisionRobotOpenVDB.t) (k : string) : Prop :=
  ∃ j spheres,
    active_links_ e !! j = Some k ∧ active_spheres_ e !! j = Some spheres ∧ spheres ≠ [].

(** The step of the closing loop of [distanceSelf]. *)
Definition minimum_step (acc : string * R) (it : string * DistanceResultsData.t)
  : string * R :=
  if decide (DistanceResultsData.min_distance it.2 < acc.2)%R
  then ((DistanceResultsData.link_name it.2).1, DistanceResultsData.min_distance it.2)
  else acc.
End QueryShape.

(** ** The resolutions tried for an active link *)

Module Resolution.
Local Open Scope R_scope.

(** The voxel size of attempt [k] of the loop of [createActiveSDFs] that
    starts at [v]: [v] multiplied by 0.5 once per earlier attempt. *)
Fixpoint halved (k : nat) (v : R) : R :=
  match k with
  | O => v
  | S k => halved k (v * (1 / 2))
  end.
End Resolution.

(** ** The meshes of cones and cylinders *)

Module Tessellation.
Local Open Scope R_scope.

(** [openvdb::Vec4I]: the four vertex indices of a face; [None] stands for
    [openvdb::util::INVALID_IDX], which marks a triangle. *)
Abbreviation Vec4I := (nat * nat * nat * option nat)%type.

(** [std::ceil]. *)
Definition ceil (x : R) : Z := (- Int_part (- x))%Z.

(** [std::ceil(2 * M_PI / (voxel_size_ / radius))], the number of sides of a
    cone or cylinder. *)
Definition tessellation_sides (voxel_size radius : R) : Z :=
  ceil (2 * PI / (voxel_size / radius)).

(** The loop "Create Vertices" of the cone. *)
Definition cone_vertices (sides : nat) (radius dh dtheta : R) (points : list Vec3)
  : list Vec3 * R :=
  foldl (λ '(points, theta) i,
           let x := radius * cos theta in
           let y := radius * sin theta in
           (<[i := mkVec3 x y (- dh)]> points, theta + dtheta))
        (points, 0) (seq 0 sides).

(** The loop "Create polygons for wall and bottom" of the cone. *)
Definition cone_faces (sides top_pdx bot_pdx : nat) (quads : list Vec4I) : list Vec4I :=
  foldl (λ quads i,
           let d := i in
           let d1 := if bool_decide (i = sides - 1)%nat then 0%nat else (i + 1)%nat in
           let quads := <[i := (top_pdx, d, d1, None)]> quads in
           <[(sides + i)%nat := (bot_pdx, d1, d, None)]> quads)
        quads (seq 0 sides).

(** The points and faces of the case [shapes::CONE] of [addShapeToField] for
    a given number of sides, before the pose and the voxel size are
    applied. *)
Definition cone_mesh (sides : nat) (radius length : R) : list Vec3 * list Vec4I :=
  let dtheta := 2 * PI / INR sides in
  let dh := length / 2 in
  let points := replicate (sides + 2) V3.zero in
  let quads := replicate (2 * sides) (0%nat, 0%nat, 0%nat, None) in
  let points := (cone_vertices sides radius dh dtheta points).1 in
  let top_pdx := sides in
  let bot_pdx := (sides + 1)%nat in
  let points := <[top_pdx := mkVec3 0 0 dh]> points in
  let points := <[bot_pdx := mkVec3 0 0 (- dh)]> points in
  (points, cone_faces sides top_pdx bot_pdx quads).

(** The loop "Create Vertices" of the cylinder: two vertices per column,
    the upper one first in even columns and second in odd ones. *)
Definition cylinder_vertices (sides : nat) (radius dh dtheta : R) (points : list Vec3)
  : list Vec3 * R * Z :=
  foldl (λ '(points, theta, sign) i,
           let x := radius * cos theta in
           let y := radius * sin theta in
           let points := <[(2 * i)%nat := mkVec3 x y (IZR sign * dh)]> points in
           let points := <[(2 * i + 1)%nat := mkVec3 x y (- IZR sign * dh)]> points in
           (points, theta + dtheta, (-1 * sign)%Z))
        (points, 0, 1%Z) (seq 0 sides).

(** The loop "Create polygons for wall and caps" of the cylinder. *)
Definition cylinder_faces (sides top_pdx bot_pdx : nat) (quads : list Vec4I) : list Vec4I :=
  foldl (λ quads i,
           let d := (i * 2)%nat in
           let d1 := (d + 1)%nat in
           let d2 := (d + 2)%nat in
           let d3 := (d + 3)%nat in
           let last := bool_decide (i = sides - 1)%nat in
           if bool_decide (i mod 2 = 0)%nat then
             let d2 := if last then 1%nat else d2 in
             let d3 := if last then 0%nat else d3 in
             let quads := <[i := (d, d1, d2, Some d3)]> quads in
             let quads := <[(sides + i)%nat := (top_pdx, d, d3, None)]> quads in
             <[(2 * sides + i)%nat := (bot_pdx, d1, d2, None)]> quads
           else
             let d2 := if last then 0%nat else d2 in
             let d3 := if last then 1%nat else d3 in
             let quads := <[i := (d3, d2, d1, Some d)]> quads in
             let quads := <[(sides + i)%nat := (top_pdx, d1, d2, None)]> quads in
             <[(2 * sides + i)%nat := (bot_pdx, d, d3, None)]> quads)
        quads (seq 0 sides).

(** The points and faces of the case [shapes::CYLINDER]. *)
Definition cylinder_mesh (sides : nat) (radius length : R) : list Vec3 * list Vec4I :=
  let dtheta := 2 * PI / INR sides in
  let dh := length / 2 in
  let points := replicate (2 * (sides + 1)) V3.zero in
  let quads := replicate (3 * sides) (0%nat, 0%nat, 0%nat, None) in
  let points := (cylinder_vertices sides radius dh dtheta points).1.1 in
  let top_pdx := (2 * sides)%nat in
  let bot_pdx := (2 * sides + 1)%nat in
  let points := <[top_pdx := mkVec3 0 0 dh]> points in
  let points := <[bot_pdx := mkVec3 0 0 (- dh)]> points in
  (points, cylinder_faces sides top_pdx bot_pdx quads).

(** The rim vertex of column [i] at height [z]. *)
Definition rim (sides : nat) (radius : R) (i : nat) (z : R) : Vec3 :=
  let theta := INR i * (2 * PI / INR sides) in
  mkVec3 (radius * cos theta) (radius * sin theta) z.

(** Where the cylinder keeps the upper and the lower vertex of column [i]. *)
Definition upper (i : nat) : nat := if Nat.even i then (2 * i)%nat else (2 * i + 1)%nat.
Definition lower (i : nat) : nat := if Nat.even i then (2 * i + 1)%nat else (2 * i)%nat.

(** The distance between two points. *)
Definition distance (p q : Vec3) : R := V3.norm (V3.add p (V3.scale q (-1))).
End Tessellation.

(** ** The conversion of a triangle mesh *)

Module MeshConversion.
Import Tessellation.

(** [MeshData]; a triangle is an [openvdb::Vec3I]. *)
Record MeshData := mkMeshData {
  points : list Vec3;
  triangles : list (nat * nat * nat);
  quads : list Vec4I
}.

(** Arithmetic on [unsigned int]. *)
Definition wrap32 (n : nat) : nat := Z.to_nat (Z.of_nat n mod 2 ^ 32).

(** [v[i] = a] on a [std::vector]: no defined behaviour outside the
    vector. *)
Definition store {A} (v : list A) (i : nat) (a : A) : result (list A) :=
  if decide (i < length v) then Ok (<[i := a]> v) else Fail IndexOutOfRange.

(** [Vec3s(mesh->vertices[v * 3], mesh->vertices[v * 3 + 1],
    mesh->vertices[v * 3 + 2])]. *)
Definition vertex_at (vertices : list R) (v : nat) : result Vec3 :=
  x ← at_index vertices (wrap32 (v * 3));
  y ← at_index vertices (wrap32 (v * 3 + 1));
  z ← at_index vertices (wrap32 (v * 3 + 2));
  Ok (mkVec3 x y z).

(** The body of the loop of [ShapeMeshToOpenVDB] for triangle [i]. *)
Definition convert_triangle (mesh_vertices : list R) (mesh_triangles : list nat) (tf : Mat4d)
    (output : MeshData) (i : nat) : result MeshData :=
  let i3 := wrap32 (i * 3) in
  v1 ← at_index mesh_triangles i3;
  v2 ← at_index mesh_triangles (wrap32 (i3 + 1));
  v3 ← at_index mesh_triangles (wrap32 (i3 + 2));
  p1 ← vertex_at mesh_vertices v1;
  p2 ← vertex_at mesh_vertices v2;
  p3 ← vertex_at mesh_vertices v3;
  points ← store (points output) v1 (Mat4.apply tf p1);
  points ← store points v2 (Mat4.apply tf p2);
  points ← store points v3 (Mat4.apply tf p3);
  triangles ← store (triangles output) i (v1, v2, v3);
  quads ← store (quads output) i (v1, v2, v3, None);
  Ok (mkMeshData points triangles quads).

(** [ShapeMeshToOpenVDB(mesh, pose)] for a mesh with the given counts and
    arrays; [fresh_point] is what [resize] leaves in a new element of
    [output.points]. *)
Definition ShapeMeshToOpenVDB (fresh_point : Vec3) (vertex_count triangle_count : nat)
    (mesh_vertices : list R) (mesh_triangles : list nat) (pose : Affine3d)
  : result MeshData :=
  let output := mkMeshData (replicate vertex_count fresh_point)
                           (replicate triangle_count (0, 0, 0))
                           (replicate triangle_count (0, 0, 0, None)) in
  let tf := Affine3dToMat4d pose in
  for_each (convert_triangle mesh_vertices mesh_triangles tf) (seq 0 triangle_count) output.

(** Vertex [v] of the mesh. *)
Definition mesh_vertex (mesh_vertices : list R) (v : nat) : Vec3 :=
  mkVec3 (nth (3 * v) mesh_vertices 0%R) (nth (3 * v + 1) mesh_vertices 0%R)
         (nth (3 * v + 2) mesh_vertices 0%R).

(** The arrays of the mesh have the sizes its counts announce, and the
    counts leave the index arithmetic within [unsigned int]. *)
Definition mesh_sized (vertex_count triangle_count : nat) (mesh_vertices : list R)
    (mesh_triangles : list nat) : Prop :=
  length mesh_vertices = 3 * vertex_count ∧ length mesh_triangles = 3 * triangle_count ∧
  (3 * Z.of_nat vertex_count < 2 ^ 32)%Z ∧ (3 * Z.of_nat triangle_count < 2 ^ 32)%Z.

(** The state of the output after the first [k] triangles. *)
Definition converted (fresh_point : Vec3) (vertex_count triangle_count : nat)
    (mesh_vertices : list R) (mesh_triangles : list nat) (pose : Affine3d)
    (k : nat) (output : MeshData) : Prop :=
  length (points output) = vertex_count ∧
  length (triangles output) = triangle_count ∧
  length (quads output) = triangle_count ∧
  (∀ i v, i < 3 * k → mesh_triangles !! i = Some v → v < vertex_count) ∧
  (∀ i, i < k →
     ∃ v1 v2 v3,
       mesh_triangles !! (3 * i) = Some v1 ∧ mesh_triangles !! (3 * i + 1) = Some v2 ∧
       mesh_triangles !! (3 * i + 2) = Some v3 ∧
       triangles output !! i = Some (v1, v2, v3) ∧
       quads output !! i = Some (v1, v2, v3, None)) ∧
  (∀ v, v < vertex_count →
     points output !! v
     = Some (if decide (v ∈ take (3 * k) mesh_triangles)
             then Mat4.apply (Affine3dToMat4d pose) (mesh_vertex mesh_vertices v)
             else fresh_point)).

(** A small mesh: two triangles over four of five vertices. *)
Definition kite_vertices : list R :=
  [0; 0; 0;  1; 0; 0;  0; 1; 0;  1; 1; 0;  5; 5; 5]%R.
Definition kite_triangles : list nat := [0; 1; 2; 2; 1; 3].
End MeshConversion.

(** ** Shapes that reach the library call *)

Module Conversion.
Import CollisionRobotOpenVDB Tessellation MeshConversion.

(** The shape passes what [addShapeToField] does before it calls the
    library, in a field of the given voxel size.  For a cone or a cylinder
    the number of sides, an [int], is at least one (it is the divisor of
    [dtheta], and [sides + 2], [2 * sides] and [3 * sides] are the sizes of
    the vectors [points] and [quads], which a negative number of sides would
    make negative) and those sizes are within [int].  For a mesh, the
    arrays have the sizes that the counts announce and every vertex index of
    a triangle is below the vertex count, which [mergeVertices] keeps, so
    that [ShapeMeshToOpenVDB] stays within its vectors. *)
Definition converts (voxel_size : R) (shape : Shape) : Prop :=
  match shape with
  | CONE radius _ =>
      (1 ≤ tessellation_sides voxel_size radius ∧
       2 * tessellation_sides voxel_size radius < 2 ^ 31)%Z
  | CYLINDER radius _ =>
      (1 ≤ tessellation_sides voxel_size radius ∧
       3 * tessellation_sides voxel_size radius < 2 ^ 31)%Z
  | MESH vertices triangles =>
      ∃ vertex_count triangle_count,
        mesh_sized vertex_count triangle_count vertices triangles ∧
        Forall (λ v, v < vertex_count) triangles
  | _ => True
  end.

(** Every shape of every link with collision geometry passes at the given
    voxel size. *)
Definition shapes_convert (m : RobotModel) (voxel_size : R) : Prop :=
  ∀ link shape,
    link ∈ getLinkModelsWithCollisionGeometry m → shape ∈ getShapes m link →
    converts voxel_size shape.

(** The same at every voxel size that the constructor can use: the nominal
    one for static and dynamic links, and the nominal one halved up to nine
    times for active links. *)
Definition shapes_convert_at_all_resolutions (m : RobotModel) (voxel_size : R) : Prop :=
  ∀ k, k ≤ 9 → shapes_convert m (Resolution.halved k voxel_size).
End Conversion.

(** ** What a query evaluates *)

Module QueryInputs.
Import CollisionRobotOpenVDB.

(** The plan of an active link as [distanceSelf] evaluates it: the stored
    plan with the link's spheres moved to the link's pose in [state] and
    with the gradient flag of the request. *)
Definition posed_plan (req : DistanceRequest.t) (state : RobotState)
    (q : DistanceQueryData.t) (ls : LinkModel * SphereModel) : DistanceQueryData.t :=
  let tf := Affine3dToMat4d (getGlobalLinkTransform state ls.1) in
  DistanceQueryData.set_spheres
    (DistanceQueryData.set_gradient q (DistanceRequest.gradient req))
    (map (λ p : Sphere, (Mat4.apply tf p.1, p.2)) ls.2).

Definition query_plans (e : CollisionRobotOpenVDB.t) (req : DistanceRequest.t)
    (state : RobotState) : list DistanceQueryData.t :=
  zip_with (posed_plan req state) (dist_query_ e)
           (zip (active_links_ e) (active_spheres_ e)).

(** The fields as [distanceSelf] packages them: those of active and dynamic
    links with the transposed pose of the link in [state], those of static
    links without a matrix. *)
Definition moving_field (state : RobotState) (link : LinkModel)
    (sdf : OpenVDBDistanceField.t) : SDFData :=
  mkSDFData (OpenVDBDistanceField.getGrid sdf)
            (Some (Mat4.transpose (getGlobalLinkTransform state link))).

Definition fixed_field (sdf : OpenVDBDistanceField.t) : SDFData :=
  mkSDFData (OpenVDBDistanceField.getGrid sdf) None.

Definition query_table (e : CollisionRobotOpenVDB.t) (state : RobotState) : SDFTable :=
  mkSDFTable (map fixed_field (static_sdf_ e))
             (zip_with (moving_field state) (dynamic_links_ e) (dynamic_sdf_ e))
             (zip_with (moving_field state) (active_links_ e) (active_sdf_ e)).

(** The field has a grid. *)
Abbreviation has_grid := (λ sdf : OpenVDBDistanceField.t, is_Some (OpenVDBDistanceField.grid_ sdf)).

(** Every field of a dynamic or static link has a grid. *)
Definition grids_present (e : CollisionRobotOpenVDB.t) : Prop :=
  Forall has_grid (dynamic_sdf_ e) ∧ Forall has_grid (static_sdf_ e).

#[global] Instance grids_present_dec e : Decision (grids_present e).
Proof. unfold grids_present. apply _. Defined.

(** Every static and every dynamic link has a shape of a kind that a field
    can take in. *)
Definition fields_ready (m : RobotModel) (e : CollisionRobotOpenVDB.t) : Prop :=
  ∀ link, link ∈ static_links_ e ∨ link ∈ dynamic_links_ e →
          Invariants.has_supported_shape m link.

(** What [distanceSelf] does after its three preparing loops, for the plans
    and the table they leave: the evaluation of the plans and the closing
    minimum search. *)
Definition evaluation `{External} (e : CollisionRobotOpenVDB.t) (req : DistanceRequest.t)
    (res : DistanceResult.t) (state : RobotState) : result DistanceResult.t :=
  distance ← for_each (evaluatePlan e (query_table e state)) (query_plans e req state)
                      (DistanceResult.distance res);
  index ← selectMinimum (background_ e) distance;
  let '(minimum, distance) := StdMap.subscript fresh_DistanceResultsData index distance in
  Ok (DistanceResult.mk minimum distance).

(** The state of the first loop of [distanceSelf] after [k] active links. *)
Definition snapshot_inv (e : CollisionRobotOpenVDB.t) (req : DistanceRequest.t)
    (state : RobotState) (k : nat) (s : list DistanceQueryData.t * list SDFData) : Prop :=
  length s.1 = length (dist_query_ e) ∧
  (∀ j, j < k → s.1 !! j = query_plans e req state !! j) ∧
  (∀ j, k ≤ j → s.1 !! j = dist_query_ e !! j) ∧
  s.2 = take k (zip_with (moving_field state) (active_links_ e) (active_sdf_ e)).
End QueryInputs.

(** ** Models on which the constructor completes *)

Module Completion.
Import CollisionRobotOpenVDB Reach Invariants.

(** A link with collision geometry that the walk of [createStaticSDFs]
    classifies as static: the root or a link reached from it. *)
Definition static_link (m : RobotModel) (x : LinkModel) : Prop :=
  x ∈ getLinkModelsWithCollisionGeometry m ∧
  (x = getRootLink m ∨ attached_path m (getRootLink m) x).

(** A link that some joint group lists. *)
Definition grouped (m : RobotModel) (x : LinkModel) : Prop :=
  ∃ g, g ∈ getJointModelGroups m ∧ x ∈ getLinkModels g.

(** No static link is listed by a joint group, a root that bears geometry
    is not reached back through fixed attachments, and every link with
    geometry that a joint group lists has a shape of a supported kind. *)
Definition constructible (m : RobotModel) : Prop :=
  (∀ x, static_link m x → ¬ grouped m x) ∧
  (getRootLink m ∈ getLinkModelsWithCollisionGeometry m →
   ¬ attached_path m (getRootLink m) (getRootLink m)) ∧
  (∀ x, grouped m x → x ∈ getLinkModelsWithCollisionGeometry m → has_supported_shape m x).
End Completion.

(** ** The mesh of a box *)

Module BoxMesh.
Import Tessellation.
Local Open Scope R_scope.

(** The points and faces of the case [shapes::BOX] of [addShapeToField],
    before the pose and the voxel size are applied. *)
Definition box_mesh (size : Vec3) : list Vec3 * list Vec4I :=
  let pmax := mkVec3 (Rabs (vx size) / 2) (Rabs (vy size) / 2) (Rabs (vz size) / 2) in
  let pmin := mkVec3 (-1 * vx pmax) (-1 * vy pmax) (-1 * vz pmax) in
  let points := [
    mkVec3 (vx pmin) (vy pmin) (vz pmin);
    mkVec3 (vx pmin) (vy pmin) (vz pmax);
    mkVec3 (vx pmax) (vy pmin) (vz pmax);
    mkVec3 (vx pmax) (vy pmin) (vz pmin);
    mkVec3 (vx pmin) (vy pmax) (vz pmin);
    mkVec3 (vx pmin) (vy pmax) (vz pmax);
    mkVec3 (vx pmax) (vy pmax) (vz pmax);
    mkVec3 (vx pmax) (vy pmax) (vz pmin)] in
  let quads : list Vec4I := [
    (0, 1, 2, Some 3);
    (7, 6, 5, Some 4);
    (4, 5, 1, Some 0);
    (6, 7, 3, Some 2);
    (0, 3, 7, Some 4);
    (1, 5, 6, Some 2)]%nat in
  (points, quads).

(** The side of the box on which face [i] of the table lies: the
    coordinate that its four corners share, and the sign of its value. *)
Definition face_axis (i : nat) : Vec3 → R :=
  match i with
  | 0 | 1 => vy
  | 2 | 3 => vx
  | _ => vz
  end%nat.
Definition face_sign (i : nat) : R := if Nat.even i then -1 else 1.
End BoxMesh.

(** ** The constructor from an archive *)

Module FromFile.
Import CollisionRobotOpenVDB.

(** What [openvdb::io::File] gives for an opened archive: [getGrids()] and
    [getMetadata()], each possibly null, the meta-data as the [float] values
    stored under their names. *)
Record Archive := mkArchive {
  getGrids : option (list Grid);
  getMetadata : option (string → option R)
}.

(** The outcome of [file.open()]: an exception of the library, a file that
    is not open afterwards, or an open archive. *)
Inductive Opened :=
| open_throws
| not_open
| opened (a : Archive).

(** What a call can throw. *)
Inductive Thrown :=
| runtime_error (what : string)
| library_exception.

Definition voxel_size_meta_name : string := "voxel_size".
Definition background_meta_name : string := "background".
Definition ex_bandwidth_meta_name : string := "exBandWidth".
Definition in_bandwidth_meta_name : string := "inBandWidth".

Definition readFromFile (open : string → Opened) (file_path : string)
  : Thrown + (list Grid * (string → option R)) :=
  match open file_path with
  | open_throws => inl library_exception
  | not_open =>
      inl (runtime_error ("Unable to load openvdb models from file: " ++ file_path))
  | opened a =>
      match getGrids a, getMetadata a with
      | None, _ => inl (runtime_error ("Unable to load any grids from file " ++ file_path))
      | Some _, None =>
          inl (runtime_error ("Unable to load meta-data from file: " ++ file_path))
      | Some grids, Some metadata => inr (grids, metadata)
      end
  end.

(** [metadata.metaValue<float>(name)], which throws when the name is
    missing. *)
Definition metaValue (metadata : string → option R) (name : string) : Thrown + R :=
  match metadata name with
  | Some v => inr v
  | None => inl library_exception
  end.

(** [CollisionRobotOpenVDB(model, file_path)]. *)
Definition create_from_file (open : string → Opened) (model : RobotModel)
    (file_path : string) : Thrown + CollisionRobotOpenVDB.t :=
  match readFromFile open file_path with
  | inl t => inl t
  | inr (grids, metadata) =>
      match metaValue metadata voxel_size_meta_name with
      | inl t => inl t
      | inr voxel_size =>
      match metaValue metadata background_meta_name with
      | inl t => inl t
      | inr background =>
      match metaValue metadata ex_bandwidth_meta_name with
      | inl t => inl t
      | inr exBandWidth =>
      match metaValue metadata in_bandwidth_meta_name with
      | inl t => inl t
      | inr inBandWidth => inl (runtime_error "Not implemented")
      end end end end
  end.

(** An archive with one empty list of grids and every value set to 1. *)
Definition sample_archive : Archive :=
  mkArchive (Some []) (Some (λ _, Some 1%R)).

(** An archive that has grids and the four values. *)
Definition complete (a : Archive) : Prop :=
  is_Some (getGrids a) ∧
  ∃ metadata, getMetadata a = Some metadata ∧
    is_Some (metadata voxel_size_meta_name) ∧ is_Some (metadata background_meta_name) ∧
    is_Some (metadata ex_bandwidth_meta_name) ∧ is_Some (metadata in_bandwidth_meta_name).
End FromFile.

(** ** Distances and the gradient flag *)

Module SameDistance.
Import CollisionRobotOpenVDB.

(** Two results that report the same distance between the same links. *)
Definition same_distance (d1 d2 : DistanceResultsData.t) : Prop :=
  DistanceResultsData.min_distance d1 = DistanceResultsData.min_distance d2 ∧
  DistanceResultsData.link_name d1 = DistanceResultsData.link_name d2 ∧
  DistanceResultsData.hasNearestPoints d1 = DistanceResultsData.hasNearestPoints d2.

(** Two plans that differ at most in their gradient flag. *)
Definition same_but_gradient (q1 q2 : DistanceQueryData.t) : Prop :=
  DistanceQueryData.parent_name q1 = DistanceQueryData.parent_name q2 ∧
  DistanceQueryData.child_name q1 = DistanceQueryData.child_name q2 ∧
  DistanceQueryData.child_index q1 = DistanceQueryData.child_index q2 ∧
  DistanceQueryData.child_type q1 = DistanceQueryData.child_type q2 ∧
  DistanceQueryData.spheres q1 = DistanceQueryData.spheres q2 ∧
  DistanceQueryData.empty q1 = DistanceQueryData.empty q2.

(** Two result maps with the same keys and, under each key, the same
    distance between the same links. *)
Definition same_entries (m1 m2 : list (string * DistanceResultsData.t)) : Prop :=
  Forall2 (λ a b, a.1 = b.1 ∧ same_distance a.2 b.2) m1 m2.
End SameDistance.

(** ** The pairs of links a query looks at *)

Module Coverage.
Import CollisionRobotOpenVDB Plans.

(** The plan of the active link [parent] lists [child] as a candidate. *)
Definition checked_pair (e : CollisionRobotOpenVDB.t) (parent child : string) : Prop :=
  ∃ j data l i ty,
    active_links_ e !! j = Some parent ∧ dist_query_ e !! j = Some data ∧
    has_children data l ∧ (child, i, ty) ∈ l.
End Coverage.

(** ** Point clouds and memory use of an engine *)

Module Utilities.
Import CollisionRobotOpenVDB.

Abbreviation PointCloud := (list Vec3).

Section Clouds.
(** [distance_field::toInsideOutsidePointCloud], applied to a grid as it is
    ([None]) or to a copy whose transform was made from a matrix and the
    grid's voxel size ([makeTransform]): the points inside and outside.
    The function is left abstract and taken to return. *)
Variable toInsideOutsidePointCloud : Grid → option Mat4d → PointCloud * PointCloud.

(** The body of each of the three loops of [voxelGridToPointClouds]: a
    link on the exclude list is skipped before its field is looked at. *)
Definition cloud_step (exclude_list : list string) (tf : LinkModel → option Mat4d)
    (sdfs : list OpenVDBDistanceField.t) (acc : PointCloud * PointCloud)
    (il : nat * LinkModel) : result (PointCloud * PointCloud) :=
  let '(i, link) := il in
  if bool_decide (link ∈ exclude_list) then Ok acc
  else
    sdf ← at_index sdfs i;
    grid ← deref (OpenVDBDistanceField.getGrid sdf);
    let f := toInsideOutsidePointCloud grid (tf link) in
    Ok (acc.1 ++ f.1, acc.2 ++ f.2).

(** [voxelGridToPointClouds(state, exclude_list)]. *)
Definition voxelGridToPointClouds (e : CollisionRobotOpenVDB.t) (state : RobotState)
    (exclude_list : list string) : result (PointCloud * PointCloud) :=
  let moving (link : LinkModel) :=
    Some (Affine3dToMat4dAffine (getGlobalLinkTransform state link)) in
  clouds ← for_each (cloud_step exclude_list moving (active_sdf_ e))
                    (imap pair (active_links_ e)) ([], []);
  clouds ← for_each (cloud_step exclude_list moving (dynamic_sdf_ e))
                    (imap pair (dynamic_links_ e)) clouds;
  for_each (cloud_step exclude_list (λ _, None) (static_sdf_ e))
           (imap pair (static_links_ e)) clouds.
End Clouds.

Section Memory.
(** [grid.memUsage()] of the library, a [uint64_t]. *)
Variable grid_memUsage : Grid → Z.

(** [OpenVDBDistanceField::memUsage()]. *)
Definition field_memUsage (f : OpenVDBDistanceField.t) : result Z :=
  grid ← deref (OpenVDBDistanceField.grid_ f);
  Ok (grid_memUsage grid).

(** [mem_usage += sdf->memUsage()] on a [uint64_t]. *)
Definition add_memUsage (mem_usage : Z) (sdf : OpenVDBDistanceField.t) : result Z :=
  u ← field_memUsage sdf;
  Ok ((mem_usage + u) mod 2 ^ 64)%Z.

(** [CollisionRobotOpenVDB::memUsage()]. *)
Definition memUsage (e : CollisionRobotOpenVDB.t) : result Z :=
  mem_usage ← for_each add_memUsage (static_sdf_ e) 0%Z;
  mem_usage ← for_each add_memUsage (dynamic_sdf_ e) mem_usage;
  for_each add_memUsage (active_sdf_ e) mem_usage.
End Memory.

(** Every field of a vector has a grid exactly when its link has a shape of
    a supported kind. *)
Definition grids_follow_shapes (m : RobotModel) (links : list LinkModel)
    (sdfs : list OpenVDBDistanceField.t) : Prop :=
  Forall2 (λ link sdf, is_Some (OpenVDBDistanceField.grid_ sdf) ↔
                       Invariants.has_supported_shape m link) links sdfs.
End Utilities.

(** * Properties *)

Import CollisionRobotOpenVDB.

(** ** The outcome monad *)

Lemma bind_Ok {A B} (r : result A) (k : A → result B) (b : B) :
  r ≫= k = Ok b ↔ ∃ a, r = Ok a ∧ k a = Ok b.
Proof.
  destruct r as [a|f]; simpl.
  - split; [eauto | intros (a' & [= <-] & Hk); exact Hk].
  - split; [discriminate | intros (a' & [=] & _)].
Qed.

Lemma bind_of_Ok {A B} (a : A) (k : A → result B) : Ok a ≫= k = k a.
Proof. reflexivity. Qed.

Lemma for_each_app {A S} (body : S → A → result S) (l1 l2 : list A) (s : S) :
  for_each body (l1 ++ l2) s = for_each body l1 s ≫= for_each body l2.
Proof.
  revert s. induction l1 as [|a l1 IH]; intros s; simpl; [reflexivity|].
  destruct (body s a) as [s'|f]; simpl; [apply IH | reflexivity].
Qed.

(** A loop invariant for [for_each]. *)
Lemma for_each_invariant {A S} (P : S → Prop) (body : S → A → result S) (l : list A) :
  (∀ s a s', a ∈ l → P s → body s a = Ok s' → P s') →
  ∀ s s', P s → for_each body l s = Ok s' → P s'.
Proof.
  induction l as [|a l IH]; intros Hbody s s' Hs; simpl.
  - intros [= <-]. exact Hs.
  - intros (s1 & H1 & H2)%bind_Ok.
    apply (IH (λ s0 x s0' Hx, Hbody s0 x s0' (list_elem_of_further _ _ _ Hx)) s1 s');
      [|exact H2].
    apply (Hbody s a s1); [left | exact Hs | exact H1].
Qed.

(** ** The allow-list *)

Module AllowListFacts.
Import AllowedCollisionMatrix.

Lemma getAllowedCollision_put (acm : AllowedCollisionMatrix.t) n1 n2 v x y :
  getAllowedCollision (put acm n1 n2 v) x y =
  if decide (x = n1 ∧ y = n2) then Some v else getAllowedCollision acm x y.
Proof.
  unfold getAllowedCollision, put.
  destruct (decide (x = n1)) as [->|Hx].
  - rewrite lookup_insert_eq. simpl.
    destruct (decide (y = n2)) as [->|Hy].
    + rewrite lookup_insert_eq. rewrite decide_True; [reflexivity | split; reflexivity].
    + rewrite lookup_insert_ne by congruence.
      rewrite decide_False by (intros [_ ?]; congruence).
      destruct (acm !! n1); simpl; [reflexivity | apply lookup_empty].
  - rewrite lookup_insert_ne by congruence.
    rewrite decide_False by (intros [? _]; congruence). reflexivity.
Qed.

Lemma getAllowedCollision_setEntry (acm : AllowedCollisionMatrix.t) n1 n2 allowed x y :
  getAllowedCollision (setEntry acm n1 n2 allowed) x y =
  if decide ((x = n1 ∧ y = n2) ∨ (x = n2 ∧ y = n1))
  then Some (if allowed then AllowedCollision.ALWAYS else AllowedCollision.NEVER)
  else getAllowedCollision acm x y.
Proof.
  unfold setEntry. rewrite !getAllowedCollision_put.
  repeat case_decide; try reflexivity; tauto.
Qed.

Lemma built_symmetric (acm : AllowedCollisionMatrix.t) :
  built acm → ∀ x y, getAllowedCollision acm x y = getAllowedCollision acm y x.
Proof.
  induction 1 as [|acm n1 n2 allowed _ IH]; intros x y.
  - unfold getAllowedCollision, AllowedCollisionMatrix.empty.
    rewrite !lookup_empty. reflexivity.
  - rewrite !getAllowedCollision_setEntry.
    repeat case_decide; try reflexivity; try tauto. apply IH.
Qed.

Lemma foldl_built {A} (f : AllowedCollisionMatrix.t → A → AllowedCollisionMatrix.t) l :
  (∀ acm a, built acm → built (f acm a)) → ∀ acm, built acm → built (foldl f acm l).
Proof.
  intros Hf. induction l as [|a l IH]; intros acm Hacm; simpl; [exact Hacm|].
  apply IH, Hf, Hacm.
Qed.

(** The allow-list that the constructor derives from the model is one the
    interface produces. *)
Lemma createDefaultAllowedCollisionMatrix_built e :
  allow_list (acm_ (createDefaultAllowedCollisionMatrix e)).
Proof.
  unfold createDefaultAllowedCollisionMatrix. simpl.
  apply foldl_built; [intros; apply built_setEntry; assumption|].
  unfold setEntry_names. apply foldl_built; [|apply built_empty].
  intros acm name Hacm. unfold setEntry_name_names. apply foldl_built; [|exact Hacm].
  intros acm' other Hacm'. case_decide; [exact Hacm' | apply built_setEntry, Hacm'].
Qed.

Lemma isCollisionAllowed_entry l1 l2 acm :
  isCollisionAllowed l1 l2 acm = true ↔ entry acm l1 l2 = Some AllowedCollision.ALWAYS.
Proof.
  unfold isCollisionAllowed, entry.
  destruct acm as [acm|]; simpl; [|split; discriminate].
  destruct (getAllowedCollision acm l1 l2) as [ty|]; [|split; discriminate].
  rewrite bool_decide_eq_true. split; congruence.
Qed.

(** C8.  For every pair of link names and every allow-list (a null pointer
    or a matrix built through [setEntry]), the decision "the pair must be
    queried", which is the negation of [isCollisionAllowed], is true when the
    allow-list has no entry for the pair, is false exactly when the pair has
    an explicit [ALWAYS] entry, is the same for (A, B) and (B, A), and is
    true for every pair when the allow-list is null. *)
Theorem query_required_default_and_symmetric (A B : string)
    (acm : option AllowedCollisionMatrix.t) :
  allow_list acm →
  (entry acm A B = None → negb (isCollisionAllowed A B acm) = true) ∧
  (negb (isCollisionAllowed A B acm) = false ↔ entry acm A B = Some AllowedCollision.ALWAYS) ∧
  negb (isCollisionAllowed A B acm) = negb (isCollisionAllowed B A acm) ∧
  (acm = None → negb (isCollisionAllowed A B acm) = true).
Proof.
  intros Hacm. repeat split.
  - intros Hnone. apply negb_true_iff, not_true_iff_false.
    rewrite isCollisionAllowed_entry, Hnone. discriminate.
  - intros Hq%negb_false_iff. apply isCollisionAllowed_entry, Hq.
  - intros Hq. apply negb_false_iff, isCollisionAllowed_entry, Hq.
  - f_equal. destruct acm as [acm|]; [|reflexivity].
    unfold isCollisionAllowed. rewrite (built_symmetric acm Hacm A B). reflexivity.
  - intros ->. reflexivity.
Qed.

Lemma query_required_default_and_symmetric_witness :
  let acm := Some (setEntry AllowedCollisionMatrix.empty "link_1" "link_2" true) in
  allow_list acm ∧
  negb (isCollisionAllowed "link_1" "link_2" acm) = negb (isCollisionAllowed "link_2" "link_1" acm).
Proof.
  simpl. split.
  - apply built_setEntry, built_empty.
  - apply (query_required_default_and_symmetric "link_1" "link_2"
             (Some (setEntry AllowedCollisionMatrix.empty "link_1" "link_2" true))).
    apply built_setEntry, built_empty.
Defined.
End AllowListFacts.

(** ** Distance queries on one field *)

Module FieldFacts.
Import OpenVDBDistanceField.

Lemma addShapeToField_unsupported f shape pose ex inb :
  unsupported shape = true → addShapeToField f shape pose ex inb = f.
Proof. destruct shape; simpl; (discriminate || reflexivity). Qed.

Lemma addShapes_unsupported f shapes shape_poses pose ex inb j f' :
  Forall (λ s, unsupported s = true) shapes →
  addShapes f shapes shape_poses pose ex inb j = Ok f' → f' = f.
Proof.
  intros Hall. revert j. induction Hall as [|s shapes Hs _ IH]; intros j; simpl.
  - congruence.
  - intros (sp & _ & Hrest)%bind_Ok.
    rewrite (addShapeToField_unsupported _ _ _ _ _ Hs) in Hrest. eauto.
Qed.

(** The grid and its accessor are set together. *)
Lemma addShapeToField_accessor f shape pose ex inb :
  accessor_ f = grid_ f →
  accessor_ (addShapeToField f shape pose ex inb) = grid_ (addShapeToField f shape pose ex inb).
Proof. intros Hf. destruct shape; simpl; (exact Hf || reflexivity). Qed.

Section WithLibrary.
Context `{External}.

(** A field into which no shape was ever inserted is still the field that
    the constructor made. *)
Lemma never_filled_new_field f :
  Invariants.never_filled f → ∃ voxel_size background, f = new voxel_size background.
Proof.
  induction 1 as [v b|f shape pose ex inb _ IH Hshape]; [eauto|].
  rewrite (addShapeToField_unsupported _ _ _ _ _ Hshape). exact IH.
Qed.

(** The field of a link whose shapes are all of a kind that
    [addShapeToField] rejects is such a field. *)
Lemma addLinkToField_never_filled m link pose voxel_size background ex inb f :
  Forall (λ s, unsupported s = true) (getShapes m link) →
  addLinkToField m (new voxel_size background) link pose ex inb = Ok f →
  Invariants.never_filled f.
Proof.
  intros Hall Hadd. apply addShapes_unsupported in Hadd; [subst f | exact Hall].
  constructor.
Qed.

(** C9, as the code has it.  A field created from a voxel size and a
    background value into which no shape was ever inserted (every call of
    [addShapeToField] on it was for a shape of a kind that the function
    rejects) answers every distance query made in cached-accessor mode with
    0, whatever its background value is, for every voxel coordinate and
    every query point. *)
Theorem getDistance_empty_field_cached (f : OpenVDBDistanceField.t) :
  Invariants.never_filled f →
  (∀ coord, getDistance f coord false = Ok 0%R) ∧
  (∀ x y z, getDistance_xyz f x y z false = Ok 0%R) ∧
  (∀ point, getDistance_point f point false = Ok 0%R).
Proof.
  intros (v & b & ->)%never_filled_new_field.
  repeat split; intros; reflexivity.
Qed.

End WithLibrary.
End FieldFacts.

Module FieldExamples.
Import OpenVDBDistanceField.

Lemma getDistance_empty_field_cached_witness :
  let f := addShapeToField Examples.empty_field PLANE Mat4.Identity 3 3 in
  Invariants.never_filled f ∧ background_ f = 10%R ∧
  getDistance (H := Examples.one_sphere_lib) f (mkCoord 4 5 6) false = Ok 0%R ∧
  getDistance_point (H := Examples.one_sphere_lib) f (mkVec3 4 5 6) false = Ok 0%R.
Proof.
  intros f.
  assert (Hf : Invariants.never_filled f).
  { apply Invariants.never_filled_rejected; [apply Invariants.never_filled_new | reflexivity]. }
  split; [exact Hf|]. split; [reflexivity|].
  destruct (FieldFacts.getDistance_empty_field_cached (H := Examples.one_sphere_lib) f Hf)
    as (Hcoord & _ & Hpoint).
  split; [apply Hcoord | apply Hpoint].
Defined.

(** C9, as stated, fails on the empty field with background 10: in
    cached-accessor mode the query returns 0 and not the background, and in
    thread-safe mode it dereferences the null grid pointer and returns
    nothing. *)
Lemma getDistance_empty_field_not_background :
  let f := Examples.empty_field in
  let coord := mkCoord 0 0 0 in
  background_ f = 10%R ∧
  getDistance (H := Examples.one_sphere_lib) f coord false = Ok 0%R ∧
  getDistance (H := Examples.one_sphere_lib) f coord false ≠ Ok (background_ f) ∧
  getDistance (H := Examples.one_sphere_lib) f coord true = Fail NullDereference.
Proof.
  simpl. repeat split; try reflexivity.
  unfold getDistance; simpl. intros [= Heq]. lra.
Qed.
End FieldExamples.

(** ** The self-distance query and the request's group *)

Module GroupFacts.
Section WithLibrary.
Context `{External}.

Lemma snapshotActive_gradient_only e req1 req2 state :
  DistanceRequest.gradient req1 = DistanceRequest.gradient req2 →
  snapshotActive e req1 state = snapshotActive e req2 state.
Proof. intros Hg. unfold snapshotActive. rewrite Hg. reflexivity. Qed.

(** What [distanceSelf] does once the group pointer has been dereferenced:
    nothing in it mentions the group. *)
Lemma distanceSelf_known_group e req res state group :
  getJointModelGroup (robot_model_ e) (DistanceRequest.group_name req) = Some group →
  distanceSelf e req res state =
  ('(dist_query, data_Active) ←
     for_each (snapshotActive e req state) (imap pair (active_links_ e)) (dist_query_ e, []);
   data_Dynamic ← for_each (packageDynamic e state) (imap pair (dynamic_links_ e)) [];
   data_Static ← for_each (packageStatic e) (imap pair (static_links_ e)) [];
   let data := mkSDFTable data_Static data_Dynamic data_Active in
   distance ← for_each (evaluatePlan e data) dist_query (DistanceResult.distance res);
   index ← selectMinimum (background_ e) distance;
   let '(minimum, distance) := StdMap.subscript fresh_DistanceResultsData index distance in
   Ok (DistanceResult.mk minimum distance)).
Proof. intros Hg. unfold distanceSelf. rewrite Hg. reflexivity. Qed.

(** C6, what the code does.  When the request names no joint group of the
    model, [distanceSelf] dereferences the null pointer that
    [getJointModelGroup] returned: the call has no defined behaviour, and no
    test of the pointer precedes the dereference. *)
Theorem distanceSelf_unknown_group e req res state :
  getJointModelGroup (robot_model_ e) (DistanceRequest.group_name req) = None →
  distanceSelf e req res state = Fail NullDereference.
Proof. intros Hg. unfold distanceSelf. rewrite Hg. reflexivity. Qed.

(** C10.  Two requests that differ only in the joint group they name, both
    groups being groups of the model, get the same outcome from
    [distanceSelf] on every engine, result object and robot state. *)
Theorem distanceSelf_independent_of_group e req1 req2 res state :
  DistanceRequest.gradient req1 = DistanceRequest.gradient req2 →
  is_Some (getJointModelGroup (robot_model_ e) (DistanceRequest.group_name req1)) →
  is_Some (getJointModelGroup (robot_model_ e) (DistanceRequest.group_name req2)) →
  distanceSelf e req1 res state = distanceSelf e req2 res state.
Proof.
  intros Hgrad [g1 Hg1] [g2 Hg2].
  rewrite (distanceSelf_known_group _ _ _ _ _ Hg1), (distanceSelf_known_group _ _ _ _ _ Hg2).
  rewrite (snapshotActive_gradient_only e req1 req2 state Hgrad). reflexivity.
Qed.

End WithLibrary.
End GroupFacts.

(** ** Construction: the shape of the engine *)

Module ConstructionFacts.
Import Invariants.

(** A loop whose body adds one to a measure adds the length of the list. *)
Lemma for_each_count {A St} (μ : St → nat) (body : St → A → result St) (l : list A) :
  (∀ s a s', body s a = Ok s' → μ s' = S (μ s)) →
  ∀ s s', for_each body l s = Ok s' → μ s' = μ s + length l.
Proof.
  intros Hbody. induction l as [|a l IH]; intros s s'; simpl.
  - intros [= <-]. lia.
  - intros (s1 & H1 & H2)%bind_Ok.
    rewrite (IH _ _ H2), (Hbody _ _ _ H1). lia.
Qed.

(** A loop whose body always succeeds on states satisfying an invariant
    succeeds. *)
Lemma for_each_total {A St} (P : St → Prop) (body : St → A → result St) (l : list A) :
  (∀ s a, a ∈ l → P s → ∃ s', body s a = Ok s' ∧ P s') →
  ∀ s, P s → ∃ s', for_each body l s = Ok s' ∧ P s'.
Proof.
  induction l as [|a l IH]; intros Hbody s Hs; simpl.
  - eauto.
  - destruct (Hbody s a) as (s1 & H1 & Hs1); [left | exact Hs |].
    rewrite H1. simpl. apply IH; [|exact Hs1].
    intros s0 x Hx. apply Hbody. right. exact Hx.
Qed.

Lemma at_index_Ok {A} (v : list A) (i : nat) (a : A) :
  at_index v i = Ok a ↔ v !! i = Some a.
Proof. unfold at_index. destruct (v !! i); split; congruence. Qed.

Lemma at_index_lt {A} (v : list A) (i : nat) :
  i < length v → ∃ a, at_index v i = Ok a.
Proof.
  intros Hi. destruct (lookup_lt_is_Some_2 v i Hi) as [a Ha].
  exists a. apply at_index_Ok, Ha.
Qed.

(** *** Static links *)

(** What [addStatic] leaves behind: nothing when the link has no collision
    geometry, one more static link with a field of its own otherwise. *)
Lemma addStatic_Ok e link pose e' :
  addStatic e link pose = Ok e' →
  ((link ∉ links_ e) ∧ e' = e) ∨
  (link ∈ links_ e ∧
   ∃ sdf, OpenVDBDistanceField.addLinkToField
            (robot_model_ e) (OpenVDBDistanceField.new (voxel_size_ e) (background_ e))
            link pose (exBandWidth_ e) (inBandWidth_ e) = Ok sdf ∧
          e' = push_static e link sdf).
Proof.
  unfold addStatic. case_decide as Hin.
  - intros (sdf & Hsdf & [= <-])%bind_Ok. right. eauto.
  - intros [= <-]. left. auto.
Qed.

Lemma same_but_static_refl e : same_but_static e e.
Proof. destruct e; reflexivity. Qed.

Lemma same_but_static_trans e1 e2 e3 :
  same_but_static e1 e2 → same_but_static e2 e3 → same_but_static e1 e3.
Proof.
  unfold same_but_static. intros H12 H23. rewrite H23. rewrite H12. simpl. reflexivity.
Qed.

Lemma same_but_static_push e link sdf : same_but_static e (push_static e link sdf).
Proof. reflexivity. Qed.

Lemma static_inv_config e0 e :
  static_inv e0 e →
  robot_model_ e = robot_model_ e0 ∧ voxel_size_ e = voxel_size_ e0 ∧
  background_ e = background_ e0 ∧ exBandWidth_ e = exBandWidth_ e0 ∧
  inBandWidth_ e = inBandWidth_ e0 ∧ links_ e = links_ e0.
Proof. intros [-> _]. simpl. repeat split. Qed.

Lemma addStatic_inv e0 e link pose e' :
  static_inv e0 e → static_pose (robot_model_ e0) link pose →
  addStatic e link pose = Ok e' → static_inv e0 e'.
Proof.
  intros Hinv Hpose Hadd.
  destruct (static_inv_config _ _ Hinv) as (Hm & Hv & Hb & Hex & Hin & Hl).
  destruct (addStatic_Ok _ _ _ _ Hadd) as [[_ ->]|(Hlink & sdf & Hsdf & ->)]; [exact Hinv|].
  destruct Hinv as [Hsame Hall]. split.
  - eapply same_but_static_trans; [exact Hsame | apply same_but_static_push].
  - simpl. apply Forall2_app; [exact Hall|].
    constructor; [|constructor]. split; [congruence|].
    exists pose. split; [exact Hpose | congruence].
Qed.

Lemma visitAttached_inv e0 parent recurse :
  (∀ e link s e' s', static_inv e0 e → recurse e link s = Ok (e', s') → static_inv e0 e') →
  ∀ fixed_attached e s e' s',
    fixed_attached ⊆ getAssociatedFixedTransforms (robot_model_ e0) parent →
    static_inv e0 e →
    visitAttached recurse fixed_attached e s = Ok (e', s') → static_inv e0 e'.
Proof.
  intros Hrec. induction fixed_attached as [|[first second] rest IH];
    intros e s e' s' Hsub Hinv; simpl.
  - intros [= <- _]. exact Hinv.
  - assert (Hrest : rest ⊆ getAssociatedFixedTransforms (robot_model_ e0) parent).
    { intros x Hx. apply Hsub. right. exact Hx. }
    case_decide.
    + apply IH; assumption.
    + intros (e1 & H1 & ([e2 s2] & H2 & H3)%bind_Ok)%bind_Ok.
      eapply IH; [exact Hrest | | exact H3].
      eapply Hrec; [|exact H2].
      eapply addStatic_inv; [exact Hinv | | exact H1].
      right. exists parent. apply Hsub. left.
Qed.

Lemma addAssociatedFixedTransforms_inv e0 fuel :
  ∀ e link s e' s', static_inv e0 e →
    addAssociatedFixedTransforms fuel e link s = Ok (e', s') → static_inv e0 e'.
Proof.
  induction fuel as [|fuel IH]; intros e link s e' s' Hinv; simpl; [discriminate|].
  destruct (static_inv_config _ _ Hinv) as (Hm & _).
  apply (visitAttached_inv e0 link _ IH); [|exact Hinv].
  rewrite Hm. reflexivity.
Qed.

Lemma createStaticSDFs_inv e0 e :
  static_links_ e0 = [] → static_sdf_ e0 = [] →
  createStaticSDFs e0 = Ok e → static_inv e0 e.
Proof.
  intros Hl Hs. unfold createStaticSDFs.
  intros (e1 & H1 & ([e2 s2] & H2 & [= <-])%bind_Ok)%bind_Ok.
  assert (Hinv0 : static_inv e0 e0).
  { split; [apply same_but_static_refl | rewrite Hl, Hs; constructor]. }
  assert (Hinv1 : static_inv e0 e1).
  { eapply addStatic_inv; [exact Hinv0 | | exact H1]. left. auto. }
  eapply addAssociatedFixedTransforms_inv; [exact Hinv1 | exact H2].
Qed.

(** *** The walk over fixed attachments returns *)

Lemma addShapes_total f shapes shape_poses pose ex inb j :
  length shapes + j ≤ length shape_poses →
  ∃ f', OpenVDBDistanceField.addShapes f shapes shape_poses pose ex inb j = Ok f'.
Proof.
  revert f j. induction shapes as [|shape shapes IH]; intros f j Hlen; simpl in *.
  - eauto.
  - destruct (at_index_lt shape_poses j) as [sp ->]; [lia|]. simpl.
    apply IH. lia.
Qed.

Lemma addLinkToField_total m f link pose ex inb :
  origins_cover_shapes m →
  ∃ f', OpenVDBDistanceField.addLinkToField m f link pose ex inb = Ok f'.
Proof.
  intros Hm. unfold OpenVDBDistanceField.addLinkToField.
  apply addShapes_total. specialize (Hm link). lia.
Qed.

Lemma addStatic_total e link pose :
  origins_cover_shapes (robot_model_ e) →
  ∃ e', addStatic e link pose = Ok e' ∧ robot_model_ e' = robot_model_ e.
Proof.
  intros Hm. unfold addStatic. case_decide; [|eauto].
  destruct (addLinkToField_total (robot_model_ e)
              (OpenVDBDistanceField.new (voxel_size_ e) (background_ e)) link pose
              (exBandWidth_ e) (inBandWidth_ e) Hm) as [sdf ->].
  simpl. eauto.
Qed.

Lemma unvisited_mono U s s' : s ⊆ s' → unvisited U s' ≤ unvisited U s.
Proof.
  intros Hsub. unfold unvisited. induction U as [|u U IH]; [reflexivity|].
  rewrite !filter_cons. repeat case_decide; simpl; try lia.
  exfalso. auto.
Qed.

Lemma unvisited_push U s x : x ∈ U → x ∉ s → unvisited U (s ++ [x]) < unvisited U s.
Proof.
  intros HxU Hxs. unfold unvisited. induction U as [|u U IH]; [inversion HxU|].
  assert (Hle : length (filter (λ u0, u0 ∉ s ++ [x]) U) ≤ length (filter (λ u0, u0 ∉ s) U)).
  { apply (unvisited_mono U s (s ++ [x])). intros y Hy. apply elem_of_app. left. exact Hy. }
  rewrite !filter_cons.
  destruct (decide (u = x)) as [->|Hne].
  - rewrite decide_False by (intros Hn; apply Hn, elem_of_app; right; left).
    rewrite decide_True by exact Hxs. simpl. lia.
  - assert (HxU' : x ∈ U).
    { apply elem_of_cons in HxU as [->|?]; [congruence | assumption]. }
    specialize (IH HxU').
    destruct (decide (u ∉ s)) as [Hus|Hus].
    + rewrite decide_True; [simpl; lia|].
      intros [?|Hux%list_elem_of_singleton]%elem_of_app; [auto | congruence].
    + rewrite decide_False; [lia|].
      intros Hn. apply Hus. intros Hin. apply Hn, elem_of_app. left. exact Hin.
Qed.

Section WalkReturns.
Variable m : RobotModel.
Hypothesis Hclosed : attachments_closed m.
Hypothesis Horigins : origins_cover_shapes m.

Local Abbreviation U := (link_model_vector_ m).

Lemma visitAttached_total fuel recurse :
  walk_returns m fuel recurse →
  ∀ fixed_attached e s,
    (∀ x, x ∈ fixed_attached → x.1 ∈ U) →
    robot_model_ e = m → unvisited U s < S fuel →
    ∃ e' s', visitAttached recurse fixed_attached e s = Ok (e', s') ∧ s ⊆ s' ∧
             robot_model_ e' = m.
Proof.
  intros Hrec. induction fixed_attached as [|[first second] rest IH];
    intros e s HU Hm Hfuel; simpl.
  - exists e, s. auto.
  - assert (HUrest : ∀ x, x ∈ rest → x.1 ∈ U) by (intros x Hx; apply HU; right; exact Hx).
    case_decide as Hseen; [apply IH; assumption|].
    assert (Hfirst : first ∈ U) by (apply (HU (first, second)); left).
    pose proof (unvisited_push U s first Hfirst Hseen) as Hless.
    destruct (addStatic_total e first second) as (e1 & -> & Hm1); [rewrite Hm; exact Horigins|].
    simpl.
    destruct (Hrec e1 first (s ++ [first])) as (e2 & s2 & -> & Hsub2 & Hm2);
      [congruence | lia |].
    simpl.
    destruct (IH e2 s2 HUrest Hm2) as (e3 & s3 & -> & Hsub3 & Hm3).
    { pose proof (unvisited_mono U _ _ Hsub2). lia. }
    exists e3, s3. split; [reflexivity|]. split; [|exact Hm3].
    intros y Hy. apply Hsub3, Hsub2, elem_of_app. left. exact Hy.
Qed.

Lemma addAssociatedFixedTransforms_total fuel :
  walk_returns m fuel (addAssociatedFixedTransforms fuel).
Proof.
  induction fuel as [|fuel IH]; intros e link s Hm Hfuel; [lia|]. simpl.
  apply (visitAttached_total fuel _ IH); [|exact Hm|exact Hfuel].
  intros x Hx. rewrite Hm in Hx. apply (Hclosed link x Hx).
Qed.

Lemma createStaticSDFs_total e :
  robot_model_ e = m → ∃ e', createStaticSDFs e = Ok e'.
Proof.
  intros Hm. unfold createStaticSDFs.
  destruct (addStatic_total e (getRootLink (robot_model_ e)) Mat4.Identity)
    as (e1 & -> & Hm1); [rewrite Hm; exact Horigins|].
  destruct (addAssociatedFixedTransforms_total
              (S (length (link_model_vector_ (robot_model_ e)))) e1
              (getRootLink (robot_model_ e)) []) as (e2 & s2 & Hwalk & _ & _).
  - congruence.
  - unfold unvisited. rewrite Hm.
    pose proof (length_filter (λ u, u ∉ []) U). lia.
  - simpl in Hwalk |- *. rewrite Hwalk. simpl. eauto.
Qed.

End WalkReturns.
End ConstructionFacts.

(** ** Static links: one field each *)

Module StaticFacts.
Import Invariants ConstructionFacts.







(** The pose of a static link that the walk reaches through another link.
    On the column on its plinth the walk reaches the column from the
    plinth, and the column's box is inserted at the column's pose relative
    to the plinth, which is not its pose relative to the root. *)
Lemma column_inserted_relative_to_plinth :
  (e ← createStaticSDFs
         (createDefaultAllowedCollisionMatrix (init Examples2.column_on_plinth 1 10 3 3));
   Ok (static_links_ e, map OpenVDBDistanceField.grid_ (static_sdf_ e)))
  = Ok (["plinth"; "column"],
        [Some (meshToVolume Examples.unit_box
                 (Mat4.mul (Examples2.shift 1 0 0) Mat4.Identity) 1 3 3);
         Some (meshToVolume Examples.unit_box
                 (Mat4.mul (Examples2.shift 0 1 0) Mat4.Identity) 1 3 3)]) ∧
  Examples2.shift 0 1 0 ≠ Examples2.shift 1 1 0.
Proof.
  split; [vm_compute; reflexivity|].
  unfold Examples2.shift. intros [= Hx]. lra.
Qed.
End StaticFacts.

(** ** The three classes *)

Module ClassFacts.
Import Invariants ConstructionFacts.

(** [createActiveSDFs] decides the active links with [collectActive], which
    looks at [links_] and at the active links found so far and never at
    [static_links_]. *)
Lemma createActiveSDFs_links `{External} e e' :
  createActiveSDFs e = Ok e' →
  active_links_ e' = collectActive (links_ e) (getJointModelGroups (robot_model_ e))
                                   (active_links_ e) ∧
  static_links_ e' = static_links_ e ∧ static_sdf_ e' = static_sdf_ e ∧
  links_ e' = links_ e.
Proof.
  unfold createActiveSDFs. intros ([sdfs spheres] & _ & [= <-])%bind_Ok.
  simpl. auto.
Qed.

Lemma filter_absent (v : list LinkModel) x : x ∉ v → filter (λ y, y ≠ x) v = v.
Proof.
  intros Hnin. induction v as [|y v IH]; [reflexivity|].
  rewrite filter_cons. apply not_elem_of_cons in Hnin as [Hne Hnin].
  rewrite decide_True by congruence. f_equal. apply IH, Hnin.
Qed.

(** Erasing a link that is present once removes it. *)
Lemma erase_remove_Ok v x v' :
  NoDup v → erase_remove v x = Ok v' →
  x ∈ v ∧ v' = filter (λ y, y ≠ x) v ∧ v ≡ₚ x :: v' ∧ NoDup v'.
Proof.
  intros Hnd. unfold erase_remove. case_decide as Hlen; [discriminate|].
  intros [= <-].
  assert (Hin : x ∈ v).
  { destruct (decide (x ∈ v)) as [Hin|Hnin]; [exact Hin|]. exfalso. apply Hlen.
    rewrite (filter_absent v x Hnin). reflexivity. }
  assert (Hperm : v ≡ₚ x :: filter (λ y, y ≠ x) v).
  { clear Hlen. induction Hnd as [|y v Hy Hnd IH]; [inversion Hin|].
    rewrite filter_cons. destruct (decide (y = x)) as [->|Hne].
    - rewrite decide_False by (intros Hn; apply Hn; reflexivity).
      rewrite (filter_absent v x Hy). reflexivity.
    - rewrite decide_True by exact Hne.
      apply elem_of_cons in Hin as [->|Hin]; [congruence|].
      rewrite (IH Hin) at 1. apply Permutation_swap. }
  assert (Hdrop : drop (S (length (filter (λ y, y ≠ x) v))) v = []).
  { apply drop_ge. apply Permutation_length in Hperm. simpl in Hperm. lia. }
  rewrite Hdrop, app_nil_r. repeat split; try assumption.
  apply NoDup_filter, Hnd.
Qed.

(** Erasing a link that is absent has no defined behaviour. *)
Lemma erase_remove_absent v x : x ∉ v → erase_remove v x = Fail EraseAtEnd.
Proof.
  intros Hnin. unfold erase_remove. rewrite decide_True; [reflexivity|].
  rewrite (filter_absent v x Hnin). reflexivity.
Qed.

Lemma for_each_erase_remove l : ∀ v v',
  NoDup v → for_each erase_remove l v = Ok v' → v ≡ₚ l ++ v' ∧ NoDup v'.
Proof.
  induction l as [|x l IH]; intros v v' Hnd; simpl.
  - intros [= <-]. auto.
  - intros (v1 & H1 & H2)%bind_Ok.
    destruct (erase_remove_Ok _ _ _ Hnd H1) as (_ & _ & Hperm & Hnd1).
    destruct (IH _ _ Hnd1 H2) as [Hperm2 Hnd2].
    split; [|exact Hnd2]. rewrite Hperm, Hperm2. reflexivity.
Qed.

(** On every engine on which [createDynamicSDFs] completes, the three link
    vectors together are a rearrangement of [links_]: each link with
    collision geometry is in exactly one class. *)
Lemma createDynamicSDFs_partition e e' :
  NoDup (links_ e) → createDynamicSDFs e = Ok e' →
  links_ e ≡ₚ static_links_ e' ++ active_links_ e' ++ dynamic_links_ e' ∧
  NoDup (static_links_ e' ++ active_links_ e' ++ dynamic_links_ e').
Proof.
  intros Hnd. unfold createDynamicSDFs.
  intros (d1 & H1 & (d2 & H2 & (sdfs & _ & [= <-])%bind_Ok)%bind_Ok)%bind_Ok.
  simpl.
  destruct (for_each_erase_remove _ _ _ Hnd H1) as [Hp1 Hnd1].
  destruct (for_each_erase_remove _ _ _ Hnd1 H2) as [Hp2 _].
  assert (Hperm : links_ e ≡ₚ static_links_ e ++ active_links_ e ++ d2).
  { rewrite Hp1. f_equiv. exact Hp2. }
  split; [exact Hperm | rewrite <- Hperm; exact Hnd].
Qed.

(** A link that is both static and active stops [createDynamicSDFs]. *)
Lemma createDynamicSDFs_overlap e x :
  NoDup (links_ e) → x ∈ static_links_ e → x ∈ active_links_ e →
  ∃ f, createDynamicSDFs e = Fail f.
Proof.
  intros Hnd Hs Ha.
  destruct (createDynamicSDFs e) as [e'|f] eqn:Hdyn; [|eauto]. exfalso.
  destruct (createDynamicSDFs_partition e e' Hnd Hdyn) as [_ Hnd'].
  assert (Hs' : x ∈ static_links_ e' ∧ x ∈ active_links_ e').
  { revert Hdyn. unfold createDynamicSDFs.
    intros (d1 & _ & (d2 & _ & (sdfs & _ & [= <-])%bind_Ok)%bind_Ok)%bind_Ok.
    simpl. auto. }
  destruct Hs' as [Hs' Ha'].
  apply NoDup_app in Hnd' as (_ & Hdisj & _).
  apply (Hdisj x Hs'). apply elem_of_app. left. exact Ha'.
Qed.

(** Every group link with collision geometry becomes active, whether or not
    it is static already. *)
Lemma collectLinks_mono (links active ls : list LinkModel) a :
  a ∈ active →
  a ∈ foldl (λ active link,
               if decide ((link ∉ active) ∧ (link ∈ links)) then active ++ [link]
               else active) active ls.
Proof.
  revert active. induction ls as [|l ls IH]; intros active Ha; simpl; [exact Ha|].
  apply IH. case_decide; [apply elem_of_app; left|]; exact Ha.
Qed.

Lemma collectLinks_adds (links active ls : list LinkModel) x :
  x ∈ ls → x ∈ links →
  x ∈ foldl (λ active link,
               if decide ((link ∉ active) ∧ (link ∈ links)) then active ++ [link]
               else active) active ls.
Proof.
  intros Hx Hlinks. revert active. induction ls as [|l ls IH]; intros active; simpl;
    [inversion Hx|].
  apply elem_of_cons in Hx as [<-|Hx]; [|apply IH, Hx].
  apply collectLinks_mono. case_decide as Hd.
  - apply elem_of_app. right. left.
  - destruct (decide (x ∈ active)) as [Hin|Hnin]; [exact Hin | tauto].
Qed.

Lemma collectActive_complete links groups active x g :
  g ∈ groups → x ∈ getLinkModels g → x ∈ links →
  x ∈ collectActive links groups active.
Proof.
  intros Hg Hx Hlinks. unfold collectActive. revert active.
  induction groups as [|g' groups IH]; intros active; simpl; [inversion Hg|].
  apply elem_of_cons in Hg as [<-|Hg]; [|apply IH, Hg].
  assert (Hmono : ∀ gs acc, x ∈ acc →
            x ∈ foldl (λ active group,
                         foldl (λ active link,
                                  if decide ((link ∉ active) ∧ (link ∈ links))
                                  then active ++ [link] else active)
                               active (getLinkModels group)) acc gs).
  { induction gs as [|g1 gs IHgs]; intros acc Hacc; simpl; [exact Hacc|].
    apply IHgs, collectLinks_mono, Hacc. }
  apply Hmono, collectLinks_adds; assumption.
Qed.

(** On every model in which a link classified static is also listed by a
    joint group, the constructor does not complete. *)
Lemma create_static_link_in_group `{External} m voxel_size background ex inb e1 x g :
  NoDup (getLinkModelsWithCollisionGeometry m) →
  createStaticSDFs (createDefaultAllowedCollisionMatrix
                      (init m voxel_size background ex inb)) = Ok e1 →
  x ∈ static_links_ e1 → g ∈ getJointModelGroups m → x ∈ getLinkModels g →
  ∃ f, create m voxel_size background ex inb = Fail f.
Proof.
  intros Hnd Hstatic Hx Hg Hxg. unfold create. rewrite Hstatic, bind_of_Ok.
  destruct (createStaticSDFs_inv
              (createDefaultAllowedCollisionMatrix (init m voxel_size background ex inb))
              e1 eq_refl eq_refl Hstatic) as [Hsame Hall].
  assert (Hlinks : links_ e1 = getLinkModelsWithCollisionGeometry m)
    by (rewrite Hsame; reflexivity).
  assert (Hmodel : robot_model_ e1 = m) by (rewrite Hsame; reflexivity).
  assert (Hgeom : x ∈ getLinkModelsWithCollisionGeometry m).
  { apply list_elem_of_lookup in Hx as [i Hi].
    destruct (Forall2_lookup_l _ _ _ _ _ Hall Hi) as (sdf & _ & Hentry & _).
    exact Hentry. }
  destruct (createActiveSDFs e1) as [e2|f] eqn:Hactive; [|eauto].
  rewrite bind_of_Ok.
  destruct (createActiveSDFs_links _ _ Hactive) as (Ha & Hs & _ & Hl).
  destruct (createDynamicSDFs_overlap e2 x) as [f Hf].
  - rewrite Hl, Hlinks. exact Hnd.
  - rewrite Hs. exact Hx.
  - rewrite Ha, Hlinks, Hmodel. eapply collectActive_complete; eassumption.
  - rewrite Hf. eauto.
Qed.

(** C1, what the code does.  On the model of a fixed base that is listed in
    the arm's joint group, the link [base] is classified static by
    [createStaticSDFs] and again active by [createActiveSDFs], and
    [createDynamicSDFs] then erases at the end of [dynamic_links_]: the
    constructor does not complete. *)
Theorem fixed_base_classified_twice :
  (e ← createStaticSDFs
         (createDefaultAllowedCollisionMatrix (init Examples.fixed_base_in_group 1 10 3 3));
   e ← createActiveSDFs (H := Examples.one_sphere_lib) e;
   Ok (static_links_ e, active_links_ e, createDynamicSDFs e))
  = Ok (["base"], ["base"], Fail EraseAtEnd) ∧
  create (H := Examples.one_sphere_lib) Examples.fixed_base_in_group 1 10 3 3
  = Fail EraseAtEnd.
Proof. split; vm_compute; reflexivity. Qed.
End ClassFacts.

(** ** Sphere fitting for active links *)

Module SphereFacts.
Import Invariants ConstructionFacts.

Lemma addShapeToField_voxel_size f shape pose ex inb :
  OpenVDBDistanceField.voxel_size_ (OpenVDBDistanceField.addShapeToField f shape pose ex inb)
  = OpenVDBDistanceField.voxel_size_ f.
Proof. destruct shape; reflexivity. Qed.

Lemma addShapeToField_grid_kept f shape pose ex inb :
  is_Some (OpenVDBDistanceField.grid_ f) →
  is_Some (OpenVDBDistanceField.grid_ (OpenVDBDistanceField.addShapeToField f shape pose ex inb)).
Proof. intros Hf. destruct shape; simpl; eauto. Qed.

Lemma addShapeToField_grid_set f shape pose ex inb :
  OpenVDBDistanceField.unsupported shape = false →
  is_Some (OpenVDBDistanceField.grid_ (OpenVDBDistanceField.addShapeToField f shape pose ex inb)).
Proof. destruct shape; simpl; (discriminate || eauto). Qed.

Lemma addShapes_field f shapes shape_poses pose ex inb j f' :
  OpenVDBDistanceField.addShapes f shapes shape_poses pose ex inb j = Ok f' →
  OpenVDBDistanceField.voxel_size_ f' = OpenVDBDistanceField.voxel_size_ f ∧
  (is_Some (OpenVDBDistanceField.grid_ f) ∨
   Exists (λ s, OpenVDBDistanceField.unsupported s = false) shapes →
   is_Some (OpenVDBDistanceField.grid_ f')).
Proof.
  revert f j. induction shapes as [|shape shapes IH]; intros f j; simpl.
  - intros [= <-]. split; [reflexivity|]. intros [Hf|Hex]; [exact Hf | inversion Hex].
  - intros (sp & _ & Hrest)%bind_Ok. destruct (IH _ _ Hrest) as [Hv Hg].
    split; [rewrite Hv; apply addShapeToField_voxel_size|].
    intros [Hf|Hex]; apply Hg.
    + left. apply addShapeToField_grid_kept, Hf.
    + apply Exists_cons in Hex as [Hs|Hex]; [left | right; exact Hex].
      apply addShapeToField_grid_set, Hs.
Qed.

Section WithLibrary.
Context `{External}.

(** One attempt of the loop: it returns, the field it builds has the
    attempt's voxel size, and the sphere fitting found a grid to work on. *)
Lemma fitSpheres_attempt e link v :
  origins_cover_shapes (robot_model_ e) →
  has_supported_shape (robot_model_ e) link →
  ∃ sdf g,
    OpenVDBDistanceField.addLinkToField (robot_model_ e)
      (OpenVDBDistanceField.new v (background_ e)) link Mat4.Identity
      (voxel_size_ e / v * exBandWidth_ e)%R (voxel_size_ e / v * inBandWidth_ e)%R = Ok sdf ∧
    OpenVDBDistanceField.voxel_size_ sdf = v ∧
    OpenVDBDistanceField.grid_ sdf = Some g.
Proof.
  intros Horigins Hshape.
  destruct (addLinkToField_total (robot_model_ e) (OpenVDBDistanceField.new v (background_ e))
              link Mat4.Identity (voxel_size_ e / v * exBandWidth_ e)%R
              (voxel_size_ e / v * inBandWidth_ e)%R Horigins) as [sdf Hsdf].
  destruct (addShapes_field _ _ _ _ _ _ _ _ Hsdf) as [Hv Hg].
  destruct Hg as [g Hg]; [right; exact Hshape|].
  exists sdf, g. auto.
Qed.

Lemma fitSpheres_unfold remaining e link sdf v spheres :
  fitSpheres (S remaining) e link sdf v spheres =
  (sdf ← OpenVDBDistanceField.addLinkToField (robot_model_ e)
           (OpenVDBDistanceField.new v (background_ e)) link Mat4.Identity
           (voxel_size_ e / v * exBandWidth_ e)%R (voxel_size_ e / v * inBandWidth_ e)%R;
   spheres ← OpenVDBDistanceField.fillWithSpheres sdf spheres 20 true 1 FLT_MAX 0 100000;
   if decide (1 < length spheres) then Ok (Some sdf, spheres)
   else fitSpheres remaining e link (Some sdf) (v * (1 / 2))%R spheres).
Proof. reflexivity. Qed.

(** The loop returns, with a field, whatever the sphere fitting finds. *)
Lemma fitSpheres_returns e link :
  origins_cover_shapes (robot_model_ e) →
  has_supported_shape (robot_model_ e) link →
  ∀ remaining sdf0 v spheres0,
    ∃ sdf spheres, fitSpheres (S remaining) e link sdf0 v spheres0 = Ok (Some sdf, spheres).
Proof.
  intros Horigins Hshape. induction remaining as [|remaining IH]; intros sdf0 v spheres0;
    rewrite fitSpheres_unfold;
    destruct (fitSpheres_attempt e link v Horigins Hshape) as (sdf & g & -> & _ & Hg);
    rewrite bind_of_Ok; unfold OpenVDBDistanceField.fillWithSpheres; rewrite Hg, bind_of_Ok;
    case_decide; try (eexists _, _; reflexivity).
  apply IH.
Qed.

(** The bands handed to an attempt at voxel size [v] keep the physical
    width of the nominal bands. *)
Lemma fitSpheres_band_width e (v : R) :
  v ≠ 0%R →
  ((voxel_size_ e / v * exBandWidth_ e) * v = voxel_size_ e * exBandWidth_ e)%R ∧
  ((voxel_size_ e / v * inBandWidth_ e) * v = voxel_size_ e * inBandWidth_ e)%R.
Proof. intros Hv. split; field; exact Hv. Qed.

(** C3, what the code does.  When every call of the sphere fitting returns
    exactly one sphere, the second attempt, made at half the nominal voxel
    size, also returns one sphere; the loop nevertheless stops there,
    because the size it tests is that of [active_spheres_[i]], to which
    [fillWithSpheres] has appended the spheres of both attempts: the link
    keeps two spheres and the field of the second attempt. *)
Theorem fitSpheres_tests_accumulated_count e link :
  origins_cover_shapes (robot_model_ e) →
  has_supported_shape (robot_model_ e) link →
  one_sphere_per_call →
  ∃ sdf spheres,
    fitSpheres 10 e link None (voxel_size_ e) [] = Ok (Some sdf, spheres) ∧
    OpenVDBDistanceField.voxel_size_ sdf = (voxel_size_ e * (1 / 2))%R ∧
    length spheres = 2.
Proof.
  intros Horigins Hshape Hone.
  rewrite fitSpheres_unfold.
  destruct (fitSpheres_attempt e link (voxel_size_ e) Horigins Hshape)
    as (sdf1 & g1 & -> & _ & Hg1).
  rewrite bind_of_Ok. unfold OpenVDBDistanceField.fillWithSpheres at 1.
  rewrite Hg1, bind_of_Ok.
  rewrite decide_False by (rewrite app_nil_l, Hone; lia).
  rewrite fitSpheres_unfold.
  destruct (fitSpheres_attempt e link (voxel_size_ e * (1 / 2))%R Horigins Hshape)
    as (sdf2 & g2 & -> & Hv2 & Hg2).
  rewrite bind_of_Ok. unfold OpenVDBDistanceField.fillWithSpheres at 1.
  rewrite Hg2, bind_of_Ok.
  rewrite decide_True by (rewrite !length_app, !Hone; simpl; lia).
  eexists sdf2, _. split; [reflexivity|]. split; [exact Hv2|].
  rewrite !length_app, !Hone. reflexivity.
Qed.

End WithLibrary.

Lemma fixed_base_origins : origins_cover_shapes Examples.fixed_base_in_group.
Proof. intros link. simpl. case_decide; simpl; lia. Qed.

Lemma fitSpheres_tests_accumulated_count_witness :
  let e := init Examples.fixed_base_in_group 1 10 3 3 in
  origins_cover_shapes (robot_model_ e) ∧
  has_supported_shape (robot_model_ e) "base" ∧
  one_sphere_per_call (H := Examples.one_sphere_lib) ∧
  ∃ sdf spheres,
    fitSpheres (H := Examples.one_sphere_lib) 10 e "base" None (voxel_size_ e) []
      = Ok (Some sdf, spheres) ∧
    OpenVDBDistanceField.voxel_size_ sdf = (voxel_size_ e * (1 / 2))%R ∧
    length spheres = 2.
Proof.
  intros e.
  assert (Hshape : has_supported_shape (robot_model_ e) "base").
  { unfold has_supported_shape. simpl. apply Exists_cons_hd. reflexivity. }
  assert (Hone : one_sphere_per_call (H := Examples.one_sphere_lib)).
  { intros g a b c d i n. reflexivity. }
  split; [exact fixed_base_origins|]. split; [exact Hshape|]. split; [exact Hone|].
  apply (fitSpheres_tests_accumulated_count (H := Examples.one_sphere_lib) e "base"
           fixed_base_origins Hshape Hone).
Defined.
End SphereFacts.

(** ** Fields built for a link *)

Module BuiltFacts.
Import Invariants ConstructionFacts.
Import OpenVDBDistanceField.

Lemma addShapes_accessor f shapes shape_poses pose ex inb j f' :
  addShapes f shapes shape_poses pose ex inb j = Ok f' →
  accessor_ f = grid_ f → accessor_ f' = grid_ f'.
Proof.
  revert f j. induction shapes as [|shape shapes IH]; intros f j; simpl.
  - intros [= <-]. auto.
  - intros (sp & _ & Hrest)%bind_Ok Hf. apply (IH _ _ Hrest).
    apply FieldFacts.addShapeToField_accessor, Hf.
Qed.

(** A field built for a link: the accessor reads the grid, the voxel size
    is the one the field was created with, and there is a grid exactly when
    some shape of the link is of a supported kind. *)
Lemma addLinkToField_built m link pose v bg ex inb f :
  addLinkToField m (new v bg) link pose ex inb = Ok f →
  accessor_ f = grid_ f ∧ voxel_size_ f = v ∧
  (is_Some (grid_ f) ↔ has_supported_shape m link).
Proof.
  unfold addLinkToField. intros Hadd.
  split; [exact (addShapes_accessor _ _ _ _ _ _ _ _ Hadd eq_refl)|].
  destruct (SphereFacts.addShapes_field _ _ _ _ _ _ _ _ Hadd) as [Hv Hg].
  split; [exact Hv|]. split; [|intros Hs; apply Hg; right; exact Hs].
  intros Hsome. unfold has_supported_shape.
  destruct (decide (Exists (λ s, unsupported s = false) (getShapes m link)))
    as [Hex|Hnone]; [exact Hex|].
  exfalso. apply not_Exists_Forall in Hnone; [|intros s; apply _].
  assert (Hall : Forall (λ s, unsupported s = true) (getShapes m link)).
  { eapply Forall_impl; [exact Hnone|]. simpl. intros s Hs.
    destruct (unsupported s); [reflexivity | contradiction]. }
  apply FieldFacts.addShapes_unsupported in Hadd; [|exact Hall]. subst f.
  destruct Hsome as [g Hg']. discriminate.
Qed.
End BuiltFacts.

(** ** The engine after construction *)

Module EngineFacts.
Import Invariants ConstructionFacts.

Section WithLibrary.
Context `{External}.

Lemma createActiveSDFs_Ok e e' :
  createActiveSDFs e = Ok e' →
  ∃ sdfs spheres,
    e' = set_active e (collectActive (links_ e) (getJointModelGroups (robot_model_ e))
                                     (active_links_ e)) sdfs spheres ∧
    length sdfs = length (active_links_ e') ∧ length spheres = length (active_links_ e').
Proof.
  unfold createActiveSDFs. intros ([sdfs spheres] & Hloop & [= <-])%bind_Ok.
  exists sdfs, spheres. split; [reflexivity|]. simpl.
  split.
  - apply (for_each_count (λ s : list OpenVDBDistanceField.t * list SphereModel, length s.1))
      in Hloop; [exact Hloop|].
    intros [a b] link [a' b'] ([sdf s] & _ & (sdf' & _ & [= <- <-])%bind_Ok)%bind_Ok.
    simpl. rewrite length_app. simpl. lia.
  - apply (for_each_count (λ s : list OpenVDBDistanceField.t * list SphereModel, length s.2))
      in Hloop; [exact Hloop|].
    intros [a b] link [a' b'] ([sdf s] & _ & (sdf' & _ & [= <- <-])%bind_Ok)%bind_Ok.
    simpl. rewrite length_app. simpl. lia.
Qed.

End WithLibrary.

Lemma createDynamicSDFs_Ok e e' :
  createDynamicSDFs e = Ok e' →
  ∃ links sdfs, e' = set_dynamic e links sdfs ∧ length sdfs = length links.
Proof.
  unfold createDynamicSDFs.
  intros (d1 & _ & (d2 & _ & (sdfs & Hloop & [= <-])%bind_Ok)%bind_Ok)%bind_Ok.
  exists d2, sdfs. split; [reflexivity|].
  apply (for_each_count (λ s : list OpenVDBDistanceField.t, length s)) in Hloop;
    [exact Hloop|].
  intros s link s' (sdf & _ & [= <-])%bind_Ok. rewrite length_app. simpl. lia.
Qed.

Lemma createDefaultDistanceQuery_Ok e e' :
  createDefaultDistanceQuery e = Ok e' →
  ∃ q, e' = set_dist_query e q ∧
       length q = length (dist_query_ e) + length (active_links_ e).
Proof.
  unfold createDefaultDistanceQuery. intros (q & Hloop & [= <-])%bind_Ok.
  exists q. split; [reflexivity|].
  apply (for_each_count (λ s : list DistanceQueryData.t, length s)) in Hloop.
  - rewrite Hloop, length_imap. reflexivity.
  - intros s [j parent] s' (data & _ & [= <-])%bind_Ok. rewrite length_app. simpl. lia.
Qed.

(** The constructor leaves the parallel vectors with matching lengths. *)
Lemma create_engine_ok `{External} m voxel_size background ex inb e :
  create m voxel_size background ex inb = Ok e → engine_ok e.
Proof.
  unfold create.
  intros (e1 & H1 & (e2 & H2 & (e3 & H3 & H4)%bind_Ok)%bind_Ok)%bind_Ok.
  apply createStaticSDFs_inv in H1 as [Hsame Hall]; [|reflexivity|reflexivity].
  apply Forall2_length in Hall.
  apply createActiveSDFs_Ok in H2 as (asdf & asph & -> & Hasdf & Hasph).
  apply createDynamicSDFs_Ok in H3 as (dl & dsdf & -> & Hd).
  apply createDefaultDistanceQuery_Ok in H4 as (q & -> & Hq).
  assert (Hq0 : dist_query_ e1 = []) by (rewrite Hsame; reflexivity).
  simpl in *. rewrite Hq0 in Hq.
  unfold engine_ok. simpl. repeat split; try assumption; try lia.
Qed.

Lemma create_no_active_no_plans `{External} m voxel_size background ex inb e :
  create m voxel_size background ex inb = Ok e →
  active_links_ e = [] → dist_query_ e = [].
Proof.
  intros Hc Ha. destruct (create_engine_ok _ _ _ _ _ _ Hc) as (_ & _ & _ & _ & Hq).
  rewrite Ha in Hq. apply nil_length_inv, Hq.
Qed.
End EngineFacts.

(** ** The fields of active and dynamic links *)

Module LinkFieldFacts.
Import Invariants ConstructionFacts EngineFacts Resolution.
Local Open Scope R_scope.

Lemma halved_pow k : ∀ v, halved k v = v / 2 ^ k.
Proof.
  induction k as [|k IH]; intros v; simpl.
  - field.
  - rewrite IH. field. apply pow_nonzero. lra.
Qed.

(** A loop that appends one element per iteration relates its input
    to what it appended, position by position. *)
Lemma for_each_Forall2 {A B} (Q : A → B → Prop) (body : list B → A → result (list B)) l :
  (∀ s a s', body s a = Ok s' → ∃ b, s' = s ++ [b] ∧ Q a b) →
  ∀ s s', for_each body l s = Ok s' → ∃ bs, s' = s ++ bs ∧ Forall2 Q l bs.
Proof.
  intros Hbody. induction l as [|a l IH]; intros s s'; simpl.
  - intros [= <-]. exists []. rewrite app_nil_r. split; [reflexivity | constructor].
  - intros (s1 & (b & -> & Hb)%Hbody & (bs & -> & Hbs)%IH)%bind_Ok.
    exists (b :: bs). rewrite <- app_assoc. split; [reflexivity|]. constructor; assumption.
Qed.

Section WithLibrary.
Context `{External}.

(** The attempt at which the loop stops: its field was built at the voxel
    size of that attempt, with the bands scaled accordingly, it has a
    grid, and either the link now holds more than one sphere or it was the
    last attempt. *)
Lemma fitSpheres_spec e link : ∀ remaining sdf0 v spheres0 sdf spheres,
  fitSpheres remaining e link sdf0 v spheres0 = Ok (sdf, spheres) →
  (remaining = 0%nat ∧ sdf = sdf0 ∧ spheres = spheres0) ∨
  ∃ k f,
    (k < remaining)%nat ∧ sdf = Some f ∧
    OpenVDBDistanceField.addLinkToField (robot_model_ e)
      (OpenVDBDistanceField.new (halved k v) (background_ e)) link Mat4.Identity
      (voxel_size_ e / halved k v * exBandWidth_ e)
      (voxel_size_ e / halved k v * inBandWidth_ e) = Ok f ∧
    is_Some (OpenVDBDistanceField.grid_ f) ∧
    ((1 < length spheres)%nat ∨ S k = remaining).
Proof.
  induction remaining as [|remaining IH]; intros sdf0 v spheres0 sdf spheres.
  - simpl. intros [= <- <-]. left. auto.
  - rewrite SphereFacts.fitSpheres_unfold.
    intros (f & Hadd & (spheres1 & Hfill & Hrest)%bind_Ok)%bind_Ok. right.
    assert (Hgrid : is_Some (OpenVDBDistanceField.grid_ f)).
    { unfold OpenVDBDistanceField.fillWithSpheres in Hfill.
      destruct (OpenVDBDistanceField.grid_ f); [eauto | discriminate]. }
    revert Hrest. case_decide as Hlen.
    + intros [= <- <-]. exists 0%nat, f. simpl.
      split; [lia|]. split; [reflexivity|]. split; [exact Hadd|]. split; [exact Hgrid|].
      left. exact Hlen.
    + intros [(-> & -> & ->)|(k & f' & Hk & -> & Hadd' & Hgrid' & Hstop)]%IH.
      * exists 0%nat, f. simpl.
        split; [lia|]. split; [reflexivity|]. split; [exact Hadd|]. split; [exact Hgrid|].
        right. reflexivity.
      * exists (S k), f'. simpl.
        split; [lia|]. split; [reflexivity|]. split; [exact Hadd'|]. split; [exact Hgrid'|].
        destruct Hstop as [Hs|Hs]; [left; exact Hs | right; lia].
Qed.

(** The loop of [createActiveSDFs] over the active links, position by
    position. *)
Lemma active_loop_spec e (links : list LinkModel) : ∀ sdfs spheres sdfs' spheres',
  for_each (λ '(sdfs, spheres) link,
              '(sdf, s) ← fitSpheres 10 e link None (voxel_size_ e) [];
              sdf ← deref sdf;
              Ok (sdfs ++ [sdf], spheres ++ [s]))
           links (sdfs, spheres) = Ok (sdfs', spheres') →
  ∃ fs ss,
    sdfs' = sdfs ++ fs ∧ spheres' = spheres ++ ss ∧
    ∀ i link, links !! i = Some link →
      ∃ f s, fs !! i = Some f ∧ ss !! i = Some s ∧
             fitSpheres 10 e link None (voxel_size_ e) [] = Ok (Some f, s).
Proof.
  induction links as [|link links IH]; intros sdfs spheres sdfs' spheres'; simpl.
  - intros [= <- <-]. exists [], []. rewrite !app_nil_r.
    split; [reflexivity|]. split; [reflexivity|]. intros i l Hl. inversion Hl.
  - intros ([sdfs1 spheres1] & ([sdf s] & Hfit & (f & Hf & [= <- <-])%bind_Ok)%bind_Ok
            & Hrest)%bind_Ok.
    destruct sdf as [f'|]; [|discriminate]. injection Hf as ->.
    destruct (IH _ _ _ _ Hrest) as (fs & ss & -> & -> & Hall).
    exists (f :: fs), (s :: ss). rewrite <- !app_assoc.
    split; [reflexivity|]. split; [reflexivity|].
    intros [|i] l; simpl.
    + intros [= <-]. eauto.
    + apply Hall.
Qed.

Lemma create_stages m voxel_size background ex inb e :
  create m voxel_size background ex inb = Ok e →
  ∃ e1 e2 e3,
    same_but_static (createDefaultAllowedCollisionMatrix (init m voxel_size background ex inb))
                    e1 ∧
    createActiveSDFs e1 = Ok e2 ∧ createDynamicSDFs e2 = Ok e3 ∧
    createDefaultDistanceQuery e3 = Ok e.
Proof.
  unfold create.
  intros (e1 & H1 & (e2 & H2 & (e3 & H3 & H4)%bind_Ok)%bind_Ok)%bind_Ok.
  apply createStaticSDFs_inv in H1 as [Hsame _]; [|reflexivity|reflexivity].
  exists e1, e2, e3. auto.
Qed.

(** The field and the spheres stored for an active link. *)
Lemma active_field_spec m voxel_size background ex inb e i link :
  create m voxel_size background ex inb = Ok e →
  active_links_ e !! i = Some link →
  ∃ k f spheres,
    (k <= 9)%nat ∧
    active_sdf_ e !! i = Some f ∧ active_spheres_ e !! i = Some spheres ∧
    OpenVDBDistanceField.addLinkToField m
      (OpenVDBDistanceField.new (halved k voxel_size) background) link Mat4.Identity
      (voxel_size / halved k voxel_size * ex)
      (voxel_size / halved k voxel_size * inb) = Ok f ∧
    OpenVDBDistanceField.voxel_size_ f = voxel_size / 2 ^ k ∧
    is_Some (OpenVDBDistanceField.grid_ f) ∧
    OpenVDBDistanceField.accessor_ f = OpenVDBDistanceField.grid_ f ∧
    has_supported_shape m link ∧
    ((1 < length spheres)%nat ∨ k = 9%nat).
Proof.
  intros (e1 & e2 & e3 & Hsame & H2 & H3 & H4)%create_stages.
  apply createDynamicSDFs_Ok in H3 as (dl & dsdf & -> & _).
  apply createDefaultDistanceQuery_Ok in H4 as (q & -> & _).
  revert H2. unfold createActiveSDFs.
  intros ([sdfs spheres] & (fs & ss & -> & -> & Hall)%active_loop_spec & [= <-])%bind_Ok.
  simpl. intros Hi. destruct (Hall i link Hi) as (f & s & Hf & Hs & Hfit).
  apply fitSpheres_spec in Hfit
    as [(Hz & _)|(k & f' & Hk & [= <-] & Hadd & Hgrid & Hstop)]; [discriminate|].
  assert (Hm : robot_model_ e1 = m ∧ voxel_size_ e1 = voxel_size ∧
               background_ e1 = background ∧ exBandWidth_ e1 = ex ∧ inBandWidth_ e1 = inb)
    by (rewrite Hsame; simpl; auto).
  destruct Hm as (Hm & Hv & Hb & Hex & Hin). rewrite Hm, Hv, Hb, Hex, Hin in Hadd.
  destruct (BuiltFacts.addLinkToField_built _ _ _ _ _ _ _ _ Hadd) as (Hacc & Hvox & Hsup).
  exists k, f, s.
  split; [lia|]. split; [exact Hf|]. split; [exact Hs|]. split; [exact Hadd|].
  split; [rewrite Hvox; apply halved_pow|]. split; [exact Hgrid|]. split; [exact Hacc|].
  split; [apply Hsup, Hgrid|].
  destruct Hstop as [Hlen|Hlast]; [left; exact Hlen | right; lia].
Qed.

(** X14.  The field and the spheres of an active link of a constructed
    engine.  The field was built from the link's shapes at the identity
    pose at a voxel size that is the nominal one halved [k] times, for some
    [k] of at most 9, with the two band widths multiplied by the same power
    of two (measured in voxels); it has a grid, its accessor reads that
    grid, and so some shape of the link is of a supported kind.  The link
    has more than one sphere unless all ten attempts were made. *)
Theorem create_active_fields m voxel_size background ex inb e i link :
  create m voxel_size background ex inb = Ok e →
  active_links_ e !! i = Some link →
  ∃ k f spheres,
    (k <= 9)%nat ∧
    active_sdf_ e !! i = Some f ∧ active_spheres_ e !! i = Some spheres ∧
    OpenVDBDistanceField.addLinkToField m
      (OpenVDBDistanceField.new (halved k voxel_size) background) link Mat4.Identity
      (voxel_size / halved k voxel_size * ex)
      (voxel_size / halved k voxel_size * inb) = Ok f ∧
    OpenVDBDistanceField.voxel_size_ f = voxel_size / 2 ^ k ∧
    is_Some (OpenVDBDistanceField.grid_ f) ∧
    OpenVDBDistanceField.accessor_ f = OpenVDBDistanceField.grid_ f ∧
    has_supported_shape m link ∧
    ((1 < length spheres)%nat ∨ k = 9%nat).
Proof. apply active_field_spec. Qed.

(** The field stored for a dynamic link. *)
Lemma dynamic_field_spec m voxel_size background ex inb e i link :
  create m voxel_size background ex inb = Ok e →
  dynamic_links_ e !! i = Some link →
  ∃ f, dynamic_sdf_ e !! i = Some f ∧
       OpenVDBDistanceField.addLinkToField m
         (OpenVDBDistanceField.new voxel_size background) link Mat4.Identity ex inb = Ok f ∧
       OpenVDBDistanceField.voxel_size_ f = voxel_size ∧
       OpenVDBDistanceField.accessor_ f = OpenVDBDistanceField.grid_ f ∧
       (is_Some (OpenVDBDistanceField.grid_ f) ↔ has_supported_shape m link).
Proof.
  intros (e1 & e2 & e3 & Hsame & H2 & H3 & H4)%create_stages.
  apply createDefaultDistanceQuery_Ok in H4 as (q & -> & _).
  apply createActiveSDFs_Ok in H2 as (asdf & asph & -> & _).
  revert H3. unfold createDynamicSDFs.
  intros (d1 & _ & (d2 & _ & (sdfs & Hloop & [= <-])%bind_Ok)%bind_Ok)%bind_Ok.
  simpl in *.
  apply (for_each_Forall2
           (λ link f, OpenVDBDistanceField.addLinkToField (robot_model_ e1)
                        (OpenVDBDistanceField.new (voxel_size_ e1) (background_ e1))
                        link Mat4.Identity (exBandWidth_ e1) (inBandWidth_ e1) = Ok f))
    in Hloop as (fs & -> & Hall).
  - intros Hi. destruct (Forall2_lookup_l _ _ _ _ _ Hall Hi) as (f & Hf & Hadd).
    assert (Hm : robot_model_ e1 = m ∧ voxel_size_ e1 = voxel_size ∧
                 background_ e1 = background ∧ exBandWidth_ e1 = ex ∧ inBandWidth_ e1 = inb)
      by (rewrite Hsame; simpl; auto).
    destruct Hm as (Hm & Hv & Hb & Hex & Hin). rewrite Hm, Hv, Hb, Hex, Hin in Hadd.
    destruct (BuiltFacts.addLinkToField_built _ _ _ _ _ _ _ _ Hadd) as (Hacc & Hvox & Hsup).
    exists f. simpl. auto.
  - intros s a s' (sdf & Hsdf & [= <-])%bind_Ok. eauto.
Qed.

(** X15.  The field of a dynamic link of a constructed engine is built from
    the link's shapes alone, at the identity pose, at the nominal voxel
    size, background and band widths, and stored at the link's index. *)
Theorem create_dynamic_fields m voxel_size background ex inb e i link :
  create m voxel_size background ex inb = Ok e →
  dynamic_links_ e !! i = Some link →
  ∃ f, dynamic_sdf_ e !! i = Some f ∧
       OpenVDBDistanceField.addLinkToField m
         (OpenVDBDistanceField.new voxel_size background) link Mat4.Identity ex inb = Ok f ∧
       OpenVDBDistanceField.voxel_size_ f = voxel_size ∧
       OpenVDBDistanceField.accessor_ f = OpenVDBDistanceField.grid_ f ∧
       (is_Some (OpenVDBDistanceField.grid_ f) ↔ has_supported_shape m link).
Proof. apply dynamic_field_spec. Qed.

End WithLibrary.

Lemma create_active_fields_witness :
  let H := Examples.wall_lib in
  let m := Examples.arm_on_pedestal in
  let e := Examples.engine_of m in
  create m 1 10 3 3 = Ok e ∧ active_links_ e !! 1%nat = Some "forearm" ∧
  ∃ k f spheres,
    (k <= 9)%nat ∧
    active_sdf_ e !! 1%nat = Some f ∧ active_spheres_ e !! 1%nat = Some spheres ∧
    OpenVDBDistanceField.addLinkToField m
      (OpenVDBDistanceField.new (halved k 1) 10) "forearm" Mat4.Identity
      (1 / halved k 1 * 3) (1 / halved k 1 * 3) = Ok f ∧
    OpenVDBDistanceField.voxel_size_ f = 1 / 2 ^ k ∧
    is_Some (OpenVDBDistanceField.grid_ f) ∧
    OpenVDBDistanceField.accessor_ f = OpenVDBDistanceField.grid_ f ∧
    has_supported_shape m "forearm" ∧
    ((1 < length spheres)%nat ∨ k = 9%nat).
Proof.
  intros H m e.
  assert (Hrun : create m 1 10 3 3 = Ok e) by (vm_compute; reflexivity).
  assert (Hi : active_links_ e !! 1%nat = Some "forearm") by (vm_compute; reflexivity).
  split; [exact Hrun|]. split; [exact Hi|].
  apply (create_active_fields (H := Examples.wall_lib) m 1 10 3 3 e 1 "forearm" Hrun Hi).
Defined.

Lemma create_dynamic_fields_witness :
  let H := Examples.wall_lib in
  let m := Examples.arm_on_pedestal in
  let e := Examples.engine_of m in
  create m 1 10 3 3 = Ok e ∧ dynamic_links_ e !! 0%nat = Some "camera" ∧
  ∃ f, dynamic_sdf_ e !! 0%nat = Some f ∧
       OpenVDBDistanceField.addLinkToField m
         (OpenVDBDistanceField.new 1 10) "camera" Mat4.Identity 3 3 = Ok f ∧
       OpenVDBDistanceField.voxel_size_ f = 1 ∧
       OpenVDBDistanceField.accessor_ f = OpenVDBDistanceField.grid_ f ∧
       (is_Some (OpenVDBDistanceField.grid_ f) ↔ has_supported_shape m "camera").
Proof.
  intros H m e.
  assert (Hrun : create m 1 10 3 3 = Ok e) by (vm_compute; reflexivity).
  assert (Hi : dynamic_links_ e !! 0%nat = Some "camera") by (vm_compute; reflexivity).
  split; [exact Hrun|]. split; [exact Hi|].
  apply (create_dynamic_fields (H := Examples.wall_lib) m 1 10 3 3 e 0 "camera" Hrun Hi).
Defined.
End LinkFieldFacts.

(** ** The grids of a constructed engine *)

Module GridFacts.
Import Invariants ConstructionFacts EngineFacts Utilities QueryInputs.

(** The fields of a constructed engine and the shapes of their links. *)
Lemma engine_grids `{External} m voxel_size background ex inb e :
  create m voxel_size background ex inb = Ok e →
  grids_follow_shapes m (static_links_ e) (static_sdf_ e) ∧
  grids_follow_shapes m (dynamic_links_ e) (dynamic_sdf_ e) ∧
  grids_follow_shapes m (active_links_ e) (active_sdf_ e) ∧
  Forall has_grid (active_sdf_ e).
Proof.
  intros Hc. pose proof (create_engine_ok _ _ _ _ _ _ Hc) as (Hls & Hld & Hla & _).
  assert (Hactive : ∀ i f, active_sdf_ e !! i = Some f →
                           ∃ link, active_links_ e !! i = Some link ∧
                                   is_Some (OpenVDBDistanceField.grid_ f) ∧
                                   has_supported_shape m link).
  { intros i f Hf.
    destruct (lookup_lt_is_Some_2 (active_links_ e) i) as [link Hlink].
    { rewrite <- Hla. eapply lookup_lt_Some, Hf. }
    destruct (LinkFieldFacts.active_field_spec _ _ _ _ _ _ _ _ Hc Hlink)
      as (k & f' & s & _ & Hf' & _ & _ & _ & Hg & _ & Hs & _).
    exists link. split; [exact Hlink|]. assert (f' = f) as -> by congruence. auto. }
  split; [|split; [|split]].
  - revert Hc. unfold create.
    intros (e1 & H1 & (e2 & H2 & (e3 & H3 & H4)%bind_Ok)%bind_Ok)%bind_Ok.
    apply createStaticSDFs_inv in H1 as [Hsame Hall]; [|reflexivity|reflexivity].
    destruct (ClassFacts.createActiveSDFs_links _ _ H2) as (_ & Hs2 & Hf2 & _).
    apply createDynamicSDFs_Ok in H3 as (dl & dsdf & -> & _).
    apply createDefaultDistanceQuery_Ok in H4 as (q & -> & _).
    simpl. rewrite Hs2, Hf2. eapply Forall2_impl; [exact Hall|].
    intros link sdf (_ & pose & _ & Hadd). simpl in Hadd.
    apply (BuiltFacts.addLinkToField_built _ _ _ _ _ _ _ _ Hadd).
  - apply Forall2_same_length_lookup. split; [symmetry; exact Hld|].
    intros i link sdf Hlink Hsdf.
    destruct (LinkFieldFacts.dynamic_field_spec _ _ _ _ _ _ _ _ Hc Hlink)
      as (f & Hf & _ & _ & _ & Hiff).
    assert (f = sdf) as -> by congruence. exact Hiff.
  - apply Forall2_same_length_lookup. split; [symmetry; exact Hla|].
    intros i link sdf Hlink Hsdf.
    destruct (Hactive i sdf Hsdf) as (link' & Hlink' & Hg & Hs).
    assert (link' = link) as -> by congruence. tauto.
  - apply Forall_lookup. intros i f Hf.
    destruct (Hactive i f Hf) as (_ & _ & Hg & _). exact Hg.
Qed.

(** The fields of a vector all have a grid exactly when every link of the
    vector has a shape of a supported kind. *)
Lemma grids_follow_shapes_all m links sdfs :
  grids_follow_shapes m links sdfs →
  Forall has_grid sdfs ↔ (∀ link, link ∈ links → has_supported_shape m link).
Proof.
  intros Hf. split.
  - intros Hg link (i & Hi)%list_elem_of_lookup_1.
    destruct (Forall2_lookup_l _ _ _ _ _ Hf Hi) as (sdf & Hsdf & Hiff).
    apply Hiff. exact (proj1 (Forall_lookup _ _) Hg i sdf Hsdf).
  - intros Hl. apply Forall_lookup. intros i sdf Hsdf.
    destruct (Forall2_lookup_r _ _ _ _ _ Hf Hsdf) as (link & Hlink & Hiff).
    apply Hiff, Hl. eapply list_elem_of_lookup_2, Hlink.
Qed.

(** On a constructed engine the static and dynamic fields all have a grid
    exactly when the static and dynamic links all have a shape of a
    supported kind. *)
Lemma grids_present_ready `{External} m voxel_size background ex inb e :
  create m voxel_size background ex inb = Ok e →
  grids_present e ↔ fields_ready m e.
Proof.
  intros (Hs & Hd & _)%engine_grids. unfold grids_present, fields_ready.
  rewrite (grids_follow_shapes_all m _ _ Hs), (grids_follow_shapes_all m _ _ Hd).
  split.
  - intros [Hdyn Hstat] link [Hl|Hl]; auto.
  - intros Hall. split; intros link Hl; apply Hall; auto.
Qed.
End GridFacts.

(** ** The loops that prepare a query *)

Module PrepareFacts.
Import Invariants ConstructionFacts EngineFacts QueryInputs.

Lemma imap_pair_lt {A} (l : list A) i x : (i, x) ∈ imap pair l → i < length l.
Proof.
  intros (j & y & [= -> ->] & Hj)%elem_of_lookup_imap.
  apply lookup_lt_Some in Hj. exact Hj.
Qed.

(** A loop over the indexed elements of a vector, with an invariant that
    follows the index. *)
Lemma for_each_imap_invariant {A St} (P : nat → St → Prop)
    (body : St → nat * A → result St) (l : list A) :
  (∀ i x s s', l !! i = Some x → P i s → body s (i, x) = Ok s' → P (S i) s') →
  ∀ s s', P 0 s → for_each body (imap pair l) s = Ok s' → P (length l) s'.
Proof.
  intros Hbody.
  assert (Hgen : ∀ (k : list A) a s s',
            (∀ i x, k !! i = Some x → l !! (a + i) = Some x) →
            P a s → for_each body (imap (λ i, pair (a + i)) k) s = Ok s' →
            P (a + length k) s').
  { induction k as [|x k IH]; intros a s s' Hk Hs; simpl.
    - intros [= <-]. rewrite Nat.add_0_r. exact Hs.
    - intros (s1 & H1 & Hrest)%bind_Ok.
      replace (a + S (length k)) with (S a + length k) by lia.
      apply (IH (S a) s1 s').
      + intros i y Hy. replace (S a + i) with (a + S i) by lia. apply Hk. exact Hy.
      + rewrite Nat.add_0_r in H1. apply (Hbody a x s s1); [|exact Hs|exact H1].
        rewrite <- (Nat.add_0_r a). apply Hk. reflexivity.
      + erewrite imap_ext; [exact Hrest|]. intros i y _. simpl. f_equal. lia. }
  intros s s' Hs Hrun. apply (Hgen l 0 s s'); [auto | exact Hs | exact Hrun].
Qed.

Lemma for_each_imap_total {A St} (body : St → nat * A → result St) (l : list A) :
  (∀ i x s, l !! i = Some x → ∃ s', body s (i, x) = Ok s') →
  ∀ s, ∃ s', for_each body (imap pair l) s = Ok s'.
Proof.
  intros Hbody.
  assert (Hgen : ∀ (k : list A) a s,
            (∀ i x, k !! i = Some x → l !! (a + i) = Some x) →
            ∃ s', for_each body (imap (λ i, pair (a + i)) k) s = Ok s').
  { induction k as [|x k IH]; intros a s Hk; simpl; [eauto|].
    rewrite Nat.add_0_r.
    destruct (Hbody a x s) as [s1 ->].
    { rewrite <- (Nat.add_0_r a). apply Hk. reflexivity. }
    rewrite bind_of_Ok.
    destruct (IH (S a) s1) as [s' Hs'].
    { intros i y Hy. replace (S a + i) with (a + S i) by lia. apply Hk. exact Hy. }
    exists s'. rewrite <- Hs'. f_equal. apply imap_ext. intros i y _. simpl. f_equal. lia. }
  intros s. apply (Hgen l 0 s). auto.
Qed.

(** Constructing an [SDFData] succeeds exactly on a field that has a
    grid. *)
Lemma makeSDFData_grid sdf tf :
  has_grid sdf →
  makeSDFData (OpenVDBDistanceField.getGrid sdf) tf
  = Ok (mkSDFData (OpenVDBDistanceField.getGrid sdf) tf).
Proof.
  unfold makeSDFData, OpenVDBDistanceField.getGrid. intros [g ->]. reflexivity.
Qed.

Lemma makeSDFData_null sdf tf :
  ¬ has_grid sdf →
  makeSDFData (OpenVDBDistanceField.getGrid sdf) tf = Fail NullDereference.
Proof.
  unfold makeSDFData, OpenVDBDistanceField.getGrid. intros Hnone.
  destruct (OpenVDBDistanceField.grid_ sdf); [exfalso; apply Hnone; eauto | reflexivity].
Qed.

Lemma makeSDFData_Ok sdf tf d :
  makeSDFData (OpenVDBDistanceField.getGrid sdf) tf = Ok d →
  has_grid sdf ∧ d = mkSDFData (OpenVDBDistanceField.getGrid sdf) tf.
Proof.
  unfold makeSDFData, OpenVDBDistanceField.getGrid.
  destruct (OpenVDBDistanceField.grid_ sdf) as [g|]; [|discriminate].
  intros [= <-]. eauto.
Qed.

(** A loop that packages the field of every link of a class: it returns the
    packaged fields when all of them have a grid and dereferences a null
    grid otherwise. *)
Lemma package_loop (sdfs : list OpenVDBDistanceField.t) (tf : LinkModel → option Mat4d)
    (step : list SDFData → nat * LinkModel → result (list SDFData))
    (links : list LinkModel) :
  (∀ data i link,
     step data (i, link) =
     (sdf ← at_index sdfs i;
      d ← makeSDFData (OpenVDBDistanceField.getGrid sdf) (tf link);
      Ok (data ++ [d]))) →
  length sdfs = length links →
  for_each step (imap pair links) [] =
  if decide (Forall has_grid sdfs)
  then Ok (zip_with (λ link sdf, mkSDFData (OpenVDBDistanceField.getGrid sdf) (tf link))
                    links sdfs)
  else Fail NullDereference.
Proof.
  intros Hstep Hlen.
  assert (Hprefix : ∀ n, n ≤ length links →
            for_each step (imap pair (take n links)) [] =
            if decide (Forall has_grid (take n sdfs))
            then Ok (zip_with (λ link sdf,
                                 mkSDFData (OpenVDBDistanceField.getGrid sdf) (tf link))
                              (take n links) (take n sdfs))
            else Fail NullDereference).
  { induction n as [|n IH]; intros Hn.
    - rewrite !take_0. simpl.
      destruct (decide (Forall has_grid [])) as [_|Hnot];
        [reflexivity | exfalso; apply Hnot; constructor].
    - destruct (lookup_lt_is_Some_2 links n) as [x Hx]; [lia|].
      destruct (lookup_lt_is_Some_2 sdfs n) as [sdf Hsdf]; [lia|].
      rewrite (take_S_r _ _ _ Hx), (take_S_r _ _ _ Hsdf).
      rewrite imap_app, for_each_app, IH by lia.
      destruct (decide (Forall has_grid (take n sdfs))) as [Hall|Hnot].
      + rewrite bind_of_Ok. cbn [imap for_each].
        rewrite length_take, Nat.min_l by lia. cbn [compose]. rewrite Nat.add_0_r.
        rewrite Hstep. rewrite (proj2 (at_index_Ok _ _ _) Hsdf), bind_of_Ok.
        destruct (decide (has_grid sdf)) as [Hg|Hg].
        * rewrite (makeSDFData_grid _ _ Hg), !bind_of_Ok.
          destruct (decide (Forall has_grid (take n sdfs ++ [sdf]))) as [_|Hnot].
          -- rewrite zip_with_app by (rewrite !length_take; lia). reflexivity.
          -- exfalso. apply Hnot, Forall_app. split; [exact Hall|]. constructor; auto.
        * rewrite (makeSDFData_null _ _ Hg). simpl.
          destruct (decide (Forall has_grid (take n sdfs ++ [sdf]))) as [Hall'|_];
            [|reflexivity].
          exfalso. apply Forall_app in Hall' as [_ Hlast].
          apply (proj1 (Forall_singleton _ _)) in Hlast. exact (Hg Hlast).
      + simpl.
        destruct (decide (Forall has_grid (take n sdfs ++ [sdf]))) as [Hall'|_];
          [|reflexivity].
        exfalso. apply Forall_app in Hall' as [Hfirst _]. exact (Hnot Hfirst). }
  specialize (Hprefix (length links) (le_n _)).
  rewrite !take_ge in Hprefix by lia. exact Hprefix.
Qed.

Section WithLibrary.
Context `{External}.

Lemma snapshotActive_inv e req state k link s s' :
  active_links_ e !! k = Some link →
  length (dist_query_ e) = length (active_links_ e) →
  snapshot_inv e req state k s → snapshotActive e req state s (k, link) = Ok s' →
  snapshot_inv e req state (S k) s'.
Proof.
  intros Hlink Hlen. destruct s as [dq da]. intros (Hl & Hdone & Hrest & Hda).
  cbn [fst snd] in *. unfold snapshotActive.
  intros (q & Hq%at_index_Ok & (spheres & Hs%at_index_Ok &
            (sdf & Hsdf%at_index_Ok &
               (d & [_ ->]%makeSDFData_Ok & [= <-])%bind_Ok)%bind_Ok)%bind_Ok)%bind_Ok.
  unfold snapshot_inv. cbn [fst snd]. rewrite length_insert.
  assert (Hplan : query_plans e req state !! k
                  = Some (posed_plan req state q (link, spheres))).
  { unfold query_plans. apply lookup_zip_with_Some. exists q, (link, spheres).
    split; [reflexivity|]. split; [rewrite <- Hrest by lia; exact Hq|].
    apply lookup_zip_with_Some. exists link, spheres. auto. }
  split; [exact Hl|]. split; [|split].
  - intros j Hj. destruct (decide (j = k)) as [->|Hne].
    + rewrite list_lookup_insert_eq by (eapply lookup_lt_Some, Hq). rewrite Hplan.
      reflexivity.
    + rewrite list_lookup_insert_ne by auto. apply Hdone. lia.
  - intros j Hj. rewrite list_lookup_insert_ne by lia. apply Hrest. lia.
  - rewrite Hda. symmetry. apply take_S_r.
    apply lookup_zip_with_Some. exists link, sdf. auto.
Qed.

(** The first loop, over the active links: when every active field has a
    grid it returns the posed plans and the packaged fields. *)
Lemma snapshot_loop e req state :
  engine_ok e → Forall has_grid (active_sdf_ e) →
  for_each (snapshotActive e req state) (imap pair (active_links_ e)) (dist_query_ e, [])
  = Ok (query_plans e req state,
        zip_with (moving_field state) (active_links_ e) (active_sdf_ e)).
Proof.
  intros (_ & _ & Hsdf & Hsph & Hq) Hgrids.
  destruct (for_each_total
              (λ s : list DistanceQueryData.t * list SDFData,
                 length s.1 = length (active_links_ e))
              (snapshotActive e req state) (imap pair (active_links_ e)))
    with (s := (dist_query_ e, @nil SDFData)) as ([dq da] & Hrun & _).
  - intros [dq da] [i link] Hi%imap_pair_lt Hlen. simpl in Hlen.
    unfold snapshotActive.
    destruct (at_index_lt dq i) as [q Hq']; [lia|].
    destruct (at_index_lt (active_spheres_ e) i) as [s Hs]; [lia|].
    destruct (at_index_lt (active_sdf_ e) i) as [sdf Hf]; [lia|].
    rewrite Hq', bind_of_Ok, Hs, bind_of_Ok, Hf, bind_of_Ok.
    rewrite makeSDFData_grid, bind_of_Ok.
    + eexists. split; [reflexivity|]. simpl. rewrite length_insert. exact Hlen.
    + apply at_index_Ok in Hf. exact (proj1 (Forall_lookup _ _) Hgrids i sdf Hf).
  - exact Hq.
  - rewrite Hrun. f_equal.
    apply (for_each_imap_invariant (snapshot_inv e req state)) in Hrun.
    + destruct Hrun as (Hl & Hdone & _ & Hda). cbn [fst snd] in *. f_equal.
      * apply list_eq. intros j. destruct (decide (j < length (active_links_ e))) as [Hj|Hj].
        -- apply Hdone, Hj.
        -- rewrite !lookup_ge_None_2; [reflexivity | |].
           ++ unfold query_plans. rewrite length_zip_with, length_zip. lia.
           ++ lia.
      * rewrite Hda. apply take_ge. rewrite length_zip_with. lia.
    + intros i x s s' Hx. apply snapshotActive_inv; assumption.
    + unfold snapshot_inv. cbn [fst snd]. split; [reflexivity|]. split; [intros; lia|].
      split; [reflexivity|]. reflexivity.
Qed.

(** [distanceSelf] on an engine whose active fields have a grid, for a
    request that names a group: the preparing loops dereference the grid of
    every dynamic and static field, and what follows is the evaluation of
    the posed plans against the packaged fields. *)
Lemma distanceSelf_unfolded e req res state :
  engine_ok e → Forall has_grid (active_sdf_ e) →
  is_Some (getJointModelGroup (robot_model_ e) (DistanceRequest.group_name req)) →
  distanceSelf e req res state =
  if decide (grids_present e) then evaluation e req res state else Fail NullDereference.
Proof.
  intros Hok Hactive [group Hgroup].
  rewrite (GroupFacts.distanceSelf_known_group _ _ _ _ _ Hgroup).
  rewrite (snapshot_loop e req state Hok Hactive), bind_of_Ok.
  destruct Hok as (Hs & Hd & _).
  rewrite (package_loop (dynamic_sdf_ e)
             (λ link, Some (Affine3dToMat4dAffine (getGlobalLinkTransform state link)))
             (packageDynamic e state) (dynamic_links_ e))
    by (intros; reflexivity || exact Hd).
  destruct (decide (Forall has_grid (dynamic_sdf_ e))) as [Hdyn|Hdyn];
    [|rewrite decide_False by (unfold grids_present; tauto); reflexivity].
  rewrite bind_of_Ok.
  rewrite (package_loop (static_sdf_ e) (λ _, None) (packageStatic e) (static_links_ e))
    by (intros; reflexivity || exact Hs).
  destruct (decide (Forall has_grid (static_sdf_ e))) as [Hstat|Hstat];
    [|rewrite decide_False by (unfold grids_present; tauto); reflexivity].
  rewrite bind_of_Ok, decide_True by (split; assumption).
  unfold evaluation, query_table.
  replace (zip_with (λ (_ : LinkModel) sdf, mkSDFData (OpenVDBDistanceField.getGrid sdf) None)
                    (static_links_ e) (static_sdf_ e))
    with (map fixed_field (static_sdf_ e)); [reflexivity|].
  clear -Hs. revert Hs. generalize (static_links_ e) as links.
  induction (static_sdf_ e) as [|sdf sdfs IH]; intros [|link links] Hlen;
    simpl in *; try discriminate; [reflexivity|].
  f_equal. apply IH. lia.
Qed.

(** The same on a constructed engine. *)
Lemma distanceSelf_prepared m voxel_size background ex inb e req res state :
  create m voxel_size background ex inb = Ok e →
  is_Some (getJointModelGroup (robot_model_ e) (DistanceRequest.group_name req)) →
  distanceSelf e req res state =
  if decide (grids_present e) then evaluation e req res state else Fail NullDereference.
Proof.
  intros Hc Hgroup. apply distanceSelf_unfolded; [|  |exact Hgroup].
  - exact (create_engine_ok _ _ _ _ _ _ Hc).
  - apply (GridFacts.engine_grids _ _ _ _ _ _ Hc).
Qed.

End WithLibrary.
End PrepareFacts.

(** ** The self-distance query when no plan is evaluated *)

Module EmptyPlanFacts.
Import Invariants ConstructionFacts EngineFacts QueryInputs.

Section WithLibrary.
Context `{External}.

Abbreviation all_empty := (Forall (λ q, DistanceQueryData.empty q = true)).

(** Posing the plans leaves every plan's [empty] flag as it was. *)
Lemma query_plans_all_empty e req state :
  all_empty (dist_query_ e) → all_empty (query_plans e req state).
Proof.
  intros Hall. unfold query_plans.
  generalize (zip (active_links_ e) (active_spheres_ e)) as lss.
  induction Hall as [|q qs Hq _ IH]; intros [|ls lss]; simpl; constructor.
  - exact Hq.
  - apply IH.
Qed.

(** Plans marked empty contribute no entry to [res.distance]. *)
Lemma evaluatePlan_all_empty e data dist_query distance :
  all_empty dist_query →
  for_each (evaluatePlan e data) dist_query distance = Ok distance.
Proof.
  induction 1 as [|q dist_query Hq _ IH]; cbn [for_each]; [reflexivity|].
  assert (Hstep : evaluatePlan e data distance q = Ok distance).
  { unfold evaluatePlan. rewrite Hq. reflexivity. }
  rewrite Hstep, bind_of_Ok. exact IH.
Qed.

(** C7, what the code does.  On an engine the constructor returned, when
    every query plan is marked empty (in particular when the model has no
    active link, so that there is no plan at all), a request naming a group
    of the model and starting from an empty result set does not run to
    completion.  When every static and every dynamic link has a shape of a
    supported kind, the helper is never called, [res.distance] stays empty,
    and the closing loop reads [res.distance.begin()->second] of the empty
    map.  When some static or dynamic link has no such shape, the call
    stops before that, where the field of that link is packaged and its
    null grid is dereferenced. *)
Theorem distanceSelf_all_plans_empty m voxel_size background ex inb e req res state :
  create m voxel_size background ex inb = Ok e →
  all_empty (dist_query_ e) →
  is_Some (getJointModelGroup (robot_model_ e) (DistanceRequest.group_name req)) →
  DistanceResult.distance res = [] →
  (fields_ready m e → distanceSelf e req res state = Fail DerefOfEnd) ∧
  (¬ fields_ready m e → distanceSelf e req res state = Fail NullDereference).
Proof.
  intros Hc Hempty Hgroup Hres.
  rewrite (PrepareFacts.distanceSelf_prepared _ _ _ _ _ _ _ _ _ Hc Hgroup).
  pose proof (GridFacts.grids_present_ready _ _ _ _ _ _ Hc) as Hready.
  split; intros Hr.
  - rewrite decide_True by (apply Hready, Hr). unfold evaluation.
    rewrite (evaluatePlan_all_empty _ _ _ _ (query_plans_all_empty e req state Hempty)).
    rewrite bind_of_Ok, Hres. reflexivity.
  - rewrite decide_False by (intros Hg; apply Hr, Hready, Hg). reflexivity.
Qed.

End WithLibrary.

Lemma table_and_shelf_ready :
  fields_ready Examples.table_and_shelf
    (Examples.engine_of (H := Examples.one_sphere_lib) Examples.table_and_shelf).
Proof.
  assert (Hs : static_links_ (Examples.engine_of (H := Examples.one_sphere_lib)
                                Examples.table_and_shelf) = ["table"; "shelf"])
    by (vm_compute; reflexivity).
  assert (Hd : dynamic_links_ (Examples.engine_of (H := Examples.one_sphere_lib)
                                 Examples.table_and_shelf) = [])
    by (vm_compute; reflexivity).
  intros link. rewrite Hs, Hd, !elem_of_cons, !elem_of_nil.
  intros [[->|[->|[]]]|[]]; apply Exists_cons_hd; reflexivity.
Qed.

Lemma distanceSelf_all_plans_empty_witness :
  let e := Examples.engine_of (H := Examples.one_sphere_lib) Examples.table_and_shelf in
  let req := DistanceRequest.mk "frame" true in
  create (H := Examples.one_sphere_lib) Examples.table_and_shelf 1 10 3 3 = Ok e ∧
  active_links_ e = [] ∧
  Forall (λ q, DistanceQueryData.empty q = true) (dist_query_ e) ∧
  is_Some (getJointModelGroup (robot_model_ e) (DistanceRequest.group_name req)) ∧
  DistanceResult.distance Examples.empty_result = [] ∧
  distanceSelf (H := Examples.one_sphere_lib) e req Examples.empty_result Examples.still_state
    = Fail DerefOfEnd.
Proof.
  intros e req.
  assert (Hc : create (H := Examples.one_sphere_lib) Examples.table_and_shelf 1 10 3 3 = Ok e).
  { vm_compute. reflexivity. }
  assert (Hq : Forall (λ q, DistanceQueryData.empty q = true) (dist_query_ e)).
  { vm_compute. constructor. }
  assert (Hg : is_Some (getJointModelGroup (robot_model_ e) (DistanceRequest.group_name req))).
  { vm_compute. eauto. }
  split; [exact Hc|]. split; [vm_compute; reflexivity|]. split; [exact Hq|].
  split; [exact Hg|]. split; [reflexivity|].
  apply (distanceSelf_all_plans_empty (H := Examples.one_sphere_lib)
           Examples.table_and_shelf 1 10 3 3 e req Examples.empty_result
           Examples.still_state Hc Hq Hg eq_refl).
  exact table_and_shelf_ready.
Defined.
End EmptyPlanFacts.

Module GroupExamples.

Lemma distanceSelf_unknown_group_witness :
  let e := Examples.engine_of (H := Examples.wall_lib) Examples.arm_on_pedestal in
  let req := DistanceRequest.mk "gripper" true in
  getJointModelGroup (robot_model_ e) (DistanceRequest.group_name req) = None ∧
  distanceSelf (H := Examples.wall_lib) e req Examples.empty_result Examples.still_state
    = Fail NullDereference.
Proof.
  intros e req.
  assert (Hg : getJointModelGroup (robot_model_ e) (DistanceRequest.group_name req) = None).
  { vm_compute. reflexivity. }
  split; [exact Hg|].
  apply (GroupFacts.distanceSelf_unknown_group (H := Examples.wall_lib) e req
           Examples.empty_result Examples.still_state Hg).
Defined.

Lemma distanceSelf_independent_of_group_witness :
  let e := Examples.engine_of (H := Examples.wall_lib) Examples.arm_on_pedestal in
  let req1 := DistanceRequest.mk "arm" true in
  let req2 := DistanceRequest.mk "wrist" true in
  DistanceRequest.gradient req1 = DistanceRequest.gradient req2 ∧
  is_Some (getJointModelGroup (robot_model_ e) (DistanceRequest.group_name req1)) ∧
  is_Some (getJointModelGroup (robot_model_ e) (DistanceRequest.group_name req2)) ∧
  distanceSelf (H := Examples.wall_lib) e req1 Examples.empty_result Examples.still_state
  = distanceSelf (H := Examples.wall_lib) e req2 Examples.empty_result Examples.still_state.
Proof.
  intros e req1 req2.
  assert (H1 : is_Some (getJointModelGroup (robot_model_ e)
                          (DistanceRequest.group_name req1))).
  { vm_compute. eauto. }
  assert (H2 : is_Some (getJointModelGroup (robot_model_ e)
                          (DistanceRequest.group_name req2))).
  { vm_compute. eauto. }
  split; [reflexivity|]. split; [exact H1|]. split; [exact H2|].
  apply (GroupFacts.distanceSelf_independent_of_group (H := Examples.wall_lib) e req1 req2
           Examples.empty_result Examples.still_state eq_refl H1 H2).
Defined.
End GroupExamples.

(** ** Gradient blending *)

Module BlendFacts.
Import Examples.
Local Open Scope R_scope.

Lemma Int_part_half : Int_part (0 + 1 / 2) = 0%Z.
Proof. symmetry. apply Int_part_spec. simpl. lra. Qed.

Ltac Rabs_lra := unfold Rabs; destruct (Rcase_abs _); lra.

Lemma approxEqual_false a b : 1 / 100000 <= Rabs (a - b) → approxEqual a b = false.
Proof. intros Hab. apply bool_decide_eq_false_2. lra. Qed.

Lemma probe_voxel d :
  sdf_worldToIndexNodeCentered (External := wall_lib) d probe_sphere.1 = mkCoord 0 0 0.
Proof. cbn. rewrite Int_part_half. reflexivity. Qed.

Lemma left_value c :
  in_band c = true → sdf_getValue (External := wall_lib) left_wall c = IZR (ci c) + 1 / 2.
Proof. intros Hc. cbn. unfold wall_value. rewrite Hc. reflexivity. Qed.

Lemma right_value c :
  in_band c = true → sdf_getValue (External := wall_lib) right_wall c = - IZR (ci c) + 1 / 2.
Proof. intros Hc. cbn. unfold wall_value. rewrite Hc. reflexivity. Qed.

Lemma diagonal_value c :
  in_band c = true →
  sdf_getValue (External := wall_lib) diagonal_wall c
  = (IZR (ci c) - IZR (cj c)) * / sqrt 2 + 1 / 2.
Proof. intros Hc. cbn. unfold wall_value. rewrite Hc. reflexivity. Qed.

Lemma left_gradient :
  ISGradient_CD_2ND (sdf_getValue (External := wall_lib) left_wall) (mkCoord 0 0 0)
  = mkVec3 1 0 0.
Proof.
  unfold ISGradient_CD_2ND. rewrite !left_value by reflexivity. cbn. rewrite !plus_IZR. f_equal; lra.
Qed.

Lemma right_gradient :
  ISGradient_CD_2ND (sdf_getValue (External := wall_lib) right_wall) (mkCoord 0 0 0)
  = mkVec3 (-1) 0 0.
Proof.
  unfold ISGradient_CD_2ND. rewrite !right_value by reflexivity. cbn. rewrite !plus_IZR. f_equal; lra.
Qed.

Lemma diagonal_gradient :
  ISGradient_CD_2ND (sdf_getValue (External := wall_lib) diagonal_wall) (mkCoord 0 0 0)
  = mkVec3 (/ sqrt 2) (- / sqrt 2) 0.
Proof.
  unfold ISGradient_CD_2ND. rewrite !diagonal_value by reflexivity. cbn. rewrite !plus_IZR. f_equal; lra.
Qed.

(** The loop over the probe's single sphere, for a wall half a voxel away. *)
Lemma probe_distance d :
  sdf_getValue (External := wall_lib) d (mkCoord 0 0 0) = 1 / 2 →
  foldl (sphereStep (H := wall_lib) 10 d) (10, mkCoord 0 0 0, false) [probe_sphere]
  = (1 / 4, mkCoord 0 0 0, true).
Proof.
  intros Hd. cbn [foldl]. unfold sphereStep. rewrite probe_voxel, Hd.
  rewrite approxEqual_false by Rabs_lra.
  cbn [snd probe_sphere]. rewrite decide_True by lra.
  repeat f_equal. lra.
Qed.

Lemma vdb_normalize_axis (s : R) :
  s = 1 ∨ s = -1 → V3.vdb_normalize (mkVec3 s 0 0) = mkVec3 s 0 0.
Proof.
  intros Hs. unfold V3.vdb_normalize, V3.norm, V3.squaredNorm. cbn [vx vy vz].
  replace (s * s + 0 * 0 + 0 * 0) with 1 by (destruct Hs; subst; lra).
  rewrite sqrt_1. destruct (Rle_dec _ _) as [Hle|_].
  - exfalso. revert Hle. Rabs_lra.
  - unfold V3.scale. cbn [vx vy vz]. f_equal; lra.
Qed.

Lemma between_walls_left :
  candidateStep (H := wall_lib) 10 between_walls walls (probe_initial, V3.zero, 0) 0
  = Ok (probe_after_left, mkVec3 (39 / 4) 0 0, 39 / 4).
Proof.
  unfold candidateStep. cbn [between_walls DistanceQueryData.child_type
    DistanceQueryData.child_index DistanceQueryData.child_name DistanceQueryData.spheres
    DistanceQueryData.gradient at_index lookup list_lookup walls table_get data_Static].
  rewrite !bind_of_Ok.
  change (at_index (table_get walls Static) 0) with (Ok left_wall).
  rewrite bind_of_Ok.
  rewrite probe_distance by (rewrite left_value by reflexivity; cbn; lra).
  cbn [probe_initial DistanceResultsData.min_distance]. case_decide; [|lra].
  rewrite bind_of_Ok.
  unfold blendGradient. rewrite left_gradient.
  case_decide as Hsum; [|exfalso; revert Hsum; unfold V3.sum; cbn; lra].
  cbn [sdf_applyIJT wall_lib]. rewrite vdb_normalize_axis by auto.
  unfold set_min, set_hasGradient, probe_after_left, V3.add, V3.scale, V3.zero. cbn.
  repeat f_equal; lra.
Qed.

Lemma between_walls_right :
  candidateStep (H := wall_lib) 10 between_walls walls
                (probe_after_left, mkVec3 (39 / 4) 0 0, 39 / 4) 1
  = Ok (probe_after_left, mkVec3 0 0 0, 39 / 2).
Proof.
  unfold candidateStep. cbn [between_walls DistanceQueryData.child_type
    DistanceQueryData.child_index DistanceQueryData.child_name DistanceQueryData.spheres
    DistanceQueryData.gradient at_index lookup list_lookup walls table_get data_Static].
  rewrite !bind_of_Ok.
  change (at_index (table_get walls Static) 1) with (Ok right_wall).
  rewrite bind_of_Ok.
  rewrite probe_distance by (rewrite right_value by reflexivity; cbn; lra).
  cbn [probe_after_left DistanceResultsData.min_distance]. case_decide; [lra|].
  rewrite bind_of_Ok.
  unfold blendGradient. rewrite right_gradient.
  case_decide as Hsum; [|exfalso; revert Hsum; unfold V3.sum; cbn; lra].
  cbn [sdf_applyIJT wall_lib]. rewrite vdb_normalize_axis by auto.
  unfold set_hasGradient, probe_after_left, V3.add, V3.scale. cbn.
  repeat f_equal; lra.
Qed.

(** C4, what the code does.  A parent halfway between two walls that face
    each other gets one gradient from each wall, of equal weight and
    opposite direction.  Their weighted sum is the zero vector, which the
    final normalisation leaves as it is: the result reports
    [hasGradient = true] together with a gradient of length 0, although the
    total weight, 39/2, is not zero. *)
Theorem between_walls_gradient_cancels :
  distanceSelfHelper (H := wall_lib) 10 between_walls walls
                     (fresh_DistanceResultsData (External := wall_lib))
  = Ok (DistanceResultsData.mk (1 / 4) ("probe", "left_wall") false true (mkVec3 0 0 0)) ∧
  V3.norm (mkVec3 0 0 0) = 0.
Proof.
  split.
  - unfold distanceSelfHelper.
    change (seq 0 (length (DistanceQueryData.child_index between_walls))) with [0%nat; 1%nat].
    cbn [for_each].
    change (DistanceResultsData.mk 10 _ false _ _) with probe_initial.
    rewrite between_walls_left, bind_of_Ok, between_walls_right, !bind_of_Ok.
    unfold finishGradient. cbn [probe_after_left DistanceResultsData.hasGradient].
    case_decide; [lra|].
    unfold set_result_gradient, V3.eigen_normalize, V3.squaredNorm. cbn [vx vy vz].
    destruct (Rlt_dec _ _) as [Hpos|_].
    + exfalso. revert Hpos. unfold Rdiv. rewrite !Rmult_0_l. lra.
    + cbn. repeat f_equal; unfold Rdiv; apply Rmult_0_l.
  - unfold V3.norm, V3.squaredNorm. cbn [vx vy vz].
    replace (0 * 0 + 0 * 0 + 0 * 0) with 0 by lra. apply sqrt_0.
Qed.

(** The field's own gradient query tests the norm of the raw gradient and
    keeps the gradient of the diagonal wall. *)
Lemma getGradient_keeps_diagonal (previous : Vec3) :
  OpenVDBDistanceField.getGradient (H := wall_lib) diagonal_field (mkCoord 0 0 0)
                                   previous false
  = Ok (true, mkVec3 (/ sqrt 2) (- / sqrt 2) 0).
Proof.
  assert (Hsq : / sqrt 2 * / sqrt 2 = 1 / 2).
  { rewrite <- Rinv_mult, sqrt_sqrt by lra. lra. }
  assert (Hraw : ISGradient_CD_2ND
                   (gridValue (External := wall_lib)
                              (meshToVolume (CONE 1 1) Mat4.Identity 1 3 3))
                   (mkCoord 0 0 0)
                 = mkVec3 (/ sqrt 2) (- / sqrt 2) 0).
  { exact diagonal_gradient. }
  unfold OpenVDBDistanceField.getGradient.
  cbn [diagonal_field OpenVDBDistanceField.accessor_]. rewrite Hraw, bind_of_Ok.
  assert (Hnorm : V3.squaredNorm (mkVec3 (/ sqrt 2) (- / sqrt 2) 0) = 1).
  { unfold V3.squaredNorm. cbn [vx vy vz]. lra. }
  unfold V3.norm, V3.eigen_normalize. rewrite Hnorm, sqrt_1.
  case_decide as Hn; [|lra].
  destruct (Rlt_dec 0 1) as [_|Hle]; [|lra].
  unfold V3.scale. cbn [vx vy vz]. repeat f_equal; lra.
Qed.

(** C5, what the code does.  The raw gradient of the diagonal wall at the
    minimising voxel is (1/√2, -1/√2, 0), a vector of length 1.  Its
    components sum to zero, and [result.sum() != 0.0] is the test the code
    makes: the candidate is left out of the blend, and the result reports no
    gradient although the only candidate had one. *)
Theorem diagonal_gradient_discarded :
  let raw := ISGradient_CD_2ND (sdf_getValue (External := wall_lib) diagonal_wall)
                               (mkCoord 0 0 0) in
  raw = mkVec3 (/ sqrt 2) (- / sqrt 2) 0 ∧
  V3.squaredNorm raw = 1 ∧
  raw ≠ mkVec3 0 0 0 ∧
  distanceSelfHelper (H := wall_lib) 10 before_diagonal walls
                     (fresh_DistanceResultsData (External := wall_lib))
  = Ok (DistanceResultsData.mk (1 / 4) ("probe", "diagonal_wall") false false (mkVec3 0 0 0)).
Proof.
  cbv zeta. rewrite diagonal_gradient.
  assert (Hsq : / sqrt 2 * / sqrt 2 = 1 / 2).
  { rewrite <- Rinv_mult, sqrt_sqrt by lra. lra. }
  split; [reflexivity|]. split; [|split].
  - unfold V3.squaredNorm. cbn [vx vy vz]. lra.
  - intros [= Hx _]. rewrite Hx in Hsq. lra.
  - unfold distanceSelfHelper.
    change (seq 0 (length (DistanceQueryData.child_index before_diagonal))) with [0%nat].
    cbn [for_each].
    unfold candidateStep. cbn [before_diagonal DistanceQueryData.child_type
      DistanceQueryData.child_index DistanceQueryData.child_name DistanceQueryData.spheres
      DistanceQueryData.gradient DistanceQueryData.parent_name
      at_index lookup list_lookup walls table_get data_Static].
    rewrite !bind_of_Ok.
    change (at_index (table_get walls Static) 2) with (Ok diagonal_wall).
    rewrite bind_of_Ok.
    rewrite probe_distance by (rewrite diagonal_value by reflexivity; cbn; lra).
    cbn [DistanceResultsData.min_distance]. case_decide; [|lra].
    rewrite bind_of_Ok.
    unfold blendGradient. rewrite diagonal_gradient.
    case_decide as Hsum; [exfalso; apply Hsum; unfold V3.sum; cbn; lra|].
    rewrite !bind_of_Ok. reflexivity.
Qed.
End BlendFacts.

(** ** Gradient blending: the flag and the total weight *)

Module WeightFacts.
Import Invariants.
Local Open Scope R_scope.

(** The final normalisation yields a unit vector exactly when the blended
    sum is not the zero vector. *)
Lemma eigen_normalize_unit v :
  0 < V3.squaredNorm v → V3.norm (V3.eigen_normalize v) = 1.
Proof.
  intros Hpos. unfold V3.eigen_normalize. destruct (Rlt_dec _ _) as [_|Hn]; [|tauto].
  pose proof (sqrt_lt_R0 _ Hpos) as Hs.
  pose proof (sqrt_sqrt (V3.squaredNorm v) (Rlt_le _ _ Hpos)) as Hss.
  unfold V3.norm.
  replace (V3.squaredNorm (V3.scale v (1 / sqrt (V3.squaredNorm v)))) with 1;
    [apply sqrt_1|].
  unfold V3.squaredNorm in *. unfold V3.scale. cbn [vx vy vz].
  set (s := sqrt _) in *.
  transitivity ((vx v * vx v + vy v * vy v + vz v * vz v) / (s * s)).
  - rewrite Hss. field. lra.
  - field. lra.
Qed.

Lemma eigen_normalize_zero v :
  V3.squaredNorm v = 0 → V3.eigen_normalize v = v.
Proof.
  intros Hz. unfold V3.eigen_normalize. destruct (Rlt_dec _ _) as [Hpos|_]; [lra|reflexivity].
Qed.
Section WithLibrary.
Context `{External}.

(** A candidate that reports a distance reports one below the background. *)
Lemma sphere_loop_below bg d spheres : ∀ acc : R * Coord * bool,
  acc.1.1 <= bg → (acc.2 = true → acc.1.1 < bg) →
  (foldl (sphereStep bg d) acc spheres).1.1 <= bg ∧
  ((foldl (sphereStep bg d) acc spheres).2 = true →
   (foldl (sphereStep bg d) acc spheres).1.1 < bg).
Proof.
  induction spheres as [|s spheres IH]; intros [[cm ijk] found] Hle Hlt; [auto|].
  cbn [foldl]. apply IH; unfold sphereStep; simpl in *;
    destruct (approxEqual _ _); try assumption; case_decide; simpl; try assumption; lra.
Qed.

Lemma candidateStep_weight bg data table g0 st i st' :
  weight_inv g0 st → candidateStep bg data table st i = Ok st' → weight_inv g0 st'.
Proof.
  intros Hinv. unfold candidateStep.
  intros (ty & _ & (idx & _ & (d & _ & Hrest)%bind_Ok)%bind_Ok)%bind_Ok.
  pose proof (sphere_loop_below bg d (DistanceQueryData.spheres data)
                (bg, mkCoord 0 0 0, false)) as Hloop.
  destruct (foldl _ _ _) as [[cm ijk] found]. simpl in Hloop.
  destruct Hloop as [_ Hlt]; [lra | discriminate |].
  destruct found; [|injection Hrest as <-; exact Hinv].
  specialize (Hlt eq_refl).
  destruct st as [[res g] tw]. destruct Hinv as (Htw & Hon & Hoff). simpl in *.
  apply bind_Ok in Hrest as (res1 & Hres1 & Hrest).
  assert (Hsame : DistanceResultsData.hasGradient res1 = DistanceResultsData.hasGradient res ∧
                  DistanceResultsData.gradient res1 = DistanceResultsData.gradient res).
  { revert Hres1. destruct (decide (cm < DistanceResultsData.min_distance res)).
    - intros (name & _ & [= <-])%bind_Ok. auto.
    - intros [= <-]. auto. }
  destruct Hsame as [Hflag Hgrad].
  destruct (DistanceQueryData.gradient data).
  - injection Hrest as <-. unfold blendGradient.
    destruct (decide (V3.sum _ ≠ 0)).
    + unfold weight_inv. simpl. split; [lra|]. split; [intros _; lra | discriminate].
    + unfold weight_inv. simpl. rewrite Hflag, Hgrad. auto.
  - injection Hrest as <-. unfold weight_inv. simpl. rewrite Hflag, Hgrad. auto.
Qed.

(** When the result object enters [distanceSelfHelper] with
    [hasGradient = false], the flag comes out true exactly when some
    candidate was blended, that is when the total weight is positive, and
    otherwise the gradient is the one the caller's object held. *)
Lemma distanceSelfHelper_flag bg data table res res' :
  DistanceResultsData.hasGradient res = false →
  distanceSelfHelper bg data table res = Ok res' →
  ∃ res_l g tw,
    for_each (candidateStep bg data table)
             (seq 0 (length (DistanceQueryData.child_index data)))
             (DistanceResultsData.mk bg
                (DistanceQueryData.parent_name data, (DistanceResultsData.link_name res).2)
                false (DistanceResultsData.hasGradient res)
                (DistanceResultsData.gradient res), V3.zero, 0)
      = Ok (res_l, g, tw) ∧
    (DistanceResultsData.hasGradient res' = true ↔ 0 < tw) ∧
    (DistanceResultsData.hasGradient res' = false ↔ tw = 0) ∧
    (tw = 0 → DistanceResultsData.gradient res' = DistanceResultsData.gradient res).
Proof.
  intros Hoff. unfold distanceSelfHelper. intros ([[res_l g] tw] & Hloop & [= <-])%bind_Ok.
  exists res_l, g, tw. split; [exact Hloop|].
  apply (for_each_invariant (weight_inv (DistanceResultsData.gradient res))) in Hloop.
  - destruct Hloop as (Htw & Hon & Hoff'). simpl in *.
    unfold finishGradient.
    destruct (DistanceResultsData.hasGradient res_l) eqn:Hflag.
    + specialize (Hon eq_refl). case_decide; [lra|]. simpl. rewrite Hflag.
      repeat split; try tauto; try lra; try discriminate.
    + destruct (Hoff' eq_refl) as [-> Hg]. rewrite Hflag.
      repeat split; try tauto; try lra; try discriminate.
  - intros st i st' _. apply candidateStep_weight.
  - repeat split; simpl; try lra; try discriminate. rewrite Hoff. discriminate.
Qed.

End WithLibrary.
End WeightFacts.

(** ** Static links: what the walk reaches *)

Module ReachFacts.
Import Invariants ConstructionFacts Reach.

Lemma attached_path_trans m x y z :
  attached_path m x y → attached_path m y z → attached_path m x z.
Proof.
  intros Hxy Hyz. induction Hyz as [y z tf Hz|y z w tf _ IH Hw].
  - eapply path_more; eassumption.
  - eapply path_more; [apply IH, Hxy | exact Hw].
Qed.

Lemma addStatic_links e link pose e' :
  addStatic e link pose = Ok e' →
  static_links_ e' = static_links_ e ++ filter (λ y, y ∈ links_ e) [link] ∧
  robot_model_ e' = robot_model_ e ∧ links_ e' = links_ e.
Proof.
  intros Hadd. rewrite filter_cons, filter_nil.
  destruct (addStatic_Ok _ _ _ _ Hadd) as [[Hn ->]|(Hin & sdf & _ & ->)].
  - rewrite decide_False by exact Hn. rewrite app_nil_r. auto.
  - rewrite decide_True by exact Hin. simpl. auto.
Qed.

Lemma visitAttached_effect recurse link :
  (∀ e x s e' s', recurse e x s = Ok (e', s') →
     walk_effect (getAssociatedFixedTransforms (robot_model_ e) x) x e s e' s') →
  ∀ fixed_attached e s e' s',
    fixed_attached ⊆ getAssociatedFixedTransforms (robot_model_ e) link →
    visitAttached recurse fixed_attached e s = Ok (e', s') →
    walk_effect fixed_attached link e s e' s'.
Proof.
  intros Hrec. induction fixed_attached as [|[first second] rest IH];
    intros e s e' s' Hsub; simpl.
  - intros [= <- <-]. exists []. rewrite app_nil_r, filter_nil, app_nil_r.
    repeat split; try constructor; intros y Hy; inversion Hy.
  - assert (Hrest : rest ⊆ getAssociatedFixedTransforms (robot_model_ e) link).
    { intros x Hx. apply Hsub. right. exact Hx. }
    case_decide as Hseen.
    + intros Hloop. destruct (IH _ _ _ _ Hrest Hloop)
        as (new & -> & Hnd & Hfresh & Hst & Hm & Hl & Hpath & Hfa & Hclosed).
      exists new. repeat split; try assumption.
      intros x [->|Hx]%elem_of_cons; [|apply Hfa, Hx].
      apply elem_of_app. left. exact Hseen.
    + intros (e1 & H1 & ([e2 s2] & H2 & H3)%bind_Ok)%bind_Ok.
      destruct (addStatic_links _ _ _ _ H1) as (Hst1 & Hm1 & Hl1).
      destruct (Hrec _ _ _ _ _ H2)
        as (new2 & -> & Hnd2 & Hfresh2 & Hst2 & Hm2 & Hl2 & Hpath2 & Hfa2 & Hclosed2).
      assert (Hrest2 : rest ⊆ getAssociatedFixedTransforms (robot_model_ e2) link).
      { rewrite Hm2, Hm1. exact Hrest. }
      destruct (IH _ _ _ _ Hrest2 H3)
        as (new3 & -> & Hnd3 & Hfresh3 & Hst3 & Hm3 & Hl3 & Hpath3 & Hfa3 & Hclosed3).
      rewrite Hm2, Hm1 in Hpath3, Hclosed3, Hm3. rewrite Hm1 in Hpath2, Hclosed2, Hfa2.
      rewrite Hl2, Hl1 in Hst3, Hl3. rewrite Hl1 in Hst2.
      exists ([first] ++ new2 ++ new3).
      assert (Hfirst_path : attached_path (robot_model_ e) link first).
      { eapply path_step. apply Hsub. left. }
      repeat split.
      * rewrite <- !app_assoc. reflexivity.
      * apply NoDup_app. split; [apply NoDup_singleton|]. split.
        -- intros y ->%list_elem_of_singleton [Hy|Hy]%elem_of_app.
           ++ apply (Hfresh2 _ Hy). apply elem_of_app. right. left.
           ++ apply (Hfresh3 _ Hy). apply elem_of_app. left. apply elem_of_app. right. left.
        -- apply NoDup_app. split; [exact Hnd2|]. split; [|exact Hnd3].
           intros y Hy2 Hy3. apply (Hfresh3 _ Hy3). apply elem_of_app. right. exact Hy2.
      * intros y [->%list_elem_of_singleton|[Hy|Hy]%elem_of_app]%elem_of_app.
        -- exact Hseen.
        -- intros Hys. apply (Hfresh2 _ Hy). apply elem_of_app. left. exact Hys.
        -- intros Hys. apply (Hfresh3 _ Hy). apply elem_of_app. left.
           apply elem_of_app. left. exact Hys.
      * rewrite Hst3, Hst2, Hst1, !filter_app, <- !app_assoc. reflexivity.
      * rewrite Hm3. reflexivity.
      * exact Hl3.
      * intros y [->%list_elem_of_singleton|[Hy|Hy]%elem_of_app]%elem_of_app.
        -- exact Hfirst_path.
        -- eapply attached_path_trans; [exact Hfirst_path | apply Hpath2, Hy].
        -- apply Hpath3, Hy.
      * intros x [->|Hx]%elem_of_cons; [|rewrite <- !app_assoc in Hfa3; 
                                          rewrite <- !app_assoc; apply Hfa3, Hx].
        simpl. rewrite <- !app_assoc. apply elem_of_app. right. left.
      * intros x [->%list_elem_of_singleton|[Hx|Hx]%elem_of_app]%elem_of_app y Hy.
        -- apply elem_of_app. left. apply (Hfa2 _ Hy).
        -- apply elem_of_app. left. apply (Hclosed2 _ Hx _ Hy).
        -- apply (Hclosed3 _ Hx _ Hy).
Qed.

Lemma addAssociatedFixedTransforms_effect fuel :
  ∀ e link s e' s',
    addAssociatedFixedTransforms fuel e link s = Ok (e', s') →
    walk_effect (getAssociatedFixedTransforms (robot_model_ e) link) link e s e' s'.
Proof.
  induction fuel as [|fuel IH]; intros e link s e' s'; simpl; [discriminate|].
  apply (visitAttached_effect _ link IH). reflexivity.
Qed.

(** The static links are the root, when it bears geometry, and the links with
    geometry that the walk reaches. *)
Lemma createStaticSDFs_reach e0 e :
  static_links_ e0 = [] →
  createStaticSDFs e0 = Ok e →
  ∃ walked,
    static_links_ e =
      (if decide (getRootLink (robot_model_ e0) ∈ links_ e0)
       then [getRootLink (robot_model_ e0)] else []) ++ walked ∧
    NoDup walked ∧
    ∀ x, x ∈ walked ↔
         x ∈ links_ e0 ∧ attached_path (robot_model_ e0) (getRootLink (robot_model_ e0)) x.
Proof.
  intros Hempty. unfold createStaticSDFs.
  intros (e1 & H1 & ([e2 s2] & H2 & [= <-])%bind_Ok)%bind_Ok.
  destruct (addStatic_links _ _ _ _ H1) as (Hst1 & Hm1 & Hl1).
  destruct (addAssociatedFixedTransforms_effect _ _ _ _ _ _ H2)
    as (new & Hs2 & Hnd & _ & Hst & _ & _ & Hpath & Hfa & Hclosed).
  rewrite Hm1 in Hpath, Hfa, Hclosed. rewrite Hl1 in Hst. simpl in Hs2. subst s2.
  exists (filter (λ y, y ∈ links_ e0) new). split; [|split].
  - rewrite Hst, Hst1, Hempty, filter_cons, filter_nil. simpl. reflexivity.
  - apply NoDup_filter, Hnd.
  - intros x. rewrite list_elem_of_filter. split.
    + intros [Hx Hnew]. split; [exact Hx | apply Hpath, Hnew].
    + intros [Hx Hreach]. split; [exact Hx|].
      clear Hx H1 H2 Hst Hst1 Hpath.
      remember (getRootLink (robot_model_ e0)) as root eqn:Hroot.
      induction Hreach as [r y tf Hy|r y z tf _ IH Hz].
      * apply (Hfa _ Hy).
      * exact (Hclosed _ (IH Hroot Hfa) _ Hz).
Qed.

(** X1.  The walk over fixed attachments classifies as static exactly the
    links with collision geometry that can be reached from the root through
    attachment maps, each of them once: [static_links_] is the root (when it
    bears collision geometry) followed by those links without repetition. *)
Theorem createStaticSDFs_static_links e0 e :
  static_links_ e0 = [] →
  createStaticSDFs e0 = Ok e →
  ∃ walked,
    static_links_ e =
      (if decide (getRootLink (robot_model_ e0) ∈ links_ e0)
       then [getRootLink (robot_model_ e0)] else []) ++ walked ∧
    NoDup walked ∧
    ∀ x, x ∈ walked ↔
         x ∈ links_ e0 ∧ attached_path (robot_model_ e0) (getRootLink (robot_model_ e0)) x.
Proof. apply createStaticSDFs_reach. Qed.

Lemma createStaticSDFs_static_links_witness :
  let e0 := createDefaultAllowedCollisionMatrix (init Examples.table_and_shelf 1 10 3 3) in
  let e := Examples2.static_engine Examples.table_and_shelf in
  static_links_ e0 = [] ∧ createStaticSDFs e0 = Ok e ∧
  ∃ walked,
    static_links_ e =
      (if decide (getRootLink (robot_model_ e0) ∈ links_ e0)
       then [getRootLink (robot_model_ e0)] else []) ++ walked ∧
    NoDup walked ∧
    ∀ x, x ∈ walked ↔
         x ∈ links_ e0 ∧ attached_path (robot_model_ e0) (getRootLink (robot_model_ e0)) x.
Proof.
  intros e0 e.
  assert (Hrun : createStaticSDFs e0 = Ok e) by (vm_compute; reflexivity).
  split; [reflexivity|]. split; [exact Hrun|].
  apply (createStaticSDFs_static_links e0 e eq_refl Hrun).
Defined.
End ReachFacts.

(** ** The three classes on a constructed engine *)

Module ClassFacts2.
Import Invariants ConstructionFacts ClassFacts EngineFacts.

Abbreviation collect_step links :=
  (λ (active : list LinkModel) (link : LinkModel),
     if decide ((link ∉ active) ∧ (link ∈ links)) then active ++ [link] else active).

Lemma collectLinks_sound (links active ls : list LinkModel) x :
  x ∈ foldl (collect_step links) active ls → x ∈ active ∨ (x ∈ ls ∧ x ∈ links).
Proof.
  revert active. induction ls as [|l ls IH]; intros active; simpl; [auto|].
  intros [Hx | [Hx Hl] ]%IH.
  - revert Hx. case_decide as Hd; [|auto].
    intros [Hx | ->%list_elem_of_singleton]%elem_of_app; [auto|].
    right. split; [left | tauto].
  - right. split; [right|]; assumption.
Qed.

Lemma collectLinks_NoDup (links active ls : list LinkModel) :
  NoDup active → NoDup (foldl (collect_step links) active ls).
Proof.
  revert active. induction ls as [|l ls IH]; intros active Hnd; simpl; [exact Hnd|].
  apply IH. case_decide as Hd; [|exact Hnd].
  apply NoDup_app. split; [exact Hnd|]. split; [|apply NoDup_singleton].
  intros y Hy ->%list_elem_of_singleton. tauto.
Qed.

Lemma collectActive_sound links groups active x :
  x ∈ collectActive links groups active →
  x ∈ active ∨ (x ∈ links ∧ ∃ g, g ∈ groups ∧ x ∈ getLinkModels g).
Proof.
  unfold collectActive. revert active.
  induction groups as [|g groups IH]; intros active; simpl; [auto|].
  intros [ [Hx | [Hx Hl] ]%collectLinks_sound | (Hl & g' & Hg' & Hx) ]%IH.
  - auto.
  - right. split; [exact Hl|]. exists g. split; [left | exact Hx].
  - right. split; [exact Hl|]. exists g'. split; [right|]; assumption.
Qed.

Lemma collectActive_NoDup links groups active :
  NoDup active → NoDup (collectActive links groups active).
Proof.
  unfold collectActive. revert active.
  induction groups as [|g groups IH]; intros active Hnd; simpl; [exact Hnd|].
  apply IH, collectLinks_NoDup, Hnd.
Qed.

(** X2.  The active links are exactly the links with collision geometry that
    some joint group lists, each of them once. *)
Theorem createActiveSDFs_active_links `{External} e e' :
  active_links_ e = [] → createActiveSDFs e = Ok e' →
  NoDup (active_links_ e') ∧
  ∀ x, x ∈ active_links_ e' ↔
       x ∈ links_ e ∧ ∃ g, g ∈ getJointModelGroups (robot_model_ e) ∧ x ∈ getLinkModels g.
Proof.
  intros Hempty Hactive. destruct (createActiveSDFs_links _ _ Hactive) as (-> & _).
  rewrite Hempty. split; [apply collectActive_NoDup; constructor|].
  intros x. split.
  - intros [Hx|Hx]%collectActive_sound; [inversion Hx | exact Hx].
  - intros (Hl & g & Hg & Hx). eapply collectActive_complete; eassumption.
Qed.

Lemma createActiveSDFs_active_links_witness :
  let e := Examples2.static_engine Examples.arm_on_pedestal in
  let e' := Examples2.active_engine (H := Examples.wall_lib) Examples.arm_on_pedestal in
  active_links_ e = [] ∧ createActiveSDFs (H := Examples.wall_lib) e = Ok e' ∧
  NoDup (active_links_ e') ∧
  ∀ x, x ∈ active_links_ e' ↔
       x ∈ links_ e ∧ ∃ g, g ∈ getJointModelGroups (robot_model_ e) ∧ x ∈ getLinkModels g.
Proof.
  intros e e'.
  assert (Hrun : createActiveSDFs (H := Examples.wall_lib) e = Ok e')
    by (vm_compute; reflexivity).
  split; [reflexivity|]. split; [exact Hrun|].
  apply (createActiveSDFs_active_links (H := Examples.wall_lib) e e' eq_refl Hrun).
Defined.

(** The three classes of a constructed engine partition the links with geometry. *)
Lemma create_classes `{External} m voxel_size background ex inb e :
  NoDup (getLinkModelsWithCollisionGeometry m) →
  create m voxel_size background ex inb = Ok e →
  getLinkModelsWithCollisionGeometry m
    ≡ₚ static_links_ e ++ active_links_ e ++ dynamic_links_ e ∧
  NoDup (static_links_ e ++ active_links_ e ++ dynamic_links_ e).
Proof.
  intros Hnd. unfold create.
  intros (e1 & H1 & (e2 & H2 & (e3 & H3 & H4)%bind_Ok)%bind_Ok)%bind_Ok.
  destruct (createStaticSDFs_inv
              (createDefaultAllowedCollisionMatrix (init m voxel_size background ex inb))
              e1 eq_refl eq_refl H1) as [Hsame _].
  assert (Hl1 : links_ e1 = getLinkModelsWithCollisionGeometry m)
    by (rewrite Hsame; reflexivity).
  destruct (createActiveSDFs_links _ _ H2) as (_ & _ & _ & Hl2).
  destruct (createDynamicSDFs_partition e2 e3) as [Hperm Hnd3];
    [rewrite Hl2, Hl1; exact Hnd | exact H3 |].
  apply createDefaultDistanceQuery_Ok in H4 as (q & -> & _). simpl.
  rewrite Hl2, Hl1 in Hperm. auto.
Qed.

(** X3.  Whenever the constructor completes on a model whose list of links
    with collision geometry has no repetition, the three link vectors together
    are a rearrangement of that list: every such link is in exactly one of
    [static_links_], [active_links_] and [dynamic_links_]. *)
Theorem create_partition `{External} m voxel_size background ex inb e :
  NoDup (getLinkModelsWithCollisionGeometry m) →
  create m voxel_size background ex inb = Ok e →
  getLinkModelsWithCollisionGeometry m
    ≡ₚ static_links_ e ++ active_links_ e ++ dynamic_links_ e ∧
  NoDup (static_links_ e ++ active_links_ e ++ dynamic_links_ e).
Proof. apply create_classes. Qed.

Lemma create_partition_witness :
  let m := Examples.arm_on_pedestal in
  let e := Examples.engine_of (H := Examples.wall_lib) m in
  NoDup (getLinkModelsWithCollisionGeometry m) ∧
  create (H := Examples.wall_lib) m 1 10 3 3 = Ok e ∧
  getLinkModelsWithCollisionGeometry m
    ≡ₚ static_links_ e ++ active_links_ e ++ dynamic_links_ e ∧
  NoDup (static_links_ e ++ active_links_ e ++ dynamic_links_ e).
Proof.
  intros m e.
  assert (Hnd : NoDup (getLinkModelsWithCollisionGeometry m)).
  { exact (bool_decide_unpack
             (NoDup ["pedestal"; "upper_arm"; "forearm"; "camera"]) I). }
  assert (Hrun : create (H := Examples.wall_lib) m 1 10 3 3 = Ok e)
    by (vm_compute; reflexivity).
  split; [exact Hnd|]. split; [exact Hrun|].
  apply (create_partition (H := Examples.wall_lib) m 1 10 3 3 e Hnd Hrun).
Defined.
End ClassFacts2.

(** ** The allow-list derived from the model *)

Module DefaultAllowListFacts.
Import AllowedCollisionMatrix AllowListFacts.

Lemma setEntry_false_never (acm : AllowedCollisionMatrix.t) n1 n2 :
  (∀ x y, getAllowedCollision acm x y ≠ Some AllowedCollision.ALWAYS) →
  ∀ x y, getAllowedCollision (setEntry acm n1 n2 false) x y ≠ Some AllowedCollision.ALWAYS.
Proof.
  intros Hacm x y. rewrite getAllowedCollision_setEntry. case_decide; [discriminate | apply Hacm].
Qed.

Lemma foldl_never {A} (f : AllowedCollisionMatrix.t → A → AllowedCollisionMatrix.t) l :
  (∀ acm a, (∀ x y, getAllowedCollision acm x y ≠ Some AllowedCollision.ALWAYS) →
            ∀ x y, getAllowedCollision (f acm a) x y ≠ Some AllowedCollision.ALWAYS) →
  ∀ acm, (∀ x y, getAllowedCollision acm x y ≠ Some AllowedCollision.ALWAYS) →
         ∀ x y, getAllowedCollision (foldl f acm l) x y ≠ Some AllowedCollision.ALWAYS.
Proof.
  intros Hf. induction l as [|a l IH]; intros acm Hacm; simpl; [exact Hacm|].
  apply IH, Hf, Hacm.
Qed.

Lemma setEntry_names_never names1 names2 x y :
  getAllowedCollision (setEntry_names AllowedCollisionMatrix.empty names1 names2 false) x y
  ≠ Some AllowedCollision.ALWAYS.
Proof.
  unfold setEntry_names. apply foldl_never.
  - intros acm name Hacm. unfold setEntry_name_names. apply foldl_never; [|exact Hacm].
    intros acm' other Hacm'. case_decide; [exact Hacm' | apply setEntry_false_never, Hacm'].
  - intros x' y'. unfold getAllowedCollision, AllowedCollisionMatrix.empty.
    rewrite lookup_empty. discriminate.
Qed.

Lemma disabled_pairs_always (dc : list (string * string)) : ∀ (acm : AllowedCollisionMatrix.t) x y,
  getAllowedCollision (foldl (λ a p, setEntry a p.1 p.2 true) acm dc) x y
    = Some AllowedCollision.ALWAYS ↔
  ((x, y) ∈ dc ∨ (y, x) ∈ dc) ∨ getAllowedCollision acm x y = Some AllowedCollision.ALWAYS.
Proof.
  induction dc as [|[a b] dc IH]; intros acm x y; simpl.
  - split; [auto | intros [[H|H]|H]; [inversion H | inversion H | exact H]].
  - rewrite IH, getAllowedCollision_setEntry. rewrite !elem_of_cons.
    case_decide as Hd; split.
    + intros _. left. destruct Hd as [[-> ->]|[-> ->]]; auto.
    + auto.
    + intros [[H|H]|H]; auto.
    + intros [[[[= -> ->]|H]|[[= -> ->]|H]]|H]; auto; exfalso; apply Hd; auto.
Qed.

Lemma default_allowed_iff e a b :
  isCollisionAllowed a b (acm_ (createDefaultAllowedCollisionMatrix e)) = true ↔
  (a, b) ∈ getDisabledCollisionPairs (robot_model_ e) ∨
  (b, a) ∈ getDisabledCollisionPairs (robot_model_ e).
Proof.
  rewrite isCollisionAllowed_entry. unfold createDefaultAllowedCollisionMatrix, entry. simpl.
  rewrite disabled_pairs_always. split; [|auto].
  intros [H|H]; [exact H|]. exfalso. exact (setEntry_names_never _ _ _ _ H).
Qed.

(** X5.  With the allow-list that the constructor derives from the model, a
    pair of links is allowed (and so left out of every query plan) exactly
    when the SRDF lists it among the disabled collision pairs, in either
    order: the entries written for all other pairs of links with geometry
    are "never allowed". *)
Theorem isCollisionAllowed_default e a b :
  isCollisionAllowed a b (acm_ (createDefaultAllowedCollisionMatrix e)) = true ↔
  (a, b) ∈ getDisabledCollisionPairs (robot_model_ e) ∨
  (b, a) ∈ getDisabledCollisionPairs (robot_model_ e).
Proof. apply default_allowed_iff. Qed.
End DefaultAllowListFacts.

(** ** Query plans *)

Module PlanFacts.
Import Invariants ConstructionFacts EngineFacts Plans.

Lemma push_child_children data l n i ty :
  has_children data l → has_children (push_child data n i ty) (l ++ [(n, i, ty)]).
Proof.
  intros (Hn & Hi & Ht). unfold has_children, push_child. simpl.
  rewrite !fmap_app, Hn, Hi, Ht. auto.
Qed.

Lemma addChildren_pairs acm parent ty keep (ps : list (nat * LinkModel)) : ∀ data l,
  has_children data l →
  has_children
    (foldl (λ data '(i, link),
              if keep i && negb (isCollisionAllowed link parent acm)
              then push_child data link i ty else data) data ps)
    (l ++ omap (candidate acm parent ty keep) ps) ∧
  same_header data
    (foldl (λ data '(i, link),
              if keep i && negb (isCollisionAllowed link parent acm)
              then push_child data link i ty else data) data ps).
Proof.
  induction ps as [|[i link] ps IH]; intros data l Hl; simpl.
  - rewrite app_nil_r. split; [exact Hl | repeat split].
  - assert (Hcand : candidate acm parent ty keep (i, link)
                    = if keep i && negb (isCollisionAllowed link parent acm)
                      then Some (link, i, ty) else None) by reflexivity.
    rewrite Hcand.
    destruct (keep i && negb (isCollisionAllowed link parent acm)).
    + destruct (IH _ _ (push_child_children data l link i ty Hl)) as [Hc Hh].
      rewrite <- app_assoc in Hc. split; [exact Hc|].
      destruct Hh as (H1 & H2 & H3 & H4). repeat split; assumption.
    + apply IH, Hl.
Qed.

Lemma addChildren_children acm parent ty keep links data l :
  has_children data l →
  has_children (addChildren acm parent ty keep links data)
               (l ++ omap (candidate acm parent ty keep) (imap pair links)) ∧
  same_header data (addChildren acm parent ty keep links data).
Proof. apply addChildren_pairs. Qed.

Lemma defaultQuery_spec e j parent data :
  defaultQuery e j parent = Ok data →
  ∃ spheres,
    active_spheres_ e !! j = Some spheres ∧
    DistanceQueryData.parent_name data = parent ∧
    DistanceQueryData.spheres data = [] ∧
    DistanceQueryData.gradient data = false ∧
    (DistanceQueryData.empty data = true ↔ spheres = []) ∧
    has_children data (if DistanceQueryData.empty data then []
                       else plan_candidates e j parent).
Proof.
  unfold defaultQuery. intros (spheres & Hs%at_index_Ok & Hdata)%bind_Ok.
  exists spheres. split; [exact Hs|]. revert Hdata. case_decide as Hlen.
  - intros [= <-]. simpl. apply nil_length_inv in Hlen.
    repeat split; auto.
  - intros [= <-].
    set (d0 := DistanceQueryData.set_empty
                 (DistanceQueryData.set_parent_name DistanceQueryData.default parent) false).
    assert (H0 : has_children d0 []) by (repeat split).
    destruct (addChildren_children (acm_ e) parent Active (λ i, bool_decide (i ≠ j))
                (active_links_ e) d0 [] H0) as [Hc1 Hh1].
    destruct (addChildren_children (acm_ e) parent Dynamic (λ _, true)
                (dynamic_links_ e) _ _ Hc1) as [Hc2 Hh2].
    destruct (addChildren_children (acm_ e) parent Static (λ _, true)
                (static_links_ e) _ _ Hc2) as [Hc3 Hh3].
    destruct Hh1 as (Hp1 & Hs1 & Hg1 & He1), Hh2 as (Hp2 & Hs2 & Hg2 & He2),
             Hh3 as (Hp3 & Hs3 & Hg3 & He3).
    rewrite Hp3, Hp2, Hp1, Hs3, Hs2, Hs1, Hg3, Hg2, Hg1, He3, He2, He1. simpl.
    repeat split; try discriminate.
    + intros ->. simpl in Hlen. congruence.
    + simpl in Hc3. rewrite <- app_assoc in Hc3. apply Hc3.
    + simpl in Hc3. rewrite <- app_assoc in Hc3. apply Hc3.
    + simpl in Hc3. rewrite <- app_assoc in Hc3. apply Hc3.
Qed.

Lemma plans_of_pairs e (ps : list (nat * LinkModel)) : ∀ q0 q,
  for_each (λ q '(j, parent), data ← defaultQuery e j parent; Ok (q ++ [data])) ps q0 = Ok q →
  ∃ ds, q = q0 ++ ds ∧
        Forall2 (λ (p : nat * LinkModel) data, defaultQuery e p.1 p.2 = Ok data) ps ds.
Proof.
  induction ps as [|[j parent] ps IH]; intros q0 q; simpl.
  - intros [= <-]. exists []. rewrite app_nil_r. split; [reflexivity | constructor].
  - intros (q1 & (data & Hdata & [= <-])%bind_Ok & Hrest)%bind_Ok.
    destruct (IH _ _ Hrest) as (ds & -> & Hall).
    exists (data :: ds). rewrite <- app_assoc. split; [reflexivity|].
    constructor; assumption.
Qed.

(** The candidates of a plan are the indexed links of the three classes
    whose pair with the parent is not allowed, the parent's own index in
    the active class left out. *)
Lemma plan_candidates_spec e j parent n i ty :
  (n, i, ty) ∈ plan_candidates e j parent ↔
  class_links e ty !! i = Some n ∧ isCollisionAllowed n parent (acm_ e) = false ∧
  (ty = Active → i ≠ j).
Proof.
  assert (Hone : ∀ ty' keep links,
            (n, i, ty) ∈ omap (candidate (acm_ e) parent ty' keep) (imap pair links) ↔
            ty = ty' ∧ links !! i = Some n ∧ keep i = true ∧
            isCollisionAllowed n parent (acm_ e) = false).
  { intros ty' keep links. rewrite list_elem_of_omap. split.
    - intros ([i' n'] & (i0 & n0 & [= -> ->] & Hl)%elem_of_lookup_imap & Hc).
      revert Hc. unfold candidate. simpl.
      destruct (keep i0) eqn:Hk; simpl; [|discriminate].
      destruct (isCollisionAllowed n0 parent (acm_ e)) eqn:Ha; simpl; [discriminate|].
      intros [= -> -> ->]. auto.
    - intros (-> & Hl & Hk & Ha). exists (i, n). split.
      + apply elem_of_lookup_imap. eauto.
      + unfold candidate. simpl. rewrite Hk, Ha. reflexivity. }
  unfold plan_candidates. rewrite !elem_of_app, !Hone. split.
  - intros [(-> & Hl & Hk%bool_decide_eq_true & Ha)|[(-> & Hl & _ & Ha)|(-> & Hl & _ & Ha)]];
      simpl; repeat split; try assumption; try discriminate. auto.
  - intros (Hl & Ha & Hj). destruct ty; simpl in Hl.
    + right. right. auto.
    + right. left. auto.
    + left. repeat split; try assumption. apply bool_decide_eq_true. auto.
Qed.

(** The constructor keeps the model and the allow-list derived from it. *)
Lemma create_config `{External} m voxel_size background ex inb e :
  create m voxel_size background ex inb = Ok e →
  robot_model_ e = m ∧
  acm_ e = acm_ (createDefaultAllowedCollisionMatrix
                   (init m voxel_size background ex inb)) ∧
  background_ e = background ∧ voxel_size_ e = voxel_size.
Proof.
  unfold create.
  intros (e1 & H1 & (e2 & H2 & (e3 & H3 & H4)%bind_Ok)%bind_Ok)%bind_Ok.
  apply createStaticSDFs_inv in H1 as [Hsame _]; [|reflexivity|reflexivity].
  apply createActiveSDFs_Ok in H2 as (asdf & asph & -> & _).
  apply createDynamicSDFs_Ok in H3 as (dl & dsdf & -> & _).
  apply createDefaultDistanceQuery_Ok in H4 as (q & -> & _).
  simpl. rewrite Hsame. simpl. auto.
Qed.

(** The plans the constructor stores, index by index. *)
Lemma create_plan_at `{External} m voxel_size background ex inb e j parent :
  create m voxel_size background ex inb = Ok e →
  active_links_ e !! j = Some parent →
  ∃ data, dist_query_ e !! j = Some data ∧ defaultQuery e j parent = Ok data.
Proof.
  unfold create.
  intros (e1 & H1 & (e2 & H2 & (e3 & H3 & H4)%bind_Ok)%bind_Ok)%bind_Ok.
  apply createStaticSDFs_inv in H1 as [Hsame _]; [|reflexivity|reflexivity].
  assert (Hq1 : dist_query_ e1 = []) by (rewrite Hsame; reflexivity).
  apply createActiveSDFs_Ok in H2 as (asdf & asph & -> & _).
  apply createDynamicSDFs_Ok in H3 as (dl & dsdf & -> & _).
  revert H4. unfold createDefaultDistanceQuery.
  intros (q & (ds & -> & Hall)%plans_of_pairs & [= <-])%bind_Ok.
  simpl in *. rewrite Hq1. simpl. intros Hj.
  assert (Hp : imap pair
                 (collectActive (links_ e1) (getJointModelGroups (robot_model_ e1))
                    (active_links_ e1)) !! j = Some (j, parent))
    by (rewrite list_lookup_imap, Hj; reflexivity).
  destruct (Forall2_lookup_l _ _ _ _ _ Hall Hp) as (data & Hd & Hdata).
  exists data. split; [exact Hd | exact Hdata].
Qed.

(** The plan stored for an active link, with its candidates. *)
Lemma create_plan_children `{External} m voxel_size background ex inb e j parent :
  create m voxel_size background ex inb = Ok e →
  active_links_ e !! j = Some parent →
  ∃ data spheres l,
    dist_query_ e !! j = Some data ∧ active_spheres_ e !! j = Some spheres ∧
    DistanceQueryData.parent_name data = parent ∧
    (DistanceQueryData.empty data = true ↔ spheres = []) ∧
    has_children data l ∧
    ∀ n i ty, (n, i, ty) ∈ l ↔
      spheres ≠ [] ∧ class_links e ty !! i = Some n ∧ (ty = Active → i ≠ j) ∧
      ¬ (n, parent) ∈ getDisabledCollisionPairs m ∧
      ¬ (parent, n) ∈ getDisabledCollisionPairs m.
Proof.
  intros Hc Hj. destruct (create_plan_at _ _ _ _ _ _ _ _ Hc Hj) as (data & Hd & Hdata).
  destruct (create_config _ _ _ _ _ _ Hc) as (_ & Hacm & _).
  destruct (defaultQuery_spec _ _ _ _ Hdata) as (spheres & Hs & Hp & _ & _ & He & Hch).
  exists data, spheres, (if DistanceQueryData.empty data then []
                         else plan_candidates e j parent).
  split; [exact Hd|]. split; [exact Hs|]. split; [exact Hp|]. split; [exact He|].
  split; [exact Hch|]. intros n i ty.
  assert (Hallow : isCollisionAllowed n parent (acm_ e) = false ↔
                   ¬ (n, parent) ∈ getDisabledCollisionPairs m ∧
                   ¬ (parent, n) ∈ getDisabledCollisionPairs m).
  { rewrite Hacm, <- not_true_iff_false, DefaultAllowListFacts.default_allowed_iff.
    simpl. tauto. }
  destruct (DistanceQueryData.empty data) eqn:Hem.
  - split; [intros Hin; inversion Hin|].
    intros (Hne & _). exfalso. apply Hne, He. reflexivity.
  - rewrite plan_candidates_spec, Hallow.
    assert (Hne : spheres ≠ []) by (intros Hnil%He; discriminate).
    tauto.
Qed.

(** X6.  The query plan that the constructor stores for the active link at
    index [j]: it carries the link's name, it is marked empty exactly when
    the link has no fitted sphere, and its three parallel vectors list, when
    the link has spheres, exactly the links of the three classes (with their
    index in the class) that are not the link's own entry and whose pair
    with the link is not among the SRDF's disabled pairs; a plan marked
    empty lists nothing. *)
Theorem create_plans `{External} m voxel_size background ex inb e j parent :
  create m voxel_size background ex inb = Ok e →
  active_links_ e !! j = Some parent →
  ∃ data spheres l,
    dist_query_ e !! j = Some data ∧ active_spheres_ e !! j = Some spheres ∧
    DistanceQueryData.parent_name data = parent ∧
    (DistanceQueryData.empty data = true ↔ spheres = []) ∧
    has_children data l ∧
    ∀ n i ty, (n, i, ty) ∈ l ↔
      spheres ≠ [] ∧ class_links e ty !! i = Some n ∧ (ty = Active → i ≠ j) ∧
      ¬ (n, parent) ∈ getDisabledCollisionPairs m ∧
      ¬ (parent, n) ∈ getDisabledCollisionPairs m.
Proof. apply create_plan_children. Qed.

Lemma create_plans_witness :
  let m := Examples.arm_on_pedestal in
  let e := Examples.engine_of (H := Examples.wall_lib) m in
  create (H := Examples.wall_lib) m 1 10 3 3 = Ok e ∧
  active_links_ e !! 0 = Some "upper_arm" ∧
  ∃ data spheres l,
    dist_query_ e !! 0 = Some data ∧ active_spheres_ e !! 0 = Some spheres ∧
    DistanceQueryData.parent_name data = "upper_arm" ∧
    (DistanceQueryData.empty data = true ↔ spheres = []) ∧
    has_children data l ∧
    ∀ n i ty, (n, i, ty) ∈ l ↔
      spheres ≠ [] ∧ class_links e ty !! i = Some n ∧ (ty = Active → i ≠ 0) ∧
      ¬ (n, "upper_arm") ∈ getDisabledCollisionPairs m ∧
      ¬ ("upper_arm", n) ∈ getDisabledCollisionPairs m.
Proof.
  intros m e.
  assert (Hrun : create (H := Examples.wall_lib) m 1 10 3 3 = Ok e)
    by (vm_compute; reflexivity).
  assert (Hj : active_links_ e !! 0 = Some "upper_arm") by (vm_compute; reflexivity).
  split; [exact Hrun|]. split; [exact Hj|].
  apply (create_plans (H := Examples.wall_lib) m 1 10 3 3 e 0 "upper_arm" Hrun Hj).
Defined.
End PlanFacts.

(** ** The distance a plan evaluates to *)

Module HelperFacts.
Import Invariants ConstructionFacts Samples.
Local Open Scope R_scope.

Lemma for_each_seq_invariant {St} (P : nat → St → Prop) (body : St → nat → result St) :
  ∀ n a s s',
    (∀ i s s', (a <= i < a + n)%nat → P i s → body s i = Ok s' → P (S i) s') →
    P a s → for_each body (seq a n) s = Ok s' → P (a + n)%nat s'.
Proof.
  induction n as [|n IH]; intros a s s' Hbody Hs; simpl.
  - intros [= <-]. rewrite Nat.add_0_r. exact Hs.
  - intros (s1 & H1 & Hrest)%bind_Ok.
    replace (a + S n)%nat with (S a + n)%nat by lia.
    apply (IH (S a) s1 s'); [|eapply Hbody; [|exact Hs|exact H1]; lia|exact Hrest].
    intros i t t' Hi. apply Hbody. lia.
Qed.

Section WithLibrary.
Context `{External}.

(** The loop over the parent's spheres keeps the smallest distance read
    below its starting value. *)
Lemma sphere_loop_spec bg child spheres : ∀ acc : R * Coord * bool,
  let r := foldl (sphereStep bg child) acc spheres in
  (∀ s, s ∈ spheres → approxEqual (sphere_value child s) bg = false →
        r.1.1 <= sphere_distance child s) ∧
  r.1.1 <= acc.1.1 ∧
  (r = acc ∨
   r.2 = true ∧ r.1.1 < acc.1.1 ∧
   ∃ s, s ∈ spheres ∧ approxEqual (sphere_value child s) bg = false ∧
        r.1.1 = sphere_distance child s).
Proof.
  induction spheres as [|s spheres IH]; intros acc r.
  - subst r. simpl. split; [intros s Hs; inversion Hs|]. split; [lra | auto].
  - subst r. cbn [foldl].
    destruct (IH (sphereStep bg child acc s)) as (Hlow & Hle & Hlast).
    set (r := foldl (sphereStep bg child) (sphereStep bg child acc s) spheres) in *.
    assert (Hstep : (sphereStep bg child acc s = acc ∧
                     (approxEqual (sphere_value child s) bg = false →
                      acc.1.1 <= sphere_distance child s)) ∨
                    (sphereStep bg child acc s
                       = (sphere_distance child s, sphere_voxel child s, true) ∧
                     approxEqual (sphere_value child s) bg = false ∧
                     sphere_distance child s < acc.1.1)).
    { destruct acc as [[cm ijk] found]. unfold sphereStep.
      fold (sphere_voxel child s). fold (sphere_value child s).
      destruct (approxEqual (sphere_value child s) bg) eqn:Ha.
      - left. split; [reflexivity | discriminate].
      - fold (sphere_distance child s). case_decide as Hlt.
        + right. auto.
        + left. split; [reflexivity|]. intros _. simpl. lra. }
    destruct Hstep as [[Heq Hs]|(Heq & Ha & Hlt)]; rewrite Heq in *.
    + split; [|split; [exact Hle|]].
      * intros s' [->|Hin]%elem_of_cons Hs'; [specialize (Hs Hs'); lra | auto].
      * destruct Hlast as [Hr|(Hf & Hlt & s' & Hin & Ha' & Hd)]; [auto|].
        right. split; [exact Hf|]. split; [exact Hlt|].
        exists s'. rewrite elem_of_cons. auto.
    + simpl in Hle. split; [|split; [lra|]].
      * intros s' [->|Hin]%elem_of_cons Hs'; [exact Hle | auto].
      * right. destruct Hlast as [Hr|(Hf & Hlt' & s' & Hin & Ha' & Hd)].
        -- rewrite Hr. simpl. split; [reflexivity|]. split; [exact Hlt|].
           exists s. rewrite elem_of_cons. auto.
        -- simpl in Hlt'. split; [exact Hf|]. split; [lra|].
           exists s'. rewrite elem_of_cons. auto.
Qed.

(** One candidate: when the call returns, the candidate's field was found
    in the table, and the result either is unchanged in its distance and
    names or carries the candidate's smaller distance and its name. *)
Lemma candidateStep_spec bg data table st i st' :
  candidateStep bg data table st i = Ok st' →
  ∃ ty idx child,
    DistanceQueryData.child_type data !! i = Some ty ∧
    DistanceQueryData.child_index data !! i = Some idx ∧
    table_get table ty !! idx = Some child ∧
    DistanceResultsData.hasNearestPoints st'.1.1 = DistanceResultsData.hasNearestPoints st.1.1 ∧
    (DistanceResultsData.link_name st'.1.1).1 = (DistanceResultsData.link_name st.1.1).1 ∧
    let r := foldl (sphereStep bg child) (bg, mkCoord 0 0 0, false)
                   (DistanceQueryData.spheres data) in
    ((DistanceResultsData.min_distance st'.1.1 = DistanceResultsData.min_distance st.1.1 ∧
      DistanceResultsData.link_name st'.1.1 = DistanceResultsData.link_name st.1.1 ∧
      (r.2 = true → DistanceResultsData.min_distance st.1.1 <= r.1.1)) ∨
     (r.2 = true ∧ r.1.1 < DistanceResultsData.min_distance st.1.1 ∧
      DistanceResultsData.min_distance st'.1.1 = r.1.1 ∧
      ∃ name, DistanceQueryData.child_name data !! i = Some name ∧
              (DistanceResultsData.link_name st'.1.1).2 = name)).
Proof.
  unfold candidateStep.
  intros (ty & Hty%at_index_Ok & (idx & Hidx%at_index_Ok &
            (child & Hchild%at_index_Ok & Hrest)%bind_Ok)%bind_Ok)%bind_Ok.
  exists ty, idx, child. split; [exact Hty|]. split; [exact Hidx|]. split; [exact Hchild|].
  cbv zeta.
  destruct (foldl _ _ _) as [[cm ijk] found]. simpl.
  destruct found.
  - destruct st as [[res g] tw]. simpl.
    apply bind_Ok in Hrest as (res1 & Hres1 & Hrest).
    assert (Hflags : DistanceResultsData.hasNearestPoints st'.1.1
                       = DistanceResultsData.hasNearestPoints res1 ∧
                     DistanceResultsData.link_name st'.1.1
                       = DistanceResultsData.link_name res1 ∧
                     DistanceResultsData.min_distance st'.1.1
                       = DistanceResultsData.min_distance res1).
    { revert Hrest. destruct (DistanceQueryData.gradient data).
      - intros [= <-]. unfold blendGradient.
        destruct (decide (V3.sum _ ≠ 0)); simpl; auto.
      - intros [= <-]. simpl. auto. }
    destruct Hflags as (-> & -> & ->).
    revert Hres1. case_decide as Hlt.
    + intros (name & Hname%at_index_Ok & [= <-])%bind_Ok. simpl.
      split; [reflexivity|]. split; [reflexivity|]. right.
      split; [reflexivity|]. split; [exact Hlt|]. split; [reflexivity|]. eauto.
    + intros [= <-]. split; [reflexivity|]. split; [reflexivity|]. left.
      split; [reflexivity|]. split; [reflexivity|]. intros _. lra.
  - injection Hrest as <-. split; [reflexivity|]. split; [reflexivity|]. left.
    split; [reflexivity|]. split; [reflexivity|]. discriminate.
Qed.

Lemma candidateStep_inv bg data table second i st st' :
  helper_inv bg data table second i st →
  candidateStep bg data table st i = Ok st' →
  helper_inv bg data table second (S i) st'.
Proof.
  intros (Hparent & Hnear & Hbg & Hlow & Hlast) Hstep.
  destruct (candidateStep_spec _ _ _ _ _ _ Hstep)
    as (ty & idx & child & Hty & Hidx & Hchild & Hnear' & Hparent' & Hcases).
  cbv zeta in Hcases.
  destruct (sphere_loop_spec bg child (DistanceQueryData.spheres data)
              (bg, mkCoord 0 0 0, false)) as (Hs_low & Hs_le & Hs_last).
  set (r := foldl (sphereStep bg child) (bg, mkCoord 0 0 0, false)
                  (DistanceQueryData.spheres data)) in *.
  simpl in Hs_le.
  assert (Hhere : ∀ child' name', candidate_at data table i child' name' → child' = child).
  { intros child' name' (ty' & idx' & Hty' & Hidx' & Hchild' & _). congruence. }
  unfold helper_inv. cbv zeta.
  rewrite Hnear', Hparent'. split; [exact Hparent|]. split; [exact Hnear|].
  destruct Hcases as [(Hmin & Hname & Hfound)|(Hfound & Hlt & Hmin & name & Hname & Hsecond)].
  - rewrite Hmin, Hname. split; [exact Hbg|]. split.
    + intros i' child' name' s Hi Hcand Hin Ha.
      destruct (decide (i' = i)) as [->|Hne]; [|apply (Hlow i' child' name' s); auto; lia].
      pose proof (Hhere _ _ Hcand) as ->. specialize (Hs_low s Hin Ha).
      destruct Hs_last as [Hr|(Hf & _)].
      * rewrite Hr in Hs_low. simpl in Hs_low. lra.
      * specialize (Hfound Hf). lra.
    + destruct Hlast as [Hl|(i' & child' & name' & s & Hi & Hrest)]; [left; exact Hl|].
      right. exists i', child', name', s. split; [lia | exact Hrest].
  - rewrite Hmin. split; [lra|]. split.
    + intros i' child' name' s Hi Hcand Hin Ha.
      destruct (decide (i' = i)) as [->|Hne].
      * pose proof (Hhere _ _ Hcand) as ->. apply Hs_low; assumption.
      * specialize (Hlow i' child' name' s). lapply Hlow; [|lia].
        intros Hl. specialize (Hl Hcand Hin Ha). lra.
    + right. destruct Hs_last as [Hr|(_ & Hlt' & s & Hin & Ha & Hd)].
      * rewrite Hr in Hfound. discriminate.
      * exists i, child, name, s. split; [lia|]. split; [exists ty, idx; auto|].
        split; [exact Hin|]. split; [exact Ha|]. split; [exact Hd|].
        split; [simpl in Hlt'; lra | exact Hsecond].
Qed.

Lemma finishGradient_keeps st :
  DistanceResultsData.min_distance (finishGradient st)
    = DistanceResultsData.min_distance st.1.1 ∧
  DistanceResultsData.link_name (finishGradient st)
    = DistanceResultsData.link_name st.1.1 ∧
  DistanceResultsData.hasNearestPoints (finishGradient st)
    = DistanceResultsData.hasNearestPoints st.1.1.
Proof.
  destruct st as [[res g] tw]. unfold finishGradient. simpl.
  destruct (DistanceResultsData.hasGradient res); [case_decide|]; auto.
Qed.

Lemma distanceSelfHelper_inv bg data table res d :
  distanceSelfHelper bg data table res = Ok d →
  ∃ st, helper_inv bg data table (DistanceResultsData.link_name res).2
          (length (DistanceQueryData.child_index data)) st ∧
        d = finishGradient st.
Proof.
  unfold distanceSelfHelper. intros (st & Hloop & [= <-])%bind_Ok.
  exists st. split; [|reflexivity].
  apply (for_each_seq_invariant
           (helper_inv bg data table (DistanceResultsData.link_name res).2)) in Hloop.
  - exact Hloop.
  - intros i s s' _. apply candidateStep_inv.
  - unfold helper_inv. simpl. split; [reflexivity|]. split; [reflexivity|].
    split; [lra|]. split; [intros; lia | left; auto].
Qed.

(** X7.  The distance a plan evaluates to.  When [distanceSelfHelper]
    returns, [min_distance] is at most the background and at most the
    distance read for every sphere of the parent in the field of every
    candidate (the field's value at the sphere's voxel minus the radius,
    values that equal the background within 1e-5 being skipped).  It is
    either the background itself, and then the second link name is the one
    the result object came with, or it is the distance read for one of the
    parent's spheres in a candidate's field, and then the second link name
    is that candidate's.  The first link name is the parent's and
    [hasNearestPoints] is false. *)
Theorem distanceSelfHelper_minimum bg data table res d :
  distanceSelfHelper bg data table res = Ok d →
  (DistanceResultsData.link_name d).1 = DistanceQueryData.parent_name data ∧
  DistanceResultsData.hasNearestPoints d = false ∧
  DistanceResultsData.min_distance d <= bg ∧
  (∀ i child name s,
     candidate_at data table i child name → s ∈ DistanceQueryData.spheres data →
     approxEqual (sphere_value child s) bg = false →
     DistanceResultsData.min_distance d <= sphere_distance child s) ∧
  ((DistanceResultsData.min_distance d = bg ∧
    (DistanceResultsData.link_name d).2 = (DistanceResultsData.link_name res).2) ∨
   (∃ i child name s,
      candidate_at data table i child name ∧ s ∈ DistanceQueryData.spheres data ∧
      approxEqual (sphere_value child s) bg = false ∧
      DistanceResultsData.min_distance d = sphere_distance child s ∧
      DistanceResultsData.min_distance d < bg ∧
      (DistanceResultsData.link_name d).2 = name)).
Proof.
  intros (st & (Hparent & Hnear & Hbg & Hlow & Hlast) & ->)%distanceSelfHelper_inv.
  destruct (finishGradient_keeps st) as (-> & -> & ->).
  split; [exact Hparent|]. split; [exact Hnear|]. split; [exact Hbg|]. split.
  - intros i child name s Hcand. apply (Hlow i child name s); [|exact Hcand].
    destruct Hcand as (ty & idx & _ & Hidx%lookup_lt_Some & _). exact Hidx.
  - destruct Hlast as [Hl|(i & child & name & s & _ & Hrest)]; [left; exact Hl|].
    right. exists i, child, name, s. exact Hrest.
Qed.

End WithLibrary.

Lemma between_walls_evaluates :
  distanceSelfHelper (H := Examples.wall_lib) 10 Examples.between_walls Examples.walls
                     (fresh_DistanceResultsData (External := Examples.wall_lib))
  = Ok Examples.probe_after_left.
Proof.
  unfold distanceSelfHelper.
  change (seq 0 (length (DistanceQueryData.child_index Examples.between_walls)))
    with [0%nat; 1%nat].
  cbn [for_each].
  change (DistanceResultsData.mk 10 _ false _ _) with Examples.probe_initial.
  rewrite BlendFacts.between_walls_left, bind_of_Ok, BlendFacts.between_walls_right,
    !bind_of_Ok.
  unfold finishGradient. cbn [Examples.probe_after_left DistanceResultsData.hasGradient].
  case_decide; [lra|].
  unfold set_result_gradient, V3.eigen_normalize, V3.squaredNorm. cbn [vx vy vz].
  destruct (Rlt_dec _ _) as [Hpos|_].
  - exfalso. revert Hpos. unfold Rdiv. rewrite !Rmult_0_l. lra.
  - cbn. unfold Examples.probe_after_left. repeat f_equal; unfold Rdiv; apply Rmult_0_l.
Qed.

Lemma distanceSelfHelper_minimum_witness :
  let H := Examples.wall_lib in
  let data := Examples.between_walls in
  let table := Examples.walls in
  let d := Examples.probe_after_left in
  distanceSelfHelper 10 data table fresh_DistanceResultsData = Ok d ∧
  (DistanceResultsData.link_name d).1 = DistanceQueryData.parent_name data ∧
  DistanceResultsData.hasNearestPoints d = false ∧
  DistanceResultsData.min_distance d <= 10 ∧
  (∀ i child name s,
     candidate_at data table i child name → s ∈ DistanceQueryData.spheres data →
     approxEqual (sphere_value child s) 10 = false →
     DistanceResultsData.min_distance d <= sphere_distance child s) ∧
  ((DistanceResultsData.min_distance d = 10 ∧
    (DistanceResultsData.link_name d).2
      = (DistanceResultsData.link_name fresh_DistanceResultsData).2) ∨
   (∃ i child name s,
      candidate_at data table i child name ∧ s ∈ DistanceQueryData.spheres data ∧
      approxEqual (sphere_value child s) 10 = false ∧
      DistanceResultsData.min_distance d = sphere_distance child s ∧
      DistanceResultsData.min_distance d < 10 ∧
      (DistanceResultsData.link_name d).2 = name)).
Proof.
  intros H data table d.
  split; [exact between_walls_evaluates|].
  apply (distanceSelfHelper_minimum (H := Examples.wall_lib) 10 data table
           fresh_DistanceResultsData d between_walls_evaluates).
Defined.
End HelperFacts.

(** ** The result map *)

Module MapFacts.
Import QueryShape.

Lemma ascii_compare_refl a : Ascii.compare a a = Eq.
Proof. unfold Ascii.compare. apply N.compare_refl. Qed.

Lemma ascii_compare_trans a b c :
  Ascii.compare a b = Lt → Ascii.compare b c = Lt → Ascii.compare a c = Lt.
Proof. unfold Ascii.compare. rewrite !N.compare_lt_iff. lia. Qed.

Lemma compare_refl a : String.compare a a = Eq.
Proof. induction a as [|c a IH]; simpl; [reflexivity|]. rewrite ascii_compare_refl. exact IH. Qed.

Lemma compare_trans a : ∀ b c,
  String.compare a b = Lt → String.compare b c = Lt → String.compare a c = Lt.
Proof.
  induction a as [|x a IH]; intros [|y b] [|z c]; simpl; try discriminate; try reflexivity.
  destruct (Ascii.compare x y) eqn:Hxy, (Ascii.compare y z) eqn:Hyz; try discriminate.
  - apply Ascii.compare_eq_iff in Hxy as ->. apply Ascii.compare_eq_iff in Hyz as ->.
    rewrite ascii_compare_refl. apply IH.
  - apply Ascii.compare_eq_iff in Hxy as ->. rewrite Hyz. reflexivity.
  - apply Ascii.compare_eq_iff in Hyz as <-. rewrite Hxy. reflexivity.
  - rewrite (ascii_compare_trans _ _ _ Hxy Hyz). reflexivity.
Qed.

Lemma compare_Lt_ne a b : String.compare a b = Lt → a ≠ b.
Proof. intros Hlt ->. rewrite compare_refl in Hlt. discriminate. Qed.

Lemma compare_Gt_Lt a b : String.compare a b = Gt → String.compare b a = Lt.
Proof. rewrite String.compare_antisym. destruct (String.compare b a); simpl; congruence. Qed.

Section Ops.
Context {V : Type}.
Implicit Types m : list (string * V).

Lemma insert_elem k v m x : x ∈ StdMap.insert k v m → x = (k, v) ∨ x ∈ m.
Proof.
  induction m as [|[k' v'] m IH]; simpl.
  - intros ->%list_elem_of_singleton. auto.
  - destruct (String.compare k k'); [auto | |].
    + intros [->|Hin]%elem_of_cons; auto.
    + intros [->|Hin]%elem_of_cons; [right; left|].
      destruct (IH Hin) as [->|Hm]; [auto | right; right; exact Hm].
Qed.

Lemma insert_keeps k v m x : x ∈ m → x ∈ StdMap.insert k v m.
Proof.
  induction m as [|[k' v'] m IH]; simpl; [intros Hin; inversion Hin|].
  destruct (String.compare k k'); [auto | right; assumption |].
  intros [->|Hin]%elem_of_cons; [left | right; auto].
Qed.

Lemma insert_keys k v m k' :
  k' ∈ (StdMap.insert k v m).*1 ↔ k' = k ∨ k' ∈ m.*1.
Proof.
  split.
  - intros ([k1 v1] & -> & [[= -> ->]|Hin]%insert_elem)%list_elem_of_fmap; [auto|].
    right. apply list_elem_of_fmap. exists (k1, v1). auto.
  - intros [->|([k1 v1] & -> & Hin)%list_elem_of_fmap].
    + induction m as [|[k1 v1] m IH]; simpl; [left|].
      destruct (String.compare k k1) eqn:Hc; simpl.
      * apply String.compare_eq_iff in Hc as ->. left.
      * left.
      * right. exact IH.
    + apply list_elem_of_fmap. exists (k1, v1). split; [reflexivity|].
      apply insert_keeps, Hin.
Qed.

Lemma insert_sorted k v m : keys_sorted m → keys_sorted (StdMap.insert k v m).
Proof.
  induction m as [|[k' v'] m IH]; simpl.
  - intros _. split; [constructor | exact I].
  - intros [Hall Hs]. destruct (String.compare k k') eqn:Hc; simpl.
    + auto.
    + split; [|auto]. constructor; [exact Hc|].
      eapply Forall_impl; [exact Hall|]. simpl. intros b Hb.
      exact (compare_trans _ _ _ Hc Hb).
    + split; [|auto]. apply Forall_forall. intros x [->|Hin]%insert_elem.
      * simpl. apply compare_Gt_Lt, Hc.
      * exact (proj1 (Forall_forall _ _) Hall x Hin).
Qed.

Lemma sorted_find k v m : keys_sorted m → (k, v) ∈ m → StdMap.find k m = Some v.
Proof.
  induction m as [|[k' v'] m IH]; simpl; [intros _ Hin; inversion Hin|].
  intros [Hall Hs] [[= -> ->]|Hin]%elem_of_cons.
  - rewrite decide_True by reflexivity. reflexivity.
  - pose proof (proj1 (Forall_forall _ _) Hall _ Hin) as Hlt. simpl in Hlt.
    rewrite decide_False by (apply not_eq_sym, compare_Lt_ne, Hlt). auto.
Qed.
End Ops.
End MapFacts.

(** ** The self-distance query on a constructed engine *)

Module QueryFacts.
Import Invariants ConstructionFacts EngineFacts Plans Samples QueryShape MapFacts.
Local Open Scope R_scope.

Lemma has_children_plan_ok e data l :
  has_children data l →
  (∀ n i ty, (n, i, ty) ∈ l → (i < length (class_links e ty))%nat) →
  plan_ok e data.
Proof.
  intros (Hn & Hi & Ht) Hl. unfold plan_ok. rewrite Hn, Hi, Ht, !length_fmap.
  split; [reflexivity|]. split; [reflexivity|].
  intros i ty idx ([[n i1] ty1] & -> & Hc)%list_lookup_fmap_Some.
  rewrite !list_lookup_fmap, Hc. simpl. intros [= <-].
  apply (Hl n i1 ty1). eapply list_elem_of_lookup_2, Hc.
Qed.

Lemma plan_ok_same e q q' : same_plan q q' → plan_ok e q → plan_ok e q'.
Proof. intros (_ & Hn & Hi & Ht & _). unfold plan_ok. rewrite Hn, Hi, Ht. auto. Qed.

Lemma same_plan_trans q1 q2 q3 : same_plan q1 q2 → same_plan q2 q3 → same_plan q1 q3.
Proof.
  intros (H1 & H2 & H3 & H4 & H5) (H1' & H2' & H3' & H4' & H5').
  unfold same_plan. rewrite H1', H2', H3', H4', H5'. auto.
Qed.

Section WithLibrary.
Context `{External}.

(** The plans of a constructed engine, one per active link. *)
Lemma create_plan_spec m voxel_size background ex inb e j data :
  create m voxel_size background ex inb = Ok e →
  dist_query_ e !! j = Some data →
  ∃ parent spheres,
    active_links_ e !! j = Some parent ∧ active_spheres_ e !! j = Some spheres ∧
    DistanceQueryData.parent_name data = parent ∧
    (DistanceQueryData.empty data = true ↔ spheres = []) ∧
    plan_ok e data.
Proof.
  intros Hc Hd.
  destruct (create_engine_ok _ _ _ _ _ _ Hc) as (_ & _ & _ & _ & Hlen).
  destruct (lookup_lt_is_Some_2 (active_links_ e) j) as [parent Hj].
  { rewrite <- Hlen. eapply lookup_lt_Some, Hd. }
  destruct (PlanFacts.create_plan_at _ _ _ _ _ _ _ _ Hc Hj) as (data' & Hd' & Hdata).
  assert (data' = data) as -> by congruence.
  destruct (PlanFacts.defaultQuery_spec _ _ _ _ Hdata)
    as (spheres & Hs & Hp & _ & _ & He & Hch).
  exists parent, spheres.
  split; [exact Hj|]. split; [exact Hs|]. split; [exact Hp|]. split; [exact He|].
  apply (has_children_plan_ok e data _ Hch).
  intros n i ty. destruct (DistanceQueryData.empty data); [intros Hin; inversion Hin|].
  intros (Hl & _)%PlanFacts.plan_candidates_spec. eapply lookup_lt_Some, Hl.
Qed.

(** Posing the plans changes only their spheres and gradient flag. *)
Lemma query_plans_same e req state :
  engine_ok e → Forall2 same_plan (dist_query_ e) (QueryInputs.query_plans e req state).
Proof.
  intros (_ & _ & _ & Hsph & Hq). unfold QueryInputs.query_plans.
  assert (Hlen : length (dist_query_ e)
                 = length (zip (active_links_ e) (active_spheres_ e))).
  { rewrite length_zip, Hsph, Nat.min_id. exact Hq. }
  clear Hsph Hq. revert Hlen.
  generalize (zip (active_links_ e) (active_spheres_ e)) as lss.
  induction (dist_query_ e) as [|q qs IH]; intros [|ls lss] Hlen; simpl in *;
    try discriminate; constructor.
  - repeat split.
  - apply IH. lia.
Qed.

(** The packaged fields are one per link of each class. *)
Lemma query_table_ok e state : engine_ok e → table_ok e (QueryInputs.query_table e state).
Proof.
  intros (Hs & Hd & Ha & _) ty. unfold QueryInputs.query_table.
  destruct ty; simpl; rewrite ?length_fmap, ?length_zip_with; lia.
Qed.

(** A candidate whose entries are in range is evaluated without leaving
    any vector. *)
Lemma candidateStep_total e bg data table st i :
  plan_ok e data → table_ok e table →
  (i < length (DistanceQueryData.child_index data))%nat →
  ∃ st', candidateStep bg data table st i = Ok st'.
Proof.
  intros (Hn & Ht & Hidx) Htable Hi. unfold candidateStep.
  destruct (at_index_lt (DistanceQueryData.child_type data) i) as [ty Hty]; [lia|].
  destruct (at_index_lt (DistanceQueryData.child_index data) i) as [idx Hidx']; [lia|].
  destruct (at_index_lt (DistanceQueryData.child_name data) i) as [name Hname]; [lia|].
  destruct (at_index_lt (table_get table ty) idx) as [child Hchild].
  { rewrite Htable. apply (Hidx i); apply at_index_Ok; assumption. }
  rewrite Hty, bind_of_Ok, Hidx', bind_of_Ok, Hchild, bind_of_Ok.
  destruct (foldl _ _ _) as [[cm ijk] found]. destruct found; [|eauto].
  destruct st as [[res g] tw]. rewrite Hname, bind_of_Ok.
  case_decide; rewrite bind_of_Ok; destruct (DistanceQueryData.gradient data); eauto.
Qed.

Lemma distanceSelfHelper_total e bg data table res :
  plan_ok e data → table_ok e table →
  ∃ d, distanceSelfHelper bg data table res = Ok d.
Proof.
  intros Hplan Htable. unfold distanceSelfHelper.
  destruct (for_each_total (λ _ : HelperState, True) (candidateStep bg data table)
              (seq 0 (length (DistanceQueryData.child_index data))))
    with (s := (DistanceResultsData.mk bg
                  (DistanceQueryData.parent_name data, (DistanceResultsData.link_name res).2)
                  false (DistanceResultsData.hasGradient res)
                  (DistanceResultsData.gradient res), V3.zero, 0))
    as (st & -> & _).
  - intros st i Hi%elem_of_seq _.
    destruct (candidateStep_total e bg data table st i Hplan Htable) as [st' ->]; [lia|].
    eauto.
  - exact I.
  - rewrite bind_of_Ok. eauto.
Qed.

Lemma distanceSelfHelper_entry bg data table res d :
  distanceSelfHelper bg data table res = Ok d →
  entry_ok bg (DistanceQueryData.parent_name data, d).
Proof.
  intros (st & (Hparent & Hnear & Hbg & _) & ->)%HelperFacts.distanceSelfHelper_inv.
  destruct (HelperFacts.finishGradient_keeps st) as (Hm & Hl & Hn).
  unfold entry_ok. simpl. rewrite Hm, Hl, Hn. auto.
Qed.

(** The evaluation loop returns when every plan is in range. *)
Lemma evaluate_total e table dist_query :
  table_ok e table → Forall (plan_ok e) dist_query →
  ∀ distance, ∃ distance', for_each (evaluatePlan e table) dist_query distance = Ok distance'.
Proof.
  intros Htable Hplans distance.
  destruct (for_each_total (λ _ : list (string * DistanceResultsData.t), True)
              (evaluatePlan e table) dist_query) with (s := distance) as (d' & Hd' & _).
  - intros s q Hq _. unfold evaluatePlan.
    destruct (DistanceQueryData.empty q); simpl; [eauto|].
    destruct (distanceSelfHelper_total e (background_ e) q table fresh_DistanceResultsData)
      as [d ->]; [exact (proj1 (Forall_forall _ _) Hplans q Hq) | exact Htable |].
    rewrite bind_of_Ok. eauto.
  - exact I.
  - eauto.
Qed.

(** What the evaluation loop leaves in [res.distance]. *)
Lemma evaluate_spec e table dist_query : ∀ distance distance',
  for_each (evaluatePlan e table) dist_query distance = Ok distance' →
  (Forall (entry_ok (background_ e)) distance →
   Forall (entry_ok (background_ e)) distance') ∧
  (keys_sorted distance → keys_sorted distance') ∧
  (∀ k, k ∈ distance'.*1 ↔
        k ∈ distance.*1 ∨
        ∃ q, q ∈ dist_query ∧ DistanceQueryData.empty q = false ∧
             DistanceQueryData.parent_name q = k).
Proof.
  induction dist_query as [|q dist_query IH]; intros distance distance'; simpl.
  - intros [= <-]. split; [auto|]. split; [auto|]. intros k. split; [auto|].
    intros [Hk|(q & Hq & _)]; [exact Hk | inversion Hq].
  - intros (d1 & Hstep & Hrest)%bind_Ok.
    destruct (IH _ _ Hrest) as (Hentries & Hsorted & Hkeys).
    revert Hstep. unfold evaluatePlan.
    destruct (DistanceQueryData.empty q) eqn:Hempty; simpl.
    + intros [= <-]. split; [exact Hentries|]. split; [exact Hsorted|].
      intros k. rewrite Hkeys. split.
      * intros [Hk|(q' & Hq' & Hrest')]; [auto|]. right. exists q'. rewrite elem_of_cons. auto.
      * intros [Hk|(q' & [->|Hq']%elem_of_cons & He & Hp)]; [auto | congruence |].
        right. exists q'. auto.
    + intros (d & Hd & [= <-])%bind_Ok.
      pose proof (distanceSelfHelper_entry _ _ _ _ _ Hd) as Hentry.
      assert (Hkey : (DistanceResultsData.link_name d).1 = DistanceQueryData.parent_name q)
        by apply Hentry.
      rewrite Hkey in *.
      split; [|split].
      * intros Hall. apply Hentries, Forall_forall.
        intros x [->|Hin]%insert_elem; [exact Hentry|].
        exact (proj1 (Forall_forall _ _) Hall x Hin).
      * intros Hs. apply Hsorted, insert_sorted, Hs.
      * intros k. rewrite Hkeys, insert_keys. split.
        -- intros [[->|Hk]|(q' & Hq' & Hrest')].
           ++ right. exists q. rewrite elem_of_cons. auto.
           ++ auto.
           ++ right. exists q'. rewrite elem_of_cons. auto.
        -- intros [Hk|(q' & [->|Hq']%elem_of_cons & He & Hp)]; [auto | auto |].
           right. exists q'. auto.
Qed.

(** The closing loop keeps the smallest [min_distance] below its starting
    value, with the first link name of the entry that holds it. *)
Lemma minimum_loop_spec (distance : list (string * DistanceResultsData.t)) :
  ∀ acc : string * R,
    let r := foldl minimum_step acc distance in
    (∀ x, x ∈ distance → r.2 <= DistanceResultsData.min_distance x.2) ∧
    r.2 <= acc.2 ∧
    (r = acc ∨
     ∃ x, x ∈ distance ∧
          r = ((DistanceResultsData.link_name x.2).1, DistanceResultsData.min_distance x.2)).
Proof.
  induction distance as [|x distance IH]; intros acc r; subst r; simpl.
  - split; [intros x Hx; inversion Hx|]. split; [lra | auto].
  - destruct (IH (minimum_step acc x)) as (Hlow & Hle & Hlast).
    set (r := foldl minimum_step (minimum_step acc x) distance) in *.
    assert (Hstep : (minimum_step acc x = acc ∧
                     acc.2 <= DistanceResultsData.min_distance x.2) ∨
                    (minimum_step acc x
                       = ((DistanceResultsData.link_name x.2).1,
                          DistanceResultsData.min_distance x.2) ∧
                     DistanceResultsData.min_distance x.2 < acc.2)).
    { unfold minimum_step. case_decide; [right; auto | left; split; [reflexivity | lra]]. }
    destruct Hstep as [[Heq Hx]|[Heq Hx]]; rewrite Heq in *; simpl in Hle.
    + split; [|split; [exact Hle|]].
      * intros y [->|Hin]%elem_of_cons; [lra | auto].
      * destruct Hlast as [Hr|(y & Hy & Hr)]; [auto|].
        right. exists y. rewrite elem_of_cons. auto.
    + split; [|split; [lra|]].
      * intros y [->|Hin]%elem_of_cons; [exact Hle | auto].
      * right. destruct Hlast as [Hr|(y & Hy & Hr)].
        -- exists x. rewrite elem_of_cons. auto.
        -- exists y. rewrite elem_of_cons. auto.
Qed.

Lemma selectMinimum_spec bg distance index :
  Forall (entry_ok bg) distance →
  selectMinimum bg distance = Ok index →
  ∃ v, (index, v) ∈ distance ∧
       ∀ x, x ∈ distance →
            DistanceResultsData.min_distance v <= DistanceResultsData.min_distance x.2.
Proof.
  destruct distance as [|[k0 first] rest]; [discriminate|].
  intros Hall Hsel.
  assert (Hindex : index = (foldl minimum_step ((DistanceResultsData.link_name first).1, bg)
                                  ((k0, first) :: rest)).1).
  { unfold selectMinimum in Hsel. injection Hsel as <-. reflexivity. }
  clear Hsel. subst index.
  pose proof (proj1 (Forall_forall _ _) Hall) as Hentry.
  destruct (minimum_loop_spec ((k0, first) :: rest)
              ((DistanceResultsData.link_name first).1, bg)) as (Hlow & Hle & Hlast).
  set (r := foldl minimum_step _ ((k0, first) :: rest)) in *.
  destruct Hlast as [Hr|([k v] & Hx & Hr)].
  - exists first. rewrite Hr. simpl.
    destruct (Hentry (k0, first)) as (Hk & Hbg & _); [left|]. simpl in Hk, Hbg.
    rewrite Hk. split; [left|]. intros x Hx. specialize (Hlow x Hx).
    rewrite Hr in Hlow. simpl in Hlow. lra.
  - exists v. rewrite Hr. simpl.
    destruct (Hentry (k, v) Hx) as (Hk & _). simpl in Hk. rewrite Hk.
    split; [exact Hx|]. intros x Hx'. specialize (Hlow x Hx').
    rewrite Hr in Hlow. exact Hlow.
Qed.

(** The evaluation on an engine whose plans are in range: the loop over
    the plans returns, and what remains is the closing loop. *)
Lemma evaluation_run e req res state :
  engine_ok e → Forall (plan_ok e) (dist_query_ e) →
  ∃ distance,
    for_each (evaluatePlan e (QueryInputs.query_table e state))
             (QueryInputs.query_plans e req state) (DistanceResult.distance res)
      = Ok distance ∧
    QueryInputs.evaluation e req res state
    = (index ← selectMinimum (background_ e) distance;
       let '(minimum, distance) :=
         StdMap.subscript fresh_DistanceResultsData index distance in
       Ok (DistanceResult.mk minimum distance)).
Proof.
  intros Hok Hplans.
  pose proof (query_plans_same e req state Hok) as Hsame.
  assert (Hdq : Forall (plan_ok e) (QueryInputs.query_plans e req state)).
  { apply Forall_forall. intros q' (j & Hj)%list_elem_of_lookup_1.
    destruct (Forall2_lookup_r _ _ _ _ _ Hsame Hj) as (q & Hq & Hqq').
    apply (plan_ok_same e q q' Hqq').
    exact (proj1 (Forall_forall _ _) Hplans q (list_elem_of_lookup_2 _ _ _ Hq)). }
  destruct (evaluate_total e _ _ (query_table_ok e state Hok) Hdq
              (DistanceResult.distance res)) as (distance & Hdistance).
  exists distance. split; [exact Hdistance|].
  unfold QueryInputs.evaluation. rewrite Hdistance, bind_of_Ok. reflexivity.
Qed.

(** The plans of a constructed engine are in range. *)
Lemma create_plans_ok m voxel_size background ex inb e :
  create m voxel_size background ex inb = Ok e → Forall (plan_ok e) (dist_query_ e).
Proof.
  intros Hc. apply Forall_forall. intros q (j & Hj)%list_elem_of_lookup_1.
  destruct (create_plan_spec _ _ _ _ _ _ _ _ Hc Hj) as (_ & _ & _ & _ & _ & _ & Hq).
  exact Hq.
Qed.

(** The plans that are evaluated are those of the active links that have
    spheres. *)
Lemma plans_with_spheres m voxel_size background ex inb e dist_query k :
  create m voxel_size background ex inb = Ok e →
  Forall2 same_plan (dist_query_ e) dist_query →
  (∃ q, q ∈ dist_query ∧ DistanceQueryData.empty q = false ∧
        DistanceQueryData.parent_name q = k) ↔ has_spheres e k.
Proof.
  intros Hc Hsame. split.
  - intros (q & (j & Hj)%list_elem_of_lookup_1 & Hempty & Hparent).
    destruct (Forall2_lookup_r _ _ _ _ _ Hsame Hj) as (q0 & Hq0 & (Hp & _ & _ & _ & He)).
    destruct (create_plan_spec _ _ _ _ _ _ _ _ Hc Hq0)
      as (parent & spheres & Hl & Hs & Hp0 & He0 & _).
    exists j, spheres. split; [congruence|]. split; [exact Hs|].
    intros Hnil%He0. congruence.
  - intros (j & spheres & Hl & Hs & Hne).
    destruct (create_engine_ok _ _ _ _ _ _ Hc) as (_ & _ & _ & _ & Hlen).
    destruct (lookup_lt_is_Some_2 (dist_query_ e) j) as [q0 Hq0].
    { rewrite Hlen. eapply lookup_lt_Some, Hl. }
    destruct (create_plan_spec _ _ _ _ _ _ _ _ Hc Hq0)
      as (parent & spheres' & Hl' & Hs' & Hp0 & He0 & _).
    destruct (Forall2_lookup_l _ _ _ _ _ Hsame Hq0) as (q & Hq & (Hp & _ & _ & _ & He)).
    exists q. split; [eapply list_elem_of_lookup_2, Hq|]. split; [|congruence].
    rewrite He. destruct (DistanceQueryData.empty q0); [|reflexivity].
    exfalso. apply Hne. assert (spheres' = spheres) as <- by congruence.
    apply He0. reflexivity.
Qed.

Lemma selectMinimum_Ok bg (distance : list (string * DistanceResultsData.t)) :
  distance ≠ [] ↔ ∃ index, selectMinimum bg distance = Ok index.
Proof.
  destruct distance as [|[k first] rest]; simpl.
  - split; [congruence | intros [index Hi]; discriminate].
  - split; [eauto | discriminate].
Qed.

Lemma keys_nil {V} (m : list (string * V)) : m ≠ [] ↔ ∃ k, k ∈ m.*1.
Proof.
  destruct m as [|[k v] m]; simpl.
  - split; [congruence | intros [k Hk]; inversion Hk].
  - split; [intros _; exists k; left | discriminate].
Qed.

(** On a constructed engine, the evaluation returns exactly when the
    closing loop finds an entry. *)
Lemma evaluation_Ok m voxel_size background ex inb e req res state :
  create m voxel_size background ex inb = Ok e →
  ((∃ r, QueryInputs.evaluation e req res state = Ok r) ↔
   (∃ k, has_spheres e k) ∨ DistanceResult.distance res ≠ []) ∧
  ((∀ r, QueryInputs.evaluation e req res state ≠ Ok r) →
   QueryInputs.evaluation e req res state = Fail DerefOfEnd).
Proof.
  intros Hc.
  pose proof (create_engine_ok _ _ _ _ _ _ Hc) as Hok.
  destruct (evaluation_run e req res state Hok (create_plans_ok _ _ _ _ _ _ Hc))
    as (distance & Heval & ->).
  destruct (evaluate_spec _ _ _ _ _ Heval) as (_ & _ & Hkeys).
  pose proof (query_plans_same e req state Hok) as Hsame.
  assert (Hne : distance ≠ [] ↔ (∃ k, has_spheres e k) ∨ DistanceResult.distance res ≠ []).
  { rewrite !keys_nil. split.
    - intros [k [Hk|Hq]%Hkeys]; [right; eauto|].
      left. exists k. apply (plans_with_spheres _ _ _ _ _ _ _ _ Hc Hsame), Hq.
    - intros [[k Hk]|[k Hk]]; exists k; apply Hkeys; [right | left; exact Hk].
      apply (plans_with_spheres _ _ _ _ _ _ _ _ Hc Hsame), Hk. }
  split.
  - rewrite <- Hne, (selectMinimum_Ok (background_ e)). split.
    + intros [r (index & Hi & _)%bind_Ok]. eauto.
    + intros [index ->]. rewrite bind_of_Ok.
      destruct (StdMap.subscript _ _ _) as [minimum distance']. eauto.
  - destruct distance as [|[k first] rest]; [reflexivity|].
    intros Hnever. exfalso.
    destruct (proj1 (selectMinimum_Ok (background_ e) ((k, first) :: rest)))
      as [index Hindex]; [discriminate|].
    destruct (StdMap.subscript fresh_DistanceResultsData index ((k, first) :: rest))
      as [minimum distance'] eqn:Hsub.
    apply (Hnever (DistanceResult.mk minimum distance')).
    rewrite Hindex, bind_of_Ok, Hsub. reflexivity.
Qed.

(** On a constructed engine, the query returns exactly when every static
    and dynamic field has a grid and the closing loop finds an entry. *)
Lemma distanceSelf_Ok m voxel_size background ex inb e req res state :
  create m voxel_size background ex inb = Ok e →
  is_Some (getJointModelGroup (robot_model_ e) (DistanceRequest.group_name req)) →
  (∃ r, distanceSelf e req res state = Ok r) ↔
  QueryInputs.fields_ready m e ∧
  ((∃ k, has_spheres e k) ∨ DistanceResult.distance res ≠ []).
Proof.
  intros Hc Hgroup.
  rewrite (PrepareFacts.distanceSelf_prepared _ _ _ _ _ _ _ _ _ Hc Hgroup).
  rewrite <- (GridFacts.grids_present_ready _ _ _ _ _ _ Hc).
  rewrite <- (proj1 (evaluation_Ok _ _ _ _ _ _ req res state Hc)).
  case_decide as Hg.
  - tauto.
  - split; [intros [r Hr]; discriminate | tauto].
Qed.

(** X8.  On an engine the constructor returned, a self-distance request
    that names a joint group of the model never reads outside a vector:
    every index stored in a plan lies within the table of its class.  The
    call returns a result exactly when every static and every dynamic link
    has a shape of a supported kind and, besides, some active link has a
    fitted sphere or the result object came with entries in
    [res.distance].  When a static or dynamic link has no shape of a
    supported kind, the call dereferences the null grid of that link's
    field; in the remaining case without a result the closing loop reads
    [begin()] of an empty map. *)
Theorem distanceSelf_returns m voxel_size background ex inb e req res state :
  create m voxel_size background ex inb = Ok e →
  is_Some (getJointModelGroup (robot_model_ e) (DistanceRequest.group_name req)) →
  ((∃ r, distanceSelf e req res state = Ok r) ↔
   QueryInputs.fields_ready m e ∧
   ((∃ k, has_spheres e k) ∨ DistanceResult.distance res ≠ [])) ∧
  (¬ QueryInputs.fields_ready m e →
   distanceSelf e req res state = Fail NullDereference) ∧
  (QueryInputs.fields_ready m e → (∀ r, distanceSelf e req res state ≠ Ok r) →
   distanceSelf e req res state = Fail DerefOfEnd).
Proof.
  intros Hc Hgroup. split; [exact (distanceSelf_Ok _ _ _ _ _ _ _ _ _ Hc Hgroup)|].
  rewrite (PrepareFacts.distanceSelf_prepared _ _ _ _ _ _ _ _ _ Hc Hgroup).
  pose proof (GridFacts.grids_present_ready _ _ _ _ _ _ Hc) as Hready.
  split; intros Hr.
  - rewrite decide_False by (intros Hg; apply Hr, Hready, Hg). reflexivity.
  - rewrite decide_True by (apply Hready, Hr).
    apply (evaluation_Ok _ _ _ _ _ _ req res state Hc).
Qed.

(** X9.  What a completed self-distance query returns when the result
    object came without entries.  [res.distance] has an entry for exactly
    the active links that have a fitted sphere; the entry stored under a
    link carries that link as its first link name, a [min_distance] of at
    most the background and no nearest points; and [res.minimum_distance]
    is one of the entries, with a [min_distance] that no entry
    undercuts. *)
Theorem distanceSelf_result m voxel_size background ex inb e req res state r :
  create m voxel_size background ex inb = Ok e →
  DistanceResult.distance res = [] →
  distanceSelf e req res state = Ok r →
  (∀ k, k ∈ (DistanceResult.distance r).*1 ↔ has_spheres e k) ∧
  (∀ k d, (k, d) ∈ DistanceResult.distance r →
          (DistanceResultsData.link_name d).1 = k ∧
          DistanceResultsData.min_distance d <= background ∧
          DistanceResultsData.hasNearestPoints d = false) ∧
  (∃ k, (k, DistanceResult.minimum_distance r) ∈ DistanceResult.distance r) ∧
  (∀ k d, (k, d) ∈ DistanceResult.distance r →
          DistanceResultsData.min_distance (DistanceResult.minimum_distance r)
          <= DistanceResultsData.min_distance d).
Proof.
  intros Hc Hres Hr.
  assert (Hgroup : is_Some (getJointModelGroup (robot_model_ e)
                              (DistanceRequest.group_name req))).
  { destruct (getJointModelGroup _ _) eqn:Hg; [eauto|].
    unfold distanceSelf in Hr. rewrite Hg in Hr. discriminate. }
  rewrite (PrepareFacts.distanceSelf_prepared _ _ _ _ _ _ _ _ _ Hc Hgroup) in Hr.
  destruct (decide (QueryInputs.grids_present e)) as [_|_]; [|discriminate].
  pose proof (create_engine_ok _ _ _ _ _ _ Hc) as Hok.
  pose proof (query_plans_same e req state Hok) as Hsame.
  destruct (PlanFacts.create_config _ _ _ _ _ _ Hc) as (_ & _ & Hbg & _).
  destruct (evaluation_run e req res state Hok (create_plans_ok _ _ _ _ _ _ Hc))
    as (distance & Heval & Hrun).
  rewrite Hrun in Hr. clear Hrun.
  destruct (evaluate_spec _ _ _ _ _ Heval) as (Hentries & Hsorted & Hkeys).
  rewrite Hres in Hentries, Hsorted, Hkeys.
  specialize (Hentries (Forall_nil_2 _)). specialize (Hsorted I).
  apply bind_Ok in Hr as (index & Hindex & Hr).
  destruct (selectMinimum_spec _ _ _ Hentries Hindex) as (v & Hv & Hmin).
  unfold StdMap.subscript in Hr. rewrite (sorted_find _ _ _ Hsorted Hv) in Hr.
  injection Hr as <-. simpl. rewrite <- Hbg.
  split; [|split; [|split]].
  - intros k. rewrite Hkeys, (plans_with_spheres _ _ _ _ _ _ _ _ Hc Hsame). split; [|auto].
    intros [Hk|Hk]; [inversion Hk | exact Hk].
  - intros k d Hin. exact (proj1 (Forall_forall _ _) Hentries (k, d) Hin).
  - exists index. exact Hv.
  - intros k d Hin. exact (Hmin (k, d) Hin).
Qed.

End WithLibrary.

(** The arm on its pedestal: the pedestal and the camera bear a box. *)
Lemma arm_on_pedestal_ready :
  QueryInputs.fields_ready Examples.arm_on_pedestal
    (Examples.engine_of (H := Examples.wall_lib) Examples.arm_on_pedestal).
Proof.
  assert (Hs : static_links_ (Examples.engine_of (H := Examples.wall_lib)
                                Examples.arm_on_pedestal) = ["pedestal"])
    by (vm_compute; reflexivity).
  assert (Hd : dynamic_links_ (Examples.engine_of (H := Examples.wall_lib)
                                 Examples.arm_on_pedestal) = ["camera"])
    by (vm_compute; reflexivity).
  intros link. rewrite Hs, Hd, !elem_of_cons, !elem_of_nil.
  intros [[->|[]]|[->|[]]]; apply Exists_cons_hd; reflexivity.
Qed.

(** Its upper arm has fitted spheres. *)
Lemma arm_on_pedestal_spheres :
  ∃ k, has_spheres (Examples.engine_of (H := Examples.wall_lib) Examples.arm_on_pedestal) k.
Proof.
  exists "upper_arm", 0%nat,
    (vdb_fillWithSpheres (External := Examples.wall_lib)
       (meshToVolume Examples.unit_box Mat4.Identity 1 3 3) 20 true 1 FLT_MAX 0 100000).
  split; [vm_compute; reflexivity|]. split; [vm_compute; reflexivity | discriminate].
Qed.

Lemma distanceSelf_returns_witness :
  let H := Examples.wall_lib in
  let m := Examples.arm_on_pedestal in
  let e := Examples.engine_of m in
  let req := DistanceRequest.mk "arm" true in
  create m 1 10 3 3 = Ok e ∧
  is_Some (getJointModelGroup (robot_model_ e) (DistanceRequest.group_name req)) ∧
  ((∃ r, distanceSelf e req Examples.empty_result Examples.still_state = Ok r) ↔
   QueryInputs.fields_ready m e ∧
   ((∃ k, has_spheres e k) ∨ DistanceResult.distance Examples.empty_result ≠ [])) ∧
  (¬ QueryInputs.fields_ready m e →
   distanceSelf e req Examples.empty_result Examples.still_state = Fail NullDereference) ∧
  (QueryInputs.fields_ready m e →
   (∀ r, distanceSelf e req Examples.empty_result Examples.still_state ≠ Ok r) →
   distanceSelf e req Examples.empty_result Examples.still_state = Fail DerefOfEnd).
Proof.
  intros H m e req.
  assert (Hrun : create m 1 10 3 3 = Ok e)
    by (vm_compute; reflexivity).
  assert (Hgroup : is_Some (getJointModelGroup (robot_model_ e)
                              (DistanceRequest.group_name req)))
    by (vm_compute; eauto).
  split; [exact Hrun|]. split; [exact Hgroup|].
  apply (distanceSelf_returns (H := Examples.wall_lib) m 1 10 3 3 e req
           Examples.empty_result Examples.still_state Hrun Hgroup).
Defined.

Lemma distanceSelf_result_witness :
  let H := Examples.wall_lib in
  let e := Examples.engine_of Examples.arm_on_pedestal in
  let req := DistanceRequest.mk "arm" true in
  create Examples.arm_on_pedestal 1 10 3 3 = Ok e ∧
  DistanceResult.distance Examples.empty_result = [] ∧
  ∃ r, distanceSelf e req Examples.empty_result Examples.still_state = Ok r ∧
       (∀ k, k ∈ (DistanceResult.distance r).*1 ↔ has_spheres e k) ∧
       (∀ k d, (k, d) ∈ DistanceResult.distance r →
               (DistanceResultsData.link_name d).1 = k ∧
               DistanceResultsData.min_distance d <= 10 ∧
               DistanceResultsData.hasNearestPoints d = false) ∧
       (∃ k, (k, DistanceResult.minimum_distance r) ∈ DistanceResult.distance r) ∧
       (∀ k d, (k, d) ∈ DistanceResult.distance r →
               DistanceResultsData.min_distance (DistanceResult.minimum_distance r)
               <= DistanceResultsData.min_distance d).
Proof.
  intros H e req.
  assert (Hrun : create Examples.arm_on_pedestal 1 10 3 3 = Ok e)
    by (vm_compute; reflexivity).
  assert (Hgroup : is_Some (getJointModelGroup (robot_model_ e)
                              (DistanceRequest.group_name req)))
    by (vm_compute; eauto).
  split; [exact Hrun|]. split; [reflexivity|].
  destruct (proj2 (distanceSelf_Ok (H := Examples.wall_lib) Examples.arm_on_pedestal
                     1 10 3 3 e req Examples.empty_result Examples.still_state Hrun Hgroup)
                  (conj arm_on_pedestal_ready (or_introl arm_on_pedestal_spheres)))
    as [r Hr].
  exists r. split; [exact Hr|].
  apply (distanceSelf_result (H := Examples.wall_lib) Examples.arm_on_pedestal 1 10 3 3 e req
           Examples.empty_result Examples.still_state r Hrun eq_refl Hr).
Defined.
End QueryFacts.

(** ** The gradient a plan evaluates to *)

Module GradientFacts.
Import Invariants ConstructionFacts Samples.
Local Open Scope R_scope.

Lemma squaredNorm_nonneg v : 0 <= V3.squaredNorm v.
Proof. unfold V3.squaredNorm. nra. Qed.

Lemma squaredNorm_zero v : V3.squaredNorm v = 0 → v = mkVec3 0 0 0.
Proof.
  destruct v as [x y z]. unfold V3.squaredNorm. simpl. intros Hz.
  assert (x = 0) by nra. assert (y = 0) by nra. assert (z = 0) by nra. subst. reflexivity.
Qed.

(** [normalize()] leaves a unit vector or the zero vector. *)
Lemma eigen_normalize_cases v :
  V3.norm (V3.eigen_normalize v) = 1 ∨ V3.eigen_normalize v = mkVec3 0 0 0.
Proof.
  destruct (Rlt_dec 0 (V3.squaredNorm v)) as [Hpos|Hz].
  - left. apply WeightFacts.eigen_normalize_unit, Hpos.
  - right. pose proof (squaredNorm_nonneg v).
    rewrite WeightFacts.eigen_normalize_zero by lra. apply squaredNorm_zero. lra.
Qed.

Section WithLibrary.
Context `{External}.

(** One candidate never raises [min_distance], and raises the gradient
    flag only when a gradient was requested and the candidate reported a
    distance below the background. *)
Lemma candidateStep_flag bg data table st i st' :
  candidateStep bg data table st i = Ok st' →
  DistanceResultsData.min_distance st'.1.1 <= DistanceResultsData.min_distance st.1.1 ∧
  (DistanceResultsData.hasGradient st'.1.1 = DistanceResultsData.hasGradient st.1.1 ∨
   DistanceResultsData.hasGradient st'.1.1 = true ∧
   DistanceQueryData.gradient data = true ∧
   DistanceResultsData.min_distance st'.1.1 < bg).
Proof.
  unfold candidateStep.
  intros (ty & _ & (idx & _ & (child & _ & Hrest)%bind_Ok)%bind_Ok)%bind_Ok.
  pose proof (WeightFacts.sphere_loop_below bg child (DistanceQueryData.spheres data)
                (bg, mkCoord 0 0 0, false)) as Hloop.
  destruct (foldl _ _ _) as [[cm ijk] found]. simpl in Hloop.
  destruct Hloop as [_ Hlt]; [lra | discriminate |].
  destruct found; [|injection Hrest as <-; split; [lra | auto]].
  specialize (Hlt eq_refl).
  destruct st as [[res g] tw]. simpl.
  apply bind_Ok in Hrest as (res1 & Hres1 & Hrest).
  assert (Hres1' : DistanceResultsData.min_distance res1 <= DistanceResultsData.min_distance res ∧
                   DistanceResultsData.min_distance res1 <= cm ∧
                   DistanceResultsData.hasGradient res1 = DistanceResultsData.hasGradient res).
  { revert Hres1. destruct (decide (cm < DistanceResultsData.min_distance res)).
    - intros (name & _ & [= <-])%bind_Ok. simpl. repeat split; lra.
    - intros [= <-]. repeat split; lra. }
  destruct Hres1' as (Hle & Hcm & Hflag).
  destruct (DistanceQueryData.gradient data).
  - injection Hrest as <-. unfold blendGradient.
    destruct (decide (V3.sum _ ≠ 0)); simpl.
    + split; [exact Hle|]. right. repeat split; lra.
    + split; [exact Hle | left; exact Hflag].
  - injection Hrest as <-. simpl. split; [exact Hle | left; exact Hflag].
Qed.

(** X10.  The gradient a plan evaluates to, for a result object that enters
    with [hasGradient = false].  Without a gradient request the flag stays
    false.  While the flag is false the gradient field is the one the
    result object came with.  When the flag comes out true, a distance
    below the background was found, and the gradient is the normalised
    weighted mean of the candidates' gradients: a unit vector, or the zero
    vector when the weighted gradients cancel. *)
Theorem distanceSelfHelper_gradient bg data table res d :
  DistanceResultsData.hasGradient res = false →
  distanceSelfHelper bg data table res = Ok d →
  (DistanceQueryData.gradient data = false → DistanceResultsData.hasGradient d = false) ∧
  (DistanceResultsData.hasGradient d = false →
   DistanceResultsData.gradient d = DistanceResultsData.gradient res) ∧
  (DistanceResultsData.hasGradient d = true →
   DistanceResultsData.min_distance d < bg ∧
   (V3.norm (DistanceResultsData.gradient d) = 1 ∨
    DistanceResultsData.gradient d = mkVec3 0 0 0)).
Proof.
  intros Hoff. unfold distanceSelfHelper. intros (st & Hloop & [= <-])%bind_Ok.
  apply (for_each_invariant
           (λ st, weight_inv (DistanceResultsData.gradient res) st ∧
                  (DistanceResultsData.hasGradient st.1.1 = true →
                   DistanceQueryData.gradient data = true ∧
                   DistanceResultsData.min_distance st.1.1 < bg))) in Hloop.
  - destruct st as [[res_l g] tw]. destruct Hloop as [(Htw & Hon & Hoff') Hflag].
    simpl in *. unfold finishGradient.
    destruct (DistanceResultsData.hasGradient res_l) eqn:Hres_l.
    + destruct (Hflag eq_refl) as [Hreq Hmin]. specialize (Hon eq_refl).
      case_decide; [lra|]. simpl. rewrite Hres_l.
      split; [congruence|]. split; [discriminate|]. intros _. split; [exact Hmin|].
      apply eigen_normalize_cases.
    + rewrite Hres_l. destruct (Hoff' eq_refl) as [_ Hg].
      split; [reflexivity|]. split; [intros _; exact Hg | discriminate].
  - intros s i s' _ [Hw Hflag] Hstep. split; [exact (WeightFacts.candidateStep_weight _ _ _ _ _ _ _ Hw Hstep)|].
    destruct (candidateStep_flag _ _ _ _ _ _ Hstep) as [Hle [Hsame|(_ & Hreq & Hlt)]].
    + rewrite Hsame. intros Hon. destruct (Hflag Hon) as [Hreq Hlt]. split; [exact Hreq | lra].
    + auto.
  - simpl. split; [|rewrite Hoff; discriminate].
    unfold weight_inv. simpl. rewrite Hoff. repeat split; try lra; discriminate.
Qed.

End WithLibrary.

Lemma distanceSelfHelper_gradient_witness :
  let H := Examples.wall_lib in
  let d := Examples.probe_after_left in
  DistanceResultsData.hasGradient fresh_DistanceResultsData = false ∧
  distanceSelfHelper 10 Examples.between_walls Examples.walls fresh_DistanceResultsData = Ok d ∧
  (DistanceQueryData.gradient Examples.between_walls = false →
   DistanceResultsData.hasGradient d = false) ∧
  (DistanceResultsData.hasGradient d = false →
   DistanceResultsData.gradient d = DistanceResultsData.gradient fresh_DistanceResultsData) ∧
  (DistanceResultsData.hasGradient d = true →
   DistanceResultsData.min_distance d < 10 ∧
   (V3.norm (DistanceResultsData.gradient d) = 1 ∨
    DistanceResultsData.gradient d = mkVec3 0 0 0)).
Proof.
  intros H d.
  assert (Hoff : DistanceResultsData.hasGradient
                   (fresh_DistanceResultsData (External := Examples.wall_lib)) = false)
    by reflexivity.
  split; [exact Hoff|]. split; [exact HelperFacts.between_walls_evaluates|].
  apply (distanceSelfHelper_gradient (H := Examples.wall_lib) 10 Examples.between_walls
           Examples.walls fresh_DistanceResultsData d Hoff
           HelperFacts.between_walls_evaluates).
Defined.
End GradientFacts.

(** ** The two query modes of a field *)

Module ModeFacts.
Import Invariants ConstructionFacts.
Import OpenVDBDistanceField.
Local Open Scope R_scope.

Lemma norm_nonzero v : V3.norm v ≠ 0 → 0 < V3.squaredNorm v.
Proof.
  unfold V3.norm. intros Hn. pose proof (GradientFacts.squaredNorm_nonneg v) as Hge.
  destruct (Req_dec (V3.squaredNorm v) 0) as [Hz|Hnz]; [|lra].
  rewrite Hz, sqrt_0 in Hn. contradiction.
Qed.

Lemma norm_zero v : V3.norm v = 0 → v = mkVec3 0 0 0.
Proof.
  unfold V3.norm. intros Hn. apply GradientFacts.squaredNorm_zero.
  apply sqrt_eq_0; [apply GradientFacts.squaredNorm_nonneg | exact Hn].
Qed.



Section WithLibrary.
Context `{External}.

(** X11.  [getGradient] reports success only together with a unit vector:
    when it returns true the gradient has length 1; when it returns false
    the gradient is either the vector it was called with (the cached
    accessor of an empty field) or the zero vector that was read. *)
Theorem getGradient_unit f coord gradient thread_safe flag g :
  getGradient f coord gradient thread_safe = Ok (flag, g) →
  (flag = true → V3.norm g = 1) ∧
  (flag = false → g = gradient ∨ g = mkVec3 0 0 0).
Proof.
  unfold getGradient. intros (raw & _ & Hrest)%bind_Ok.
  destruct raw as [r|]; [|injection Hrest as <- <-; split; [discriminate | auto]].
  revert Hrest. case_decide as Hn.
  - intros [= <- <-]. split; [|discriminate]. intros _.
    apply WeightFacts.eigen_normalize_unit, norm_nonzero, Hn.
  - intros [= <- <-]. split; [discriminate|]. intros _. right.
    apply norm_zero. destruct (Req_dec (V3.norm r) 0); [assumption | contradiction].
Qed.


(** X13.  The two modes of [getDistance] on a field built for a link.  When
    some shape of the link is of a supported kind, both modes return the
    value stored in the field's grid.  When none is (only planes, octrees
    or unknown shapes), the field has no grid: the cached mode returns 0
    and the thread-safe mode dereferences the null grid. *)
Theorem getDistance_modes m link pose v bg ex inb f :
  addLinkToField m (new v bg) link pose ex inb = Ok f →
  (has_supported_shape m link →
   ∃ g, grid_ f = Some g ∧
        ∀ coord thread_safe, getDistance f coord thread_safe = Ok (gridValue g coord)) ∧
  (¬ has_supported_shape m link →
   ∀ coord, getDistance f coord true = Fail NullDereference ∧
            getDistance f coord false = Ok 0).
Proof.
  intros (Hacc & _ & Hgrid)%BuiltFacts.addLinkToField_built. split.
  - intros [g Hg]%Hgrid. exists g. split; [exact Hg|].
    intros coord []; unfold getDistance; rewrite ?Hacc, Hg; reflexivity.
  - intros Hnone coord.
    assert (Hg : grid_ f = None).
    { destruct (grid_ f) eqn:Hg; [|reflexivity]. exfalso. apply Hnone, Hgrid. eauto. }
    unfold getDistance. rewrite Hacc, Hg. auto.
Qed.

End WithLibrary.

Lemma getGradient_unit_witness :
  let H := Examples.wall_lib in
  getGradient Examples.diagonal_field (mkCoord 0 0 0) (mkVec3 0 0 0) false
    = Ok (true, mkVec3 (/ sqrt 2) (- / sqrt 2) 0) ∧
  (true = true → V3.norm (mkVec3 (/ sqrt 2) (- / sqrt 2) 0) = 1) ∧
  (true = false → mkVec3 (/ sqrt 2) (- / sqrt 2) 0 = mkVec3 0 0 0 ∨
                  mkVec3 (/ sqrt 2) (- / sqrt 2) 0 = mkVec3 0 0 0).
Proof.
  intros H. split; [exact (BlendFacts.getGradient_keeps_diagonal (mkVec3 0 0 0))|].
  apply (getGradient_unit (H := Examples.wall_lib) Examples.diagonal_field (mkCoord 0 0 0)
           (mkVec3 0 0 0) false true (mkVec3 (/ sqrt 2) (- / sqrt 2) 0)
           (BlendFacts.getGradient_keeps_diagonal (mkVec3 0 0 0))).
Defined.


Lemma getDistance_modes_witness :
  let H := Examples.wall_lib in
  let m := Examples.arm_on_pedestal in
  ∃ f, addLinkToField m (new 1 10) "pedestal" Mat4.Identity 3 3 = Ok f ∧
       (has_supported_shape m "pedestal" →
        ∃ g, grid_ f = Some g ∧
             ∀ coord thread_safe, getDistance f coord thread_safe = Ok (gridValue g coord)) ∧
       (¬ has_supported_shape m "pedestal" →
        ∀ coord, getDistance f coord true = Fail NullDereference ∧
                 getDistance f coord false = Ok 0).
Proof.
  intros H m.
  assert (Horigins : origins_cover_shapes m).
  { intros link. simpl. case_decide; simpl; lia. }
  destruct (addLinkToField_total m (new 1 10) "pedestal" Mat4.Identity 3 3 Horigins)
    as [f Hf].
  exists f. split; [exact Hf|].
  apply (getDistance_modes (H := Examples.wall_lib) m "pedestal" Mat4.Identity 1 10 3 3 f Hf).
Defined.
End ModeFacts.

(** ** The meshes of cones and cylinders *)

Module TessellationFacts.
Import Tessellation.
Local Open Scope R_scope.

Lemma foldl_seq_invariant {St} (P : nat → St → Prop) (f : St → nat → St) n :
  ∀ a s, P a s → (∀ i s, (a <= i < a + n)%nat → P i s → P (S i) (f s i)) →
         P (a + n)%nat (foldl f s (seq a n)).
Proof.
  induction n as [|n IH]; intros a s Hs Hstep; simpl.
  - rewrite Nat.add_0_r. exact Hs.
  - replace (a + S n)%nat with (S a + n)%nat by lia. apply IH.
    + apply Hstep; [lia | exact Hs].
    + intros i t Hi. apply Hstep. lia.
Qed.

Lemma next_column sides i :
  (i < sides)%nat →
  (if bool_decide (i = sides - 1)%nat then 0%nat else (i + 1)%nat) = (S i mod sides)%nat.
Proof.
  intros Hi. case_bool_decide as Hlast.
  - replace (S i) with sides by lia. rewrite Nat.Div0.mod_same. reflexivity.
  - rewrite Nat.mod_small by lia. lia.
Qed.

Lemma cone_vertices_spec sides radius dh dtheta points0 :
  let r := cone_vertices sides radius dh dtheta points0 in
  length r.1 = length points0 ∧
  ∀ i, (i < sides)%nat → (i < length points0)%nat →
       r.1 !! i = Some (mkVec3 (radius * cos (INR i * dtheta))
                              (radius * sin (INR i * dtheta)) (- dh)).
Proof.
  cbv zeta. unfold cone_vertices.
  pose proof (foldl_seq_invariant
    (λ k (st : list Vec3 * R),
       length st.1 = length points0 ∧ st.2 = INR k * dtheta ∧
       ∀ i, (i < k)%nat → (i < length points0)%nat →
            st.1 !! i = Some (mkVec3 (radius * cos (INR i * dtheta))
                                     (radius * sin (INR i * dtheta)) (- dh)))
    (λ '(points, theta) i,
       let x := radius * cos theta in
       let y := radius * sin theta in
       (<[i := mkVec3 x y (- dh)]> points, theta + dtheta))
    sides 0%nat (points0, 0)) as Hinv.
  simpl in Hinv. destruct Hinv as (Hlen & _ & Hall).
  - split; [reflexivity|]. split; [lra|]. intros i Hi. lia.
  - intros k [points theta] Hk (Hlen & Htheta & Hall). cbn [fst snd] in *.
    rewrite length_insert. split; [exact Hlen|]. split.
    + rewrite Htheta. destruct k; [simpl; lra | lra].
    + intros i Hi Hi'. destruct (decide (i = k)) as [->|Hne].
      * rewrite list_lookup_insert_eq by lia. rewrite Htheta. reflexivity.
      * rewrite list_lookup_insert_ne by lia. apply Hall; lia.
  - split; [exact Hlen | exact Hall].
Qed.

Lemma cone_faces_spec sides top_pdx bot_pdx quads0 :
  length quads0 = (2 * sides)%nat →
  let quads := cone_faces sides top_pdx bot_pdx quads0 in
  length quads = (2 * sides)%nat ∧
  ∀ i, (i < sides)%nat →
       quads !! i = Some (top_pdx, i, (S i mod sides)%nat, None) ∧
       quads !! (sides + i)%nat = Some (bot_pdx, (S i mod sides)%nat, i, None).
Proof.
  intros Hlen0. cbv zeta. unfold cone_faces.
  pose proof (foldl_seq_invariant
    (λ k (quads : list Vec4I),
       length quads = (2 * sides)%nat ∧
       ∀ i, (i < k)%nat →
            quads !! i = Some (top_pdx, i, (S i mod sides)%nat, None) ∧
            quads !! (sides + i)%nat = Some (bot_pdx, (S i mod sides)%nat, i, None))
    (λ quads i,
       let d := i in
       let d1 := if bool_decide (i = sides - 1)%nat then 0%nat else (i + 1)%nat in
       let quads := <[i := (top_pdx, d, d1, None)]> quads in
       <[(sides + i)%nat := (bot_pdx, d1, d, None)]> quads)
    sides 0%nat quads0) as Hinv.
  simpl in Hinv. apply Hinv; clear Hinv.
  - split; [exact Hlen0|]. intros i Hi. lia.
  - intros k quads Hk (Hlen & Hall). rewrite !length_insert. split; [exact Hlen|].
    rewrite next_column by lia.
    intros i Hi. destruct (decide (i = k)) as [->|Hne].
    + split.
      * rewrite list_lookup_insert_ne by lia.
        rewrite list_lookup_insert_eq by lia. reflexivity.
      * rewrite list_lookup_insert_eq by (rewrite length_insert; lia). reflexivity.
    + rewrite !list_lookup_insert_ne by lia. apply Hall. lia.
Qed.

Lemma cone_mesh_closed_form (sides : nat) (radius len : R) (i : nat) :
  (i < sides)%nat →
  let points := (cone_mesh sides radius len).1 in
  let quads := (cone_mesh sides radius len).2 in
  length points = (sides + 2)%nat ∧ length quads = (2 * sides)%nat ∧
  points !! i = Some (rim sides radius i (- (len / 2))) ∧
  points !! sides = Some (mkVec3 0 0 (len / 2)) ∧
  points !! (sides + 1)%nat = Some (mkVec3 0 0 (- (len / 2))) ∧
  quads !! i = Some (sides, i, (S i mod sides)%nat, None) ∧
  quads !! (sides + i)%nat = Some ((sides + 1)%nat, (S i mod sides)%nat, i, None) ∧
  (S i mod sides < sides)%nat.
Proof.
  intros Hi. cbv zeta. unfold cone_mesh. cbn [fst snd].
  destruct (cone_vertices_spec sides radius (len / 2) (2 * PI / INR sides)
              (replicate (sides + 2) V3.zero)) as [Hlen Hrim].
  rewrite length_replicate in Hlen, Hrim.
  destruct (cone_faces_spec sides sides (sides + 1)
              (replicate (2 * sides) (0%nat, 0%nat, 0%nat, None)))
    as [Hqlen Hfaces]; [apply length_replicate|].
  rewrite !length_insert.
  split; [exact Hlen|]. split; [exact Hqlen|]. split.
  { rewrite !list_lookup_insert_ne by lia. apply Hrim; lia. }
  split.
  { rewrite list_lookup_insert_ne by lia. apply list_lookup_insert_eq. lia. }
  split.
  { apply list_lookup_insert_eq. rewrite length_insert. lia. }
  split; [apply Hfaces, Hi|]. split; [apply Hfaces, Hi|].
  apply Nat.mod_upper_bound. lia.
Qed.

(** X16.  The mesh built for a cone with a given number of sides: [sides]
    rim vertices on the circle of the cone's radius at the height of the
    base, in the order of increasing angle, followed by the apex and the
    centre of the base; one wall triangle per side from the apex over two
    neighbouring rim vertices, and one base triangle per side from the
    centre over the same two vertices in the opposite order, the last side
    closing the circle.  Every index of a face is the index of a point. *)
Theorem cone_mesh_spec (sides : nat) (radius len : R) (i : nat) :
  (i < sides)%nat →
  let points := (cone_mesh sides radius len).1 in
  let quads := (cone_mesh sides radius len).2 in
  length points = (sides + 2)%nat ∧ length quads = (2 * sides)%nat ∧
  points !! i = Some (rim sides radius i (- (len / 2))) ∧
  points !! sides = Some (mkVec3 0 0 (len / 2)) ∧
  points !! (sides + 1)%nat = Some (mkVec3 0 0 (- (len / 2))) ∧
  quads !! i = Some (sides, i, (S i mod sides)%nat, None) ∧
  quads !! (sides + i)%nat = Some ((sides + 1)%nat, (S i mod sides)%nat, i, None) ∧
  (S i mod sides < sides)%nat.
Proof. apply cone_mesh_closed_form. Qed.

Lemma cone_mesh_spec_witness :
  (3 < 4)%nat ∧
  let points := (cone_mesh 4 1 2).1 in
  let quads := (cone_mesh 4 1 2).2 in
  length points = (4 + 2)%nat ∧ length quads = (2 * 4)%nat ∧
  points !! 3%nat = Some (rim 4 1 3 (- (2 / 2))) ∧
  points !! 4%nat = Some (mkVec3 0 0 (2 / 2)) ∧
  points !! (4 + 1)%nat = Some (mkVec3 0 0 (- (2 / 2))) ∧
  quads !! 3%nat = Some (4%nat, 3%nat, (4 mod 4)%nat, None) ∧
  quads !! (4 + 3)%nat = Some ((4 + 1)%nat, (4 mod 4)%nat, 3%nat, None) ∧
  (4 mod 4 < 4)%nat.
Proof.
  assert (Hi : (3 < 4)%nat) by lia.
  split; [exact Hi|]. exact (cone_mesh_spec 4 1 2 3 Hi).
Defined.


Lemma even_mod i : bool_decide (i mod 2 = 0)%nat = Nat.even i.
Proof.
  destruct (Nat.even i) eqn:He.
  - apply Nat.even_spec in He as [m ->]. apply bool_decide_eq_true.
    rewrite Nat.mul_comm. apply Nat.Div0.mod_mul.
  - apply bool_decide_eq_false. intros Hm.
    assert (Ho : Nat.odd i = true) by (rewrite <- Nat.negb_even, He; reflexivity).
    apply Nat.odd_spec in Ho as [m ->].
    rewrite Nat.add_comm, (Nat.mul_comm 2 m), Nat.Div0.mod_add in Hm. discriminate.
Qed.

Lemma even_next i : Nat.even (S i) = negb (Nat.even i).
Proof. rewrite Nat.even_succ, <- Nat.negb_even. reflexivity. Qed.

Lemma upper_lower_range i : (2 * i <= upper i <= 2 * i + 1)%nat ∧ (2 * i <= lower i <= 2 * i + 1)%nat
                            ∧ upper i ≠ lower i.
Proof. unfold upper, lower. destruct (Nat.even i); lia. Qed.

Lemma cylinder_vertices_spec sides radius dh dtheta points0 :
  let r := cylinder_vertices sides radius dh dtheta points0 in
  length r.1.1 = length points0 ∧
  ∀ i, (i < sides)%nat → (2 * i + 1 < length points0)%nat →
       r.1.1 !! upper i = Some (mkVec3 (radius * cos (INR i * dtheta))
                                       (radius * sin (INR i * dtheta)) dh) ∧
       r.1.1 !! lower i = Some (mkVec3 (radius * cos (INR i * dtheta))
                                       (radius * sin (INR i * dtheta)) (- dh)).
Proof.
  cbv zeta. unfold cylinder_vertices.
  pose proof (foldl_seq_invariant
    (λ k (st : list Vec3 * R * Z),
       length st.1.1 = length points0 ∧ st.1.2 = INR k * dtheta ∧
       st.2 = (if Nat.even k then 1 else -1)%Z ∧
       ∀ i, (i < k)%nat → (2 * i + 1 < length points0)%nat →
            st.1.1 !! upper i = Some (mkVec3 (radius * cos (INR i * dtheta))
                                             (radius * sin (INR i * dtheta)) dh) ∧
            st.1.1 !! lower i = Some (mkVec3 (radius * cos (INR i * dtheta))
                                             (radius * sin (INR i * dtheta)) (- dh)))
    (λ '(points, theta, sign) i,
       let x := radius * cos theta in
       let y := radius * sin theta in
       let points := <[(2 * i)%nat := mkVec3 x y (IZR sign * dh)]> points in
       let points := <[(2 * i + 1)%nat := mkVec3 x y (- IZR sign * dh)]> points in
       (points, theta + dtheta, (-1 * sign)%Z))
    sides 0%nat (points0, 0, 1%Z)) as Hinv.
  cbn [fst snd Nat.add] in Hinv. destruct Hinv as (Hlen & _ & _ & Hall).
  - split; [reflexivity|]. split; [simpl; lra|]. split; [reflexivity|]. intros i Hi. lia.
  - intros k [[points theta] sign] Hk (Hlen & Htheta & Hsign & Hall). cbn [fst snd] in *.
    rewrite !length_insert. split; [exact Hlen|]. split.
    { rewrite Htheta, S_INR. ring. }
    split.
    { rewrite even_next, Hsign. destruct (Nat.even k); reflexivity. }
    intros i Hi Hi'. destruct (decide (i = k)) as [->|Hne].
    + rewrite Htheta, Hsign. unfold upper, lower. destruct (Nat.even k).
      * split.
        -- rewrite list_lookup_insert_ne by lia.
           rewrite list_lookup_insert_eq by lia. do 2 f_equal. lra.
        -- rewrite list_lookup_insert_eq by (rewrite length_insert; lia).
           do 2 f_equal. lra.
      * split.
        -- rewrite list_lookup_insert_eq by (rewrite length_insert; lia).
           do 2 f_equal. lra.
        -- rewrite list_lookup_insert_ne by lia.
           rewrite list_lookup_insert_eq by lia. do 2 f_equal. lra.
    + pose proof (upper_lower_range i) as (Hu & Hl & _).
      rewrite !list_lookup_insert_ne by lia. apply Hall; lia.
  - split; [exact Hlen | exact Hall].
Qed.

(** The wall quad of column [i] of the cylinder. *)
Lemma cylinder_faces_spec sides top_pdx bot_pdx quads0 :
  length quads0 = (3 * sides)%nat →
  let quads := cylinder_faces sides top_pdx bot_pdx quads0 in
  length quads = (3 * sides)%nat ∧
  ∀ i, (i < sides)%nat →
       let j := (S i mod sides)%nat in
       quads !! i = Some (if Nat.even i
                          then (upper i, lower i, lower j, Some (upper j))
                          else (lower j, upper j, upper i, Some (lower i))) ∧
       quads !! (sides + i)%nat = Some (top_pdx, upper i, upper j, None) ∧
       quads !! (2 * sides + i)%nat = Some (bot_pdx, lower i, lower j, None).
Proof.
  intros Hlen0. cbv zeta. unfold cylinder_faces.
  pose proof (foldl_seq_invariant
    (λ k (quads : list Vec4I),
       length quads = (3 * sides)%nat ∧
       ∀ i, (i < k)%nat →
            quads !! i = Some (if Nat.even i
                               then (upper i, lower i, lower (S i mod sides),
                                     Some (upper (S i mod sides)))
                               else (lower (S i mod sides), upper (S i mod sides),
                                     upper i, Some (lower i))) ∧
            quads !! (sides + i)%nat = Some (top_pdx, upper i, upper (S i mod sides), None) ∧
            quads !! (2 * sides + i)%nat
              = Some (bot_pdx, lower i, lower (S i mod sides), None))
    (λ quads i,
       let d := (i * 2)%nat in
       let d1 := (d + 1)%nat in
       let d2 := (d + 2)%nat in
       let d3 := (d + 3)%nat in
       let last := bool_decide (i = sides - 1)%nat in
       if bool_decide (i mod 2 = 0)%nat then
         let d2 := if last then 1%nat else d2 in
         let d3 := if last then 0%nat else d3 in
         let quads := <[i := (d, d1, d2, Some d3)]> quads in
         let quads := <[(sides + i)%nat := (top_pdx, d, d3, None)]> quads in
         <[(2 * sides + i)%nat := (bot_pdx, d1, d2, None)]> quads
       else
         let d2 := if last then 0%nat else d2 in
         let d3 := if last then 1%nat else d3 in
         let quads := <[i := (d3, d2, d1, Some d)]> quads in
         let quads := <[(sides + i)%nat := (top_pdx, d1, d2, None)]> quads in
         <[(2 * sides + i)%nat := (bot_pdx, d, d3, None)]> quads)
    sides 0%nat quads0) as Hinv.
  cbn [Nat.add] in Hinv. apply Hinv; clear Hinv.
  - split; [exact Hlen0|]. intros i Hi. lia.
  - intros k quads Hk (Hlen & Hall). cbv zeta.
    assert (Hnext : upper (S k mod sides)
                    = (if Nat.even k
                       then if bool_decide (k = sides - 1)%nat then 0 else k * 2 + 3
                       else if bool_decide (k = sides - 1)%nat then 0 else k * 2 + 2)%nat ∧
                    lower (S k mod sides)
                    = (if Nat.even k
                       then if bool_decide (k = sides - 1)%nat then 1 else k * 2 + 2
                       else if bool_decide (k = sides - 1)%nat then 1 else k * 2 + 3)%nat).
    { rewrite <- (next_column sides k) by lia. case_bool_decide as Hlast.
      - unfold upper, lower. simpl. destruct (Nat.even k); auto.
      - unfold upper, lower. replace (k + 1)%nat with (S k) by lia. rewrite even_next.
        destruct (Nat.even k); simpl; lia. }
    destruct Hnext as [Hu Hl].
    assert (Hhere : (k * 2)%nat = (if Nat.even k then upper k else lower k) ∧
                    (k * 2 + 1)%nat = (if Nat.even k then lower k else upper k)).
    { unfold upper, lower. destruct (Nat.even k); lia. }
    destruct Hhere as [Hd Hd1].
    rewrite even_mod.
    assert (Hstep : ∀ w t b,
              let quads' := <[(2 * sides + k)%nat := b]>
                              (<[(sides + k)%nat := t]> (<[k := w]> quads)) in
              length quads' = (3 * sides)%nat ∧
              quads' !! k = Some w ∧ quads' !! (sides + k)%nat = Some t ∧
              quads' !! (2 * sides + k)%nat = Some b ∧
              ∀ i, (i < k)%nat → quads' !! i = quads !! i ∧
                                  quads' !! (sides + i)%nat = quads !! (sides + i)%nat ∧
                                  quads' !! (2 * sides + i)%nat = quads !! (2 * sides + i)%nat).
    { intros w t b. cbv zeta. rewrite !length_insert. split; [exact Hlen|].
      split; [rewrite !list_lookup_insert_ne by lia; apply list_lookup_insert_eq; lia|].
      split; [rewrite list_lookup_insert_ne by lia; apply list_lookup_insert_eq;
              rewrite length_insert; lia|].
      split; [apply list_lookup_insert_eq; rewrite !length_insert; lia|].
      intros i Hi. rewrite !list_lookup_insert_ne by lia. auto. }
    destruct (Nat.even k) eqn:Heven.
    + destruct (Hstep (k * 2, k * 2 + 1,
                       if bool_decide (k = sides - 1) then 1 else k * 2 + 2,
                       Some (if bool_decide (k = sides - 1) then 0 else k * 2 + 3))%nat
                      (top_pdx, k * 2, if bool_decide (k = sides - 1) then 0 else k * 2 + 3,
                       None)%nat
                      (bot_pdx, k * 2 + 1,
                       if bool_decide (k = sides - 1) then 1 else k * 2 + 2, None)%nat)
        as (Hlen' & Hw & Ht & Hb & Hold).
      split; [exact Hlen'|]. intros i Hi. destruct (decide (i = k)) as [->|Hne].
      * rewrite Hw, Ht, Hb, Heven, Hu, Hl, <- Hd, <- Hd1. auto.
      * destruct (Hold i) as (-> & -> & ->); [lia|]. apply Hall. lia.
    + destruct (Hstep (if bool_decide (k = sides - 1) then 1 else k * 2 + 3,
                       if bool_decide (k = sides - 1) then 0 else k * 2 + 2,
                       k * 2 + 1, Some (k * 2))%nat
                      (top_pdx, k * 2 + 1,
                       if bool_decide (k = sides - 1) then 0 else k * 2 + 2, None)%nat
                      (bot_pdx, k * 2, if bool_decide (k = sides - 1) then 1 else k * 2 + 3,
                       None)%nat)
        as (Hlen' & Hw & Ht & Hb & Hold).
      split; [exact Hlen'|]. intros i Hi. destruct (decide (i = k)) as [->|Hne].
      * rewrite Hw, Ht, Hb, Heven, Hu, Hl, <- Hd, <- Hd1. auto.
      * destruct (Hold i) as (-> & -> & ->); [lia|]. apply Hall. lia.
Qed.

Lemma cylinder_mesh_closed_form (sides : nat) (radius len : R) (i : nat) :
  (i < sides)%nat →
  let points := (cylinder_mesh sides radius len).1 in
  let quads := (cylinder_mesh sides radius len).2 in
  let j := (S i mod sides)%nat in
  length points = (2 * sides + 2)%nat ∧ length quads = (3 * sides)%nat ∧
  points !! upper i = Some (rim sides radius i (len / 2)) ∧
  points !! lower i = Some (rim sides radius i (- (len / 2))) ∧
  points !! (2 * sides)%nat = Some (mkVec3 0 0 (len / 2)) ∧
  points !! (2 * sides + 1)%nat = Some (mkVec3 0 0 (- (len / 2))) ∧
  quads !! i = Some (if Nat.even i
                     then (upper i, lower i, lower j, Some (upper j))
                     else (lower j, upper j, upper i, Some (lower i))) ∧
  quads !! (sides + i)%nat = Some ((2 * sides)%nat, upper i, upper j, None) ∧
  quads !! (2 * sides + i)%nat = Some ((2 * sides + 1)%nat, lower i, lower j, None) ∧
  (j < sides)%nat.
Proof.
  intros Hi. cbv zeta. unfold cylinder_mesh. cbn [fst snd].
  destruct (cylinder_vertices_spec sides radius (len / 2) (2 * PI / INR sides)
              (replicate (2 * (sides + 1)) V3.zero)) as [Hlen Hrim].
  rewrite length_replicate in Hlen, Hrim.
  destruct (cylinder_faces_spec sides (2 * sides) (2 * sides + 1)
              (replicate (3 * sides) (0%nat, 0%nat, 0%nat, None)))
    as [Hqlen Hfaces]; [apply length_replicate|].
  pose proof (upper_lower_range i) as (Hu & Hl & _).
  destruct (Hrim i) as [Hup Hlow]; [lia | lia |].
  rewrite !length_insert.
  split; [lia|]. split; [exact Hqlen|]. split.
  { rewrite !list_lookup_insert_ne by lia. exact Hup. }
  split.
  { rewrite !list_lookup_insert_ne by lia. exact Hlow. }
  split.
  { rewrite list_lookup_insert_ne by lia. apply list_lookup_insert_eq. lia. }
  split.
  { apply list_lookup_insert_eq. rewrite length_insert. lia. }
  destruct (Hfaces i Hi) as (Hw & Ht & Hb).
  split; [exact Hw|]. split; [exact Ht|]. split; [exact Hb|].
  apply Nat.mod_upper_bound. lia.
Qed.

(** X17.  The mesh built for a cylinder with a given number of sides.  Each
    column [i] has an upper and a lower rim vertex, on the circle of the
    cylinder's radius at plus and minus half the length; the code stores
    them in alternating order (upper first in even columns, lower first in
    odd ones), followed by the two cap centres.  Every wall quad joins the
    two vertices of a column to those of the next column, every top-cap
    triangle has its three vertices at the upper height and every
    bottom-cap triangle at the lower one, the last column closing the
    circle whether the number of sides is even or odd. *)
Theorem cylinder_mesh_spec (sides : nat) (radius len : R) (i : nat) :
  (i < sides)%nat →
  let points := (cylinder_mesh sides radius len).1 in
  let quads := (cylinder_mesh sides radius len).2 in
  let j := (S i mod sides)%nat in
  length points = (2 * sides + 2)%nat ∧ length quads = (3 * sides)%nat ∧
  points !! upper i = Some (rim sides radius i (len / 2)) ∧
  points !! lower i = Some (rim sides radius i (- (len / 2))) ∧
  points !! (2 * sides)%nat = Some (mkVec3 0 0 (len / 2)) ∧
  points !! (2 * sides + 1)%nat = Some (mkVec3 0 0 (- (len / 2))) ∧
  quads !! i = Some (if Nat.even i
                     then (upper i, lower i, lower j, Some (upper j))
                     else (lower j, upper j, upper i, Some (lower i))) ∧
  quads !! (sides + i)%nat = Some ((2 * sides)%nat, upper i, upper j, None) ∧
  quads !! (2 * sides + i)%nat = Some ((2 * sides + 1)%nat, lower i, lower j, None) ∧
  (j < sides)%nat.
Proof. apply cylinder_mesh_closed_form. Qed.

Lemma cylinder_mesh_spec_witness :
  (2 < 3)%nat ∧
  let points := (cylinder_mesh 3 1 2).1 in
  let quads := (cylinder_mesh 3 1 2).2 in
  let j := (3 mod 3)%nat in
  length points = (2 * 3 + 2)%nat ∧ length quads = (3 * 3)%nat ∧
  points !! upper 2 = Some (rim 3 1 2 (2 / 2)) ∧
  points !! lower 2 = Some (rim 3 1 2 (- (2 / 2))) ∧
  points !! (2 * 3)%nat = Some (mkVec3 0 0 (2 / 2)) ∧
  points !! (2 * 3 + 1)%nat = Some (mkVec3 0 0 (- (2 / 2))) ∧
  quads !! 2%nat = Some (if Nat.even 2
                         then (upper 2, lower 2, lower j, Some (upper j))
                         else (lower j, upper j, upper 2, Some (lower 2))) ∧
  quads !! (3 + 2)%nat = Some ((2 * 3)%nat, upper 2, upper j, None) ∧
  quads !! (2 * 3 + 2)%nat = Some ((2 * 3 + 1)%nat, lower 2, lower j, None) ∧
  (j < 3)%nat.
Proof.
  assert (Hi : (2 < 3)%nat) by lia.
  split; [exact Hi|]. exact (cylinder_mesh_spec 3 1 2 2 Hi).
Defined.



(** *** The spacing of the rim *)

Lemma sin_sq_le y : sin y * sin y <= y * y.
Proof.
  assert (Hpos : ∀ x, 0 <= x → sin x * sin x <= x * x).
  { intros x Hx.
    assert (Hup : sin x <= x).
    { destruct (Req_dec x 0) as [->|Hnz]; [rewrite sin_0; lra|].
      apply Rlt_le, sin_lt_x. lra. }
    assert (Hlow : - x <= sin x).
    { destruct (Rle_dec x PI) as [Hle|Hgt].
      - pose proof (sin_ge_0 x Hx Hle). lra.
      - pose proof (SIN_bound x). pose proof PI2_1. lra. }
    nra. }
  destruct (Rle_dec 0 y) as [Hy|Hy]; [apply Hpos, Hy|].
  replace (sin y * sin y) with (sin (- y) * sin (- y)) by (rewrite sin_neg; ring).
  replace (y * y) with (- y * - y) by ring. apply Hpos. lra.
Qed.

Lemma one_minus_cos x : 2 - 2 * cos x <= x * x.
Proof.
  replace x with (2 * (x / 2)) at 1 by field. rewrite cos_2a_sin.
  pose proof (sin_sq_le (x / 2)). nra.
Qed.

Lemma ceil_ge x : x <= IZR (ceil x).
Proof.
  unfold ceil. rewrite opp_IZR. destruct (base_Int_part (- x)) as [Hle _]. lra.
Qed.

(** Two rim vertices at the same height, [delta] apart in angle up to a
    full turn, are at most [radius * delta] apart. *)
Lemma chord_le sides radius i j z delta :
  0 <= radius → 0 <= delta →
  cos (INR i * (2 * PI / INR sides) - INR j * (2 * PI / INR sides)) = cos delta →
  distance (rim sides radius i z) (rim sides radius j z) <= radius * delta.
Proof.
  intros Hr Hd Hcos. unfold distance, V3.norm, rim.
  set (a := INR i * (2 * PI / INR sides)) in *.
  set (b := INR j * (2 * PI / INR sides)) in *.
  assert (Ha : sin a * sin a + cos a * cos a = 1)
    by (pose proof (sin2_cos2 a) as Hs; unfold Rsqr in Hs; exact Hs).
  assert (Hb : sin b * sin b + cos b * cos b = 1)
    by (pose proof (sin2_cos2 b) as Hs; unfold Rsqr in Hs; exact Hs).
  assert (Hsq : V3.squaredNorm
                  (V3.add (mkVec3 (radius * cos a) (radius * sin a) z)
                          (V3.scale (mkVec3 (radius * cos b) (radius * sin b) z) (-1)))
                = radius * radius * (2 - 2 * cos delta)).
  { rewrite <- Hcos, cos_minus. unfold V3.squaredNorm, V3.add, V3.scale. cbn [vx vy vz].
    transitivity (radius * radius *
                  ((sin a * sin a + cos a * cos a) + (sin b * sin b + cos b * cos b)
                   - 2 * (cos a * cos b + sin a * sin b))); [ring|].
    rewrite Ha, Hb. ring. }
  rewrite Hsq.
  rewrite <- (sqrt_square (radius * delta)) by nra.
  apply sqrt_le_1_alt. pose proof (one_minus_cos delta). nra.
Qed.

Lemma neighbour_angle sides i :
  (i < sides)%nat →
  cos (INR i * (2 * PI / INR sides) - INR (S i mod sides) * (2 * PI / INR sides))
  = cos (2 * PI / INR sides).
Proof.
  intros Hi. rewrite <- next_column by exact Hi.
  assert (Hn : INR sides ≠ 0) by (apply not_0_INR; lia).
  case_bool_decide as Hlast.
  - replace (INR i) with (INR sides - 1).
    + replace ((INR sides - 1) * (2 * PI / INR sides) - INR 0 * (2 * PI / INR sides))
        with (- (2 * PI / INR sides) + 2 * INR 1 * PI) by (simpl; field; exact Hn).
      rewrite cos_period. apply cos_neg.
    + rewrite Hlast, minus_INR by lia. reflexivity.
  - replace (INR i * (2 * PI / INR sides) - INR (i + 1) * (2 * PI / INR sides))
      with (- (2 * PI / INR sides)) by (rewrite plus_INR; simpl; field; exact Hn).
    apply cos_neg.
Qed.

Lemma sides_cover voxel_size radius sides :
  0 < voxel_size → 0 < radius →
  Z.of_nat sides = tessellation_sides voxel_size radius →
  (1 <= sides)%nat ∧ radius * (2 * PI / INR sides) <= voxel_size.
Proof.
  intros Hv Hr Hsides.
  pose proof (ceil_ge (2 * PI / (voxel_size / radius))) as Hceil.
  unfold tessellation_sides in Hsides. rewrite <- Hsides, <- INR_IZR_INZ in Hceil.
  pose proof PI_RGT_0 as Hpi.
  assert (Hx : 2 * PI / (voxel_size / radius) = 2 * PI * radius / voxel_size)
    by (field; lra).
  rewrite Hx in Hceil.
  assert (Hpos : 0 < 2 * PI * radius / voxel_size).
  { apply Rdiv_lt_0_compat; [|exact Hv]. nra. }
  assert (Hn : 0 < INR sides) by lra.
  assert (Hs : (1 <= sides)%nat).
  { destruct sides; [simpl in Hn; lra | lia]. }
  split; [exact Hs|].
  assert (Hmul : 2 * PI * radius <= voxel_size * INR sides).
  { apply (Rmult_le_compat_l voxel_size) in Hceil; [|lra].
    replace (voxel_size * (2 * PI * radius / voxel_size)) with (2 * PI * radius) in Hceil
      by (field; lra).
    exact Hceil. }
  replace (radius * (2 * PI / INR sides)) with (2 * PI * radius / INR sides)
    by (field; lra).
  apply (Rmult_le_reg_r (INR sides)); [exact Hn|].
  replace (2 * PI * radius / INR sides * INR sides) with (2 * PI * radius) by (field; lra).
  exact Hmul.
Qed.

(** X18.  The number of sides is chosen so that the rim is sampled at least
    once per voxel.  For a positive voxel size and radius, with the number
    of sides that [addShapeToField] computes, there is at least one side,
    and two rim vertices that a face joins along the rim (vertex [i] and
    its neighbour, on the base of the cone and on either cap of the
    cylinder) are at most one voxel size apart. *)
Theorem rim_spacing (voxel_size radius len : R) (sides : nat) :
  0 < voxel_size → 0 < radius →
  Z.of_nat sides = tessellation_sides voxel_size radius →
  (1 <= sides)%nat ∧
  ∀ i, (i < sides)%nat →
    let j := (S i mod sides)%nat in
    let cone := (cone_mesh sides radius len).1 in
    let cylinder := (cylinder_mesh sides radius len).1 in
    (∃ p q, cone !! i = Some p ∧ cone !! j = Some q ∧ distance p q <= voxel_size) ∧
    (∃ p q, cylinder !! upper i = Some p ∧ cylinder !! upper j = Some q ∧
            distance p q <= voxel_size) ∧
    (∃ p q, cylinder !! lower i = Some p ∧ cylinder !! lower j = Some q ∧
            distance p q <= voxel_size).
Proof.
  intros Hv Hr Hsides.
  destruct (sides_cover _ _ _ Hv Hr Hsides) as [Hone Hcover].
  split; [exact Hone|]. intros i Hi. cbv zeta.
  assert (Hj : (S i mod sides < sides)%nat) by (apply Nat.mod_upper_bound; lia).
  pose proof PI_RGT_0 as Hpi.
  assert (Hn : 0 < INR sides) by (apply lt_0_INR; lia).
  assert (Hdelta : 0 <= 2 * PI / INR sides).
  { apply Rlt_le, Rdiv_lt_0_compat; lra. }
  assert (Hchord : ∀ z, distance (rim sides radius i z) (rim sides radius (S i mod sides) z)
                        <= voxel_size).
  { intros z. eapply Rle_trans; [|exact Hcover].
    apply chord_le; [lra | exact Hdelta | apply neighbour_angle, Hi]. }
  destruct (cone_mesh_closed_form sides radius len i Hi) as (_ & _ & Hci & _).
  destruct (cone_mesh_closed_form sides radius len _ Hj) as (_ & _ & Hcj & _).
  destruct (cylinder_mesh_closed_form sides radius len i Hi) as (_ & _ & Hui & Hli & _).
  destruct (cylinder_mesh_closed_form sides radius len _ Hj) as (_ & _ & Huj & Hlj & _).
  split; [|split]; eexists _, _; (split; [eassumption|]); (split; [eassumption|]);
    apply Hchord.
Qed.

Lemma rim_spacing_witness :
  0 < 2 ∧ 0 < 1 ∧ Z.of_nat 4 = tessellation_sides 2 1 ∧
  (1 <= 4)%nat ∧
  ∀ i, (i < 4)%nat →
    let j := (S i mod 4)%nat in
    let cone := (cone_mesh 4 1 2).1 in
    let cylinder := (cylinder_mesh 4 1 2).1 in
    (∃ p q, cone !! i = Some p ∧ cone !! j = Some q ∧ distance p q <= 2) ∧
    (∃ p q, cylinder !! upper i = Some p ∧ cylinder !! upper j = Some q ∧
            distance p q <= 2) ∧
    (∃ p q, cylinder !! lower i = Some p ∧ cylinder !! lower j = Some q ∧
            distance p q <= 2).
Proof.
  assert (Hv : 0 < 2) by lra.
  assert (Hr : 0 < 1) by lra.
  assert (Hsides : Z.of_nat 4 = tessellation_sides 2 1).
  { unfold tessellation_sides, ceil.
    assert (Hpart : (-4)%Z = Int_part (- (2 * PI / (2 / 1)))).
    { apply Int_part_spec. pose proof PI2_3_2. pose proof PI_4. simpl. lra. }
    rewrite <- Hpart. reflexivity. }
  split; [exact Hv|]. split; [exact Hr|]. split; [exact Hsides|].
  exact (rim_spacing 2 1 2 4 Hv Hr Hsides).
Defined.
End TessellationFacts.

(** ** The conversion of a triangle mesh *)

Module MeshFacts.
Import ConstructionFacts Tessellation MeshConversion.

Lemma for_each_seq_total {St} (P : nat → St → Prop) (body : St → nat → result St) :
  ∀ n a s,
    (∀ i s, a <= i < a + n → P i s → ∃ s', body s i = Ok s' ∧ P (S i) s') →
    P a s → ∃ s', for_each body (seq a n) s = Ok s' ∧ P (a + n) s'.
Proof.
  induction n as [|n IH]; intros a s Hbody Hs; simpl.
  - exists s. rewrite Nat.add_0_r. auto.
  - destruct (Hbody a s) as (s1 & -> & Hs1); [lia | exact Hs |]. rewrite bind_of_Ok.
    replace (a + S n) with (S a + n) by lia. apply IH; [|exact Hs1].
    intros i t Hi. apply Hbody. lia.
Qed.

Lemma wrap32_small n : (Z.of_nat n < 2 ^ 32)%Z → wrap32 n = n.
Proof. intros Hn. unfold wrap32. rewrite Z.mod_small by lia. apply Nat2Z.id. Qed.

Lemma store_Ok {A} (v : list A) i a v' :
  store v i a = Ok v' ↔ i < length v ∧ v' = <[i := a]> v.
Proof.
  unfold store. case_decide; split.
  - intros [= <-]. auto.
  - intros [_ ->]. reflexivity.
  - discriminate.
  - intros [Hi _]. contradiction.
Qed.

Lemma store_in_range {A} (v : list A) i a : i < length v → store v i a = Ok (<[i := a]> v).
Proof. intros Hi. apply store_Ok. auto. Qed.

Lemma at_index_nth (v : list R) i : i < length v → at_index v i = Ok (nth i v 0%R).
Proof.
  intros Hi. destruct (lookup_lt_is_Some_2 v i Hi) as [x Hx].
  rewrite nth_lookup, Hx. apply at_index_Ok, Hx.
Qed.

Section Conversion.
Variables (fresh_point : Vec3) (vertex_count triangle_count : nat).
Variables (mesh_vertices : list R) (mesh_triangles : list nat) (pose : Affine3d).
Hypothesis Hsized : mesh_sized vertex_count triangle_count mesh_vertices mesh_triangles.

Local Abbreviation tf := (Affine3dToMat4d pose).
Local Abbreviation converted :=
  (MeshConversion.converted fresh_point vertex_count triangle_count mesh_vertices
                            mesh_triangles pose).

Lemma vertex_at_in_range v :
  v < vertex_count → vertex_at mesh_vertices v = Ok (mesh_vertex mesh_vertices v).
Proof.
  destruct Hsized as (Hv & _ & Hvc & _). intros Hlt. unfold vertex_at.
  rewrite !wrap32_small by lia.
  rewrite !at_index_nth by lia. rewrite !bind_of_Ok.
  unfold mesh_vertex. replace (v * 3) with (3 * v) by lia. reflexivity.
Qed.

Lemma convert_triangle_spec output i output' :
  i < triangle_count → converted i output →
  convert_triangle mesh_vertices mesh_triangles tf output i = Ok output' →
  converted (S i) output'.
Proof.
  destruct Hsized as (Hv & Ht & Hvc & Htc).
  intros Hi (Hpl & Htl & Hql & Hrange & Hfaces & Hpoints). unfold convert_triangle.
  rewrite !wrap32_small by (rewrite ?wrap32_small by lia; lia).
  intros (v1 & H1%at_index_Ok & (v2 & H2%at_index_Ok & (v3 & H3%at_index_Ok & Hrest)%bind_Ok
          )%bind_Ok)%bind_Ok.
  apply bind_Ok in Hrest as (p1 & Hp1 & Hrest).
  apply bind_Ok in Hrest as (p2 & Hp2 & Hrest).
  apply bind_Ok in Hrest as (p3 & Hp3 & Hrest).
  apply bind_Ok in Hrest as (pts1 & [Hv1 -> ]%store_Ok & Hrest).
  apply bind_Ok in Hrest as (pts2 & [Hv2 -> ]%store_Ok & Hrest).
  apply bind_Ok in Hrest as (pts3 & [Hv3 -> ]%store_Ok & Hrest).
  apply bind_Ok in Hrest as (tri & [Hti -> ]%store_Ok & Hrest).
  apply bind_Ok in Hrest as (qd & [Hqi -> ]%store_Ok & [= <-]).
  rewrite !length_insert in *. rewrite Hpl in Hv1, Hv2, Hv3.
  rewrite (vertex_at_in_range v1 Hv1) in Hp1. injection Hp1 as <-.
  rewrite (vertex_at_in_range v2 Hv2) in Hp2. injection Hp2 as <-.
  rewrite (vertex_at_in_range v3 Hv3) in Hp3. injection Hp3 as <-.
  replace (i * 3) with (3 * i) in * by lia.
  unfold MeshConversion.converted. cbn [points triangles quads]. rewrite !length_insert.
  split; [exact Hpl|]. split; [exact Htl|]. split; [exact Hql|]. split; [|split].
  - intros idx v Hidx Hlook.
    destruct (decide (idx < 3 * i)) as [Hold|Hnew]; [exact (Hrange idx v Hold Hlook)|].
    assert (idx = 3 * i ∨ idx = 3 * i + 1 ∨ idx = 3 * i + 2) as [-> | [-> | ->] ] by lia;
      congruence.
  - intros i' Hi'. destruct (decide (i' = i)) as [->|Hne].
    + exists v1, v2, v3. rewrite !list_lookup_insert_eq by lia. auto.
    + rewrite !list_lookup_insert_ne by lia. apply Hfaces. lia.
  - intros v Hlt.
    assert (Htake : take (3 * S i) mesh_triangles
                    = take (3 * i) mesh_triangles ++ [v1; v2; v3]).
    { replace (3 * S i) with (S (S (S (3 * i)))) by lia.
      rewrite (take_S_r _ _ v3) by (replace (S (S (3 * i))) with (3 * i + 2) by lia; exact H3).
      rewrite (take_S_r _ _ v2) by (replace (S (3 * i)) with (3 * i + 1) by lia; exact H2).
      rewrite (take_S_r _ _ v1) by exact H1.
      rewrite <- !app_assoc. reflexivity. }
    rewrite Htake.
    destruct (decide (v = v3)) as [->|Hn3].
    { rewrite list_lookup_insert_eq by (rewrite !length_insert; lia).
      rewrite decide_True by (rewrite elem_of_app, !elem_of_cons; auto). reflexivity. }
    rewrite list_lookup_insert_ne by auto.
    destruct (decide (v = v2)) as [->|Hn2].
    { rewrite list_lookup_insert_eq by (rewrite !length_insert; lia).
      rewrite decide_True by (rewrite elem_of_app, !elem_of_cons; auto). reflexivity. }
    rewrite list_lookup_insert_ne by auto.
    destruct (decide (v = v1)) as [->|Hn1].
    { rewrite list_lookup_insert_eq by lia.
      rewrite decide_True by (rewrite elem_of_app, !elem_of_cons; auto). reflexivity. }
    rewrite list_lookup_insert_ne by auto. rewrite (Hpoints v Hlt).
    destruct (decide (v ∈ take (3 * i) mesh_triangles)) as [Hin|Hout].
    + rewrite decide_True by (rewrite elem_of_app; auto). reflexivity.
    + rewrite decide_False; [reflexivity|].
      rewrite elem_of_app, !elem_of_cons, elem_of_nil. tauto.
Qed.

Lemma convert_triangle_total output i :
  Forall (λ v, v < vertex_count) mesh_triangles →
  i < triangle_count → converted i output →
  ∃ output', convert_triangle mesh_vertices mesh_triangles tf output i = Ok output'.
Proof.
  destruct Hsized as (Hv & Ht & Hvc & Htc).
  intros Hall Hi (Hpl & Htl & Hql & _). unfold convert_triangle.
  rewrite !wrap32_small by (rewrite ?wrap32_small by lia; lia).
  destruct (at_index_lt mesh_triangles (i * 3)) as [v1 H1]; [lia|].
  destruct (at_index_lt mesh_triangles (i * 3 + 1)) as [v2 H2]; [lia|].
  destruct (at_index_lt mesh_triangles (i * 3 + 2)) as [v3 H3]; [lia|].
  rewrite H1, bind_of_Ok, H2, bind_of_Ok, H3, bind_of_Ok.
  pose proof (proj1 (Forall_lookup _ _) Hall) as Hlt.
  assert (Hv1 : v1 < vertex_count) by (eapply Hlt, at_index_Ok, H1).
  assert (Hv2 : v2 < vertex_count) by (eapply Hlt, at_index_Ok, H2).
  assert (Hv3 : v3 < vertex_count) by (eapply Hlt, at_index_Ok, H3).
  rewrite (vertex_at_in_range v1 Hv1), bind_of_Ok, (vertex_at_in_range v2 Hv2), bind_of_Ok,
    (vertex_at_in_range v3 Hv3), bind_of_Ok.
  repeat (rewrite store_in_range by (rewrite ?length_insert; lia); rewrite ?bind_of_Ok).
  eauto.
Qed.

Lemma converted_start :
  converted 0 (mkMeshData (replicate vertex_count fresh_point)
                          (replicate triangle_count (0, 0, 0))
                          (replicate triangle_count (0, 0, 0, None))).
Proof.
  unfold MeshConversion.converted. cbn [points triangles quads]. rewrite !length_replicate.
  split; [reflexivity|]. split; [reflexivity|]. split; [reflexivity|].
  split; [intros; lia|]. split; [intros; lia|].
  intros v Hv. rewrite lookup_replicate_2 by exact Hv.
  rewrite decide_False by (intros Hin; inversion Hin). reflexivity.
Qed.

Lemma ShapeMeshToOpenVDB_converted output :
  ShapeMeshToOpenVDB fresh_point vertex_count triangle_count mesh_vertices mesh_triangles pose
    = Ok output →
  converted triangle_count output.
Proof.
  unfold ShapeMeshToOpenVDB. intros Hrun.
  apply (HelperFacts.for_each_seq_invariant converted) in Hrun.
  - exact Hrun.
  - intros i s s' Hi. apply convert_triangle_spec. lia.
  - apply converted_start.
Qed.

Lemma ShapeMeshToOpenVDB_total :
  Forall (λ v, v < vertex_count) mesh_triangles →
  ∃ output,
    ShapeMeshToOpenVDB fresh_point vertex_count triangle_count mesh_vertices mesh_triangles pose
      = Ok output.
Proof.
  intros Hall. unfold ShapeMeshToOpenVDB.
  destruct (for_each_seq_total converted
              (convert_triangle mesh_vertices mesh_triangles tf) triangle_count 0
              (mkMeshData (replicate vertex_count fresh_point)
                          (replicate triangle_count (0, 0, 0))
                          (replicate triangle_count (0, 0, 0, None))))
    as (output & Hrun & _).
  - intros i s Hi Hs.
    destruct (convert_triangle_total s i Hall) as [s' Hs']; [lia | exact Hs |].
    exists s'. split; [exact Hs'|]. apply (convert_triangle_spec s i s'); [lia | exact Hs | exact Hs'].
  - apply converted_start.
  - eauto.
Qed.

End Conversion.

(** X19.  [ShapeMeshToOpenVDB] on a mesh whose arrays have the announced
    sizes.  The conversion completes exactly when every vertex index used
    by a triangle is below the vertex count (an index beyond it writes
    outside [output.points]).  When it completes, triangle [i] and quad [i]
    list the three vertex indices of triangle [i] of the mesh, the quad
    with [INVALID_IDX] as fourth index, and [output.points] holds, for every
    vertex that some triangle uses, the vertex moved by the pose; a vertex
    that no triangle uses is not converted: its point is whatever [resize]
    left there. *)
Theorem ShapeMeshToOpenVDB_spec fresh_point vertex_count triangle_count mesh_vertices
    mesh_triangles pose :
  mesh_sized vertex_count triangle_count mesh_vertices mesh_triangles →
  ((∃ output,
      ShapeMeshToOpenVDB fresh_point vertex_count triangle_count mesh_vertices mesh_triangles
                         pose = Ok output) ↔
   Forall (λ v, v < vertex_count) mesh_triangles) ∧
  ∀ output,
    ShapeMeshToOpenVDB fresh_point vertex_count triangle_count mesh_vertices mesh_triangles pose
      = Ok output →
    length (points output) = vertex_count ∧
    length (triangles output) = triangle_count ∧
    length (quads output) = triangle_count ∧
    (∀ i, i < triangle_count →
       ∃ v1 v2 v3,
         mesh_triangles !! (3 * i) = Some v1 ∧ mesh_triangles !! (3 * i + 1) = Some v2 ∧
         mesh_triangles !! (3 * i + 2) = Some v3 ∧
         triangles output !! i = Some (v1, v2, v3) ∧
         quads output !! i = Some (v1, v2, v3, None)) ∧
    (∀ v, v < vertex_count →
       points output !! v
       = Some (if decide (v ∈ mesh_triangles)
               then Mat4.apply (Affine3dToMat4d pose) (mesh_vertex mesh_vertices v)
               else fresh_point)).
Proof.
  intros Hsized. split.
  - split.
    + intros [output Hrun].
      destruct (ShapeMeshToOpenVDB_converted _ _ _ _ _ _ Hsized _ Hrun)
        as (_ & _ & _ & Hrange & _).
      apply Forall_lookup. intros i v Hlook. apply (Hrange i v); [|exact Hlook].
      destruct Hsized as (_ & <- & _). eapply lookup_lt_Some, Hlook.
    + apply ShapeMeshToOpenVDB_total, Hsized.
  - intros output Hrun.
    destruct (ShapeMeshToOpenVDB_converted _ _ _ _ _ _ Hsized _ Hrun)
      as (Hpl & Htl & Hql & _ & Hfaces & Hpoints).
    split; [exact Hpl|]. split; [exact Htl|]. split; [exact Hql|]. split; [exact Hfaces|].
    intros v Hv. rewrite (Hpoints v Hv).
    destruct Hsized as (_ & Ht & _). rewrite take_ge by lia. reflexivity.
Qed.

Lemma ShapeMeshToOpenVDB_spec_witness :
  mesh_sized 5 2 kite_vertices kite_triangles ∧
  ((∃ output,
      ShapeMeshToOpenVDB V3.zero 5 2 kite_vertices kite_triangles Mat4.Identity = Ok output) ↔
   Forall (λ v, v < 5) kite_triangles) ∧
  ∀ output,
    ShapeMeshToOpenVDB V3.zero 5 2 kite_vertices kite_triangles Mat4.Identity = Ok output →
    length (points output) = 5 ∧
    length (triangles output) = 2 ∧
    length (quads output) = 2 ∧
    (∀ i, i < 2 →
       ∃ v1 v2 v3,
         kite_triangles !! (3 * i) = Some v1 ∧ kite_triangles !! (3 * i + 1) = Some v2 ∧
         kite_triangles !! (3 * i + 2) = Some v3 ∧
         triangles output !! i = Some (v1, v2, v3) ∧
         quads output !! i = Some (v1, v2, v3, None)) ∧
    (∀ v, v < 5 →
       points output !! v
       = Some (if decide (v ∈ kite_triangles)
               then Mat4.apply (Affine3dToMat4d Mat4.Identity) (mesh_vertex kite_vertices v)
               else V3.zero)).
Proof.
  assert (Hsized : mesh_sized 5 2 kite_vertices kite_triangles).
  { unfold mesh_sized. simpl. lia. }
  split; [exact Hsized|].
  exact (ShapeMeshToOpenVDB_spec V3.zero 5 2 kite_vertices kite_triangles Mat4.Identity Hsized).
Defined.
End MeshFacts.

(** ** Shapes that reach the library call *)

Module ConversionFacts.
Import Tessellation MeshConversion Conversion.

(** A mesh that passes is converted by [ShapeMeshToOpenVDB] without leaving
    a vector. *)
Lemma converts_mesh fresh_point voxel_size vertices triangles pose :
  converts voxel_size (MESH vertices triangles) →
  ∃ vertex_count triangle_count output,
    mesh_sized vertex_count triangle_count vertices triangles ∧
    ShapeMeshToOpenVDB fresh_point vertex_count triangle_count vertices triangles pose
      = Ok output.
Proof.
  intros (vertex_count & triangle_count & Hsized & Hall).
  destruct (MeshFacts.ShapeMeshToOpenVDB_total fresh_point vertex_count triangle_count
              vertices triangles pose Hsized Hall) as [output Hrun].
  exists vertex_count, triangle_count, output. auto.
Qed.

(** A cone or a cylinder that passes is tessellated with a number of sides
    that is at least one. *)
Lemma converts_sides voxel_size shape radius len :
  shape = CONE radius len ∨ shape = CYLINDER radius len →
  converts voxel_size shape →
  ∃ sides : nat, Z.of_nat sides = tessellation_sides voxel_size radius ∧ 1 ≤ sides.
Proof.
  intros [-> | ->]; simpl; intros [Hpos _];
    exists (Z.to_nat (tessellation_sides voxel_size radius)); split; lia.
Qed.
End ConversionFacts.

(** ** What a query evaluates *)

Module QueryInputFacts.
Import Invariants ConstructionFacts EngineFacts QueryInputs.

Section WithLibrary.
Context `{External}.

(** X20.  What a self-distance query evaluates.  On an engine the
    constructor returned, for a request that names a joint group: when
    every static and every dynamic link has a shape of a supported kind,
    the result is that of evaluating, in the order of the active links, each
    stored plan with the link's fitted spheres moved to the link's pose in
    the given state and with the gradient flag of the request, against the
    fields of the active and dynamic links packaged with the transposed
    pose of their link in that state and the fields of the static links
    packaged without a matrix, followed by the closing minimum search; when
    some static or dynamic link has no such shape, no plan is evaluated: the
    call dereferences the null grid of that link's field while it packages
    the fields. *)
Theorem distanceSelf_evaluates m voxel_size background ex inb e req res state :
  create m voxel_size background ex inb = Ok e →
  is_Some (getJointModelGroup (robot_model_ e) (DistanceRequest.group_name req)) →
  (fields_ready m e →
   distanceSelf e req res state =
   (distance ← for_each (evaluatePlan e (query_table e state)) (query_plans e req state)
                        (DistanceResult.distance res);
    index ← selectMinimum (background_ e) distance;
    let '(minimum, distance) := StdMap.subscript fresh_DistanceResultsData index distance in
    Ok (DistanceResult.mk minimum distance))) ∧
  (¬ fields_ready m e → distanceSelf e req res state = Fail NullDereference).
Proof.
  intros Hc Hgroup.
  rewrite (PrepareFacts.distanceSelf_prepared _ _ _ _ _ _ _ _ _ Hc Hgroup).
  pose proof (GridFacts.grids_present_ready _ _ _ _ _ _ Hc) as Hready.
  split; intros Hr.
  - rewrite decide_True by (apply Hready, Hr). reflexivity.
  - rewrite decide_False by (intros Hg; apply Hr, Hready, Hg). reflexivity.
Qed.

End WithLibrary.

Lemma distanceSelf_evaluates_witness :
  let H := Examples.wall_lib in
  let m := Examples.arm_on_pedestal in
  let e := Examples.engine_of m in
  let req := DistanceRequest.mk "arm" true in
  create m 1 10 3 3 = Ok e ∧
  is_Some (getJointModelGroup (robot_model_ e) (DistanceRequest.group_name req)) ∧
  fields_ready m e ∧
  distanceSelf e req Examples.empty_result Examples.still_state =
  (distance ← for_each (evaluatePlan e (query_table e Examples.still_state))
                       (query_plans e req Examples.still_state)
                       (DistanceResult.distance Examples.empty_result);
   index ← selectMinimum (background_ e) distance;
   let '(minimum, distance) := StdMap.subscript fresh_DistanceResultsData index distance in
   Ok (DistanceResult.mk minimum distance)).
Proof.
  intros H m e req.
  assert (Hrun : create m 1 10 3 3 = Ok e) by (vm_compute; reflexivity).
  assert (Hgroup : is_Some (getJointModelGroup (robot_model_ e)
                              (DistanceRequest.group_name req)))
    by (vm_compute; eauto).
  split; [exact Hrun|]. split; [exact Hgroup|].
  split; [exact QueryFacts.arm_on_pedestal_ready|].
  apply (distanceSelf_evaluates (H := Examples.wall_lib) m 1 10 3 3 e req
           Examples.empty_result Examples.still_state Hrun Hgroup).
  exact QueryFacts.arm_on_pedestal_ready.
Defined.
End QueryInputFacts.

(** ** Models on which the constructor completes *)

Module CompletionFacts.
Import Reach Invariants ConstructionFacts EngineFacts Completion.

Lemma filter_shorter (v : list LinkModel) x :
  x ∈ v → length (filter (λ y, y ≠ x) v) < length v.
Proof.
  induction v as [|y v IH]; [intros Hx; inversion Hx|].
  rewrite filter_cons. intros [<-|Hx]%elem_of_cons.
  - rewrite decide_False by auto. simpl.
    pose proof (length_filter (λ y, y ≠ x) v). lia.
  - specialize (IH Hx). case_decide; simpl; lia.
Qed.

(** Erasing links that are all present, each once, completes. *)
Lemma erase_all_total (xs : list LinkModel) : ∀ v,
  NoDup v → NoDup xs → (∀ x, x ∈ xs → x ∈ v) →
  ∃ v', for_each erase_remove xs v = Ok v' ∧ v ≡ₚ xs ++ v' ∧ NoDup v'.
Proof.
  induction xs as [|x xs IH]; intros v Hv Hxs Hsub; simpl.
  - exists v. auto.
  - apply NoDup_cons in Hxs as [Hx Hxs].
    assert (Hstep : ∃ v1, erase_remove v x = Ok v1).
    { unfold erase_remove. pose proof (filter_shorter v x (Hsub x (list_elem_of_here _ _))).
      rewrite decide_False by lia. eauto. }
    destruct Hstep as [v1 Hv1]. rewrite Hv1, bind_of_Ok.
    destruct (ClassFacts.erase_remove_Ok _ _ _ Hv Hv1) as (_ & _ & Hperm & Hnd1).
    destruct (IH v1 Hnd1 Hxs) as (v' & Hrun & Hperm' & Hnd').
    + intros y Hy.
      assert (Hyv : y ∈ x :: v1) by (rewrite <- Hperm; apply Hsub; right; exact Hy).
      apply elem_of_cons in Hyv as [->|Hyv]; [contradiction | exact Hyv].
    + exists v'. split; [exact Hrun|]. split; [|exact Hnd'].
      rewrite Hperm, Hperm'. reflexivity.
Qed.

Section WithLibrary.
Context `{External}.
Variables (m : RobotModel) (voxel_size background ex inb : R).
Hypothesis Horigins : origins_cover_shapes m.
Hypothesis Hclosed : attachments_closed m.
Hypothesis Hnd : NoDup (getLinkModelsWithCollisionGeometry m).

Local Abbreviation e0 :=
  (createDefaultAllowedCollisionMatrix (init m voxel_size background ex inb)).

(** The static links of the engine are the static links of the model. *)
Lemma static_links_model e1 :
  createStaticSDFs e0 = Ok e1 →
  (∀ x, x ∈ static_links_ e1 ↔ static_link m x) ∧
  (NoDup (static_links_ e1) ↔
   (getRootLink m ∈ getLinkModelsWithCollisionGeometry m →
    ¬ attached_path m (getRootLink m) (getRootLink m))).
Proof.
  intros H1.
  destruct (ReachFacts.createStaticSDFs_reach e0 e1 eq_refl H1) as (walked & Hst & Hndw & Hw).
  cbn [robot_model_ links_ createDefaultAllowedCollisionMatrix init set_acm] in Hst, Hw.
  split.
  - intros x. rewrite Hst, elem_of_app, Hw. unfold static_link. case_decide as Hroot.
    + rewrite list_elem_of_singleton. split.
      * intros [->|[Hx Hp]]; auto.
      * intros [Hx [->|Hp]]; auto.
    + rewrite elem_of_nil. split.
      * intros [[]|[Hx Hp]]. auto.
      * intros [Hx [->|Hp]]; [contradiction | auto].
  - rewrite Hst. case_decide as Hroot; simpl.
    + rewrite NoDup_cons, Hw. split.
      * intros [Hfresh _] _ Hback. apply Hfresh. auto.
      * intros Hno. split; [|exact Hndw]. intros [_ Hback]. exact (Hno Hroot Hback).
    + split; [intros _ Hr; contradiction | intros _; exact Hndw].
Qed.

Lemma static_stage e1 :
  createStaticSDFs e0 = Ok e1 →
  robot_model_ e1 = m ∧ links_ e1 = getLinkModelsWithCollisionGeometry m ∧
  active_links_ e1 = [] ∧ dist_query_ e1 = [] ∧
  voxel_size_ e1 = voxel_size ∧ background_ e1 = background.
Proof.
  intros H1. destruct (createStaticSDFs_inv e0 e1 eq_refl eq_refl H1) as [Hsame _].
  rewrite Hsame. simpl. repeat split.
Qed.

(** The second stage completes when every active link has a supported
    shape. *)
Lemma createActiveSDFs_total e1 :
  robot_model_ e1 = m → links_ e1 = getLinkModelsWithCollisionGeometry m →
  active_links_ e1 = [] →
  (∀ x, grouped m x → x ∈ getLinkModelsWithCollisionGeometry m → has_supported_shape m x) →
  ∃ e2, createActiveSDFs e1 = Ok e2.
Proof.
  intros Hm Hl Ha Hshapes. unfold createActiveSDFs.
  destruct (for_each_total (λ _ : list OpenVDBDistanceField.t * list SphereModel, True)
              (λ '(sdfs, spheres) link,
                 '(sdf, s) ← fitSpheres 10 e1 link None (voxel_size_ e1) [];
                 sdf ← deref sdf;
                 Ok (sdfs ++ [sdf], spheres ++ [s]))
              (collectActive (links_ e1) (getJointModelGroups (robot_model_ e1))
                             (active_links_ e1)))
    with (s := (@nil OpenVDBDistanceField.t, @nil SphereModel)) as ([sdfs spheres] & -> & _).
  - intros [sdfs spheres] link Hlink _.
    apply ClassFacts2.collectActive_sound in Hlink as [Hin|[Hin Hg]];
      [rewrite Ha in Hin; inversion Hin|].
    rewrite Hl in Hin. rewrite Hm in Hg.
    destruct (SphereFacts.fitSpheres_returns e1 link) with (remaining := 9%nat)
      (sdf0 := @None OpenVDBDistanceField.t) (v := voxel_size_ e1) (spheres0 := @nil Sphere)
      as (sdf & s & ->).
    + rewrite Hm. exact Horigins.
    + rewrite Hm. apply Hshapes; assumption.
    + rewrite bind_of_Ok. simpl. eauto.
  - exact I.
  - rewrite bind_of_Ok. eauto.
Qed.

(** The third stage completes when the static and the active links are
    links with geometry, without repetition and without a common link. *)
Lemma createDynamicSDFs_total e2 :
  robot_model_ e2 = m → NoDup (links_ e2) →
  NoDup (static_links_ e2) → NoDup (active_links_ e2) →
  (∀ x, x ∈ static_links_ e2 → x ∈ links_ e2) →
  (∀ x, x ∈ active_links_ e2 → x ∈ links_ e2 ∧ x ∉ static_links_ e2) →
  ∃ e3, createDynamicSDFs e2 = Ok e3.
Proof.
  intros Hm Hl Hs Ha Hsl Hal. unfold createDynamicSDFs.
  destruct (erase_all_total (static_links_ e2) (links_ e2) Hl Hs Hsl)
    as (d1 & -> & Hp1 & Hnd1).
  rewrite bind_of_Ok.
  destruct (erase_all_total (active_links_ e2) d1 Hnd1 Ha) as (d2 & -> & _ & _).
  { intros x Hx. destruct (Hal x Hx) as [Hin Hout].
    rewrite Hp1 in Hin. apply elem_of_app in Hin as [Hin|Hin]; [contradiction | exact Hin]. }
  rewrite bind_of_Ok.
  destruct (for_each_total (λ _ : list OpenVDBDistanceField.t, True)
              (λ sdfs link,
                 sdf ← OpenVDBDistanceField.addLinkToField (robot_model_ e2)
                         (OpenVDBDistanceField.new (voxel_size_ e2) (background_ e2)) link
                         Mat4.Identity (exBandWidth_ e2) (inBandWidth_ e2);
                 Ok (sdfs ++ [sdf]))
              d2) with (s := @nil OpenVDBDistanceField.t) as (sdfs & -> & _).
  - intros sdfs link _ _.
    destruct (addLinkToField_total (robot_model_ e2)
                (OpenVDBDistanceField.new (voxel_size_ e2) (background_ e2)) link
                Mat4.Identity (exBandWidth_ e2) (inBandWidth_ e2)) as [sdf ->];
      [rewrite Hm; exact Horigins|].
    rewrite bind_of_Ok. eauto.
  - exact I.
  - rewrite bind_of_Ok. eauto.
Qed.

(** The last stage completes when every active link has its vector of
    spheres. *)
Lemma createDefaultDistanceQuery_total e3 :
  length (active_spheres_ e3) = length (active_links_ e3) →
  ∃ e, createDefaultDistanceQuery e3 = Ok e.
Proof.
  intros Hlen. unfold createDefaultDistanceQuery.
  destruct (for_each_total (λ _ : list DistanceQueryData.t, True)
              (λ q '(j, parent), data ← defaultQuery e3 j parent; Ok (q ++ [data]))
              (imap pair (active_links_ e3))) with (s := dist_query_ e3) as (q & -> & _).
  - intros q [j parent] Hj%PrepareFacts.imap_pair_lt _. unfold defaultQuery.
    destruct (at_index_lt (active_spheres_ e3) j) as [spheres ->]; [lia|].
    rewrite bind_of_Ok. case_decide; rewrite bind_of_Ok; eauto.
  - exact I.
  - rewrite bind_of_Ok. eauto.
Qed.

Lemma create_completes_if : constructible m → ∃ e, create m voxel_size background ex inb = Ok e.
Proof.
  intros (Hdisjoint & Hroot & Hshapes). unfold create.
  destruct (createStaticSDFs_total m Hclosed Horigins e0 eq_refl) as [e1 H1].
  rewrite H1, bind_of_Ok.
  destruct (static_stage e1 H1) as (Hm1 & Hl1 & Ha1 & _).
  destruct (static_links_model e1 H1) as [Hstatic Hnds].
  destruct (createActiveSDFs_total e1 Hm1 Hl1 Ha1 Hshapes) as [e2 H2].
  rewrite H2, bind_of_Ok.
  destruct (createActiveSDFs_Ok _ _ H2) as (sdfs & spheres & He2 & _ & Hsph).
  destruct (ClassFacts.createActiveSDFs_links _ _ H2) as (Hact & Hs2 & _ & Hl2).
  assert (Hm2 : robot_model_ e2 = m) by (rewrite He2; exact Hm1).
  destruct (createDynamicSDFs_total e2) as [e3 H3].
  - exact Hm2.
  - rewrite Hl2, Hl1. exact Hnd.
  - rewrite Hs2. apply Hnds, Hroot.
  - rewrite Hact, Ha1. apply ClassFacts2.collectActive_NoDup. constructor.
  - intros x Hx. rewrite Hs2 in Hx. rewrite Hl2, Hl1. apply Hstatic in Hx. apply Hx.
  - intros x Hx. rewrite Hact, Ha1 in Hx.
    apply ClassFacts2.collectActive_sound in Hx as [Hx|[Hx Hg]]; [inversion Hx|].
    rewrite Hl2. split; [exact Hx|]. rewrite Hs2. intros Hst%Hstatic.
    apply (Hdisjoint x Hst). rewrite Hm1 in Hg. exact Hg.
  - rewrite H3, bind_of_Ok.
    apply createDynamicSDFs_Ok in H3 as (dl & dsdf & -> & _).
    apply createDefaultDistanceQuery_total. simpl.
    rewrite He2 in Hsph |- *. simpl in Hsph |- *. exact Hsph.
Qed.

Lemma create_completes_only_if e :
  create m voxel_size background ex inb = Ok e → constructible m.
Proof.
  intros Hc. pose proof Hc as Hc'. revert Hc'. unfold create.
  intros (e1 & H1 & (e2 & H2 & (e3 & H3 & H4)%bind_Ok)%bind_Ok)%bind_Ok.
  destruct (static_stage e1 H1) as (Hm1 & Hl1 & Ha1 & _ & Hv1 & Hb1).
  destruct (static_links_model e1 H1) as [Hstatic Hnds].
  destruct (ClassFacts.createActiveSDFs_links _ _ H2) as (Hact & Hs2 & _ & Hl2).
  split; [|split].
  - intros x Hx%Hstatic (g & Hg & Hxg).
    destruct (ClassFacts.create_static_link_in_group m voxel_size background ex inb e1 x g
                Hnd H1 Hx Hg Hxg) as [f Hf].
    rewrite Hf in Hc. discriminate.
  - apply Hnds.
    destruct (ClassFacts.createDynamicSDFs_partition e2 e3) as [_ Hnd3];
      [rewrite Hl2, Hl1; exact Hnd | exact H3 |].
    apply NoDup_app in Hnd3 as (Hnd3 & _).
    apply createDynamicSDFs_Ok in H3 as (dl & dsdf & -> & _). simpl in Hnd3.
    rewrite Hs2 in Hnd3. exact Hnd3.
  - intros x (g & Hg & Hxg) Hx.
    assert (Hin : x ∈ active_links_ e2).
    { rewrite Hact. apply (ClassFacts.collectActive_complete _ _ _ x g).
      - rewrite Hm1. exact Hg.
      - exact Hxg.
      - rewrite Hl1. exact Hx. }
    apply list_elem_of_lookup_1 in Hin as [i Hi].
    revert H2. unfold createActiveSDFs.
    intros ([sdfs spheres] & (fs & ss & -> & -> & Hall)%LinkFieldFacts.active_loop_spec
            & [= <-])%bind_Ok.
    simpl in Hi. destruct (Hall i x Hi) as (f & s & _ & _ & Hfit).
    apply LinkFieldFacts.fitSpheres_spec in Hfit
      as [(Hz & _)|(k & f' & _ & [= <-] & Hadd & Hgrid & _)]; [discriminate|].
    rewrite Hm1 in Hadd.
    apply (BuiltFacts.addLinkToField_built _ _ _ _ _ _ _ _ Hadd), Hgrid.
Qed.

End WithLibrary.

(** A model whose shapes are all boxes passes at every voxel size. *)
Lemma boxes_convert m voxel_size :
  (∀ link shape, shape ∈ getShapes m link → ∃ size, shape = BOX size) →
  Conversion.shapes_convert_at_all_resolutions m voxel_size.
Proof.
  intros Hboxes k _ link shape _ Hshape.
  destruct (Hboxes link shape Hshape) as [size ->]. exact I.
Qed.

(** X21.  The models on which the constructor completes.  For a model
    whose shapes all have a collision origin and pass what
    [addShapeToField] does before it calls the library, at the nominal voxel
    size and at that size halved up to nine times, whose fixed-attachment
    maps name links of the model and whose list of links with collision
    geometry has no duplicates, the constructor returns an engine exactly
    when no link classified static is listed by a joint group, the root, if
    it bears geometry, is not reached back through fixed attachments, and
    every link with geometry that a joint group lists has at least one
    shape of a supported kind. *)
Theorem create_completes `{External} m voxel_size background ex inb :
  origins_cover_shapes m → attachments_closed m →
  NoDup (getLinkModelsWithCollisionGeometry m) →
  Conversion.shapes_convert_at_all_resolutions m voxel_size →
  (∃ e, create m voxel_size background ex inb = Ok e) ↔ constructible m.
Proof.
  intros Horigins Hclosed Hnd _. split.
  - intros [e He].
    exact (create_completes_only_if m voxel_size background ex inb Hnd e He).
  - exact (create_completes_if m voxel_size background ex inb Horigins Hclosed Hnd).
Qed.

Lemma arm_on_pedestal_origins : origins_cover_shapes Examples.arm_on_pedestal.
Proof. intros link. simpl. case_decide; simpl; lia. Qed.

Lemma arm_on_pedestal_closed : attachments_closed Examples.arm_on_pedestal.
Proof.
  intros parent x. simpl. repeat case_decide; intros Hx;
    repeat (apply elem_of_cons in Hx as [->|Hx]); try (inversion Hx; fail); simpl;
    apply (bool_decide_unpack _); vm_compute; exact I.
Qed.

Lemma arm_on_pedestal_boxes voxel_size :
  Conversion.shapes_convert_at_all_resolutions Examples.arm_on_pedestal voxel_size.
Proof.
  apply boxes_convert. intros link shape. simpl.
  case_decide; [intros Hin; inversion Hin|].
  intros ->%list_elem_of_singleton. eexists. reflexivity.
Qed.

Lemma create_completes_witness :
  let H := Examples.wall_lib in
  let m := Examples.arm_on_pedestal in
  origins_cover_shapes m ∧ attachments_closed m ∧
  NoDup (getLinkModelsWithCollisionGeometry m) ∧
  Conversion.shapes_convert_at_all_resolutions m 1 ∧
  ((∃ e, create m 1 10 3 3 = Ok e) ↔ constructible m).
Proof.
  intros H m.
  assert (Hnd : NoDup (getLinkModelsWithCollisionGeometry m)).
  { exact (bool_decide_unpack
             (NoDup ["pedestal"; "upper_arm"; "forearm"; "camera"]) I). }
  split; [exact arm_on_pedestal_origins|]. split; [exact arm_on_pedestal_closed|].
  split; [exact Hnd|]. split; [exact (arm_on_pedestal_boxes 1)|].
  exact (create_completes (H := Examples.wall_lib) m 1 10 3 3 arm_on_pedestal_origins
           arm_on_pedestal_closed Hnd (arm_on_pedestal_boxes 1)).
Defined.
End CompletionFacts.

(** ** A root that is reached back *)

Module RootFacts.
Import Reach Invariants ConstructionFacts EngineFacts Completion.

(** The one-iterator [erase] is the only step of the removal loops that can
    stop them. *)
Lemma for_each_erase_remove_Fail (xs : list LinkModel) : ∀ v f,
  for_each erase_remove xs v = Fail f → f = EraseAtEnd.
Proof.
  induction xs as [|x xs IH]; intros v f; cbn [for_each]; [discriminate|].
  destruct (erase_remove v x) as [v1|f1] eqn:Hstep.
  - rewrite bind_of_Ok. apply IH.
  - intros [= <-]. unfold erase_remove in Hstep.
    destruct (decide _); [congruence | discriminate].
Qed.

(** Removing the links of a vector that lists one of them twice from a
    vector without repetition erases at [end()]. *)
Lemma for_each_erase_remove_twice (xs v : list LinkModel) :
  NoDup v → ¬ NoDup xs → for_each erase_remove xs v = Fail EraseAtEnd.
Proof.
  intros Hv Hxs. destruct (for_each erase_remove xs v) as [v'|f] eqn:Hrun.
  - exfalso. apply Hxs.
    destruct (ClassFacts.for_each_erase_remove _ _ _ Hv Hrun) as [Hperm _].
    rewrite Hperm in Hv. apply NoDup_app in Hv as [Hnd _]. exact Hnd.
  - f_equal. exact (for_each_erase_remove_Fail _ _ _ Hrun).
Qed.

(** X4.  When the root link bears collision geometry and some link reached
    from it lists the root in its own attachment map, the walk records the
    root a second time: [static_links_] starts with the root and lists it
    again further on.  On a model whose other stages would complete (its
    shapes have a collision origin and pass what [addShapeToField] does
    before it calls the library, its attachment maps name links of the
    model, its list of links with geometry has no duplicates and every link
    with geometry that a joint group lists has a shape of a supported
    kind), the constructor then stops in [createDynamicSDFs]: the loop that
    removes the static links from [dynamic_links_] finds the root gone at
    its second removal and erases at [end()]. *)
Theorem create_root_listed_back `{External} m voxel_size background ex inb :
  origins_cover_shapes m → attachments_closed m →
  NoDup (getLinkModelsWithCollisionGeometry m) →
  Conversion.shapes_convert_at_all_resolutions m voxel_size →
  (∀ x, grouped m x → x ∈ getLinkModelsWithCollisionGeometry m → has_supported_shape m x) →
  getRootLink m ∈ getLinkModelsWithCollisionGeometry m →
  attached_path m (getRootLink m) (getRootLink m) →
  ∃ e1 walked,
    createStaticSDFs (createDefaultAllowedCollisionMatrix
                        (init m voxel_size background ex inb)) = Ok e1 ∧
    static_links_ e1 = getRootLink m :: walked ∧ getRootLink m ∈ walked ∧
    for_each erase_remove (static_links_ e1) (getLinkModelsWithCollisionGeometry m)
      = Fail EraseAtEnd ∧
    create m voxel_size background ex inb = Fail EraseAtEnd.
Proof.
  intros Horigins Hclosed Hnd _ Hshapes Hroot Hback.
  set (e0 := createDefaultAllowedCollisionMatrix (init m voxel_size background ex inb)).
  destruct (createStaticSDFs_total m Hclosed Horigins e0 eq_refl) as [e1 H1].
  destruct (ReachFacts.createStaticSDFs_reach e0 e1 eq_refl H1) as (walked & Hst & _ & Hwalked).
  cbn [robot_model_ links_ createDefaultAllowedCollisionMatrix init set_acm e0] in Hst, Hwalked.
  rewrite decide_True in Hst by exact Hroot. simpl in Hst.
  assert (Hin : getRootLink m ∈ walked) by (apply Hwalked; split; assumption).
  assert (Hloop : for_each erase_remove (static_links_ e1)
                    (getLinkModelsWithCollisionGeometry m) = Fail EraseAtEnd).
  { apply for_each_erase_remove_twice; [exact Hnd|].
    rewrite Hst. intros [Hfresh _]%NoDup_cons. exact (Hfresh Hin). }
  exists e1, walked. split; [exact H1|]. split; [exact Hst|]. split; [exact Hin|].
  split; [exact Hloop|].
  unfold create. fold e0. rewrite H1, bind_of_Ok.
  destruct (CompletionFacts.static_stage m voxel_size background ex inb e1 H1)
    as (Hm1 & Hl1 & Ha1 & _).
  destruct (CompletionFacts.createActiveSDFs_total m Horigins e1 Hm1 Hl1 Ha1 Hshapes)
    as [e2 H2].
  rewrite H2, bind_of_Ok.
  destruct (ClassFacts.createActiveSDFs_links _ _ H2) as (_ & Hs2 & _ & Hl2).
  unfold createDynamicSDFs. rewrite Hs2, Hl2, Hl1, Hloop. reflexivity.
Qed.

Lemma create_root_listed_back_witness :
  let H := Examples.one_sphere_lib in
  let m := Examples2.base_with_column in
  origins_cover_shapes m ∧ attachments_closed m ∧
  NoDup (getLinkModelsWithCollisionGeometry m) ∧
  Conversion.shapes_convert_at_all_resolutions m 1 ∧
  (∀ x, grouped m x → x ∈ getLinkModelsWithCollisionGeometry m → has_supported_shape m x) ∧
  getRootLink m ∈ getLinkModelsWithCollisionGeometry m ∧
  attached_path m (getRootLink m) (getRootLink m) ∧
  ∃ e1 walked,
    createStaticSDFs (createDefaultAllowedCollisionMatrix (init m 1 10 3 3)) = Ok e1 ∧
    static_links_ e1 = getRootLink m :: walked ∧ getRootLink m ∈ walked ∧
    for_each erase_remove (static_links_ e1) (getLinkModelsWithCollisionGeometry m)
      = Fail EraseAtEnd ∧
    create m 1 10 3 3 = Fail EraseAtEnd.
Proof.
  intros H m.
  assert (Horigins : origins_cover_shapes m) by (intros link; simpl; lia).
  assert (Hclosed : attachments_closed m).
  { intros parent x. simpl. repeat case_decide; intros Hx;
      repeat (apply elem_of_cons in Hx as [->|Hx]); try (inversion Hx; fail); simpl;
      apply (bool_decide_unpack _); vm_compute; exact I. }
  assert (Hnd : NoDup (getLinkModelsWithCollisionGeometry m)).
  { exact (bool_decide_unpack (NoDup ["base"; "column"]) I). }
  assert (Hconv : Conversion.shapes_convert_at_all_resolutions m 1).
  { apply CompletionFacts.boxes_convert. intros link shape. simpl.
    intros ->%list_elem_of_singleton. eexists. reflexivity. }
  assert (Hshapes : ∀ x, grouped m x → x ∈ getLinkModelsWithCollisionGeometry m →
                         has_supported_shape m x).
  { intros x _ _. apply Exists_cons_hd. reflexivity. }
  assert (Hroot : getRootLink m ∈ getLinkModelsWithCollisionGeometry m) by left.
  assert (Hback : attached_path m (getRootLink m) (getRootLink m)).
  { apply (path_more m "base" "column" "base" Mat4.Identity).
    - apply (path_step m "base" "column" Mat4.Identity). left.
    - left. }
  split; [exact Horigins|]. split; [exact Hclosed|]. split; [exact Hnd|].
  split; [exact Hconv|]. split; [exact Hshapes|]. split; [exact Hroot|].
  split; [exact Hback|].
  apply (create_root_listed_back (H := Examples.one_sphere_lib) m 1 10 3 3
           Horigins Hclosed Hnd Hconv Hshapes Hroot Hback).
Defined.
End RootFacts.

(** ** The poses a query reads *)

Module PoseFacts.
Import Invariants ConstructionFacts EngineFacts QueryInputs.

Lemma zip_with_ext_in {A B C} (f g : A → B → C) (l : list A) (k : list B) :
  (∀ a b, a ∈ l → f a b = g a b) → zip_with f l k = zip_with g l k.
Proof.
  revert k. induction l as [|a l IH]; intros k Hfg; [reflexivity|].
  destruct k as [|b k]; [reflexivity|]. simpl. f_equal.
  - apply Hfg. left.
  - apply IH. intros a' b' Ha'. apply Hfg. right. exact Ha'.
Qed.

Lemma query_plans_same_poses e req state1 state2 :
  (∀ link, link ∈ active_links_ e →
           getGlobalLinkTransform state1 link = getGlobalLinkTransform state2 link) →
  query_plans e req state1 = query_plans e req state2.
Proof.
  intros Hsame. unfold query_plans.
  generalize (dist_query_ e) as qs.
  assert (Hzip : ∀ ls, ls ∈ zip (active_links_ e) (active_spheres_ e) →
                       ls.1 ∈ active_links_ e).
  { intros [l s] Hin. apply elem_of_zip_l in Hin. exact Hin. }
  revert Hzip. generalize (zip (active_links_ e) (active_spheres_ e)) as lss.
  induction lss as [|ls lss IH]; intros Hzip qs; destruct qs as [|q qs]; try reflexivity.
  simpl. f_equal.
  - unfold posed_plan. rewrite (Hsame ls.1) by (apply Hzip; left). reflexivity.
  - apply IH. intros ls' Hin. apply Hzip. right. exact Hin.
Qed.

Lemma query_table_same_poses e state1 state2 :
  (∀ link, link ∈ active_links_ e ∨ link ∈ dynamic_links_ e →
           getGlobalLinkTransform state1 link = getGlobalLinkTransform state2 link) →
  query_table e state1 = query_table e state2.
Proof.
  intros Hsame. unfold query_table. f_equal.
  - apply zip_with_ext_in. intros link sdf Hin. unfold moving_field.
    rewrite (Hsame link) by auto. reflexivity.
  - apply zip_with_ext_in. intros link sdf Hin. unfold moving_field.
    rewrite (Hsame link) by auto. reflexivity.
Qed.

(** X22.  A self-distance query reads the robot state only through the
    poses of the active and the dynamic links: on a constructed engine, two
    states that give every active and every dynamic link the same pose get
    the same answer, whatever poses they give to the static links and to
    links without collision geometry. *)
Theorem distanceSelf_same_poses `{External} m voxel_size background ex inb e req res
    state1 state2 :
  create m voxel_size background ex inb = Ok e →
  (∀ link, link ∈ active_links_ e ∨ link ∈ dynamic_links_ e →
           getGlobalLinkTransform state1 link = getGlobalLinkTransform state2 link) →
  distanceSelf e req res state1 = distanceSelf e req res state2.
Proof.
  intros Hc Hsame.
  destruct (getJointModelGroup (robot_model_ e) (DistanceRequest.group_name req))
    as [group|] eqn:Hgroup.
  - rewrite !(PrepareFacts.distanceSelf_prepared m voxel_size background ex inb e req res)
      by eauto.
    case_decide; [|reflexivity]. unfold evaluation.
    rewrite (query_plans_same_poses e req state1 state2) by auto.
    rewrite (query_table_same_poses e state1 state2) by exact Hsame.
    reflexivity.
  - unfold distanceSelf. rewrite Hgroup. reflexivity.
Qed.

(** A state in which the pedestal, a static link, stands one unit further
    along x than in the state at rest. *)
Lemma pedestal_moved :
  let moved := mkRobotState (λ link, if decide (link = "pedestal")
                                     then ((1, 0, 0, 1), (0, 1, 0, 0), (0, 0, 1, 0), (0, 0, 0, 1))%R
                                     else Mat4.Identity) in
  getGlobalLinkTransform moved "pedestal"
  ≠ getGlobalLinkTransform Examples.still_state "pedestal".
Proof. simpl. unfold Mat4.Identity. intros [= Hx]. lra. Qed.

Lemma distanceSelf_same_poses_witness :
  let H := Examples.wall_lib in
  let m := Examples.arm_on_pedestal in
  let e := Examples.engine_of m in
  let req := DistanceRequest.mk "arm" true in
  let moved := mkRobotState (λ link, if decide (link = "pedestal")
                                     then ((1, 0, 0, 1), (0, 1, 0, 0), (0, 0, 1, 0), (0, 0, 0, 1))%R
                                     else Mat4.Identity) in
  create m 1 10 3 3 = Ok e ∧
  (∀ link, link ∈ active_links_ e ∨ link ∈ dynamic_links_ e →
           getGlobalLinkTransform Examples.still_state link
           = getGlobalLinkTransform moved link) ∧
  "pedestal" ∈ static_links_ e ∧
  getGlobalLinkTransform moved "pedestal"
  ≠ getGlobalLinkTransform Examples.still_state "pedestal" ∧
  distanceSelf e req Examples.empty_result Examples.still_state
  = distanceSelf e req Examples.empty_result moved.
Proof.
  intros H m e req moved.
  assert (Hrun : create m 1 10 3 3 = Ok e) by (vm_compute; reflexivity).
  assert (Hsame : ∀ link, link ∈ active_links_ e ∨ link ∈ dynamic_links_ e →
                          getGlobalLinkTransform Examples.still_state link
                          = getGlobalLinkTransform moved link).
  { assert (Ha : active_links_ e = ["upper_arm"; "forearm"]) by (vm_compute; reflexivity).
    assert (Hd : dynamic_links_ e = ["camera"]) by (vm_compute; reflexivity).
    intros link. rewrite Ha, Hd, !elem_of_cons, !elem_of_nil. simpl.
    intros Hlink. rewrite decide_False; [reflexivity|].
    intros ->. destruct Hlink as [[Hl|[Hl|[]]]|[Hl|[]]]; discriminate. }
  assert (Hstatic : "pedestal" ∈ static_links_ e).
  { assert (Hs : static_links_ e = ["pedestal"]) by (vm_compute; reflexivity).
    rewrite Hs. left. }
  split; [exact Hrun|]. split; [exact Hsame|]. split; [exact Hstatic|].
  split; [exact pedestal_moved|].
  apply (distanceSelf_same_poses (H := Examples.wall_lib) m 1 10 3 3 e req
           Examples.empty_result Examples.still_state moved Hrun Hsame).
Defined.
End PoseFacts.

(** ** The mesh of a box *)

Module BoxFacts.
Import Tessellation BoxMesh.
Local Open Scope R_scope.

(** X23.  The six quads built for a box are its six sides.  The four
    corners of quad [i] are four different points of the eight, and they
    share one coordinate, which is minus or plus half the absolute size of
    the box along that axis: the quads 0 and 1 lie on the two sides across
    the y axis, 2 and 3 on those across the x axis, 4 and 5 on those across
    the z axis. *)
Theorem box_mesh_faces (size : Vec3) (i : nat) :
  (i < 6)%nat →
  let points := (box_mesh size).1 in
  let quads := (box_mesh size).2 in
  length points = 8%nat ∧ length quads = 6%nat ∧
  ∃ a b c d pa pb pc pd,
    quads !! i = Some (a, b, c, Some d) ∧ NoDup [a; b; c; d] ∧
    points !! a = Some pa ∧ points !! b = Some pb ∧
    points !! c = Some pc ∧ points !! d = Some pd ∧
    let side := face_sign i * (Rabs (face_axis i size) / 2) in
    face_axis i pa = side ∧ face_axis i pb = side ∧
    face_axis i pc = side ∧ face_axis i pd = side.
Proof.
  intros Hi. cbv zeta. split; [reflexivity|]. split; [reflexivity|].
  assert (Hnd : ∀ a b c d : nat,
            bool_decide (NoDup [a; b; c; d]) = true → NoDup [a; b; c; d])
    by (intros a b c d Hb; apply bool_decide_eq_true in Hb; exact Hb).
  do 6 (destruct i as [|i];
        [eexists _, _, _, _, _, _, _, _;
         split; [reflexivity|]; split; [apply Hnd; reflexivity|];
         split; [reflexivity|]; split; [reflexivity|];
         split; [reflexivity|]; split; [reflexivity|];
         unfold face_sign; simpl; repeat split; lra|]).
  lia.
Qed.

Lemma box_mesh_faces_witness :
  (3 < 6)%nat ∧
  let size := mkVec3 2 (-4) 6 in
  let points := (box_mesh size).1 in
  let quads := (box_mesh size).2 in
  length points = 8%nat ∧ length quads = 6%nat ∧
  ∃ a b c d pa pb pc pd,
    quads !! 3%nat = Some (a, b, c, Some d) ∧ NoDup [a; b; c; d] ∧
    points !! a = Some pa ∧ points !! b = Some pb ∧
    points !! c = Some pc ∧ points !! d = Some pd ∧
    let side := face_sign 3 * (Rabs (face_axis 3 size) / 2) in
    face_axis 3 pa = side ∧ face_axis 3 pb = side ∧
    face_axis 3 pc = side ∧ face_axis 3 pd = side.
Proof.
  assert (Hi : (3 < 6)%nat) by lia.
  split; [exact Hi|]. exact (box_mesh_faces (mkVec3 2 (-4) 6) 3 Hi).
Defined.
End BoxFacts.

(** ** The constructor from an archive *)

Module FromFileFacts.
Import FromFile.

(** X24.  The constructor that takes an archive never returns an engine:
    whatever the file holds, it ends in an exception.  The archive is read
    and checked first (a file that is not open, that has no grids or that
    has no meta-data is reported under its path), and an archive that has
    grids and the four values (voxel size, background and the two band
    widths) ends in the error "Not implemented". *)
Theorem create_from_file_never_returns (open : string → Opened) (model : RobotModel)
    (file_path : string) :
  (∃ t, create_from_file open model file_path = inl t) ∧
  (open file_path = not_open →
   create_from_file open model file_path
   = inl (runtime_error ("Unable to load openvdb models from file: " ++ file_path))) ∧
  (∀ a, open file_path = opened a → getGrids a = None →
        create_from_file open model file_path
        = inl (runtime_error ("Unable to load any grids from file " ++ file_path))) ∧
  (∀ a, open file_path = opened a → is_Some (getGrids a) → getMetadata a = None →
        create_from_file open model file_path
        = inl (runtime_error ("Unable to load meta-data from file: " ++ file_path))) ∧
  (∀ a, open file_path = opened a → complete a →
        create_from_file open model file_path = inl (runtime_error "Not implemented")).
Proof.
  split; [|split; [|split; [|split]]].
  - unfold create_from_file, readFromFile, metaValue.
    destruct (open file_path) as [| |a]; [eauto | eauto |].
    destruct (getGrids a); [|eauto].
    destruct (getMetadata a) as [metadata|]; [|eauto].
    repeat (destruct (metadata _); [|eauto]). eauto.
  - intros Ho. unfold create_from_file, readFromFile. rewrite Ho. reflexivity.
  - intros a Ho Hg. unfold create_from_file, readFromFile. rewrite Ho, Hg. reflexivity.
  - intros a Ho [grids Hg] Hm. unfold create_from_file, readFromFile.
    rewrite Ho, Hg, Hm. reflexivity.
  - intros a Ho ([grids Hg] & metadata & Hm & [v Hv] & [b Hb] & [x Hx] & [n Hn]).
    unfold create_from_file, readFromFile, metaValue. rewrite Ho, Hg, Hm, Hv, Hb, Hx, Hn.
    reflexivity.
Qed.

Lemma create_from_file_never_returns_witness :
  let open := λ _ : string, opened sample_archive in
  open "robot.vdb" = opened sample_archive ∧ complete sample_archive ∧
  create_from_file open Examples.arm_on_pedestal "robot.vdb"
  = inl (runtime_error "Not implemented").
Proof.
  intros open.
  assert (Ho : open "robot.vdb" = opened sample_archive) by reflexivity.
  assert (Hc : complete sample_archive).
  { unfold complete, sample_archive. simpl. split; [eauto|].
    eexists. split; [reflexivity|]. repeat split; eauto. }
  split; [exact Ho|]. split; [exact Hc|].
  destruct (create_from_file_never_returns open Examples.arm_on_pedestal "robot.vdb")
    as (_ & _ & _ & _ & Hlast).
  exact (Hlast sample_archive Ho Hc).
Defined.
End FromFileFacts.

(** ** Distances and the gradient flag *)

Module SameDistanceFacts.
Import Invariants ConstructionFacts EngineFacts QueryInputs QueryShape SameDistance.
Local Open Scope R_scope.

(** Two runs of a loop whose states stay related. *)
Lemma for_each_related {A1 A2 S1 S2} (Q : A1 → A2 → Prop) (Rel : S1 → S2 → Prop)
    (body1 : S1 → A1 → result S1) (body2 : S2 → A2 → result S2) l1 l2 :
  Forall2 Q l1 l2 →
  (∀ a1 a2 s1 s2 s1', Q a1 a2 → Rel s1 s2 → body1 s1 a1 = Ok s1' →
                      ∃ s2', body2 s2 a2 = Ok s2' ∧ Rel s1' s2') →
  ∀ s1 s2 s1', Rel s1 s2 → for_each body1 l1 s1 = Ok s1' →
               ∃ s2', for_each body2 l2 s2 = Ok s2' ∧ Rel s1' s2'.
Proof.
  intros Hl Hbody. induction Hl as [|a1 a2 l1 l2 Ha _ IH]; intros s1 s2 s1' Hs; simpl.
  - intros [= <-]. eauto.
  - intros (t1 & H1 & Hrest)%bind_Ok.
    destruct (Hbody a1 a2 s1 s2 t1 Ha Hs H1) as (t2 & -> & Ht). rewrite bind_of_Ok.
    exact (IH t1 t2 s1' Ht Hrest).
Qed.

Lemma same_distance_refl d : same_distance d d.
Proof. repeat split. Qed.

Lemma same_entries_refl m : same_entries m m.
Proof. apply Forall_Forall2_diag, Forall_forall. intros x _. split; [reflexivity | apply same_distance_refl]. Qed.

Section WithLibrary.
Context `{External}.

Lemma candidateStep_related bg q1 q2 table (st1 st2 st1' : HelperState) i :
  same_but_gradient q1 q2 → same_distance st1.1.1 st2.1.1 →
  candidateStep bg q1 table st1 i = Ok st1' →
  ∃ st2', candidateStep bg q2 table st2 i = Ok st2' ∧ same_distance st1'.1.1 st2'.1.1.
Proof.
  intros (_ & Hn & Hi & Ht & Hs & _) Hst. unfold candidateStep.
  rewrite <- Hn, <- Hi, <- Ht, <- Hs.
  intros (ty & Hty & (idx & Hidx & (child & Hchild & Hrest)%bind_Ok)%bind_Ok)%bind_Ok.
  rewrite Hty, bind_of_Ok, Hidx, bind_of_Ok, Hchild, bind_of_Ok.
  destruct (foldl _ _ _) as [[cm ijk] found].
  destruct found; [|injection Hrest as <-; eauto].
  destruct st1 as [[res1 g1] tw1], st2 as [[res2 g2] tw2]. cbn [fst snd] in Hst.
  destruct Hst as (Hmin & Hname & Hnear).
  apply bind_Ok in Hrest as (res1' & Hres1 & Hrest).
  assert (Hres2 : ∃ res2',
            (if decide (cm < DistanceResultsData.min_distance res2)
             then name ← at_index (DistanceQueryData.child_name q1) i;
                  Ok (set_min res2 cm name)
             else Ok res2) = Ok res2' ∧ same_distance res1' res2').
  { rewrite <- Hmin. revert Hres1. case_decide.
    - intros (name & -> & [= <-])%bind_Ok. rewrite bind_of_Ok. eexists. split; [reflexivity|].
      unfold same_distance, set_min. simpl. rewrite Hname, Hnear. auto.
    - intros [= <-]. eexists. split; [reflexivity|]. repeat split; assumption. }
  destruct Hres2 as (res2' & -> & Hsame). rewrite bind_of_Ok.
  assert (Hblend : ∀ (res : DistanceResultsData.t) g tw,
            same_distance (blendGradient bg child cm ijk (res, g, tw)).1.1 res).
  { intros res g tw. unfold blendGradient.
    destruct (decide (V3.sum _ ≠ 0)); simpl; repeat split. }
  assert (Hleft : same_distance st1'.1.1 res1').
  { revert Hrest. destruct (DistanceQueryData.gradient q1); intros [= <-];
      [apply Hblend | apply same_distance_refl]. }
  destruct Hleft as (Hl1 & Hl2 & Hl3). destruct Hsame as (Hs1 & Hs2 & Hs3).
  destruct (DistanceQueryData.gradient q2); eexists; (split; [reflexivity|]).
  - destruct (Hblend res2' g2 tw2) as (Hb1 & Hb2 & Hb3).
    unfold same_distance. rewrite Hl1, Hl2, Hl3, Hb1, Hb2, Hb3. auto.
  - unfold same_distance. simpl. rewrite Hl1, Hl2, Hl3. auto.
Qed.

Lemma distanceSelfHelper_related bg q1 q2 table res d1 :
  same_but_gradient q1 q2 →
  distanceSelfHelper bg q1 table res = Ok d1 →
  ∃ d2, distanceSelfHelper bg q2 table res = Ok d2 ∧ same_distance d1 d2.
Proof.
  intros Hq. pose proof Hq as (Hp & _ & Hi & _). unfold distanceSelfHelper.
  intros (st1 & Hloop & [= <-])%bind_Ok. rewrite <- Hp, <- Hi.
  destruct (for_each_related (@eq nat) (λ s1 s2 : HelperState, same_distance s1.1.1 s2.1.1)
              (candidateStep bg q1 table) (candidateStep bg q2 table)
              (seq 0 (length (DistanceQueryData.child_index q1)))
              (seq 0 (length (DistanceQueryData.child_index q1))))
    with (s1 := (DistanceResultsData.mk bg
                   (DistanceQueryData.parent_name q1, (DistanceResultsData.link_name res).2)
                   false (DistanceResultsData.hasGradient res)
                   (DistanceResultsData.gradient res), V3.zero, 0))
         (s2 := (DistanceResultsData.mk bg
                   (DistanceQueryData.parent_name q1, (DistanceResultsData.link_name res).2)
                   false (DistanceResultsData.hasGradient res)
                   (DistanceResultsData.gradient res), V3.zero, 0))
         (s1' := st1) as (st2 & -> & Hst).
  - apply Forall_Forall2_diag, Forall_forall. auto.
  - intros a1 a2 s1 s2 s1' <- Hs. apply candidateStep_related; assumption.
  - apply same_distance_refl.
  - exact Hloop.
  - rewrite bind_of_Ok. eexists. split; [reflexivity|].
    destruct (HelperFacts.finishGradient_keeps st1) as (Hm1 & Hl1 & Hn1).
    destruct (HelperFacts.finishGradient_keeps st2) as (Hm & Hl & Hn).
    unfold same_distance. rewrite Hm1, Hl1, Hn1, Hm, Hl, Hn. exact Hst.
Qed.

Lemma insert_related k d1 d2 m1 m2 :
  same_entries m1 m2 → same_distance d1 d2 →
  same_entries (StdMap.insert k d1 m1) (StdMap.insert k d2 m2).
Proof.
  intros Hm Hd. induction Hm as [|[k1 v1] [k2 v2] m1 m2 [Hk Hv] Hm IH]; simpl in *.
  - constructor; [split; [reflexivity | exact Hd] | constructor].
  - subst k2. destruct (String.compare k k1).
    + constructor; [auto | exact Hm].
    + constructor; [split; [reflexivity | exact Hd]|]. constructor; [auto | exact Hm].
    + constructor; [auto | exact IH].
Qed.

Lemma evaluate_related e table qs1 qs2 m1 m2 m1' :
  Forall2 same_but_gradient qs1 qs2 → same_entries m1 m2 →
  for_each (evaluatePlan e table) qs1 m1 = Ok m1' →
  ∃ m2', for_each (evaluatePlan e table) qs2 m2 = Ok m2' ∧ same_entries m1' m2'.
Proof.
  intros Hqs Hm. apply (for_each_related same_but_gradient same_entries); try assumption.
  clear. intros q1 q2 m1 m2 m1' Hq Hm. unfold evaluatePlan.
  pose proof Hq as (_ & _ & _ & _ & _ & <-).
  destruct (DistanceQueryData.empty q1); simpl; [intros [= <-]; eauto|].
  intros (d1 & Hd1 & [= <-])%bind_Ok.
  destruct (distanceSelfHelper_related _ _ _ _ _ _ Hq Hd1) as (d2 & -> & Hd).
  rewrite bind_of_Ok. eexists. split; [reflexivity|].
  pose proof Hd as (_ & <- & _). apply insert_related; assumption.
Qed.

Lemma minimum_loop_related m1 m2 :
  same_entries m1 m2 → ∀ acc, foldl minimum_step acc m1 = foldl minimum_step acc m2.
Proof.
  induction 1 as [|[k1 v1] [k2 v2] m1 m2 [_ (Hmin & Hname & _)] _ IH]; intros acc;
    [reflexivity|].
  simpl in *. replace (minimum_step acc (k2, v2)) with (minimum_step acc (k1, v1)); [apply IH|].
  unfold minimum_step. simpl. rewrite Hmin, Hname. reflexivity.
Qed.

Lemma selectMinimum_related bg m1 m2 :
  same_entries m1 m2 → selectMinimum bg m1 = selectMinimum bg m2.
Proof.
  intros Hm. pose proof (minimum_loop_related m1 m2 Hm) as Hloop.
  destruct Hm as [|[k1 v1] [k2 v2] m1 m2 [_ (_ & Hname & _)] Hm]; [reflexivity|].
  unfold selectMinimum. simpl in Hname. rewrite Hname. f_equal. f_equal.
  exact (Hloop ((DistanceResultsData.link_name v2).1, bg)).
Qed.

Lemma subscript_related dflt k m1 m2 :
  same_entries m1 m2 →
  same_distance (StdMap.subscript dflt k m1).1 (StdMap.subscript dflt k m2).1 ∧
  same_entries (StdMap.subscript dflt k m1).2 (StdMap.subscript dflt k m2).2.
Proof.
  intros Hm. unfold StdMap.subscript.
  assert (Hfind : match StdMap.find k m1, StdMap.find k m2 with
                  | Some v1, Some v2 => same_distance v1 v2
                  | None, None => True
                  | _, _ => False
                  end).
  { induction Hm as [|[k1 v1] [k2 v2] m1 m2 [Hk Hv] _ IH]; simpl in *; [exact I|].
    subst k2. case_decide; [exact Hv | exact IH]. }
  destruct (StdMap.find k m1), (StdMap.find k m2); try contradiction; simpl.
  - auto.
  - split; [apply same_distance_refl|]. apply insert_related; [exact Hm|].
    apply same_distance_refl.
Qed.

Lemma query_plans_related e req1 req2 state :
  Forall2 same_but_gradient (query_plans e req1 state) (query_plans e req2 state).
Proof.
  unfold query_plans. generalize (zip (active_links_ e) (active_spheres_ e)) as lss.
  induction (dist_query_ e) as [|q qs IH]; intros [|ls lss]; simpl; constructor.
  - repeat split.
  - apply IH.
Qed.

(** X25.  Asking for the gradient does not change the distances.  On a
    constructed engine, when a query completes for one request, it
    completes for every other request that names a joint group, and the two
    results have the same keys in [res.distance] and, under each key and in
    [res.minimum_distance], the same [min_distance] between the same pair
    of links: the gradient flag of the request (and the group it names)
    only decides the gradient fields. *)
Theorem distanceSelf_gradient_flag m voxel_size background ex inb e req1 req2 res state r1 :
  create m voxel_size background ex inb = Ok e →
  is_Some (getJointModelGroup (robot_model_ e) (DistanceRequest.group_name req2)) →
  distanceSelf e req1 res state = Ok r1 →
  ∃ r2, distanceSelf e req2 res state = Ok r2 ∧
        same_distance (DistanceResult.minimum_distance r1) (DistanceResult.minimum_distance r2) ∧
        same_entries (DistanceResult.distance r1) (DistanceResult.distance r2).
Proof.
  intros Hc Hg2 Hr1.
  assert (Hg1 : is_Some (getJointModelGroup (robot_model_ e)
                           (DistanceRequest.group_name req1))).
  { destruct (getJointModelGroup (robot_model_ e) (DistanceRequest.group_name req1))
      eqn:Hg; [eauto|].
    unfold distanceSelf in Hr1. rewrite Hg in Hr1. discriminate. }
  rewrite (PrepareFacts.distanceSelf_prepared _ _ _ _ _ _ _ _ _ Hc Hg1) in Hr1.
  rewrite (PrepareFacts.distanceSelf_prepared _ _ _ _ _ _ _ _ _ Hc Hg2).
  destruct (decide (QueryInputs.grids_present e)) as [_|_]; [|discriminate].
  unfold QueryInputs.evaluation in Hr1 |- *.
  apply bind_Ok in Hr1 as (m1 & Heval & (index & Hindex & Hr1)%bind_Ok).
  destruct (evaluate_related e (query_table e state) _ _ _ _ _
              (query_plans_related e req1 req2 state)
              (same_entries_refl (DistanceResult.distance res)) Heval)
    as (m2 & -> & Hm).
  rewrite bind_of_Ok, <- (selectMinimum_related (background_ e) m1 m2 Hm), Hindex, bind_of_Ok.
  destruct (subscript_related fresh_DistanceResultsData index m1 m2 Hm) as [Hv Hm'].
  destruct (StdMap.subscript fresh_DistanceResultsData index m1) as [v1 m1'].
  destruct (StdMap.subscript fresh_DistanceResultsData index m2) as [v2 m2'].
  injection Hr1 as <-. eexists. split; [reflexivity|]. simpl in *. auto.
Qed.

End WithLibrary.

Lemma distanceSelf_gradient_flag_witness :
  let H := Examples.wall_lib in
  let m := Examples.arm_on_pedestal in
  let e := Examples.engine_of m in
  let req1 := DistanceRequest.mk "arm" true in
  let req2 := DistanceRequest.mk "wrist" false in
  create m 1 10 3 3 = Ok e ∧
  is_Some (getJointModelGroup (robot_model_ e) (DistanceRequest.group_name req2)) ∧
  ∃ r1, distanceSelf e req1 Examples.empty_result Examples.still_state = Ok r1 ∧
  ∃ r2, distanceSelf e req2 Examples.empty_result Examples.still_state = Ok r2 ∧
        same_distance (DistanceResult.minimum_distance r1) (DistanceResult.minimum_distance r2) ∧
        same_entries (DistanceResult.distance r1) (DistanceResult.distance r2).
Proof.
  intros H m e req1 req2.
  assert (Hrun : create m 1 10 3 3 = Ok e) by (vm_compute; reflexivity).
  assert (Hg1 : is_Some (getJointModelGroup (robot_model_ e)
                           (DistanceRequest.group_name req1)))
    by (vm_compute; eauto).
  assert (Hg2 : is_Some (getJointModelGroup (robot_model_ e)
                           (DistanceRequest.group_name req2)))
    by (vm_compute; eauto).
  split; [exact Hrun|]. split; [exact Hg2|].
  destruct (proj2 (QueryFacts.distanceSelf_Ok (H := Examples.wall_lib) m 1 10 3 3 e req1
                     Examples.empty_result Examples.still_state Hrun Hg1)
                  (conj QueryFacts.arm_on_pedestal_ready
                        (or_introl QueryFacts.arm_on_pedestal_spheres))) as [r1 Hr1].
  exists r1. split; [exact Hr1|].
  apply (distanceSelf_gradient_flag (H := Examples.wall_lib) m 1 10 3 3 e req1 req2
           Examples.empty_result Examples.still_state r1 Hrun Hg2 Hr1).
Defined.
End SameDistanceFacts.

(** ** The pairs of links a query looks at *)

Module CoverageFacts.
Import Invariants ConstructionFacts EngineFacts Plans QueryShape Coverage.

Lemma has_children_unique data (l l' : list Candidate) :
  has_children data l → has_children data l' → l = l'.
Proof.
  intros (Hn & Hi & Ht) (Hn' & Hi' & Ht'). rewrite Hn in Hn'. rewrite Hi in Hi'.
  rewrite Ht in Ht'. clear Hn Hi Ht. revert l' Hn' Hi' Ht'.
  induction l as [|[[n i] ty] l IH]; intros [|[[n' i'] ty'] l']; simpl;
    try discriminate; [reflexivity|].
  intros [= -> Hn] [= -> Hi] [= -> Ht]. f_equal. apply IH; assumption.
Qed.

Lemma class_member e x :
  x ∈ static_links_ e ++ active_links_ e ++ dynamic_links_ e ↔
  ∃ ty i, class_links e ty !! i = Some x.
Proof.
  rewrite !elem_of_app. split.
  - intros [Hx|[Hx|Hx]]; apply list_elem_of_lookup_1 in Hx as [i Hi].
    + exists Static, i. exact Hi.
    + exists Active, i. exact Hi.
    + exists Dynamic, i. exact Hi.
  - intros ([] & i & Hi%list_elem_of_lookup_2); simpl in Hi; auto.
Qed.

(** X26.  The pairs of links a self-distance query looks at.  On a
    constructed engine, the plan of a link lists another link exactly when
    the first is an active link with a fitted sphere, the second is a
    different link with collision geometry, and the pair is not among the
    disabled collision pairs of the SRDF in either order.  A pair of links
    neither of which is active with spheres is never looked at. *)
Theorem pairs_checked `{External} m voxel_size background ex inb e a b :
  NoDup (getLinkModelsWithCollisionGeometry m) →
  create m voxel_size background ex inb = Ok e →
  checked_pair e a b ↔
  has_spheres e a ∧ b ∈ getLinkModelsWithCollisionGeometry m ∧ b ≠ a ∧
  ¬ (a, b) ∈ getDisabledCollisionPairs m ∧ ¬ (b, a) ∈ getDisabledCollisionPairs m.
Proof.
  intros Hnd Hc.
  destruct (ClassFacts2.create_classes m voxel_size background ex inb e Hnd Hc)
    as [Hperm Hnd3].
  pose proof Hnd3 as Hnd3'.
  apply NoDup_app in Hnd3' as (_ & Hsa & Hrest).
  apply NoDup_app in Hrest as (Hnda & Had & _).
  split.
  - intros (j & data & l & i & ty & Hj & Hd & Hl & Hin).
    destruct (PlanFacts.create_plan_children m voxel_size background ex inb e j a Hc Hj)
      as (data' & spheres & l' & Hd' & Hs & _ & _ & Hl' & Hmem).
    assert (data' = data) as -> by congruence.
    rewrite (has_children_unique data l l' Hl Hl') in Hin.
    destruct (proj1 (Hmem _ _ _) Hin) as (Hne & Hclass & Hij & Hd1 & Hd2).
    split; [exists j, spheres; auto|]. split; [|split; [|split; assumption]].
    + rewrite Hperm. apply class_member. eauto.
    + intros ->. destruct ty; simpl in Hclass.
      * apply (Hsa a); [eapply list_elem_of_lookup_2, Hclass|].
        apply elem_of_app. left. eapply list_elem_of_lookup_2, Hj.
      * apply (Had a); eapply list_elem_of_lookup_2; eassumption.
      * apply Hij; [reflexivity|]. exact (NoDup_lookup _ _ _ _ Hnda Hclass Hj).
  - intros ((j & spheres & Hj & Hs & Hne) & Hb & Hab & Hd1 & Hd2).
    destruct (PlanFacts.create_plan_children m voxel_size background ex inb e j a Hc Hj)
      as (data & spheres' & l & Hd & Hs' & _ & _ & Hl & Hmem).
    assert (Heq : spheres' = spheres) by congruence. subst spheres'.
    rewrite Hperm in Hb. apply class_member in Hb as (ty & i & Hclass).
    exists j, data, l, i, ty. split; [exact Hj|]. split; [exact Hd|]. split; [exact Hl|].
    apply Hmem. split; [exact Hne|]. split; [exact Hclass|]. split; [|auto].
    intros -> ->. simpl in Hclass. congruence.
Qed.

Lemma pairs_checked_witness :
  let H := Examples.wall_lib in
  let m := Examples.arm_on_pedestal in
  let e := Examples.engine_of m in
  NoDup (getLinkModelsWithCollisionGeometry m) ∧ create m 1 10 3 3 = Ok e ∧
  (checked_pair e "upper_arm" "camera" ↔
   has_spheres e "upper_arm" ∧ "camera" ∈ getLinkModelsWithCollisionGeometry m ∧
   "camera" ≠ "upper_arm" ∧
   ¬ ("upper_arm", "camera") ∈ getDisabledCollisionPairs m ∧
   ¬ ("camera", "upper_arm") ∈ getDisabledCollisionPairs m).
Proof.
  intros H m e.
  assert (Hnd : NoDup (getLinkModelsWithCollisionGeometry m)).
  { exact (bool_decide_unpack
             (NoDup ["pedestal"; "upper_arm"; "forearm"; "camera"]) I). }
  assert (Hrun : create m 1 10 3 3 = Ok e) by (vm_compute; reflexivity).
  split; [exact Hnd|]. split; [exact Hrun|].
  apply (pairs_checked (H := Examples.wall_lib) m 1 10 3 3 e "upper_arm" "camera" Hnd Hrun).
Defined.
End CoverageFacts.

(** ** Point clouds and memory use of an engine *)

Module UtilityFacts.
Import Invariants ConstructionFacts EngineFacts Utilities.

Section Clouds.
Variable toInsideOutsidePointCloud : Grid → option Mat4d → PointCloud * PointCloud.

Local Abbreviation cloud_step := (Utilities.cloud_step toInsideOutsidePointCloud).

(** One loop of [voxelGridToPointClouds] returns exactly when every link
    that is not excluded has a grid. *)
Lemma cloud_loop m exclude_list tf links sdfs acc :
  grids_follow_shapes m links sdfs →
  (∃ acc', for_each (cloud_step exclude_list tf sdfs) (imap pair links) acc = Ok acc') ↔
  (∀ link, link ∈ links → link ∉ exclude_list → has_supported_shape m link).
Proof.
  intros Hgrids. split.
  - intros [acc' Hrun] link (i & Hi)%list_elem_of_lookup_1 Hout.
    assert (Hend : ∀ j x, j < length links → links !! j = Some x → x ∉ exclude_list →
                          has_supported_shape m x).
    { apply (PrepareFacts.for_each_imap_invariant
               (λ k (_ : PointCloud * PointCloud),
                  ∀ j x, j < k → links !! j = Some x → x ∉ exclude_list →
                         has_supported_shape m x)
               (cloud_step exclude_list tf sdfs) links) with (s := acc) (s' := acc');
        [| intros j x Hj; lia | exact Hrun].
      intros k x s s' Hx Hinv Hstep j y Hj Hy Hyout.
      destruct (decide (j = k)) as [->|Hne]; [|apply (Hinv j y); [lia | assumption..]].
      assert (y = x) as -> by congruence.
      revert Hstep. unfold Utilities.cloud_step.
      rewrite bool_decide_eq_false_2 by exact Hyout.
      intros (sdf & Hsdf%at_index_Ok & (grid & Hgrid & _)%bind_Ok)%bind_Ok.
      apply (Forall2_lookup_lr _ _ _ _ _ _ Hgrids Hx Hsdf).
      unfold OpenVDBDistanceField.getGrid in Hgrid.
      destruct (OpenVDBDistanceField.grid_ sdf); [eauto | discriminate]. }
    apply (Hend i link); [eapply lookup_lt_Some, Hi | exact Hi | exact Hout].
  - intros Hall. apply PrepareFacts.for_each_imap_total. intros i link s Hi.
    unfold Utilities.cloud_step. case_bool_decide as Hex; [eauto|].
    destruct (Forall2_lookup_l _ _ _ _ _ Hgrids Hi) as (sdf & Hsdf & Hiff).
    apply at_index_Ok in Hsdf. rewrite Hsdf, bind_of_Ok.
    destruct (proj2 Hiff) as [grid Hgrid].
    { apply Hall; [eapply list_elem_of_lookup_2, Hi | exact Hex]. }
    unfold OpenVDBDistanceField.getGrid. rewrite Hgrid. simpl. eauto.
Qed.

(** X27.  [voxelGridToPointClouds] on a constructed engine dereferences the
    grid of every link that is not on the exclude list, so it returns
    exactly when every static and every dynamic link that is not excluded
    has at least one shape of a supported kind (the active links always
    have one); a link on the exclude list is skipped before its field is
    looked at. *)
Theorem voxelGridToPointClouds_returns `{External} m voxel_size background ex inb e state
    exclude_list :
  create m voxel_size background ex inb = Ok e →
  (∃ clouds,
     voxelGridToPointClouds toInsideOutsidePointCloud e state exclude_list = Ok clouds) ↔
  (∀ link, link ∈ static_links_ e ∨ link ∈ dynamic_links_ e → link ∉ exclude_list →
           has_supported_shape m link).
Proof.
  intros Hc. destruct (GridFacts.engine_grids _ _ _ _ _ _ Hc) as (Hs & Hd & Ha & Hall).
  assert (Hactive : ∀ link, link ∈ active_links_ e → link ∉ exclude_list →
                            has_supported_shape m link).
  { intros link (i & Hi)%list_elem_of_lookup_1 _.
    destruct (Forall2_lookup_l _ _ _ _ _ Ha Hi) as (sdf & Hsdf & Hiff).
    apply Hiff. exact (proj1 (Forall_lookup _ _) Hall i sdf Hsdf). }
  unfold voxelGridToPointClouds. split.
  - intros [clouds (c1 & H1 & (c2 & H2 & H3)%bind_Ok)%bind_Ok] link [Hl|Hl].
    + eapply (cloud_loop m exclude_list _ _ _ c2 Hs); [eexists; exact H3 | exact Hl].
    + eapply (cloud_loop m exclude_list _ _ _ c1 Hd); [eexists; exact H2 | exact Hl].
  - intros Hlinks.
    destruct (proj2 (cloud_loop m exclude_list
                       (λ link, Some (Affine3dToMat4dAffine (getGlobalLinkTransform state link)))
                       _ _ ([], []) Ha) Hactive) as [c1 ->].
    rewrite bind_of_Ok.
    destruct (proj2 (cloud_loop m exclude_list
                       (λ link, Some (Affine3dToMat4dAffine (getGlobalLinkTransform state link)))
                       _ _ c1 Hd)) as [c2 ->]; [auto|].
    rewrite bind_of_Ok.
    apply (proj2 (cloud_loop m exclude_list (λ _, None) _ _ c2 Hs)). auto.
Qed.

End Clouds.

Section Memory.
Variable grid_memUsage : Grid → Z.

Lemma memUsage_loop sdfs : ∀ mem,
  (∃ mem', for_each (add_memUsage grid_memUsage) sdfs mem = Ok mem') ↔
  Forall (λ sdf, is_Some (OpenVDBDistanceField.grid_ sdf)) sdfs.
Proof.
  induction sdfs as [|sdf sdfs IH]; intros mem.
  - simpl. split; [constructor | eauto].
  - rewrite Forall_cons. cbn [for_each].
    destruct (OpenVDBDistanceField.grid_ sdf) as [grid|] eqn:Hgrid.
    + assert (Hstep : add_memUsage grid_memUsage mem sdf
                      = Ok ((mem + grid_memUsage grid) mod 2 ^ 64)%Z).
      { unfold add_memUsage, field_memUsage. rewrite Hgrid. reflexivity. }
      rewrite Hstep, bind_of_Ok, IH.
      split; [intros Hall; split; [eauto | exact Hall] | tauto].
    + assert (Hstep : add_memUsage grid_memUsage mem sdf = Fail NullDereference).
      { unfold add_memUsage, field_memUsage. rewrite Hgrid. reflexivity. }
      rewrite Hstep.
      split; [intros [mem' Hm]; discriminate | intros [[g Hg] _]; discriminate].
Qed.

(** X28.  [memUsage] on a constructed engine dereferences the grid of every
    field: it returns exactly when every static and every dynamic link has
    at least one shape of a supported kind. *)
Theorem memUsage_returns `{External} m voxel_size background ex inb e :
  create m voxel_size background ex inb = Ok e →
  (∃ mem_usage, memUsage grid_memUsage e = Ok mem_usage) ↔
  (∀ link, link ∈ static_links_ e ∨ link ∈ dynamic_links_ e → has_supported_shape m link).
Proof.
  intros Hc. destruct (GridFacts.engine_grids _ _ _ _ _ _ Hc) as (Hs & Hd & _ & Hall).
  assert (Hfollow : ∀ links sdfs, grids_follow_shapes m links sdfs →
            Forall (λ sdf, is_Some (OpenVDBDistanceField.grid_ sdf)) sdfs ↔
            (∀ link, link ∈ links → has_supported_shape m link)).
  { intros links sdfs Hf. split.
    - intros Hg link (i & Hi)%list_elem_of_lookup_1.
      destruct (Forall2_lookup_l _ _ _ _ _ Hf Hi) as (sdf & Hsdf & Hiff).
      apply Hiff. exact (proj1 (Forall_lookup _ _) Hg i sdf Hsdf).
    - intros Hl. apply Forall_lookup. intros i sdf Hsdf.
      destruct (Forall2_lookup_r _ _ _ _ _ Hf Hsdf) as (link & Hlink & Hiff).
      apply Hiff, Hl. eapply list_elem_of_lookup_2, Hlink. }
  unfold memUsage. split.
  - intros [mem (m1 & H1 & (m2 & H2 & H3)%bind_Ok)%bind_Ok] link [Hl|Hl].
    + apply (proj1 (Hfollow _ _ Hs)); [|exact Hl]. apply (memUsage_loop _ 0%Z). eauto.
    + apply (proj1 (Hfollow _ _ Hd)); [|exact Hl]. apply (memUsage_loop _ m1). eauto.
  - intros Hlinks.
    destruct (proj2 (memUsage_loop (static_sdf_ e) 0%Z)) as [m1 ->];
      [apply (Hfollow _ _ Hs); auto|].
    rewrite bind_of_Ok.
    destruct (proj2 (memUsage_loop (dynamic_sdf_ e) m1)) as [m2 ->];
      [apply (Hfollow _ _ Hd); auto|].
    rewrite bind_of_Ok. apply memUsage_loop, Hall.
Qed.

End Memory.

Lemma voxelGridToPointClouds_returns_witness :
  let H := Examples.wall_lib in
  let m := Examples.arm_on_pedestal in
  let e := Examples.engine_of m in
  let cloud := λ (_ : Grid) (_ : option Mat4d), (@nil Vec3, @nil Vec3) in
  create m 1 10 3 3 = Ok e ∧
  ((∃ clouds, voxelGridToPointClouds cloud e Examples.still_state ["camera"] = Ok clouds) ↔
   (∀ link, link ∈ static_links_ e ∨ link ∈ dynamic_links_ e → link ∉ ["camera"] →
            has_supported_shape m link)).
Proof.
  intros H m e cloud.
  assert (Hrun : create m 1 10 3 3 = Ok e) by (vm_compute; reflexivity).
  split; [exact Hrun|].
  apply (voxelGridToPointClouds_returns cloud (H := Examples.wall_lib) m 1 10 3 3 e
           Examples.still_state ["camera"] Hrun).
Defined.

Lemma memUsage_returns_witness :
  let H := Examples.wall_lib in
  let m := Examples.arm_on_pedestal in
  let e := Examples.engine_of m in
  create m 1 10 3 3 = Ok e ∧
  ((∃ mem_usage, memUsage (λ _, 1024%Z) e = Ok mem_usage) ↔
   (∀ link, link ∈ static_links_ e ∨ link ∈ dynamic_links_ e → has_supported_shape m link)).
Proof.
  intros H m e.
  assert (Hrun : create m 1 10 3 3 = Ok e) by (vm_compute; reflexivity).
  split; [exact Hrun|].
  apply (memUsage_returns (λ _, 1024%Z) (H := Examples.wall_lib) m 1 10 3 3 e Hrun).
Defined.
End UtilityFacts.
